(* ===== verification/_CoqProject ===== *)
-Q . S2P
Prelude.v
Number.v
NumberFacts.v
NumberDecimal.v
NumberText.v
NumberTextFacts.v
Json.v
JsonParse.v
Storage.v
Effects.v
Entities.v
World.v
NodeChain.v
StateRecording.v
Pot.v
ArosCoin.v
Emission.v
Nodes.v
Reserve.v
Commission.v
Release.v
Columns.v
AllSeeingEye.v
Orchestrator.v
System.v
Typing.v
Liveness.v
Api.v
Reference.v
Simulation.v
Regex.v
Script.v
NightlyAudit.v
FixCi.v
AgentsStatus.v
Bootstrap.v
Http.v
Frontend.v
Views.v
Demo.v
Wiring.v
Solidity.v
Ownable.v
ERC20.v
ReserveManager.v
Abi.v
Abis.v
Interfaces.v
Bytecode.v
Bindings.v
Deploy.v
SimScripts.v
