(* ===== verification/Prelude.v ===== *)
(** * AST (Aros Financial Paradigm): a verification library for the Model-1 core

    AST turns completed work into supply. A process is described, its execution is
    recorded on a hash chain, a verdict engine decides from that record whether the
    process happened as described, and only on a positive verdict does the ledger
    mint and burn one cycle of value and does a fee enter an epoch's pool. Settling
    the epoch pays the nodes that worked and keeps the margin.

    ** The program and where it is modelled

    Services ([src/src/], NestJS with TypeORM). One file per service; operations
    keep their names.
    - [NodeChain]: the hash-linked record. [append], [reconstruct].
    - [StateRecording]: captures events, in memory and on the chain, and decides
      completeness.
    - [Pot]: Proof of Transaction, the verdict. [verify], [criteria].
    - [ArosCoin]: the ledger row with its three tallies, from which supply is derived.
    - [Emission]: mints and burns behind the verdict.
    - [Nodes]: the registry, reputation and weight.
    - [Reserve]: the confirmed volume, a fold over the chain, and the index.
    - [Commission]: fees, participations, settlement of an epoch.
    - [Release]: the one-way maturity gate.
    - [AllSeeingEye]: the passive observer and its own hash-linked ledger.
    - [Orchestrator]: drives a request through all of the above.
    - [System]: requests of every service, in sequence ([serve_all]) and interleaved.
    - [Api]: the input classes and controllers in front of the orchestrator.
    - [Wiring]: the [*.module.ts] graph, and that every class in it can be created.

    - [Bootstrap]: the start of the server, its options and the routes it declares;
      [Http]: a request from its route to the service, and traffic as a whole.

    Under the services: [Entities] has a record per table and the column
    transformers, [Columns] the text of the JSON and decimal columns, [World] the
    state the services share ([src/src/common/] and the fields they keep in memory),
    [Storage] the database, [Effects] programs over a state. Over them: [Typing] (what
    every stored row is), [Liveness] (a new process goes through, and what a crash
    leaves).

    Reference port ([src/reference/ast-core/src/]). [Reference] models its classes
    as functions of one state [Core]; [Demo] its demonstration; [Simulation] relates
    the services to it.

    Scripts and view. [NightlyAudit], [FixCi] and [AgentsStatus] model
    [src/scripts/], on the regular expressions and directory trees of [Regex] and,
    for the audit and the repair script, the programs over files and a console of
    [Script]; [FixCi.launch] is the type check that refuses the repair script under the
    repository's own commands;
    [SimScripts] models the two simulation scripts over the services they import;
    [Frontend] models the polling hook of [src/frontend/src/hooks/useData.ts], and
    [Views] the components of [src/frontend/src/] as element trees and the page they
    make.

    Contract ([src/smart_contracts/]). [Solidity] is what the contract uses of its
    language: functions that revert or return, events, 256-bit words, checked and
    unchecked arithmetic. [Ownable] and [ERC20] model the contracts it inherits, from
    the sources its build records, and [ReserveManager] the contract
    [ArosCoinReserveManager.sol] itself with its calls, its specification and its life.
    [Abi] is how calls reach it as bytes; [Abis] and [Interfaces] are the data of the
    generated bindings ([typechain-types/]), [Bytecode] the code they deploy, [Bindings]
    what relates them to each other and a client to the contract. [Deploy] models
    [scripts/deploy.ts].

    The language. [Number] and [NumberFacts] are binary64 arithmetic, rounding
    included, so no sum of money is idealised; [NumberDecimal] shows that a decimal
    literal is the nearest double; [NumberText] is number to text and back, and
    [NumberTextFacts] that this is lossless; [Json] is [JSON.stringify] and what a
    JSON column reads back, and [JsonParse] the whole of [JSON.parse], with the round
    trip.

    ** How it is modelled

    A service method is a [prog]: a tree of atomic actions on [World] ended by a
    result or by an exception ([Effects]). An action is one statement sent to the
    database, one reading of the clock, or what a task does to memory between two
    suspension points. A transaction that takes no lock is its statements: [append] and
    [log] read the head, take a tick and save, and other tasks may act in between.
    [run] executes a program alone; [step], and its executable form [run_schedule],
    interleave a pool of programs the way the event loop does. A precondition that fails
    in the code is the exception the code throws, and the state changes made before it
    stay made.

    What a component does to shared state is stated against a [discipline]: a relation
    between states with a notion of which programs respect it. There are three.
    [stepwise R]: every action does, so it survives interleaving. [alone R]: every stop
    of the program does, when nothing runs in between; it holds of requests served one
    at a time, a last one stopped anywhere. [shared I G]: every action keeps the
    invariant [I] and moves along [G] however the others move along [G] meanwhile. The
    interfaces between components are classes on disciplines, each naming the steps a
    component may make: [AllowsAppend] (an event on the chain), [AllowsRecording] (a
    capture), [AllowsVerdict], [AllowsLedger], [AllowsNodes], [AllowsEpochs],
    [AllowsPhase], [AllowsLog] (an oversight entry), and [AllowsAll] for all of them. A
    component proves once that its programs have the [guarantee] of any discipline with
    the instances it needs; an invariant is then a set of instances. What returns a
    value with a property is stated with [maintains], and what holds of whole requests
    with [quietly], which follows [run].

    Third-party code is a parameter, with its documented behaviour as laws and a
    concrete instance on which the witnesses run: [Storage] (repositories, keyed
    rows; [list_storage]), [Platform] (SHA-256 as lower-case hexadecimal text, and
    [Math.log10]; [transparent_platform], [constant_platform]), [ClassValidator]
    ([plain_validator]), and, in the scripts, command output and file trees; in the
    view, the server and the format of a time of day; [Ethers] ([reference_ethers]) for
    clients of the contract, and the chain a deployment talks to. Nothing is assumed of
    SHA-256 but the length of its text: where the code relies on more, the theorem's
    conclusion names the two texts of one digest that would be the alternative (in
    [Reference], [collision]).

    ** What is proved

    - Chain. An append extends an intact chain by exactly the next snapshot;
      [reconstruct] accepts exactly linked chains and names the first break; a
      replaced payload is located, and one head hash commits to one history, up to a
      collision among its own texts. Not covered by the hash are event type and time.
      Appends that interleave can lose an acknowledged event, and break the chain for
      good; a restart reorders the ticks.
    - Evidence and verdict. Completeness is exactly the four required events; the
      first verdict is the one the evidence deserves, and it is final.
    - Value. [emit] and [mint] refuse without a positive verdict; a run moves the
      tallies only behind one, by one symmetric cycle; over any sequence of requests
      minted equals burned and supply is what was earned, so the Eye stays silent. All
      of this for epochs the column can hold: a run of any other mints and then throws.
      The confirmed volume only grows, by mints and settlements.
    - Settlement. An open epoch pays each payee its share once, only participants of
      confirmed processes, and payments plus margin are exactly the pool as long as
      the payments lie between half and twice the pool (there the subtraction is
      exact).
    - Lifecycle. An admissible first run completes, with exactly its events, one
      cycle of value, its fee and its participations; every error path leaves the
      state the code leaves.
    - System. Under every interleaving positions, hashes, evidence, oversight entries,
      ledger row and scores stay well formed, every row keeps its type, and what a
      column holds reads back as what was written. Links and ticks, and the links of the
      oversight ledger, hold of requests served one at a time, the last one stopped
      anywhere; two logs that interleave can fork the ledger.
    - Progress. After requests served one at a time and stopped anywhere, or any
      interleaving whose chain still replays, restarted or not, a new process runs to
      completion.
    - Reference port. In every reachable state its chain replays and minted equals
      burned, and the next run completes. Process runs give the same answers and
      figures in the services and in the port ([Simulation]).
    - Surface. Only a validated body reaches the lifecycle; every class of the
      application can be created; a request fits one route at most; whatever clients
      send, the record and the books hold.
    - View. Each view shows exactly its data, the bar is the only control, and the
      server of this repository never fills it.
    - Scripts. The verdict, report and exit code of the audit, a report that cannot be
      written included. The repair script is refused by its own launcher; where it is
      started, the fixes that cannot work, and why the first would not work if it ran.
    - Contract. Every function succeeds exactly when the specification lets it and then
      does what that says, in exact integers although the code adds and subtracts
      unchecked; so under any bytes from anybody the supply is the sum of the balances
      and fits its word, the balances are what the events say, and a reference serves
      once. Only the owner issues, balances go down only by right, and what was minted
      and burned under references bounds the supply from above (a holder's own burn
      leaves no reference). Renounced ownership is for ever.
    - Bindings. The nine typed interfaces are what their ABIs call for; the ABI is the
      contract's, and the deployed code compares the selectors it names; what a client
      sends is the call it means, and what it reads is the answer.
    - Limits. Where the code does less than its comments say, a theorem exhibits it:
      settling twice at once, a second run of one process, an epoch that is no key, a
      fee accrued after settlement, lost mints, lost events, a forked ledger, a lost
      activation, a restart, a crash between a mint and its burn.

    ** Bounds and idealisations

    - The two transactions of the services are their statements, one action each, without
      locks, as the database runs them by default; [append_tx] and [log_tx] are what they
      come to when nothing runs in between. A [save] (look up, then insert or update) is
      one action, and so is the creation of the ledger row behind its promise. A
      statement the database refuses for want of a connection, or because another task
      inserted the key meanwhile, ends its request there, which is the request stopped
      at that action. The lengths of [varchar] columns are not checked.
    - [metrics] reads one after the other what the code reads in parallel.
    - An epoch's key is a 32-bit integer; naming another number, fractions included, is
      the exception [QueryFailedError]. Sequence numbers and counters are integers,
      which holds up to 2^31 snapshots, the width of their column. A tick stops growing
      at 2^53, where adding one to a double does nothing.
    - The participations are the arrays of the code's map: a settlement walks the one it
      found to its end, whatever is pushed meanwhile, for at most 2^32 turns beyond the
      elements it found, and an array has fewer elements than that.
    - Strings are UTF-8 bytes; the wildcards of the regular expressions step over
      whole characters, counted in UTF-16 units. A value that JSON cannot hold
      (infinities, not-a-number) is stored as [stored_num] says.
    - The repair script sees the files under the directory it starts in; a path that
      leads elsewhere names nothing. Dependency tables of a package file are objects.
    - A transaction to the contract runs alone, as the chain orders them; it calls no
      other contract. An argument of a client is an address, a whole number or bytes,
      as the fragments of the contract need; a text a function returns is shorter than
      2^64 bytes, which the two texts of the contract are.
    - In the view, half a character outside the basic plane, cut off, is two of its four
      bytes.
    - Fuel: decimal digits of a number are searched up to seventeen, which
      [NumberTextFacts] proves to suffice; [JSON_parse] takes twice the length of its
      text, which [JsonParse] proves to suffice; loading modules takes a bound of 100, above their number;
      the regular expressions are bounded by the length of their text.

    ** Not modelled

    The Python agents and tools (another language, apart from the services), the
    configuration of the bundler and of the contract's build tool, imports, and the
    services the simulation scripts import, which the repository does not have. Of the
    contract: gas, and the machine code apart from the selectors it compares; of the
    factories, what [ethers] does with what they hand to it. *)

From stdpp Require Export base gmap strings list sorting.
From Stdlib Require Export ZArith Lia.
From Stdlib Require Import Ascii String.

(** ** Tactics *)

Lemma power_positive p : (0 < 2 ^ Zpos p)%Z.
Proof. by apply Z.pow_pos_nonneg. Qed.

(** Large powers of two as unknown positive numbers, for goals that need no more: the
    solver would otherwise compute with all of their bits. *)
Ltac hide_powers :=
  repeat match goal with
  | H : context [Z.pow 2 (Zpos ?p)] |- _ =>
    let big := eval vm_compute in (Pos.leb 200 p) in
    match big with true => let v := fresh "power" in pose proof (power_positive p); set (v := Z.pow 2 (Zpos p)) in *; clearbody v end
  | |- context [Z.pow 2 (Zpos ?p)] =>
    let big := eval vm_compute in (Pos.leb 200 p) in
    match big with true => let v := fresh "power" in pose proof (power_positive p); set (v := Z.pow 2 (Zpos p)) in *; clearbody v end
  end.
Ltac plia := hide_powers; lia.
Ltac pnia := hide_powers; nia.

(** Case analysis on the discriminee of the first [match] or [if] of the goal. *)
Ltac case_match_goal :=
  match goal with
  | |- context [match ?x with _ => _ end] => destruct x eqn:?
  end.

(** ** Sorting by a boolean order

    [Array.prototype.sort] and SQL's [ORDER BY] on the keys the code uses. *)

Section SortBy.
Context {A : Type} (leb : A → A → bool).

Fixpoint insert_by (x : A) (l : list A) : list A :=
  match l with
  | [] => [x]
  | y :: l' => if leb x y then x :: l else y :: insert_by x l'
  end.

Fixpoint sort_by (l : list A) : list A :=
  match l with
  | [] => []
  | x :: l' => insert_by x (sort_by l')
  end.

Definition sorted_by (l : list A) : Prop := StronglySorted (λ x y, leb x y = true) l.

Lemma insert_by_perm x l : insert_by x l ≡ₚ x :: l.
Proof.
  induction l as [|y l IH]; simpl; [done|].
  destruct (leb x y); [done|]. rewrite IH. constructor.
Qed.

Lemma sort_by_perm l : sort_by l ≡ₚ l.
Proof. induction l as [|x l IH]; simpl; [done|]. by rewrite insert_by_perm, IH. Qed.

Lemma sort_by_sorted_id l : sorted_by l → sort_by l = l.
Proof.
  induction 1 as [|x l Hl IH Hx]; simpl; [done|]. rewrite IH.
  destruct l as [|y l]; simpl; [done|]. inv Hx. by rewrite H1.
Qed.

Context (leb_total : ∀ x y, leb x y = true ∨ leb y x = true).
Context (leb_trans : ∀ x y z, leb x y = true → leb y z = true → leb x z = true).

Lemma insert_by_sorted x l : sorted_by l → sorted_by (insert_by x l).
Proof.
  induction 1 as [|y l Hl IH Hy]; simpl; [repeat constructor|].
  destruct (leb x y) eqn:E.
  - constructor; [by constructor|]. constructor; [done|].
    eapply Forall_impl; [exact Hy|]. simpl. eauto.
  - constructor; [done|]. rewrite insert_by_perm. constructor; [|done].
    destruct (leb_total x y); congruence.
Qed.

Lemma sort_by_sorted l : sorted_by (sort_by l).
Proof. induction l; simpl; [constructor|]. by apply insert_by_sorted. Qed.

Context (leb_antisym : ∀ x y, leb x y = true → leb y x = true → x = y).

Lemma sorted_by_unique l1 l2 : sorted_by l1 → sorted_by l2 → l1 ≡ₚ l2 → l1 = l2.
Proof.
  intros H1. revert l2. induction H1 as [|x l1 Hl1 IH Hx]; intros l2 H2 Hp.
  - by apply Permutation_nil in Hp.
  - destruct H2 as [|y l2 Hl2 Hy]; [by apply Permutation_sym, Permutation_nil in Hp|].
    assert (x = y) as ->.
    { assert (x ∈ y :: l2) as Hin by (rewrite <- Hp; left).
      assert (y ∈ x :: l1) as Hin' by (rewrite Hp; left).
      rewrite Forall_forall in Hx, Hy.
      apply elem_of_cons in Hin as [->|Hin]; [done|].
      apply elem_of_cons in Hin' as [->|Hin']; [done|].
      apply leb_antisym; auto. }
    f_equal. apply IH; [done|]. by apply Permutation_cons_inv in Hp.
Qed.

(** Sorting forgets the order the elements came in. *)
Lemma sort_by_canonical l1 l2 : l1 ≡ₚ l2 → sort_by l1 = sort_by l2.
Proof.
  intros Hp. apply sorted_by_unique; auto using sort_by_sorted.
  by rewrite !sort_by_perm.
Qed.
End SortBy.

(** ** The order of JavaScript's default [sort] on strings *)

Definition string_leb (s t : string) : bool :=
  match String.compare s t with Gt => false | _ => true end.

Lemma ascii_compare_trans a b c o :
  Ascii.compare a b = o → Ascii.compare b c = o → Ascii.compare a c = o.
Proof.
  unfold Ascii.compare. destruct o; rewrite ?N.compare_eq_iff, ?N.compare_lt_iff, ?N.compare_gt_iff; lia.
Qed.

Lemma ascii_compare_refl a : Ascii.compare a a = Eq.
Proof. apply N.compare_refl. Qed.

Lemma string_compare_lt_trans s t u :
  String.compare s t = Lt → String.compare t u = Lt → String.compare s u = Lt.
Proof.
  revert t u. induction s as [|a s IH]; intros [|b t] [|c u]; simpl; try done.
  destruct (Ascii.compare a b) eqn:E1; try done; destruct (Ascii.compare b c) eqn:E2; try done; intros H1 H2.
  - apply Ascii.compare_eq_iff in E1 as ->, E2 as ->. rewrite ascii_compare_refl. eauto.
  - apply Ascii.compare_eq_iff in E1 as ->. by rewrite E2.
  - apply Ascii.compare_eq_iff in E2 as ->. by rewrite E1.
  - by rewrite (ascii_compare_trans a b c Lt).
Qed.

Lemma string_leb_total s t : string_leb s t = true ∨ string_leb t s = true.
Proof.
  unfold string_leb. rewrite (String.compare_antisym t s).
  destruct (String.compare s t); simpl; auto.
Qed.

Lemma string_leb_antisym s t : string_leb s t = true → string_leb t s = true → s = t.
Proof.
  unfold string_leb. rewrite (String.compare_antisym s t).
  destruct (String.compare t s) eqn:E; simpl; try done.
  intros _ _. symmetry. by apply String.compare_eq_iff.
Qed.

Lemma string_leb_trans s t u :
  string_leb s t = true → string_leb t u = true → string_leb s u = true.
Proof.
  unfold string_leb. destruct (String.compare s t) eqn:E1; try done;
  destruct (String.compare t u) eqn:E2; try done; intros _ _.
  - apply String.compare_eq_iff in E1 as ->. by rewrite E2.
  - apply String.compare_eq_iff in E1 as ->. by rewrite E2.
  - apply String.compare_eq_iff in E2 as ->. by rewrite E1.
  - by rewrite (string_compare_lt_trans s t u).
Qed.

(** [keys.sort()] for an array of strings. *)
Definition sort_strings : list string → list string := sort_by string_leb.

Lemma sort_strings_perm l : sort_strings l ≡ₚ l.
Proof. apply sort_by_perm. Qed.

Lemma sort_strings_canonical l1 l2 : l1 ≡ₚ l2 → sort_strings l1 = sort_strings l2.
Proof.
  apply sort_by_canonical.
  - apply string_leb_total.
  - apply string_leb_trans.
  - apply string_leb_antisym.
Qed.

(** ** Strings *)

Lemma string_length_app s t : String.length (s +:+ t) = (String.length s + String.length t)%nat.
Proof. induction s as [|c s IH]; simpl; [done|]. by rewrite IH. Qed.

Lemma string_app_assoc s t u : s +:+ (t +:+ u) = (s +:+ t) +:+ u.
Proof. induction s as [|c s IH]; [done|]. change (String c (s +:+ (t +:+ u)) = String c ((s +:+ t) +:+ u)). by rewrite IH. Qed.

Lemma string_app_empty_r s : s +:+ EmptyString = s.
Proof. induction s as [|c s IH]; [done|]. change (String c (s +:+ EmptyString) = String c s). by rewrite IH. Qed.

Lemma string_app_cons c s t : String c s +:+ t = String c (s +:+ t).
Proof. done. Qed.

(** A string is its part before a position and the part from it on. *)
Lemma substring_split n s : (n ≤ String.length s)%nat →
  substring 0 n s +:+ substring n (String.length s - n) s = s.
Proof.
  revert n. induction s as [|c s IH]; intros [|n] Hn; simpl in Hn; try done; try lia.
  - change (substring 0 0 (String c s)) with EmptyString. change (EmptyString +:+ ?x) with x.
    cbn [String.length substring Nat.sub]. f_equal. clear. induction s as [|d s IH]; [done|].
    cbn [String.length substring]. by rewrite IH.
  - cbn [substring String.length Nat.sub]. rewrite string_app_cons. by rewrite IH by lia.
Qed.

Lemma substring_length n s : (n ≤ String.length s)%nat → String.length (substring 0 n s) = n.
Proof.
  revert n. induction s as [|c s IH]; intros [|n] Hn; simpl in Hn; try done; try lia.
  cbn [substring String.length]. by rewrite IH by lia.
Qed.

(** Concatenations with suffixes of equal length split uniquely. *)
Lemma string_app_split s1 t1 s2 t2 :
  s1 +:+ t1 = s2 +:+ t2 → String.length t1 = String.length t2 → s1 = s2 ∧ t1 = t2.
Proof.
  intros Heq Hlen. assert (String.length s1 = String.length s2) as Hs.
  { apply (f_equal String.length) in Heq. rewrite !string_length_app in Heq. lia. }
  clear Hlen. revert s2 Heq Hs. induction s1 as [|c s1 IH]; intros [|c' s2]; simpl; try done.
  intros [= -> Heq] [= Hs]. by destruct (IH s2 Heq Hs) as [-> ->].
Qed.

Lemma string_app_inj_l s1 s2 t : s1 +:+ t = s2 +:+ t → s1 = s2.
Proof. intros H. by apply string_app_split in H as [-> _]. Qed.
