(* ===== verification/Number.v ===== *)
(** * JavaScript numbers

    A JavaScript [number] is an IEEE 754 binary64 value. The operations are the
    Standard Library's executable specification of binary64 ([SpecFloat] at
    precision 53 and maximal exponent 1024), so every sum, product and quotient
    below rounds exactly where the program rounds.

    The facts rest on one reading of a finite double as an integer: [units x]
    is the value of [x] in units of 2^-1074, the least positive double. *)

From S2P Require Import Prelude.
From Stdlib Require Export SpecFloat.
From Stdlib Require Import ZArith Lia.

Local Open Scope Z_scope.

(** ** Operations *)

Abbreviation prec := 53%Z.
Abbreviation emax := 1024%Z.

Definition number : Type := spec_float.

Definition nan : number := S754_nan.
Definition zero : number := S754_zero false.

Definition num_add : number → number → number := SFadd prec emax.
Definition num_sub : number → number → number := SFsub prec emax.
Definition num_mul : number → number → number := SFmul prec emax.
Definition num_div : number → number → number := SFdiv prec emax.
Definition num_abs : number → number := SFabs.

(** [===] on numbers: NaN differs from itself, the two zeros are equal. *)
Definition num_eqb : number → number → bool := SFeqb.
(** [<], [<=]; a comparison with NaN is false. *)
Definition num_ltb : number → number → bool := SFltb.
Definition num_leb : number → number → bool := SFleb.

Declare Scope num_scope.
Delimit Scope num_scope with num.
Bind Scope num_scope with number.
Infix "+" := num_add : num_scope.
Infix "-" := num_sub : num_scope.
Infix "*" := num_mul : num_scope.
Infix "/" := num_div : num_scope.
Infix "===" := num_eqb (at level 70, no associativity) : num_scope.
Infix "<?" := num_ltb : num_scope.
Infix "<=?" := num_leb : num_scope.

(** The double nearest an integer. *)
Definition of_Z (n : Z) : number := binary_normalize prec emax n 0 false.

(** The double nearest [s * 10 ^ p]: the value of a decimal literal. *)
Definition of_decimal (s p : Z) : number :=
  if 0 <=? p then of_Z (s * 10 ^ p)
  else match s with
       | Z0 => zero
       | _ =>
         let '(mz, ez, lz) := SFdiv_core_binary prec emax (Z.abs s) 0 (10 ^ (- p)) 0 in
         binary_round_aux prec emax (s <? 0) mz ez lz
       end.

(** [Number.isFinite]. *)
Definition is_finite (x : number) : bool :=
  match x with
  | S754_finite _ _ _ | S754_zero _ => true
  | _ => false
  end.

Definition is_nan (x : number) : bool :=
  match x with S754_nan => true | _ => false end.

(** Well-formed doubles: the mantissa is canonical for the exponent. *)
Definition valid (x : number) : bool := valid_binary prec emax x.

#[global] Instance number_eq_dec : EqDecision number.
Proof. unfold number. solve_decision. Defined.

(** The value of a finite double in units of 2^-1074. *)
Definition units (x : number) : Z :=
  match x with
  | S754_finite s m e => cond_Zopp s (Zpos m * 2 ^ (e + 1074))
  | _ => 0
  end.

(** The double nearest [u] units. *)
Definition round_units (u : Z) : number := binary_normalize prec emax u (-1074) false.

(** The width in units of the last place of a double near [u > 0] units. *)
Definition ulp_exp (u : Z) : Z := Z.max (Z.log2 u - 52) 0.

(** Nearest multiple of [2 ^ n], ties to even, as a quotient. *)
Definition quotient_even (u n : Z) : Z :=
  let q := u / 2 ^ n in
  match 2 * (u mod 2 ^ n) ?= 2 ^ n with
  | Lt => q
  | Eq => if Z.even q then q else q + 1
  | Gt => q + 1
  end.

(** [u] rounded to 53 significant bits. *)
Definition rounded (u : Z) : Z := quotient_even u (ulp_exp u) * 2 ^ ulp_exp u.

(** Second half of the specification's rounding: choose the mantissa, then
    renormalise and test for overflow. *)
Definition round_finish (s : bool) (mrs : shr_record) (e : Z) : number :=
  let '(mrs', e') :=
    shr_fexp prec emax (round_nearest_even (shr_m mrs) (loc_of_shr_record mrs)) e loc_Exact in
  match shr_m mrs' with
  | Z0 => S754_zero s
  | Zpos m => if e' <=? 971 then S754_finite s m e' else S754_infinity s
  | _ => S754_nan
  end.

(** ** Digits and exponents *)

Lemma digits2_pos_log2 p : Zpos (digits2_pos p) = Z.log2 (Zpos p) + 1.
Proof.
  induction p as [p IH|p IH|]; [| |done]; simpl digits2_pos; rewrite Pos2Z.inj_succ, IH.
  - change (Zpos p~1) with (2 * Zpos p + 1). rewrite Z.log2_succ_double; lia.
  - change (Zpos p~0) with (2 * Zpos p). rewrite Z.log2_double; lia.
Qed.

Lemma Zdigits2_log2 m : 0 < m → Zdigits2 m = Z.log2 m + 1.
Proof. destruct m; simpl; try lia. intros _. apply digits2_pos_log2. Qed.

Lemma fexp_eq e : fexp prec emax e = Z.max (e - 53) (-1074).
Proof. reflexivity. Qed.

Lemma emin_eq : emin prec emax = -1074.
Proof. reflexivity. Qed.

Lemma bounded_spec m e :
  bounded prec emax m e = true ↔
  Z.max (Z.log2 (Zpos m) + 1 + e - 53) (-1074) = e ∧ e ≤ 971.
Proof.
  unfold bounded, canonical_mantissa.
  rewrite andb_true_iff, Z.eqb_eq, Z.leb_le, fexp_eq, digits2_pos_log2.
  change (emax - prec) with 971. lia.
Qed.

Lemma log2_mul_pow2' m n : 0 < m → 0 ≤ n → Z.log2 (m * 2 ^ n) = Z.log2 m + n.
Proof. intros. rewrite Z.log2_mul_pow2; lia. Qed.

(** ** Shifting right *)

Lemma iter_pos_nat {A} (f : A → A) p x : SpecFloat.iter_pos f p x = Nat.iter (Pos.to_nat p) f x.
Proof.
  revert x. induction p as [p IH|p IH|]; intros x; cbn [SpecFloat.iter_pos].
  - rewrite Pos2Nat.inj_xI, !IH, <- Nat.iter_add, <- Nat.iter_succ_r. f_equal. lia.
  - rewrite Pos2Nat.inj_xO, !IH, <- Nat.iter_add. f_equal. lia.
  - done.
Qed.

Lemma shr_1_eq m r s : 0 ≤ m →
  shr_1 (Build_shr_record m r s) = Build_shr_record (m / 2) (Z.odd m) (r || s).
Proof.
  intros Hm. unfold shr_1.
  destruct m as [|[p|p|]|p]; [by destruct r, s| | |by destruct r, s|lia].
  - rewrite <- Z.div2_div. by destruct r, s.
  - rewrite <- Z.div2_div. by destruct r, s.
Qed.

Lemma shr_iter_m n m r s : 0 ≤ m →
  shr_m (Nat.iter n shr_1 (Build_shr_record m r s)) = m / 2 ^ Z.of_nat n.
Proof.
  intros Hm. revert m r s Hm. induction n as [|n IH]; intros m r s Hm.
  - simpl. by rewrite Z.div_1_r.
  - rewrite Nat.iter_succ_r, shr_1_eq by done. rewrite IH by (apply Z.div_pos; lia).
    rewrite Nat2Z.inj_succ, Z.pow_succ_r, Z.div_div by lia. done.
Qed.

Lemma shr_iter_exact n m : 0 ≤ m →
  Nat.iter n shr_1 (Build_shr_record (m * 2 ^ Z.of_nat n) false false) = Build_shr_record m false false.
Proof.
  intros Hm. induction n as [|n IH].
  - simpl. by rewrite Z.mul_1_r.
  - rewrite Nat.iter_succ_r, shr_1_eq by nia.
    rewrite Nat2Z.inj_succ, Z.pow_succ_r by lia.
    replace (m * (2 * 2 ^ Z.of_nat n)) with (m * 2 ^ Z.of_nat n * 2) by ring.
    rewrite Z.div_mul by lia.
    replace (Z.odd (m * 2 ^ Z.of_nat n * 2)) with false by (rewrite Z.odd_mul; simpl; by rewrite andb_false_r).
    done.
Qed.

Lemma shr_pos_eq mrs e n : 0 < n → shr mrs e n = (Nat.iter (Z.to_nat n) shr_1 mrs, e + n).
Proof.
  intros Hn. destruct n as [|p|p]; try lia. simpl. by rewrite iter_pos_nat.
Qed.

Lemma shr_nonpos_eq mrs e n : n ≤ 0 → shr mrs e n = (mrs, e).
Proof. destruct n; simpl; try done; lia. Qed.

(** ** Rounding a representable value is exact *)

Lemma shr_fexp_canonical m e l :
  bounded prec emax m e = true →
  shr_fexp prec emax (Zpos m) e l = (shr_record_of_loc (Zpos m) l, e).
Proof.
  intros [Hc _]%bounded_spec. unfold shr_fexp.
  rewrite Zdigits2_log2, fexp_eq by lia. rewrite shr_nonpos_eq by lia. done.
Qed.

Lemma round_aux_exact s m e n :
  bounded prec emax m e = true → 0 ≤ n →
  binary_round_aux prec emax s (Zpos m * 2 ^ n) (e - n) loc_Exact = S754_finite s m e.
Proof.
  intros Hb Hn. pose proof (proj1 (bounded_spec _ _) Hb) as [Hc He].
  assert (shr_fexp prec emax (Zpos m * 2 ^ n) (e - n) loc_Exact
          = (Build_shr_record (Zpos m) false false, e)) as Hs.
  { unfold shr_fexp. rewrite Zdigits2_log2, log2_mul_pow2', fexp_eq by lia.
    replace (Z.max (Z.log2 (Zpos m) + n + 1 + (e - n) - 53) (-1074) - (e - n)) with n by lia.
    destruct (decide (n = 0)) as [->|Hn0].
    - rewrite shr_nonpos_eq by lia. simpl. by rewrite Z.mul_1_r, Z.sub_0_r.
    - rewrite shr_pos_eq by lia. f_equal; [|lia].
      rewrite <- (Z2Nat.id n) at 2 by lia. by apply shr_iter_exact. }
  unfold binary_round_aux. rewrite Hs. cbn [shr_m loc_of_shr_record round_nearest_even].
  rewrite shr_fexp_canonical by done. cbn.
  change (emax - prec) with 971. destruct (Z.leb_spec e 971); [done|lia].
Qed.

Lemma pos_iter_xO m d : Zpos (Pos.iter xO m d) = Zpos m * 2 ^ Zpos d.
Proof.
  rewrite <- Z.shiftl_mul_pow2 by lia.
  by apply (Pos.iter_swap_gen _ _ Zpos).
Qed.

Lemma shl_align_eq m e e' :
  shl_align m e e' = (if e' <? e then Z.to_pos (Zpos m * 2 ^ (e - e')) else m,
                      if e' <? e then e' else e).
Proof.
  unfold shl_align. destruct (e' - e) as [|d|d] eqn:E;
    destruct (Z.ltb_spec e' e); try lia; try done.
  f_equal. apply Pos2Z.inj. rewrite Z2Pos.id by nia.
  replace (e - e') with (Zpos d) by lia. apply pos_iter_xO.
Qed.

(** A positive integer times a power of two that equals a canonical double
    rounds to it: both are read in units of [2 ^ -1074]. *)
Lemma binary_round_exact s k e m0 e0 :
  bounded prec emax m0 e0 = true → -1074 ≤ e →
  Zpos k * 2 ^ (e + 1074) = Zpos m0 * 2 ^ (e0 + 1074) →
  binary_round prec emax s k e = S754_finite s m0 e0.
Proof.
  intros Hb He Heq. pose proof (proj1 (bounded_spec _ _) Hb) as [Hc He0].
  assert (Z.log2 (Zpos k) + e = Z.log2 (Zpos m0) + e0) as Hlog.
  { assert (Z.log2 (Zpos k * 2 ^ (e + 1074)) = Z.log2 (Zpos m0 * 2 ^ (e0 + 1074))) as H by congruence.
    rewrite !log2_mul_pow2' in H by lia. lia. }
  unfold binary_round. rewrite digits2_pos_log2, fexp_eq, shl_align_eq.
  replace (Z.max (Z.log2 (Zpos k) + 1 + e - 53) (-1074)) with e0 by lia.
  destruct (Z.ltb_spec e0 e).
  - assert (Zpos m0 = Zpos k * 2 ^ (e - e0)) as Hm.
    { apply (Z.mul_reg_r _ _ (2 ^ (e0 + 1074))); [lia|].
      rewrite <- Heq, <- Z.mul_assoc, <- Z.pow_add_r by lia. do 2 f_equal. lia. }
    rewrite <- Hm. change (Z.pos (Z.to_pos (Z.pos m0))) with (Z.pos m0).
    pose proof (round_aux_exact s m0 e0 0 Hb ltac:(lia)) as H'.
    by rewrite Z.mul_1_r, Z.sub_0_r in H'.
  - assert (Zpos k = Zpos m0 * 2 ^ (e0 - e)) as Hm.
    { apply (Z.mul_reg_r _ _ (2 ^ (e + 1074))); [lia|].
      rewrite Heq, <- Z.mul_assoc, <- Z.pow_add_r by lia. do 2 f_equal. lia. }
    rewrite Hm. pose proof (round_aux_exact s m0 e0 (e0 - e) Hb ltac:(lia)) as H'.
    by replace (e0 - (e0 - e)) with e in H' by lia.
Qed.

(** ** Units *)

Lemma units_finite s m e : units (S754_finite s m e) = cond_Zopp s (Zpos m * 2 ^ (e + 1074)).
Proof. done. Qed.

Lemma valid_finite_bounds s m e :
  valid (S754_finite s m e) = true → -1074 ≤ e ≤ 971 ∧ Zpos m < 2 ^ 53.
Proof.
  intros [Hc He]%bounded_spec. split; [lia|].
  apply Z.log2_lt_pow2; lia.
Qed.

Lemma units_pos_iff s m e : 
  -1074 ≤ e → (0 < units (S754_finite s m e) ↔ s = false) ∧ (units (S754_finite s m e) < 0 ↔ s = true).
Proof. intros He. rewrite units_finite. pose proof (Z.pow_pos_nonneg 2 (e + 1074)). destruct s; simpl cond_Zopp; split; split; try done; nia. Qed.

(** A canonical double is determined by its value. *)
Lemma bounded_inj m e m' e' :
  bounded prec emax m e = true → bounded prec emax m' e' = true →
  Zpos m * 2 ^ (e + 1074) = Zpos m' * 2 ^ (e' + 1074) → m = m' ∧ e = e'.
Proof.
  intros Hb Hb' Heq. pose proof (proj1 (bounded_spec _ _) Hb) as [Hc He].
  pose proof (proj1 (bounded_spec _ _) Hb') as [Hc' He'].
  assert (Z.log2 (Zpos m * 2 ^ (e + 1074)) = Z.log2 (Zpos m' * 2 ^ (e' + 1074))) as H by congruence.
  rewrite !log2_mul_pow2' in H by lia.
  assert (e = e') as -> by lia. split; [|done].
  apply Z.mul_reg_r in Heq; [congruence|lia].
Qed.

(** Normalising an integer multiple of [2 ^ e] whose value some canonical
    double has gives that double. *)
Lemma binary_normalize_exact k e x sz :
  valid x = true → is_finite x = true → -1074 ≤ e → units x ≠ 0 →
  k * 2 ^ (e + 1074) = units x →
  binary_normalize prec emax k e sz = x.
Proof.
  intros Hv Hf He Hx Heq. destruct x as [s| | |s m e0]; try done.
  pose proof (valid_finite_bounds _ _ _ Hv) as [Hb _].
  pose proof (Z.pow_pos_nonneg 2 (e + 1074)).
  pose proof (Z.pow_pos_nonneg 2 (e0 + 1074)).
  rewrite units_finite in Heq.
  destruct k as [|k|k], s; simpl cond_Zopp in Heq; try nia; simpl;
    apply binary_round_exact; try done; lia.
Qed.
(** ** Rounding in units *)

Lemma binary_round_finish s k e f :
  Z.max (Z.log2 (Zpos k) + 1 + e - 53) (-1074) = f →
  binary_round prec emax s k e =
  round_finish s (Nat.iter (Z.to_nat (f - e)) shr_1
                    (Build_shr_record (Zpos k * 2 ^ (Z.max 0 (e - f))) false false)) f.
Proof.
  intros Hf. unfold binary_round. rewrite digits2_pos_log2, fexp_eq, Hf, shl_align_eq.
  assert (0 < Zpos k * 2 ^ (e - f) ∨ e < f) as Hpos by (destruct (decide (e < f)); [auto|left; nia]).
  destruct (Z.ltb_spec f e).
  - destruct Hpos; [|lia]. rewrite Z.max_r, Z2Pos.id by lia.
    replace (Z.to_nat (f - e)) with 0%nat by lia. unfold binary_round_aux, shr_fexp.
    rewrite Zdigits2_log2, log2_mul_pow2', fexp_eq by lia.
    rewrite shr_nonpos_eq by lia. done.
  - rewrite Z.max_l, Z.mul_1_r by lia. unfold binary_round_aux, shr_fexp.
    rewrite Zdigits2_log2, fexp_eq, Hf by lia.
    destruct (decide (f = e)) as [->|].
    + rewrite shr_nonpos_eq by lia. by rewrite Z.sub_diag.
    + rewrite shr_pos_eq by lia. by replace (e + (f - e)) with f by lia.
Qed.

Lemma binary_round_scale s k e j :
  0 ≤ j → binary_round prec emax s (Z.to_pos (Zpos k * 2 ^ j)) (e - j) = binary_round prec emax s k e.
Proof.
  intros Hj. assert (0 < Zpos k * 2 ^ j) by nia.
  erewrite (binary_round_finish _ k e _ eq_refl).
  erewrite binary_round_finish; rewrite Z2Pos.id, ?log2_mul_pow2' by done; [|reflexivity].
  replace (Z.log2 (Zpos k) + j + 1 + (e - j)) with (Z.log2 (Zpos k) + 1 + e) by lia.
  set (f := Z.max _ _). f_equal.
  destruct (decide (f ≤ e - j)).
  - replace (Z.to_nat (f - (e - j))) with 0%nat by lia. replace (Z.to_nat (f - e)) with 0%nat by lia.
    simpl. f_equal. rewrite <- Z.mul_assoc, <- Z.pow_add_r by lia. do 2 f_equal. lia.
  - rewrite (Z.max_l 0 (e - j - f)), Z.mul_1_r by lia.
    replace (Z.to_nat (f - (e - j))) with (Z.to_nat (f - e) + Z.to_nat (Z.min j (f - (e - j))))%nat by lia.
    rewrite Nat.iter_add. f_equal.
    replace (Zpos k * 2 ^ j) with
      (Zpos k * 2 ^ Z.max 0 (e - f) * 2 ^ Z.of_nat (Z.to_nat (Z.min j (f - (e - j))))).
    + apply shr_iter_exact. nia.
    + rewrite <- Z.mul_assoc, <- Z.pow_add_r by lia. do 2 f_equal. lia.
Qed.

Lemma binary_normalize_units k e :
  -1074 ≤ e → binary_normalize prec emax k e false = round_units (k * 2 ^ (e + 1074)).
Proof.
  intros He. pose proof (Z.pow_pos_nonneg 2 (e + 1074)). unfold round_units.
  destruct k as [|k|k]; [done| |].
  - simpl binary_normalize at 1. rewrite <- (binary_round_scale false k e (e + 1074)) by lia.
    replace (e - (e + 1074)) with (-1074) by lia.
    destruct (Zpos k * 2 ^ (e + 1074)) eqn:E; try lia. done.
  - simpl binary_normalize at 1. rewrite <- (binary_round_scale true k e (e + 1074)) by lia.
    replace (e - (e + 1074)) with (-1074) by lia.
    destruct (Zneg k * 2 ^ (e + 1074)) eqn:E; try lia. simpl. f_equal.
    replace (Zpos k * 2 ^ (e + 1074)) with (- (Zneg k * 2 ^ (e + 1074))) by lia. by rewrite E.
Qed.

(** *** Rounding as integer arithmetic *)

Lemma shr_iter_bits n m : 0 ≤ m → (0 < n)%nat →
  Nat.iter n shr_1 (Build_shr_record m false false) =
  Build_shr_record (m / 2 ^ Z.of_nat n) (Z.testbit m (Z.of_nat n - 1))
                   (negb (m mod 2 ^ (Z.of_nat n - 1) =? 0)).
Proof.
  intros Hm Hn. induction n as [|n IH]; [lia|]. destruct (decide (n = 0%nat)) as [->|Hn0].
  - unfold Nat.iter. cbn [nat_rect]. rewrite shr_1_eq by done.
    f_equal. by rewrite Z.mod_1_r.
  - rewrite Nat.iter_succ, IH by lia. rewrite shr_1_eq by (apply Z.div_pos; lia).
    rewrite Nat2Z.inj_succ. replace (Z.succ (Z.of_nat n) - 1) with (Z.of_nat n) by lia.
    f_equal.
    + rewrite Z.pow_succ_r, Z.div_div, Z.mul_comm by lia. done.
    + rewrite <- Z.bit0_odd, Z.div_pow2_bits by lia. done.
    + set (N := Z.of_nat n) in *. assert (0 < N) by lia.
      assert (m mod 2 ^ N = m mod 2 ^ (N - 1) + 2 ^ (N - 1) * Z.b2z (Z.testbit m (N - 1))) as ->.
      { replace (2 ^ N) with (2 ^ (N - 1) * 2).
        - rewrite Z.rem_mul_r by lia. rewrite <- Z.testbit_spec' by lia. done.
        - rewrite Z.mul_comm, <- Z.pow_succ_r by lia. f_equal. lia. }
      pose proof (Z.mod_pos_bound m (2 ^ (N - 1))). pose proof (Z.pow_pos_nonneg 2 (N - 1)).
      destruct (Z.testbit m (N - 1)); simpl Z.b2z; simpl orb.
      * symmetry. apply negb_true_iff, Z.eqb_neq. lia.
      * by rewrite Z.mul_0_r, Z.add_0_r.
Qed.

Lemma round_nearest_quotient n m : 0 ≤ m →
  let mrs := Nat.iter n shr_1 (Build_shr_record m false false) in
  round_nearest_even (shr_m mrs) (loc_of_shr_record mrs) = quotient_even m (Z.of_nat n).
Proof.
  intros Hm. cbn zeta. unfold quotient_even. destruct (decide (n = 0%nat)) as [->|Hn].
  { simpl. by rewrite Z.div_1_r, Z.mod_1_r. }
  rewrite shr_iter_bits by lia. set (N := Z.of_nat n) in *. assert (0 < N) by lia.
  pose proof (Z.mod_pos_bound m (2 ^ (N - 1))). pose proof (Z.pow_pos_nonneg 2 (N - 1)).
  assert (2 ^ N = 2 * 2 ^ (N - 1)) as HN by (rewrite <- Z.pow_succ_r by lia; f_equal; lia).
  assert (m mod 2 ^ N = m mod 2 ^ (N - 1) + 2 ^ (N - 1) * Z.b2z (Z.testbit m (N - 1))) as Hmod.
  { rewrite HN, Z.mul_comm, Z.rem_mul_r by lia. rewrite <- Z.testbit_spec' by lia. done. }
  rewrite Hmod. cbn [shr_m].
  destruct (Z.testbit m (N - 1)); simpl Z.b2z; rewrite ?Z.mul_1_r, ?Z.mul_0_r, ?Z.add_0_r;
    destruct (Z.eqb_spec (m mod 2 ^ (N - 1)) 0) as [E|E]; cbn [loc_of_shr_record negb round_nearest_even].
  - rewrite (proj2 (Z.compare_eq_iff _ _)) by lia. done.
  - rewrite (proj2 (Z.compare_gt_iff _ _)) by lia. done.
  - rewrite (proj2 (Z.compare_lt_iff _ _)) by lia. done.
  - rewrite (proj2 (Z.compare_lt_iff _ _)) by lia. done.
Qed.

Lemma quotient_even_bounds u n :
  0 ≤ n → u / 2 ^ n ≤ quotient_even u n ≤ u / 2 ^ n + 1 ∧
  - 2 ^ n ≤ 2 * (quotient_even u n * 2 ^ n - u) ≤ 2 ^ n.
Proof.
  intros Hn. pose proof (Z.pow_pos_nonneg 2 n). pose proof (Z.div_mod u (2 ^ n)).
  pose proof (Z.mod_pos_bound u (2 ^ n)). unfold quotient_even.
  destruct (Z.compare_spec (2 * (u mod 2 ^ n)) (2 ^ n)); [destruct (Z.even _)| |]; split; nia.
Qed.

Lemma ulp_exp_bounds u : 0 < u →
  0 ≤ ulp_exp u ∧ u < 2 ^ (53 + ulp_exp u) ∧ (0 < ulp_exp u → 2 ^ (52 + ulp_exp u) ≤ u).
Proof.
  intros Hu. unfold ulp_exp. pose proof (Z.log2_spec u Hu) as [Hlo Hhi].
  pose proof (Z.log2_nonneg u). split; [lia|]. split.
  - eapply Z.lt_le_trans; [exact Hhi|]. apply Z.pow_le_mono_r; lia.
  - intros. etransitivity; [|exact Hlo]. apply Z.pow_le_mono_r; lia.
Qed.

Lemma quotient_ulp_bounds u : 0 < u →
  0 ≤ quotient_even u (ulp_exp u) ≤ 2 ^ 53 ∧ (0 < ulp_exp u → 2 ^ 52 ≤ quotient_even u (ulp_exp u)).
Proof.
  intros Hu. destruct (ulp_exp_bounds u Hu) as (Hn & Hhi & Hlo).
  destruct (quotient_even_bounds u (ulp_exp u) Hn) as [Hq _].
  pose proof (Z.pow_pos_nonneg 2 (ulp_exp u)).
  rewrite Z.pow_add_r in Hhi by lia.
  assert (u / 2 ^ ulp_exp u < 2 ^ 53) by (apply Z.div_lt_upper_bound; lia).
  assert (0 ≤ u / 2 ^ ulp_exp u) by (apply Z.div_pos; lia).
  split; [lia|]. intros H'. specialize (Hlo H'). rewrite Z.pow_add_r in Hlo by lia.
  assert (2 ^ 52 ≤ u / 2 ^ ulp_exp u) by (apply Z.div_le_lower_bound; lia). lia.
Qed.

Lemma round_units_finish u : 0 < u →
  round_units u =
  round_finish false (Nat.iter (Z.to_nat (ulp_exp u)) shr_1 (Build_shr_record u false false))
               (ulp_exp u - 1074).
Proof.
  intros Hu. destruct u as [|u|u]; try lia. unfold round_units. simpl binary_normalize.
  rewrite (binary_round_finish _ _ _ (ulp_exp (Zpos u) - 1074)) by (unfold ulp_exp; lia).
  replace (ulp_exp (Zpos u) - 1074 - -1074) with (ulp_exp (Zpos u)) by lia.
  rewrite Z.max_l by (unfold ulp_exp; lia). by rewrite Z.mul_1_r.
Qed.

(** The mantissa chosen for [u > 0] units is renormalised to a canonical double. *)
Lemma round_units_cases u : 0 < u →
  (rounded u = 0 ∧ round_units u = S754_zero false) ∨
  (0 < rounded u < 2 ^ 2098 ∧
   ∃ m e, round_units u = S754_finite false m e ∧ bounded prec emax m e = true ∧
          Zpos m * 2 ^ (e + 1074) = rounded u) ∨
  (2 ^ 2098 ≤ rounded u ∧ round_units u = S754_infinity false).
Proof.
  intros Hu. destruct (ulp_exp_bounds u Hu) as (Hn & _ & _).
  destruct (quotient_ulp_bounds u Hu) as [Hq Hq'].
  rewrite round_units_finish by done. unfold round_finish, rounded.
  rewrite round_nearest_quotient, Z2Nat.id by lia.
  set (q := quotient_even u (ulp_exp u)) in *. set (n := ulp_exp u) in *. clearbody q n.
  pose proof (Z.pow_pos_nonneg 2 n).
  unfold shr_fexp. rewrite fexp_eq. change (emax - prec) with 971.
  destruct (decide (q = 0)) as [->|Hq0].
  { left. split; [lia|]. simpl. rewrite shr_nonpos_eq by lia. done. }
  rewrite Zdigits2_log2 by lia.
  destruct (decide (q = 2 ^ 53)) as [->|Hq53].
  - rewrite Z.log2_pow2 by lia.
    rewrite shr_pos_eq by lia.
    replace (Z.max (53 + 1 + (n - 1074) - 53) (-1074) - (n - 1074)) with 1 by lia.
    change (Nat.iter (Z.to_nat 1) shr_1 (shr_record_of_loc (2 ^ 53) loc_Exact))
      with (Build_shr_record (2 ^ 52) false false).
    cbn [shr_m]. change (2 ^ 52) with (Zpos (2 ^ 52)%positive) at 1.
    assert (2 ^ 53 * 2 ^ n = Zpos (2 ^ 52)%positive * 2 ^ (n - 1074 + 1 + 1074)) as Hv.
    { change (Zpos (2 ^ 52)%positive) with (2 ^ 52). rewrite <- !Z.pow_add_r by lia. f_equal. lia. }
    rewrite Hv. cbn match. right.
    destruct (Z.leb_spec (n - 1074 + 1) 971).
    + left. split.
      * rewrite <- Hv. split; [lia|]. rewrite <- Z.pow_add_r by lia. apply Z.pow_lt_mono_r; lia.
      * do 2 eexists. split; [done|]. split; [|done]. apply bounded_spec.
        match goal with |- context [Z.log2 ?x] => change (Z.log2 x) with 52 end. lia.
    + right. split; [|done]. rewrite <- Hv, <- Z.pow_add_r by lia. apply Z.pow_le_mono_r; lia.
  - assert (Z.log2 q ≤ 52) by (apply Z.lt_succ_r, Z.log2_lt_pow2; lia).
    assert (0 < n → Z.log2 q = 52) as Hlog.
    { intros. assert (52 ≤ Z.log2 q); [|lia]. apply Z.log2_le_pow2; lia. }
    pose proof (Z.log2_nonneg q).
    rewrite shr_nonpos_eq by (destruct (decide (0 < n)); [rewrite Hlog|]; lia).
    cbn [shr_record_of_loc shr_m]. destruct q as [|m|m]; try lia. right.
    destruct (Z.leb_spec (n - 1074) 971).
    + left. split.
      * split; [lia|]. apply Z.lt_le_trans with (2 ^ 53 * 2 ^ n); [nia|].
        rewrite <- Z.pow_add_r by lia. apply Z.pow_le_mono_r; lia.
      * do 2 eexists. split; [done|]. split; [|do 2 f_equal; lia].
        apply bounded_spec. split; [|lia]. destruct (decide (0 < n)); [rewrite Hlog|]; lia.
    + right. split; [|done]. specialize (Hq' ltac:(lia)).
      apply Z.le_trans with (2 ^ 52 * 2 ^ n); [|nia].
      rewrite <- Z.pow_add_r by lia. apply Z.pow_le_mono_r; lia.
Qed.

(** ** Representable integers *)

Definition representable (v : Z) : Prop :=
  ∃ m n, v = m * 2 ^ n ∧ - 2 ^ 53 ≤ m ≤ 2 ^ 53 ∧ 0 ≤ n.

Lemma mul_pow2_split m a b : 0 ≤ a → 0 ≤ b → m * 2 ^ a * 2 ^ b = m * 2 ^ (a + b).
Proof. intros. rewrite Z.pow_add_r by lia. lia. Qed.

Lemma rounded_ge v u : representable v → 0 < u → v ≤ u → v ≤ rounded u.
Proof.
  intros (m & k & -> & Hm & Hk) Hu Hle.
  destruct (ulp_exp_bounds u Hu) as (Hn & Hhi & Hlo).
  destruct (quotient_ulp_bounds u Hu) as [Hq Hq'].
  destruct (quotient_even_bounds u (ulp_exp u) Hn) as [Hq1 _].
  unfold rounded. set (q := quotient_even u (ulp_exp u)) in *. set (n := ulp_exp u) in *.
  clearbody q n. pose proof (Z.pow_pos_nonneg 2 n).
  destruct (decide (n ≤ k)).
  - replace (m * 2 ^ k) with (m * 2 ^ (k - n) * 2 ^ n)
      by (rewrite mul_pow2_split by lia; do 2 f_equal; lia).
    apply Z.mul_le_mono_nonneg_r; [lia|].
    assert (m * 2 ^ (k - n) ≤ u / 2 ^ n); [|lia]. apply Z.div_le_lower_bound; [lia|].
    rewrite Z.mul_comm, mul_pow2_split by lia. by replace (k - n + n) with k by lia.
  - specialize (Hq' ltac:(lia)). pose proof (Z.pow_pos_nonneg 2 k).
    trans (2 ^ 53 * 2 ^ k); [nia|]. trans (2 ^ 52 * 2 ^ n); [|nia].
    rewrite <- !Z.pow_add_r by lia. apply Z.pow_le_mono_r; lia.
Qed.

Lemma rounded_le v u : representable v → 0 < u → u ≤ v → rounded u ≤ v.
Proof.
  intros (m & k & -> & Hm & Hk) Hu Hle.
  destruct (ulp_exp_bounds u Hu) as (Hn & Hhi & Hlo).
  destruct (quotient_ulp_bounds u Hu) as [Hq _].
  destruct (quotient_even_bounds u (ulp_exp u) Hn) as [_ Hq2].
  unfold rounded. set (q := quotient_even u (ulp_exp u)) in *. set (n := ulp_exp u) in *.
  clearbody q n. pose proof (Z.pow_pos_nonneg 2 n).
  destruct (decide (n ≤ k)).
  - assert (m * 2 ^ k = m * 2 ^ (k - n) * 2 ^ n) as Hsplit
      by (rewrite mul_pow2_split by lia; do 2 f_equal; lia).
    rewrite Hsplit in *. set (M := m * 2 ^ (k - n)) in *. clearbody M.
    apply Z.mul_le_mono_nonneg_r; [lia|]. nia.
  - specialize (Hlo ltac:(lia)). pose proof (Z.pow_pos_nonneg 2 k).
    assert (m * 2 ^ k ≤ 2 ^ (52 + n)).
    { trans (2 ^ 53 * 2 ^ k); [nia|]. rewrite <- Z.pow_add_r by lia. apply Z.pow_le_mono_r; lia. }
    assert (2 ^ (52 + n) = 2 ^ 52 * 2 ^ n) as Hsplit by (apply Z.pow_add_r; lia).
    assert (u = 2 ^ 52 * 2 ^ n) by lia.
    assert (m * 2 ^ k = 2 ^ 52 * 2 ^ n) as Hmk.
    { apply Z.le_antisymm; [by rewrite <- Hsplit|congruence]. }
    rewrite Hmk. assert (q ≤ 2 ^ 52) by nia. nia.
Qed.

Lemma rounded_exact u : representable u → 0 < u → rounded u = u.
Proof. intros Hr Hu. apply Z.le_antisymm; [apply rounded_le|apply rounded_ge]; auto; lia. Qed.

Lemma representable_small v : - 2 ^ 53 ≤ v ≤ 2 ^ 53 → representable v.
Proof. intros. exists v, 0. lia. Qed.

Lemma representable_opp v : representable v → representable (- v).
Proof. intros (m & n & -> & ? & ?). exists (- m), n. lia. Qed.

Lemma representable_shift v n : representable v → 0 ≤ n → representable (v * 2 ^ n).
Proof.
  intros (m & k & -> & ? & ?) ?. exists m, (k + n). rewrite Z.pow_add_r by lia. lia.
Qed.

Lemma units_representable x : valid x = true → representable (units x).
Proof.
  destruct x as [s| | |s m e]; intros Hv; try (apply representable_small; simpl; lia).
  pose proof (valid_finite_bounds _ _ _ Hv). rewrite units_finite.
  assert (representable (Zpos m * 2 ^ (e + 1074)))
    by (apply representable_shift; [apply representable_small|]; lia).
  destruct s; simpl; [by apply representable_opp|done].
Qed.

(** ** Signs *)

Lemma units_opp x : units (SFopp x) = - units x.
Proof. destruct x as [s|s| |s m e]; try done. destruct s; simpl; lia. Qed.

Lemma valid_opp x : valid (SFopp x) = valid x.
Proof. by destruct x. Qed.

Lemma is_finite_opp x : is_finite (SFopp x) = is_finite x.
Proof. by destruct x. Qed.

Lemma SFopp_involutive x : SFopp (SFopp x) = x.
Proof. destruct x; simpl; by rewrite ?negb_involutive. Qed.

Lemma round_finish_sign mrs e : round_finish true mrs e = SFopp (round_finish false mrs e).
Proof.
  unfold round_finish. destruct (shr_fexp _ _ _ _ _) as [mrs' e'].
  destruct (shr_m mrs'); try done. by destruct (_ <=? _)%Z.
Qed.

Lemma round_units_opp u : u ≠ 0 → round_units (- u) = SFopp (round_units u).
Proof.
  assert (∀ k, round_units (Zneg k) = SFopp (round_units (Zpos k))) as Hneg.
  { intros k. unfold round_units. simpl.
    erewrite (binary_round_finish true), (binary_round_finish false) by reflexivity.
    apply round_finish_sign. }
  destruct u as [|k|k]; [done| |]; intros _; [apply Hneg|].
  rewrite (Hneg k). by rewrite SFopp_involutive.
Qed.

(** ** Every sum is the rounding of the exact sum *)

Lemma round_units_valid u : valid (round_units u) = true.
Proof.
  assert (∀ u, 0 < u → valid (round_units u) = true) as Hpos.
  { intros v Hv. destruct (round_units_cases v Hv) as [[_ ->]|[(_ & m & e & -> & Hb & _)|[_ ->]]]; done. }
  destruct (Z.lt_trichotomy u 0) as [Hu|[->|Hu]]; [|done|auto].
  replace u with (- - u) by lia. rewrite round_units_opp, valid_opp by lia. apply Hpos. lia.
Qed.

Lemma round_units_id x : valid x = true → is_finite x = true → units x ≠ 0 → round_units (units x) = x.
Proof.
  intros. apply binary_normalize_exact; try done. change (-1074 + 1074) with 0. lia.
Qed.

Lemma aligned_units s m e ez : -1074 ≤ ez ≤ e →
  cond_Zopp s (Zpos (fst (shl_align m e ez))) * 2 ^ (ez + 1074) = units (S754_finite s m e).
Proof.
  intros H. rewrite shl_align_eq, units_finite.
  assert (Zpos (if ez <? e then Z.to_pos (Zpos m * 2 ^ (e - ez)) else m) * 2 ^ (ez + 1074)
          = Zpos m * 2 ^ (e + 1074)) as Heq.
  { destruct (Z.ltb_spec ez e); [|do 2 f_equal; lia].
    rewrite Z2Pos.id by nia. rewrite <- Z.mul_assoc, <- Z.pow_add_r by lia. do 2 f_equal. lia. }
  cbn [fst]. destruct s; simpl; lia.
Qed.

Lemma num_add_units x y :
  valid x = true → valid y = true → is_finite x = true → is_finite y = true →
  units x + units y ≠ 0 →
  num_add x y = round_units (units x + units y).
Proof.
  intros Hx Hy Fx Fy Hne.
  destruct x as [sx| | |sx mx ex]; try done; destruct y as [sy| | |sy my ey]; try done.
  - change (units (S754_zero sx)) with 0 in *. rewrite Z.add_0_l in *. by rewrite round_units_id.
  - change (units (S754_zero sy)) with 0 in *. rewrite Z.add_0_r in *. by rewrite round_units_id.
  - pose proof (valid_finite_bounds _ _ _ Hx). pose proof (valid_finite_bounds _ _ _ Hy).
    cbn [num_add SFadd]. rewrite binary_normalize_units by lia. f_equal.
    rewrite Z.mul_add_distr_r, !aligned_units by lia. done.
Qed.

Lemma num_add_zero x y :
  valid x = true → valid y = true → is_finite x = true → is_finite y = true →
  units x + units y = 0 → ∃ s, num_add x y = S754_zero s.
Proof.
  intros Hx Hy Fx Fy Heq.
  destruct x as [sx| | |sx mx ex]; try done; destruct y as [sy| | |sy my ey]; try done.
  - destruct sx, sy; simpl; eauto.
  - exfalso. pose proof (valid_finite_bounds _ _ _ Hy). pose proof (units_pos_iff sy my ey).
    change (units (S754_zero sx)) with 0 in *. destruct sy; lia.
  - exfalso. pose proof (valid_finite_bounds _ _ _ Hx). pose proof (units_pos_iff sx mx ex).
    change (units (S754_zero sy)) with 0 in *. destruct sx; lia.
  - pose proof (valid_finite_bounds _ _ _ Hx). pose proof (valid_finite_bounds _ _ _ Hy).
    exists false. cbn [num_add SFadd]. rewrite binary_normalize_units by lia.
    rewrite Z.mul_add_distr_r, !aligned_units, Heq by lia. done.
Qed.

Lemma num_sub_opp x y : num_sub x y = num_add x (SFopp y).
Proof.
  destruct x as [sx|sx| |sx mx ex], y as [sy|sy| |sy my ey]; try done; try (by destruct sx, sy).
Qed.

Lemma num_sub_units x y :
  valid x = true → valid y = true → is_finite x = true → is_finite y = true →
  units x - units y ≠ 0 → num_sub x y = round_units (units x - units y).
Proof.
  intros. rewrite num_sub_opp, num_add_units; rewrite ?valid_opp, ?is_finite_opp, ?units_opp; auto; lia.
Qed.

(** Validity is closed under sums and differences. *)
Lemma num_add_valid x y : valid x = true → valid y = true → valid (num_add x y) = true.
Proof.
  intros Hx Hy. destruct (is_finite x) eqn:Fx; [destruct (is_finite y) eqn:Fy|].
  - destruct (decide (units x + units y = 0)) as [E|E].
    + destruct (num_add_zero x y) as [s ->]; auto.
    + rewrite num_add_units by done. apply round_units_valid.
  - by destruct y as [|[]| |], x as [|[]| |].
  - by destruct x as [|[]| |], y as [|[]| |].
Qed.

Lemma num_sub_valid x y : valid x = true → valid y = true → valid (num_sub x y) = true.
Proof. intros. rewrite num_sub_opp. apply num_add_valid; rewrite ?valid_opp; done. Qed.

(** *** Exact results *)

Lemma round_units_spec u :
  representable u → Z.abs u < 2 ^ 2098 → is_finite (round_units u) = true ∧ units (round_units u) = u.
Proof.
  assert (∀ u, 0 < u → representable u → u < 2 ^ 2098 →
               is_finite (round_units u) = true ∧ units (round_units u) = u) as Hpos.
  { intros v Hv Hr Hb. pose proof (rounded_exact v Hr Hv) as He.
    destruct (round_units_cases v Hv) as [[? ?]|[(_ & m & e & -> & _ & Hm)|[? ?]]]; try plia.
    split; [done|]. rewrite units_finite, <- He at 1. simpl. plia. }
  intros Hr Hb. destruct (Z.lt_trichotomy u 0) as [Hu|[->|Hu]]; [|done|apply Hpos; auto; plia].
  destruct (Hpos (- u)) as [Hf Hun]; [plia|by apply representable_opp|plia|].
  replace u with (- - u) by plia.
  rewrite round_units_opp, is_finite_opp, units_opp, Hun by plia. split; [done|plia].
Qed.

Lemma units_bound x : valid x = true → Z.abs (units x) < 2 ^ 2098.
Proof.
  destruct x as [s|s| |s m e]; intros Hv; try done.
  pose proof (valid_finite_bounds _ _ _ Hv) as [[He He'] Hm].
  assert (Zpos m * 2 ^ (e + 1074) < 2 ^ 2098).
  { apply Z.lt_le_trans with (2 ^ 53 * 2 ^ (e + 1074)); [pnia|].
    rewrite <- Z.pow_add_r by plia. apply Z.pow_le_mono_r; plia. }
  rewrite units_finite. destruct s; simpl; plia.
Qed.

Lemma num_add_exact x y :
  valid x = true → valid y = true → is_finite x = true → is_finite y = true →
  representable (units x + units y) → Z.abs (units x + units y) < 2 ^ 2098 →
  is_finite (num_add x y) = true ∧ units (num_add x y) = units x + units y.
Proof.
  intros Hx Hy Fx Fy Hr Hb. destruct (decide (units x + units y = 0)) as [E|E].
  - destruct (num_add_zero x y) as [s ->]; auto.
  - rewrite num_add_units by done. by apply round_units_spec.
Qed.

Lemma num_sub_exact x y :
  valid x = true → valid y = true → is_finite x = true → is_finite y = true →
  representable (units x - units y) → Z.abs (units x - units y) < 2 ^ 2098 →
  is_finite (num_sub x y) = true ∧ units (num_sub x y) = units x - units y.
Proof.
  intros. rewrite num_sub_opp. rewrite <- Z.add_opp_r, <- units_opp in *.
  apply num_add_exact; rewrite ?valid_opp, ?is_finite_opp; done.
Qed.

(** A difference no larger than either operand is exact: it is a multiple of the
    smaller unit in the last place and needs no more bits. *)
Lemma difference_representable x y :
  valid x = true → valid y = true → is_finite x = true → is_finite y = true →
  Z.abs (units x - units y) ≤ Z.abs (units x) → Z.abs (units x - units y) ≤ Z.abs (units y) →
  representable (units x - units y).
Proof.
  intros Hx Hy Fx Fy H1 H2.
  destruct x as [sx| | |sx mx ex]; try done; [apply representable_small; simpl in *; lia|].
  destruct y as [sy| | |sy my ey]; try done; [apply representable_small; simpl in *; lia|].
  pose proof (valid_finite_bounds _ _ _ Hx). pose proof (valid_finite_bounds _ _ _ Hy).
  set (ez := Z.min ex ey).
  pose proof (aligned_units sx mx ex ez ltac:(lia)) as Ax.
  pose proof (aligned_units sy my ey ez ltac:(lia)) as Ay.
  set (kx := cond_Zopp sx _) in Ax. set (ky := cond_Zopp sy _) in Ay. clearbody kx ky.
  rewrite <- Ax, <- Ay, <- Z.mul_sub_distr_r in *. exists (kx - ky), (ez + 1074).
  split; [done|]. split; [|lia].
  pose proof (Z.pow_pos_nonneg 2 (ez + 1074)). rewrite !Z.abs_mul, (Z.abs_eq (2 ^ _)) in * by lia.
  apply Z.mul_le_mono_pos_r in H1, H2; try lia.
  assert (Z.abs kx < 2 ^ 53 ∨ Z.abs ky < 2 ^ 53); [|lia].
  destruct (decide (ez = ex)) as [E|E]; [left|right].
  - rewrite units_finite, <- E in Ax. destruct sx; simpl in Ax; nia.
  - assert (ez = ey) as E' by lia. rewrite units_finite, <- E' in Ay. destruct sy; simpl in Ay; nia.
Qed.

(** ** Comparisons read the units *)

Lemma canonical_lt m1 e1 m2 e2 :
  bounded prec emax m1 e1 = true → bounded prec emax m2 e2 = true → e1 < e2 →
  Zpos m1 * 2 ^ (e1 + 1074) < Zpos m2 * 2 ^ (e2 + 1074).
Proof.
  intros [H1 _]%bounded_spec [H2 _]%bounded_spec He.
  assert (Zpos m1 < 2 ^ 53) by (apply Z.log2_lt_pow2; lia).
  assert (2 ^ 52 ≤ Zpos m2) by (apply Z.log2_le_pow2; lia).
  assert (0 ≤ e1 + 1074) as Ha by lia. set (d := e2 - e1 - 1). assert (0 ≤ d) as Hd by lia.
  replace (e2 + 1074) with (1 + (e1 + 1074) + d) by lia.
  set (a := e1 + 1074) in *. clearbody a d.
  rewrite !Z.pow_add_r by lia. pose proof (Z.pow_pos_nonneg 2 a). pose proof (Z.pow_pos_nonneg 2 d).
  apply Z.lt_le_trans with (2 ^ 53 * 2 ^ a); [nia|].
  assert (2 ^ 53 ≤ Zpos m2 * (2 * 2 ^ d)) by nia. change (2 ^ 1) with 2. nia.
Qed.

Lemma SFcompare_finite m1 e1 m2 e2 :
  bounded prec emax m1 e1 = true → bounded prec emax m2 e2 = true →
  match (e1 ?= e2)%Z with Lt => Lt | Gt => Gt | Eq => Pos.compare_cont Eq m1 m2 end
  = (Zpos m1 * 2 ^ (e1 + 1074) ?= Zpos m2 * 2 ^ (e2 + 1074)).
Proof.
  intros H1 H2. pose proof (proj1 (bounded_spec _ _) H1) as [? _].
  destruct (Z.compare_spec e1 e2) as [->|He|He]; symmetry.
  - rewrite <- Zmult_compare_compat_r by lia. done.
  - apply Z.compare_lt_iff. by apply canonical_lt.
  - apply Z.compare_gt_iff. by apply canonical_lt.
Qed.

Lemma num_compare_units x y :
  valid x = true → valid y = true → is_finite x = true → is_finite y = true →
  SFcompare x y = Some (units x ?= units y).
Proof.
  intros Hx Hy Fx Fy.
  destruct x as [sx| | |sx mx ex]; try done; destruct y as [sy| | |sy my ey]; try done;
    try pose proof (valid_finite_bounds _ _ _ Hx); try pose proof (valid_finite_bounds _ _ _ Hy);
    rewrite ?units_finite; cbn [units SFcompare]; f_equal.
  - pose proof (Z.pow_pos_nonneg 2 (ey + 1074)).
    destruct sy; symmetry; simpl cond_Zopp; [apply Z.compare_gt_iff|apply Z.compare_lt_iff]; nia.
  - pose proof (Z.pow_pos_nonneg 2 (ex + 1074)).
    destruct sx; symmetry; simpl cond_Zopp; [apply Z.compare_lt_iff|apply Z.compare_gt_iff]; nia.
  - pose proof (Z.pow_pos_nonneg 2 (ex + 1074)). pose proof (Z.pow_pos_nonneg 2 (ey + 1074)).
    pose proof (SFcompare_finite mx ex my ey Hx Hy) as Hcmp.
    destruct sx, sy; cbn [cond_Zopp].
    + rewrite Z.compare_opp, (Z.compare_antisym (Zpos mx * _)), <- Hcmp. by destruct (ex ?= ey).
    + symmetry. apply Z.compare_lt_iff. nia.
    + symmetry. apply Z.compare_gt_iff. nia.
    + done.
Qed.
