(* ===== verification/NumberFacts.v ===== *)
(** * Facts about doubles used by the services

    Exactness of the operations on integers, closure of well-formed doubles
    under every operation, monotonicity of sums of amounts, and the exactness of
    splitting a pool into a paid part and its remainder. *)

From S2P Require Import Prelude Number.
From Stdlib Require Import ZArith Lia.

Local Open Scope Z_scope.

(** A non-negative, finite, well-formed double: what a money column holds. *)
Definition amount (x : number) : Prop :=
  valid x = true ∧ is_finite x = true ∧ 0 ≤ units x.

(** ** Equality and order *)

Lemma num_eqb_refl x : is_nan x = false → num_eqb x x = true.
Proof.
  destruct x as [s|s| |s m e]; try done; unfold num_eqb, SFeqb; simpl.
  - by destruct s.
  - rewrite Z.compare_refl. change (Pos.compare_cont Eq m m) with (m ?= m)%positive.
    rewrite Pos.compare_refl. by destruct s.
Qed.

Lemma finite_not_nan x : is_finite x = true → is_nan x = false.
Proof. by destruct x. Qed.

Lemma num_sub_diag x : is_finite x = true → num_sub x x = zero.
Proof.
  destruct x as [s|s| |s m e]; try done; intros _; [by destruct s|].
  unfold num_sub. simpl. by rewrite Z.sub_diag.
Qed.

(** [0 + x] is [x] up to the sign of zero. *)
Lemma num_add_zero_l x : is_nan x = false → num_eqb (num_add zero x) x = true.
Proof.
  intros Hn. destruct x as [[]|[]| |s m e]; try done. by apply (num_eqb_refl (S754_finite s m e)).
Qed.

Lemma num_eqb_units x y :
  valid x = true → valid y = true → is_finite x = true → is_finite y = true →
  num_eqb x y = (units x =? units y).
Proof.
  intros. unfold num_eqb, SFeqb. rewrite num_compare_units by done.
  destruct (Z.compare_spec (units x) (units y)); symmetry; [apply Z.eqb_eq|apply Z.eqb_neq..]; lia.
Qed.

Lemma num_ltb_units x y :
  valid x = true → valid y = true → is_finite x = true → is_finite y = true →
  num_ltb x y = (units x <? units y).
Proof.
  intros. unfold num_ltb, SFltb. rewrite num_compare_units by done.
  destruct (Z.compare_spec (units x) (units y)); symmetry; [apply Z.ltb_ge|apply Z.ltb_lt|apply Z.ltb_ge]; lia.
Qed.

Lemma num_leb_units x y :
  valid x = true → valid y = true → is_finite x = true → is_finite y = true →
  num_leb x y = (units x <=? units y).
Proof.
  intros. unfold num_leb, SFleb. rewrite num_compare_units by done.
  destruct (Z.compare_spec (units x) (units y)); symmetry; [apply Z.leb_le|apply Z.leb_le|apply Z.leb_gt]; lia.
Qed.

(** ** Splitting a pool into a paid part and its remainder

    When the paid part is between half the pool and twice the pool, the
    remainder [total - paid] is exact, and adding it back gives the pool
    without any rounding. *)

Lemma pool_split_exact total paid :
  amount total → amount paid →
  units total ≤ 2 * units paid → units paid ≤ 2 * units total →
  is_finite (num_sub total paid) = true ∧
  units (num_sub total paid) = units total - units paid ∧
  units (num_add paid (num_sub total paid)) = units total ∧
  is_finite (num_add paid (num_sub total paid)) = true.
Proof.
  intros (Hvt & Hft & Ht) (Hvp & Hfp & Hp) H1 H2.
  pose proof (units_bound _ Hvt). pose proof (units_bound _ Hvp).
  destruct (num_sub_exact total paid) as [Hf Hu]; auto; [|plia|].
  { apply difference_representable; auto; plia. }
  destruct (num_add_exact paid (num_sub total paid)) as [Hf' Hu']; auto using num_sub_valid.
  - rewrite Hu. replace (units paid + (units total - units paid)) with (units total) by plia.
    by apply units_representable.
  - rewrite Hu. plia.
  - rewrite Hu in Hu'. repeat split; auto. plia.
Qed.

(** ** Sums of amounts *)

Lemma amount_zero : amount zero.
Proof. done. Qed.

Lemma num_add_amount x y :
  amount x → amount y → is_finite (num_add x y) = true →
  amount (num_add x y) ∧ units x ≤ units (num_add x y) ∧ units y ≤ units (num_add x y).
Proof.
  intros (Hvx & Hfx & Hx) (Hvy & Hfy & Hy) Hf.
  pose proof (num_add_valid _ _ Hvx Hvy) as Hv.
  destruct (decide (units x + units y = 0)) as [E|E].
  - destruct (num_add_zero x y) as [s Hs]; auto. rewrite Hs in *. unfold amount. simpl. lia.
  - rewrite num_add_units in * by done.
    assert (units x ≤ rounded (units x + units y))
      by (apply rounded_ge; [by apply units_representable|lia|lia]).
    assert (units y ≤ rounded (units x + units y))
      by (apply rounded_ge; [by apply units_representable|lia|lia]).
    destruct (round_units_cases (units x + units y)) as [[E0 Ez]|[(_ & m & e & Em & _ & Hm)|[_ Ei]]]; [lia| | |].
    + rewrite Ez in *. unfold amount. simpl. lia.
    + rewrite Em in *. unfold amount. rewrite units_finite. simpl cond_Zopp. rewrite Hm.
      split_and!; try done; lia.
    + by rewrite Ei in Hf.
Qed.

(** ** Products and quotients are well formed *)

Lemma shr_record_of_loc_m m l : shr_m (shr_record_of_loc m l) = m.
Proof. by destruct l as [|[]]. Qed.

Lemma shr_fexp_m m e l :
  0 ≤ m → e ≤ fexp prec emax (Zdigits2 m + e) →
  shr_m (fst (shr_fexp prec emax m e l)) = m / 2 ^ (fexp prec emax (Zdigits2 m + e) - e) ∧
  snd (shr_fexp prec emax m e l) = fexp prec emax (Zdigits2 m + e).
Proof.
  intros Hm He. unfold shr_fexp. set (f := fexp _ _ _) in *.
  destruct (decide (f = e)) as [->|].
  - rewrite shr_nonpos_eq, Z.sub_diag by lia. simpl. by rewrite shr_record_of_loc_m, Z.div_1_r.
  - rewrite shr_pos_eq by lia. cbn [fst snd]. split; [|lia].
    destruct (shr_record_of_loc m l) as [m' r s] eqn:E.
    assert (m' = m) as -> by (pose proof (shr_record_of_loc_m m l); by rewrite E in *).
    rewrite shr_iter_m, Z2Nat.id by lia. done.
Qed.

Lemma round_nearest_even_cases m l : round_nearest_even m l = m ∨ round_nearest_even m l = m + 1.
Proof. destruct l as [|[]]; simpl; auto. destruct (Z.even m); auto. Qed.

Lemma Zdigits2_bound m k : 0 ≤ m < 2 ^ k → 0 ≤ k → Zdigits2 m ≤ k.
Proof.
  intros Hm Hk. destruct (decide (m = 0)) as [->|]; [done|].
  rewrite Zdigits2_log2 by lia. assert (Z.log2 m < k) by (apply Z.log2_lt_pow2; lia). lia.
Qed.

(** The mantissa kept after the first shift has at most 53 digits, and exactly
    that many unless the exponent is minimal. *)
Lemma round_aux_mantissa m e :
  0 ≤ m → e ≤ fexp prec emax (Zdigits2 m + e) →
  let f := fexp prec emax (Zdigits2 m + e) in
  let q := m / 2 ^ (f - e) in
  0 ≤ q < 2 ^ 53 ∧ (q < 2 ^ 52 → f = -1074) ∧ -1074 ≤ f.
Proof.
  intros Hm He. cbn zeta. rewrite fexp_eq in *.
  destruct (decide (m = 0)) as [->|Hm0].
  { simpl Zdigits2 in *. rewrite Z.div_0_l by (apply Z.pow_nonzero; lia). split_and!; lia. }
  rewrite Zdigits2_log2 in * by lia. pose proof (Z.log2_spec m ltac:(lia)) as [Hlo Hhi].
  pose proof (Z.log2_nonneg m). set (L := Z.log2 m) in *. clearbody L.
  set (f := Z.max (L + 1 + e - 53) (-1074)) in *. assert (-1074 ≤ f) by lia.
  pose proof (Z.pow_pos_nonneg 2 (f - e)).
  split; [split; [apply Z.div_pos; lia|]|split; [|done]].
  - apply Z.div_lt_upper_bound; [lia|]. rewrite <- Z.pow_add_r by lia.
    eapply Z.lt_le_trans; [exact Hhi|]. apply Z.pow_le_mono_r; lia.
  - intros Hq. destruct (decide (f = -1074)); [done|]. exfalso.
    assert (2 ^ 52 ≤ m / 2 ^ (f - e)); [|lia]. apply Z.div_le_lower_bound; [lia|].
    rewrite <- Z.pow_add_r by lia. etransitivity; [|exact Hlo]. apply Z.pow_le_mono_r; lia.
Qed.

(** What a location adds to a mantissa, in quarters of its last place. *)
Definition quarters (l : location) : Z :=
  match l with loc_Exact => 0 | loc_Inexact Lt => 1 | loc_Inexact Eq => 2 | loc_Inexact Gt => 3 end.

(** A location is two bits: what was shifted out of a mantissa with two more digits. *)
Lemma shr_record_of_quarters m l : 0 ≤ m →
  shr_record_of_loc m l = Nat.iter 2 shr_1 (Build_shr_record (4 * m + quarters l) false false).
Proof.
  intros Hm. unfold Nat.iter. cbn [nat_rect].
  rewrite shr_1_eq by (destruct l as [|[]]; simpl; lia).
  rewrite shr_1_eq by (apply Z.div_pos; destruct l as [|[]]; simpl; lia).
  replace ((4 * m + quarters l) / 2 / 2) with m.
  2: { rewrite Z.div_div by lia. apply Z.div_unique with (quarters l); destruct l as [|[]]; simpl; lia. }
  replace ((4 * m + quarters l) / 2) with (2 * m + quarters l / 2).
  2: { replace (4 * m + quarters l) with (2 * m * 2 + quarters l) by ring. rewrite Z.div_add_l by lia. lia. }
  assert (∀ x c, Z.odd (2 * x + c) = Z.odd c) as Hodd.
  { intros x c. rewrite Z.odd_add, Z.odd_mul. by destruct (Z.odd c). }
  replace (4 * m) with (2 * (2 * m)) by ring. rewrite !Hodd. by destruct l as [|[]].
Qed.

Lemma round_located m e l :
  0 ≤ m → e ≤ fexp prec emax (Zdigits2 m + e) →
  let mrs := fst (shr_fexp prec emax m e l) in
  round_nearest_even (shr_m mrs) (loc_of_shr_record mrs) =
  quotient_even (4 * m + quarters l) (fexp prec emax (Zdigits2 m + e) - e + 2).
Proof.
  intros Hm He. cbn zeta. unfold shr_fexp. set (f := fexp _ _ _) in *.
  assert (fst (shr (shr_record_of_loc m l) e (f - e)) =
          Nat.iter (Z.to_nat (f - e + 2)) shr_1 (Build_shr_record (4 * m + quarters l) false false)) as ->.
  { rewrite shr_record_of_quarters by done. destruct (decide (f - e = 0)) as [->|].
    - by rewrite shr_nonpos_eq by lia.
    - rewrite shr_pos_eq by lia. cbn [fst]. rewrite <- Nat.iter_add. f_equal. lia. }
  rewrite round_nearest_quotient by (destruct l as [|[]]; simpl; lia). by rewrite Z2Nat.id by lia.
Qed.

(** The rounded mantissa is the truncated one or its successor, the nearest to the
    located value, and the result is the canonical double of that value. *)
Lemma round_aux_cases s m e l :
  0 ≤ m → e ≤ fexp prec emax (Zdigits2 m + e) →
  let f := fexp prec emax (Zdigits2 m + e) in
  let q := m / 2 ^ (f - e) in
  ∃ q', q' = quotient_even (4 * m + quarters l) (f - e + 2) ∧ (q' = q ∨ q' = q + 1) ∧
    ((q' = 0 ∧ binary_round_aux prec emax s m e l = S754_zero s) ∨
     (∃ m' e', binary_round_aux prec emax s m e l = S754_finite s m' e' ∧
               bounded prec emax m' e' = true ∧
               Zpos m' * 2 ^ (e' + 1074) = q' * 2 ^ (f + 1074)) ∨
     (binary_round_aux prec emax s m e l = S754_infinity s ∧ 971 ≤ f ∧ 2 ^ 2098 ≤ q' * 2 ^ (f + 1074))).
Proof.
  intros Hm He. destruct (round_aux_mantissa m e Hm He) as (Hq & Hq52 & Hf).
  destruct (shr_fexp_m m e l Hm He) as [Hs1 Hs2]. pose proof (round_located m e l Hm He) as Hnear. cbn zeta in *.
  unfold binary_round_aux. destruct (shr_fexp prec emax m e l) as [mrs f].
  cbn [fst snd] in Hs1, Hs2, Hnear. rewrite <- Hs2 in *. clear Hs2.
  set (q := m / 2 ^ (f - e)) in *. clearbody q. rewrite Hs1 in *.
  set (q' := round_nearest_even _ _) in *.
  assert (q' = q ∨ q' = q + 1) as Hq' by apply round_nearest_even_cases. clearbody q'.
  exists q'. split; [done|]. split; [done|].
  destruct (decide (q' = 2 ^ 53)) as [->|Hn53].
  - assert (shr_fexp prec emax (2 ^ 53) f loc_Exact = (Build_shr_record (2 ^ 52) false false, f + 1)) as ->.
    { unfold shr_fexp. rewrite fexp_eq, Zdigits2_log2, Z.log2_pow2 by lia.
      rewrite shr_pos_eq by lia.
      replace (Z.max (53 + 1 + f - 53) (-1074) - f) with 1 by lia. done. }
    cbn [shr_m]. change (2 ^ 52) with (Zpos (2 ^ 52)). cbn match. right.
    change (emax - prec) with 971. destruct (Z.leb_spec (f + 1) 971); [left|right; split_and!; [done|lia|]; rewrite <- Z.pow_add_r by lia; apply Z.pow_le_mono_r; lia].
    do 2 eexists. split; [done|]. split.
    + apply bounded_spec. match goal with |- context [Z.log2 ?x] => change (Z.log2 x) with 52 end. lia.
    + change (Zpos (2 ^ 52)) with (2 ^ 52). rewrite <- !Z.pow_add_r by lia. f_equal. lia.
  - assert (0 ≤ q' < 2 ^ 53) as Hq1 by lia.
    pose proof (Zdigits2_bound q' 53 Hq1 ltac:(lia)) as Hd.
    assert (shr_fexp prec emax q' f loc_Exact = (Build_shr_record q' false false, f)) as ->.
    { unfold shr_fexp. rewrite fexp_eq. rewrite shr_nonpos_eq by lia. done. }
    cbn [shr_m]. destruct q' as [|m'|m']; [by left| |lia]. right.
    change (emax - prec) with 971. destruct (Z.leb_spec f 971); [left|right; split_and!; [done|lia|]].
    2: { apply Z.le_trans with (2 ^ 52 * 2 ^ (f + 1074)); [rewrite <- Z.pow_add_r by lia; apply Z.pow_le_mono_r; lia|].
         apply Z.mul_le_mono_nonneg_r; lia. }
    do 2 eexists. split; [done|]. split; [|done]. apply bounded_spec. split; [|lia].
    destruct (decide (f = -1074)) as [->|].
    + rewrite Zdigits2_log2 in Hd by lia. lia.
    + assert (52 ≤ Z.log2 (Zpos m')) by (apply Z.log2_le_pow2; lia).
      rewrite Zdigits2_log2 in Hd by lia. lia.
Qed.

Lemma round_aux_valid s m e l :
  0 ≤ m → e ≤ fexp prec emax (Zdigits2 m + e) →
  valid (binary_round_aux prec emax s m e l) = true.
Proof.
  intros Hm He.
  destruct (round_aux_cases s m e l Hm He) as (q & _ & _ & [[_ ->]|[(m' & e' & -> & Hb & _)|[-> _]]]); done.
Qed.

Lemma round_aux_nonneg m e l :
  0 ≤ m → e ≤ fexp prec emax (Zdigits2 m + e) →
  0 ≤ units (binary_round_aux prec emax false m e l).
Proof.
  intros Hm He.
  destruct (round_aux_cases false m e l Hm He) as (q & _ & _ & [[_ ->]|[(m' & e' & -> & Hb & _)|[-> _]]]);
    rewrite ?units_finite; simpl; lia.
Qed.

(** Rounding a value below one stays at most one. *)
Lemma round_aux_below_one m e l :
  0 ≤ m → e ≤ fexp prec emax (Zdigits2 m + e) → e ≤ 0 → m < 2 ^ (- e) →
  is_finite (binary_round_aux prec emax false m e l) = true ∧
  units (binary_round_aux prec emax false m e l) ≤ 2 ^ 1074.
Proof.
  intros Hm He He0 Hlt.
  pose proof (Zdigits2_bound m (- e) ltac:(lia) ltac:(lia)) as Hd.
  destruct (round_aux_cases false m e l Hm He) as (q & _ & Hq & Hcase).
  rewrite fexp_eq in *. set (f := Z.max (Zdigits2 m + e - 53) (-1074)) in *.
  assert (f ≤ -53 ∧ -1074 ≤ f) as [Hf1 Hf2] by (unfold f; lia). clearbody f.
  destruct Hcase as [[_ ->]|[(m' & e' & -> & Hb & Hv)|[-> ?]]]; [simpl; lia| |lia].
  split; [done|]. rewrite units_finite. simpl cond_Zopp. rewrite Hv.
  assert (m / 2 ^ (f - e) < 2 ^ (- f)).
  { apply Z.div_lt_upper_bound; [lia|]. rewrite <- Z.pow_add_r by lia.
    by replace (f - e + - f) with (- e) by lia. }
  replace 1074 with (- f + (f + 1074)) by lia. rewrite (Z.pow_add_r 2 (- f)) by lia.
  replace (- f + (f + 1074)) with 1074 by lia. nia.
Qed.

(** The exact product of two canonical mantissas keeps enough bits. *)
Lemma num_mul_round_ok mx ex my ey :
  bounded prec emax mx ex = true → bounded prec emax my ey = true →
  0 ≤ Zpos (mx * my) ∧ ex + ey ≤ fexp prec emax (Zdigits2 (Zpos (mx * my)) + (ex + ey)).
Proof.
  intros [Cx _]%bounded_spec [Cy _]%bounded_spec. split; [lia|].
  rewrite fexp_eq, Zdigits2_log2 by lia.
  change (Zpos (mx * my)) with (Zpos mx * Zpos my).
  pose proof (Z.log2_mul_below (Zpos mx) (Zpos my) ltac:(lia) ltac:(lia)).
  pose proof (Z.log2_nonneg (Zpos mx)). pose proof (Z.log2_nonneg (Zpos my)). lia.
Qed.

Lemma num_mul_valid x y : valid x = true → valid y = true → valid (num_mul x y) = true.
Proof.
  intros Hx Hy. destruct x as [sx|sx| |sx mx ex], y as [sy|sy| |sy my ey]; try done.
  destruct (num_mul_round_ok mx ex my ey Hx Hy) as [Hm He].
  by apply round_aux_valid.
Qed.

(** The division of the specification: a truncated quotient that keeps enough bits,
    and where the exact one lies above it. *)
Lemma div_core_spec a ex b ey : 0 < a → 0 < b →
  ∃ e, SFdiv_core_binary prec emax a ex b ey =
         (a * 2 ^ (ex - ey - e) / b, e, new_location b (a * 2 ^ (ex - ey - e) mod b)) ∧
    Z.min (ex - ey) (-1074) ≤ e ≤ ex - ey ∧
    e ≤ Z.max (Z.log2 a + ex - Z.log2 b - ey - 53) (-1074) ∧
    0 ≤ a * 2 ^ (ex - ey - e) / b ∧
    e ≤ fexp prec emax (Zdigits2 (a * 2 ^ (ex - ey - e) / b) + e).
Proof.
  intros Ha Hb. unfold SFdiv_core_binary. rewrite !Zdigits2_log2 by lia.
  set (D := Z.log2 a + 1 + ex - (Z.log2 b + 1 + ey)).
  set (e' := Z.min (fexp prec emax D) (ex - ey)).
  assert (Z.min (ex - ey) (-1074) ≤ e' ≤ ex - ey ∧ e' ≤ Z.max (D - 53) (-1074)) as [He1 He2]
    by (unfold e'; rewrite fexp_eq; lia).
  clearbody e'. remember (ex - ey - e') as s eqn:Es. assert (0 ≤ s) as Hs by lia.
  assert (D = Z.log2 a + ex - Z.log2 b - ey) as HD by (unfold D; lia). clearbody D.
  assert (match s with Zpos _ => Z.shiftl a s | Z0 => a | Zneg _ => 0 end = a * 2 ^ s) as ->.
  { destruct s; [lia| |lia]. by rewrite Z.shiftl_mul_pow2 by lia. }
  rewrite (surjective_pairing (Z.div_eucl _ _)). cbn match.
  exists e'. rewrite <- Es. split; [done|].
  set (q := a * 2 ^ s / b).
  assert (0 ≤ q) as Hq by (apply Z.div_pos; lia).
  split; [done|]. split; [lia|]. split; [done|]. rewrite fexp_eq.
  assert (Z.log2 a + s - Z.log2 b ≤ Zdigits2 q) as Hdig; [|lia].
  destruct (decide (q = 0)) as [E|E].
  - rewrite E. change (Zdigits2 0) with 0. apply Z.div_small_iff in E; [|lia]. destruct E as [E|E]; [|lia].
    assert (Z.log2 (a * 2 ^ s) ≤ Z.log2 b) as Hl by (apply Z.log2_le_mono; lia).
    rewrite log2_mul_pow2' in Hl by lia. lia.
  - rewrite Zdigits2_log2 by lia.
    assert (a * 2 ^ s < b * (q + 1)) as Hlt by (pose proof (Z.mul_succ_div_gt (a * 2 ^ s) b); lia).
    assert (Z.log2 (a * 2 ^ s) ≤ Z.log2 b + Z.log2 q + 1) as Hl.
    { apply Z.lt_succ_r. rewrite <- Z.add_1_r. apply Z.log2_lt_pow2; [nia|].
      pose proof (Z.log2_spec b ltac:(lia)) as [_ H1]. pose proof (Z.log2_spec q ltac:(lia)) as [_ H2].
      replace (Z.log2 b + Z.log2 q + 1 + 1) with (Z.succ (Z.log2 b) + Z.succ (Z.log2 q)) by lia.
      pose proof (Z.log2_nonneg b). pose proof (Z.log2_nonneg q). rewrite Z.pow_add_r by lia. nia. }
    rewrite log2_mul_pow2' in Hl by lia. lia.
Qed.

Lemma num_div_round sx mx ex sy my ey :
  ∃ e l,
    num_div (S754_finite sx mx ex) (S754_finite sy my ey) =
      binary_round_aux prec emax (xorb sx sy) (Zpos mx * 2 ^ (ex - ey - e) / Zpos my) e l ∧
    e ≤ ex - ey ∧
    e ≤ Z.max (Z.log2 (Zpos mx) + ex - Z.log2 (Zpos my) - ey - 53) (-1074) ∧
    0 ≤ Zpos mx * 2 ^ (ex - ey - e) / Zpos my ∧
    e ≤ fexp prec emax (Zdigits2 (Zpos mx * 2 ^ (ex - ey - e) / Zpos my) + e).
Proof.
  destruct (div_core_spec (Zpos mx) ex (Zpos my) ey) as (e & Hd & [_ H0] & H); [lia..|].
  cbn [num_div SFdiv]. rewrite Hd. by exists e, (new_location (Zpos my) (Zpos mx * 2 ^ (ex - ey - e) mod Zpos my)).
Qed.

Lemma num_div_valid x y : valid x = true → valid y = true → valid (num_div x y) = true.
Proof.
  intros Hx Hy. destruct x as [sx|sx| |sx mx ex], y as [sy|sy| |sy my ey]; try done.
  destruct (num_div_round sx mx ex sy my ey) as (e & l & -> & _ & _ & Hq & He).
  by apply round_aux_valid.
Qed.

(** ** Signs and ranges of products and quotients *)

Lemma num_mul_nonneg x y :
  valid x = true → valid y = true → 0 ≤ units x → 0 ≤ units y → 0 ≤ units (num_mul x y).
Proof.
  intros Hx Hy Ux Uy.
  destruct x as [sx|sx| |sx mx ex], y as [sy|sy| |sy my ey]; try done.
  pose proof (valid_finite_bounds _ _ _ Hx). pose proof (valid_finite_bounds _ _ _ Hy).
  pose proof (units_pos_iff sx mx ex). pose proof (units_pos_iff sy my ey).
  assert (sx = false) as -> by (destruct sx; [lia|done]).
  assert (sy = false) as -> by (destruct sy; [lia|done]).
  destruct (num_mul_round_ok mx ex my ey Hx Hy) as [Hm He].
  by apply round_aux_nonneg.
Qed.

Lemma num_div_nonneg x y :
  valid x = true → valid y = true → 0 ≤ units x → 0 ≤ units y → 0 ≤ units (num_div x y).
Proof.
  intros Hx Hy Ux Uy.
  destruct x as [sx|sx| |sx mx ex], y as [sy|sy| |sy my ey]; try done.
  pose proof (valid_finite_bounds _ _ _ Hx). pose proof (valid_finite_bounds _ _ _ Hy).
  pose proof (units_pos_iff sx mx ex). pose proof (units_pos_iff sy my ey).
  assert (sx = false) as -> by (destruct sx; [lia|done]).
  assert (sy = false) as -> by (destruct sy; [lia|done]).
  destruct (num_div_round false mx ex false my ey) as (e & l & -> & _ & _ & Hq & He).
  by apply round_aux_nonneg.
Qed.

Lemma num_div_below_one mx ex my ey :
  -1074 ≤ ex → -1074 ≤ ey → Zpos mx * 2 ^ (ex + 1074) < Zpos my * 2 ^ (ey + 1074) →
  is_finite (num_div (S754_finite false mx ex) (S754_finite false my ey)) = true ∧
  units (num_div (S754_finite false mx ex) (S754_finite false my ey)) ≤ 2 ^ 1074.
Proof.
  intros Hex Hey Hlt. destruct (num_div_round false mx ex false my ey) as (e & l & -> & He1 & He2 & Hq & He).
  assert (Z.log2 (Zpos mx) + ex ≤ Z.log2 (Zpos my) + ey) as Hlog.
  { assert (Z.log2 (Zpos mx * 2 ^ (ex + 1074)) ≤ Z.log2 (Zpos my * 2 ^ (ey + 1074))) as H
      by (apply Z.log2_le_mono; lia).
    rewrite !log2_mul_pow2' in H by lia. lia. }
  apply round_aux_below_one; [done|done|lia|].
  apply Z.div_lt_upper_bound; [lia|].
  apply (Z.mul_lt_mono_pos_r (2 ^ (ey + 1074))); [lia|].
  rewrite mul_pow2_split by lia. replace (ex - ey - e + (ey + 1074)) with (ex + 1074 + (- e)) by lia.
  rewrite Z.pow_add_r by lia. pose proof (Z.pow_pos_nonneg 2 (- e)). nia.
Qed.

(** A proper fraction rounds to at most one. *)
Lemma num_div_le_one x y :
  valid x = true → valid y = true → is_finite x = true → is_finite y = true →
  0 ≤ units x < units y →
  is_finite (num_div x y) = true ∧ 0 ≤ units (num_div x y) ≤ 2 ^ 1074.
Proof.
  intros Hx Hy Fx Fy Hu.
  split; [|split; [apply num_div_nonneg; auto; lia|]];
    (destruct y as [sy|sy| |sy my ey]; try done; [simpl in Hu; lia|]);
    (destruct x as [sx|sx| |sx mx ex]; try done);
    pose proof (valid_finite_bounds _ _ _ Hx); pose proof (valid_finite_bounds _ _ _ Hy);
    pose proof (units_pos_iff sx mx ex); pose proof (units_pos_iff sy my ey);
    (assert (sx = false) as -> by (destruct sx; [lia|done]));
    (assert (sy = false) as -> by (destruct sy; [lia|done]));
    apply num_div_below_one; auto; simpl in Hu; lia.
Qed.

(** A number divided by itself is exactly one. *)
Lemma num_div_diag x :
  valid x = true → is_finite x = true → units x ≠ 0 → num_div x x = of_Z 1.
Proof.
  intros Hx Fx Hu. destruct x as [s|s| |s m e]; try done.
  cbn [num_div SFdiv]. unfold SFdiv_core_binary. rewrite !Z.sub_diag, fexp_eq.
  change (Z.min (Z.max (0 - 53) (-1074)) 0) with (-53). change (0 - -53) with 53. cbn match.
  rewrite Z.shiftl_mul_pow2, (surjective_pairing (Z.div_eucl _ _)) by lia.
  change (Z.div_eucl ?a ?b).1 with (a / b). change (Z.div_eucl ?a ?b).2 with (a mod b).
  rewrite Z.mul_comm, Z.div_mul, Z.mod_mul, xorb_nilpotent by lia.
  unfold new_location, new_location_even, new_location_odd. by destruct (Z.even _).
Qed.

(** ** Integers *)

Lemma of_Z_units n : of_Z n = round_units (n * 2 ^ 1074).
Proof. unfold of_Z. by rewrite binary_normalize_units by lia. Qed.

Lemma of_Z_spec n : Z.abs n ≤ 2 ^ 53 →
  valid (of_Z n) = true ∧ is_finite (of_Z n) = true ∧ units (of_Z n) = n * 2 ^ 1074.
Proof.
  intros Hn. rewrite of_Z_units. split; [apply round_units_valid|]. apply round_units_spec.
  - apply representable_shift; [apply representable_small|]; plia.
  - rewrite Z.abs_mul. change (Z.abs (2 ^ 1074)) with (2 ^ 1074).
    apply Z.le_lt_trans with (2 ^ 53 * 2 ^ 1074); [pnia|]. rewrite <- Z.pow_add_r by plia.
    apply Z.pow_lt_mono_r; plia.
Qed.

(** Sums of integers are exact as long as they stay within 53 bits. *)
Lemma num_add_of_Z a b : 0 ≤ a → 0 ≤ b → a + b ≤ 2 ^ 53 → num_add (of_Z a) (of_Z b) = of_Z (a + b).
Proof.
  intros Ha Hb Hab. destruct (decide (a + b = 0)) as [E|E].
  { assert (a = 0) as -> by plia. assert (b = 0) as -> by plia. done. }
  destruct (of_Z_spec a) as (Va & Fa & Ua); [plia|]. destruct (of_Z_spec b) as (Vb & Fb & Ub); [plia|].
  rewrite num_add_units, Ua, Ub, of_Z_units by (auto; lia). f_equal. plia.
Qed.

Lemma of_Z_amount n : 0 ≤ n ≤ 2 ^ 53 → amount (of_Z n).
Proof. intros Hn. destruct (of_Z_spec n) as (Hv & Hf & Hu); [lia|]. unfold amount. rewrite Hu. split_and!; auto; lia. Qed.

(** ** The unit interval *)

(** A double between zero and one. *)
Definition unit_interval (x : number) : Prop :=
  valid x = true ∧ is_finite x = true ∧ 0 ≤ units x ≤ 2 ^ 1074.

Lemma num_mul_comm x y : num_mul x y = num_mul y x.
Proof.
  destruct x as [sx|sx| |sx mx ex], y as [sy|sy| |sy my ey]; try done;
    unfold num_mul, SFmul; rewrite (xorb_comm sx sy); try done.
  by rewrite (Pos.mul_comm mx), (Z.add_comm ex).
Qed.

Lemma num_mul_one_r x : valid x = true → num_mul x (of_Z 1) = x.
Proof.
  intros Hx. change (of_Z 1) with (S754_finite false (2 ^ 52) (-52)).
  destruct x as [sx|sx| |sx mx ex]; unfold num_mul, SFmul; rewrite ?xorb_false_r; try done.
  change (Zpos (mx * 2 ^ 52)) with (Zpos mx * 2 ^ 52). replace (ex + -52) with (ex - 52) by lia.
  by apply round_aux_exact.
Qed.

Lemma units_one x : valid x = true → is_finite x = true → units x = 2 ^ 1074 → x = of_Z 1.
Proof.
  intros Hv Hf Hu. rewrite <- (round_units_id x), Hu by (auto; lia). by rewrite of_Z_units.
Qed.

Lemma unit_interval_mul x y : unit_interval x → unit_interval y → unit_interval (num_mul x y).
Proof.
  intros (Vx & Fx & Ux) (Vy & Fy & Uy). pose proof (num_mul_valid x y Vx Vy) as Hv.
  destruct (decide (units y = 2 ^ 1074)) as [Ey|Ey].
  { rewrite (units_one y) by done. rewrite num_mul_one_r by done. exact (conj Vx (conj Fx Ux)). }
  split; [done|]. pose proof (num_mul_nonneg x y Vx Vy ltac:(plia) ltac:(plia)) as H0.
  assert (is_finite (num_mul x y) = true ∧ units (num_mul x y) ≤ 2 ^ 1074) as [? ?]; [|split; [done|plia]].
  clear Hv H0.
  destruct x as [sx|sx| |sx mx ex], y as [sy|sy| |sy my ey]; try done.
  pose proof (valid_finite_bounds _ _ _ Vx). pose proof (valid_finite_bounds _ _ _ Vy).
  pose proof (units_pos_iff sx mx ex). pose proof (units_pos_iff sy my ey).
  assert (sx = false) as -> by (destruct sx; [plia|done]).
  assert (sy = false) as -> by (destruct sy; [plia|done]).
  destruct (num_mul_round_ok mx ex my ey Vx Vy) as [Hm He].
  rewrite units_finite in *. cbn [cond_Zopp] in *.
  assert (Zpos mx <= 2 ^ (- ex) ∧ ex ≤ 0) as [Hx Hex].
  { assert (ex ≤ 0). { destruct (Z.le_gt_cases ex 0); [done|]. assert (2 ^ 1074 < 2 ^ (ex + 1074)) by (apply Z.pow_lt_mono_r; plia). pnia. }
    split; [|done]. apply (Z.mul_le_mono_pos_r _ _ (2 ^ (ex + 1074))); [plia|].
    rewrite <- Z.pow_add_r by plia. replace (- ex + (ex + 1074)) with 1074 by plia. plia. }
  assert (Zpos my < 2 ^ (- ey) ∧ ey ≤ 0) as [Hy Hey].
  { assert (ey ≤ 0). { destruct (Z.le_gt_cases ey 0); [done|]. assert (2 ^ 1074 < 2 ^ (ey + 1074)) by (apply Z.pow_lt_mono_r; plia). pnia. }
    split; [|done]. apply (Z.mul_lt_mono_pos_r (2 ^ (ey + 1074))); [plia|].
    rewrite <- Z.pow_add_r by plia. replace (- ey + (ey + 1074)) with 1074 by plia. plia. }
  unfold num_mul, SFmul. cbn [xorb]. apply round_aux_below_one; [plia|done|plia|].
  change (Zpos (mx * my)) with (Zpos mx * Zpos my).
  replace (- (ex + ey)) with (- ex + - ey) by plia. rewrite Z.pow_add_r by plia. pnia.
Qed.

(** A success ratio lies in the unit interval, and is one when nothing failed. *)
Lemma unit_interval_ratio a b : 0 ≤ a ≤ b → 0 < b ≤ 2 ^ 53 → unit_interval (num_div (of_Z a) (of_Z b)).
Proof.
  intros Ha Hb. destruct (of_Z_spec a) as (Va & Fa & Ua); [lia|]. destruct (of_Z_spec b) as (Vb & Fb & Ub); [lia|].
  destruct (decide (a = b)) as [->|Hne].
  { rewrite num_div_diag by (auto; lia). done. }
  split; [by apply num_div_valid|]. apply num_div_le_one; auto. lia.
Qed.
