(* ===== verification/NumberDecimal.v ===== *)
(** * Decimal literals

    [of_decimal s p] is the double nearest [s * 10 ^ p], computed with one rounding.
    A decimal closer to a double than one part in 2 * 10^16 reads as that double,
    which is why seventeen digits name every double. *)

From S2P Require Import Prelude Number NumberFacts.
From Stdlib Require Import ZArith Lia.

Local Open Scope Z_scope.

(** ** The double nearest a fraction *)

(** [q] is the integer nearest [a / b], the even one of two. *)
Definition nearest_even (a b q : Z) : Prop :=
  2 * Z.abs (a - q * b) ≤ b ∧ (2 * Z.abs (a - q * b) = b → Z.even q = true).

(** [y] is the positive fraction [a / b], in units, rounded to 53 significant bits:
    [q] units of [2 ^ n]. *)
Definition nearest (a b : Z) (y : number) : Prop :=
  ∃ n q, 0 ≤ n ∧ a < 2 ^ (53 + n) * b ∧ (0 < n → 2 ^ (52 + n) * b ≤ a) ∧
    nearest_even a (2 ^ n * b) q ∧
    ((q = 0 ∧ y = S754_zero false) ∨
     (∃ m e, y = S754_finite false m e ∧ bounded prec emax m e = true ∧
             Zpos m * 2 ^ (e + 1074) = q * 2 ^ n) ∨
     (y = S754_infinity false ∧ 2 ^ 2098 ≤ q * 2 ^ n)).

Lemma nearest_even_unique a b q q' : 0 < b → nearest_even a b q → nearest_even a b q' → q = q'.
Proof.
  intros Hb [H1 E1] [H2 E2].
  assert (- b ≤ (q - q') * b ≤ b) as Hd by lia.
  assert (q - q' = 0 ∨ q - q' = 1 ∨ q - q' = -1) as [?|Hone] by nia; [lia|]. exfalso.
  assert (Z.even q = true ∧ Z.even q' = true) as [Hq Hq'].
  { split; [apply E1|apply E2]; destruct Hone as [H|H];
      [replace q with (q' + 1) in * by lia|replace q' with (q + 1) in * by lia|
       replace q with (q' + 1) in * by lia|replace q' with (q + 1) in * by lia]; lia. }
  apply Z.even_spec in Hq as [x ->]. apply Z.even_spec in Hq' as [y ->]. lia.
Qed.

Lemma nearest_even_scale c a b q : 0 < c → nearest_even (c * a) (c * b) q ↔ nearest_even a b q.
Proof.
  intros Hc. unfold nearest_even.
  replace (c * a - q * (c * b)) with (c * (a - q * b)) by ring. rewrite Z.abs_mul, (Z.abs_eq c) by lia.
  split; intros [H1 H2]; (split; [nia|]); intros H; apply H2; nia.
Qed.

Lemma quotient_even_nearest u n : 0 ≤ n → nearest_even u (2 ^ n) (quotient_even u n).
Proof.
  intros Hn. pose proof (Z.pow_pos_nonneg 2 n). pose proof (Z.div_mod u (2 ^ n)) as Hdm.
  pose proof (Z.mod_pos_bound u (2 ^ n)) as Hmod. unfold nearest_even, quotient_even.
  set (q := u / 2 ^ n) in *. set (r := u mod 2 ^ n) in *. set (K := 2 ^ n) in *. clearbody q r K.
  destruct (Z.compare_spec (2 * r) K); [destruct (Z.even q) eqn:Ev| |]; (split; [lia|]); try lia; intros _; [done|].
  by rewrite Z.even_add, Ev.
Qed.

Lemma round_units_nearest u : 0 < u → nearest u 1 (round_units u).
Proof.
  intros Hu. destruct (ulp_exp_bounds u Hu) as (Hn & Hhi & Hlo).
  exists (ulp_exp u), (quotient_even u (ulp_exp u)). rewrite !Z.mul_1_r.
  split_and!; [done..|by apply quotient_even_nearest|].
  destruct (round_units_cases u Hu) as [[H ->]|[(_ & H)|[H ->]]]; unfold rounded in *.
  - left. split; [|done]. pose proof (Z.pow_pos_nonneg 2 (ulp_exp u)). nia.
  - right. left. exact H.
  - right. by right.
Qed.

Lemma new_location_eq B r :
  new_location B r =
  if r =? 0 then loc_Exact
  else loc_Inexact (if Z.even B then 2 * r ?= B else match 2 * r + 1 ?= B with Gt => Gt | _ => Lt end).
Proof.
  unfold new_location, new_location_even, new_location_odd. destruct (Z.even B); [done|].
  change (IntDef.Z.compare (2 * r + 1) B) with (2 * r + 1 ?= B). by destruct (2 * r + 1 ?= B).
Qed.

Lemma new_location_quarters B r : 0 < B → 0 ≤ r < B →
  let c := quarters (new_location B r) in
  (c = 0 ∧ r = 0) ∨ (c = 1 ∧ 0 < r ∧ 2 * r < B) ∨ (c = 2 ∧ 2 * r = B) ∨ (c = 3 ∧ B < 2 * r).
Proof.
  intros HB Hr. cbn zeta. rewrite new_location_eq.
  destruct (Z.eqb_spec r 0) as [->|Hr0]; [by left|]. destruct (Z.even B) eqn:Ev.
  - destruct (Z.compare_spec (2 * r) B); cbn [quarters]; lia.
  - assert (2 * r ≠ B) as Hne by (intros <-; by rewrite Z.even_mul in Ev).
    destruct (Z.compare_spec (2 * r + 1) B); cbn [quarters]; lia.
Qed.

(** Two more bits locate a fraction as well as the fraction itself does. *)
Lemma quarters_nearest m B r k q : 0 < B → 0 ≤ r < B → 0 ≤ k →
  nearest_even (4 * m + quarters (new_location B r)) (2 ^ (k + 2)) q →
  nearest_even (m * B + r) (2 ^ k * B) q.
Proof.
  intros HB Hr Hk. rewrite Z.pow_add_r by lia. change (2 ^ 2) with 4.
  pose proof (Z.pow_pos_nonneg 2 k). set (K := 2 ^ k) in *. clearbody K.
  assert (∀ c, 4 * r = c * B → nearest_even (4 * m + c) (K * 4) q → nearest_even (m * B + r) (K * B) q) as Hexact.
  { intros c Hc Hq. apply (nearest_even_scale 4); [lia|]. apply (nearest_even_scale B) in Hq; [|lia].
    replace (4 * (m * B + r)) with (B * (4 * m + c)) by lia. by replace (4 * (K * B)) with (B * (K * 4)) by ring. }
  destruct (new_location_quarters B r HB Hr) as [[-> ->]|[(-> & Hr1 & Hr2)|[(-> & Hr1)|(-> & Hr1)]]].
  - apply Hexact. lia.
  - intros [Hq _]. assert (2 * (q * K) - K ≤ 2 * m < 2 * (q * K) + K) as [H1 H2] by lia. split; nia.
  - apply Hexact. lia.
  - intros [Hq _]. assert (2 * (q * K) - K ≤ 2 * m + 1 < 2 * (q * K) + K) as [H1 H2] by lia. split; nia.
Qed.

(** ** [of_decimal] *)

(** A rounded quotient is the double nearest the fraction. *)
Lemma div_core_nearest a b : 0 < a → 0 < b →
  nearest (a * 2 ^ 1074) b
    (let '(q, e, l) := SFdiv_core_binary prec emax a 0 b 0 in binary_round_aux prec emax false q e l).
Proof.
  intros Ha Hb. destruct (div_core_spec a 0 b 0 Ha Hb) as (e & -> & He0 & _ & Hq & He).
  cbn match. replace (0 - 0 - e) with (- e) in * by plia.
  set (B := a * 2 ^ (- e)) in *.
  pose proof (round_aux_mantissa (B / b) e Hq He) as Hman.
  destruct (round_aux_cases false (B / b) e (new_location b (B mod b)) Hq He) as (q & Hnear & _ & Hcase).
  cbn zeta in *. set (f := fexp prec emax (Zdigits2 (B / b) + e)) in *. clearbody f.
  destruct Hman as (Hm & Hm52 & Hf).
  assert (a * 2 ^ 1074 = B * 2 ^ (e + 1074)) as ->.
  { unfold B. rewrite <- Z.mul_assoc, <- Z.pow_add_r by plia. do 2 f_equal. plia. }
  clearbody B. pose proof (Z.div_mod B b ltac:(plia)) as Hdm. pose proof (Z.mod_pos_bound B b Hb) as Hmod.
  assert (2 ^ (f + 1074) = 2 ^ (f - e) * 2 ^ (e + 1074)) as Hsplit
    by (rewrite <- Z.pow_add_r by plia; f_equal; plia).
  pose proof (Z.pow_pos_nonneg 2 (e + 1074)) as HE. pose proof (Z.pow_pos_nonneg 2 (f - e)) as HF.
  set (E := 2 ^ (e + 1074)) in *. set (F := 2 ^ (f - e)) in *.
  exists (f + 1074), q. split; [plia|]. rewrite (Z.pow_add_r 2 53), (Z.pow_add_r 2 52), Hsplit by plia.
  split_and!.
  - assert (B / b < 2 ^ 53 * F) by (pose proof (Z.div_mod (B / b) F); pose proof (Z.mod_pos_bound (B / b) F); pnia).
    assert (B < 2 ^ 53 * F * b) by pnia. pnia.
  - intros Hn. assert (2 ^ 52 ≤ B / b / F) as H52 by plia.
    assert (2 ^ 52 * F ≤ B / b) by (pose proof (Z.mul_div_le (B / b) F); pnia).
    assert (2 ^ 52 * F * b ≤ B) by pnia. pnia.
  - replace (B * E) with (E * B) by ring. replace (F * E * b) with (E * (F * b)) by ring.
    apply nearest_even_scale; [plia|]. replace B with (B / b * b + B mod b) at 1 by plia.
    apply quarters_nearest; [plia..|]. rewrite Hnear. apply quotient_even_nearest. plia.
  - rewrite <- Hsplit. naive_solver.
Qed.

Lemma of_decimal_nearest s p : 0 < s →
  nearest (s * 10 ^ Z.max p 0 * 2 ^ 1074) (10 ^ Z.max (- p) 0) (of_decimal s p).
Proof.
  intros Hs. unfold of_decimal. destruct (Z.leb_spec 0 p).
  - rewrite Z.max_l, (Z.max_r (- p)), of_Z_units by lia.
    apply round_units_nearest. pose proof (Z.pow_pos_nonneg 10 p). nia.
  - rewrite Z.max_r, Z.mul_1_r, (Z.max_l (- p)) by lia. destruct s as [|s|s]; try lia. cbn [Z.abs Z.ltb].
    apply div_core_nearest; lia.
Qed.

Lemma of_decimal_valid s p : valid (of_decimal s p) = true.
Proof.
  unfold of_decimal. destruct (Z.leb_spec 0 p); [rewrite of_Z_units; apply round_units_valid|].
  destruct s as [|s|s]; [done|..];
    destruct (div_core_spec (Zpos s) 0 (10 ^ (- p)) 0) as (e & Hd & _ & _ & Hq & He); try lia;
    change (Z.abs _) with (Zpos s); rewrite Hd; by apply round_aux_valid.
Qed.

(** The exponent of the fraction can only be that of the double, or the one below
    when the double is the least of its binade. *)
Lemma nearest_mantissa a b m n N : 
  0 < b → 0 ≤ n → 0 ≤ N → Zpos m < 2 ^ 53 → (N = 0 ∨ 2 ^ 52 ≤ Zpos m) →
  a < 2 ^ (53 + n) * b → (0 < n → 2 ^ (52 + n) * b ≤ a) →
  2 * 10 ^ 16 * Z.abs (a - Zpos m * 2 ^ N * b) ≤ Zpos m * 2 ^ N * b →
  ∃ t, t * 2 ^ n = Zpos m * 2 ^ N ∧ 2 * Z.abs (a - t * 2 ^ n * b) < 2 ^ n * b.
Proof.
  intros Hb Hn HN Hm Hm52 Hhi Hlo Herr. destruct (Z.lt_trichotomy n N) as [Hlt|[->|Hgt]].
  - assert (2 ^ N = 2 * 2 ^ (N - 1)) as HN1 by (rewrite <- Z.pow_succ_r by lia; f_equal; lia).
    pose proof (Z.pow_pos_nonneg 2 (N - 1)).
    assert (2 ^ (53 + n) ≤ 2 ^ 53 * 2 ^ (N - 1)) as Hmono
      by (rewrite <- Z.pow_add_r by lia; apply Z.pow_le_mono_r; lia).
    rewrite HN1 in *. set (Q := 2 ^ (N - 1) * b) in *. assert (0 < Q) as HQ by (unfold Q; lia).
    assert (a < 2 ^ 53 * Q) as Ha by (unfold Q; nia).
    replace (Zpos m * (2 * 2 ^ (N - 1)) * b) with (2 * Zpos m * Q) in * by (unfold Q; ring).
    assert (Zpos m = 2 ^ 52) as Em.
    { assert (Zpos m * (2 * (2 * 10 ^ 16 - 1)) < 2 * 10 ^ 16 * 2 ^ 53); [|lia].
      apply (Z.mul_lt_mono_pos_r Q); lia. }
    assert (n = N - 1) as ->.
    { destruct (decide (n = N - 1)); [done|]. exfalso.
      assert (2 ^ (53 + n) ≤ 2 ^ 52 * 2 ^ (N - 1)) as Hmono'
        by (rewrite <- Z.pow_add_r by lia; apply Z.pow_le_mono_r; lia).
      assert (a < 2 ^ 52 * Q) as Ha' by (unfold Q; nia). rewrite Em in *. lia. }
    exists (2 * Zpos m). split; [ring|]. fold Q. rewrite Em in *.
    replace (2 * 2 ^ 52 * 2 ^ (N - 1) * b) with (2 * 2 ^ 52 * Q) by (unfold Q; ring). lia.
  - exists (Zpos m). split; [done|]. pose proof (Z.pow_pos_nonneg 2 N).
    set (Q := 2 ^ N * b) in *. assert (0 < Q) as HQ by (unfold Q; lia).
    replace (Zpos m * 2 ^ N * b) with (Zpos m * Q) in * by (unfold Q; ring).
    assert (Zpos m * Q ≤ (2 ^ 53 - 1) * Q) by (apply Z.mul_le_mono_pos_r; lia). lia.
  - exfalso. specialize (Hlo ltac:(lia)). pose proof (Z.pow_pos_nonneg 2 N).
    assert (2 ^ 53 * 2 ^ N ≤ 2 ^ (52 + n)) as Hmono
      by (rewrite <- Z.pow_add_r by lia; apply Z.pow_le_mono_r; lia).
    set (Q := 2 ^ N * b) in *. assert (0 < Q) as HQ by (unfold Q; lia).
    assert (2 ^ 53 * Q ≤ a) as Ha by (unfold Q; nia).
    replace (Zpos m * 2 ^ N * b) with (Zpos m * Q) in * by (unfold Q; ring).
    assert (Zpos m * Q ≤ (2 ^ 53 - 1) * Q) by (apply Z.mul_le_mono_pos_r; lia). lia.
Qed.

(** A fraction within one part in 2 * 10^16 of a double rounds to it. *)
Lemma nearest_unique a b m e y :
  0 < b → valid (S754_finite false m e) = true → nearest a b y →
  let X := Zpos m * 2 ^ (e + 1074) in
  2 * 10 ^ 16 * Z.abs (a - X * b) ≤ X * b → y = S754_finite false m e.
Proof.
  intros Hb Hv (n & q & Hn & Hhi & Hlo & Hnear & Hy) X Herr.
  pose proof (valid_finite_bounds _ _ _ Hv) as [[He1 He2] Hm]. pose proof (units_bound _ Hv) as Hbound.
  rewrite units_finite in Hbound. cbn [cond_Zopp] in Hbound. fold X in Hbound.
  assert (e + 1074 = 0 ∨ 2 ^ 52 ≤ Zpos m) as Hm52.
  { apply bounded_spec in Hv as [Hc _]. destruct (decide (e + 1074 = 0)); [by left|right].
    apply Z.log2_le_pow2; plia. }
  destruct (nearest_mantissa a b m n (e + 1074)) as (t & Ht & Hclose); try done; [plia|].
  assert (q = t) as ->.
  { apply (nearest_even_unique a (2 ^ n * b)); [plia|done|].
    split; replace (t * (2 ^ n * b)) with (t * 2 ^ n * b) by ring; plia. }
  rewrite Ht in Hy. fold X in Hy.
  assert (0 < X) as HX by (unfold X; pose proof (Z.pow_pos_nonneg 2 (e + 1074)); plia).
  destruct Hy as [[-> _]|[(m' & e' & -> & Hb' & Heq)|[_ Hinf]]]; [plia| |plia].
  destruct (bounded_inj m' e' m e Hb' Hv Heq) as [-> ->]. done.
Qed.

(** The double nearest a fraction does not depend on how the fraction is written. *)
Lemma nearest_exponent a b n n' : 0 < b → 0 ≤ n → 0 ≤ n' →
  a < 2 ^ (53 + n) * b → (0 < n' → 2 ^ (52 + n') * b ≤ a) → n' ≤ n.
Proof.
  intros Hb Hn Hn' Hhi Hlo. destruct (Z.le_gt_cases n' n); [done|].
  specialize (Hlo ltac:(lia)).
  assert (2 ^ (53 + n) ≤ 2 ^ (52 + n')) by (apply Z.pow_le_mono_r; lia). nia.
Qed.

Lemma nearest_deterministic a b y y' : 0 < b → nearest a b y → nearest a b y' → y = y'.
Proof.
  intros Hb (n & q & Hn & Hhi & Hlo & Hq & Hy) (n' & q' & Hn' & Hhi' & Hlo' & Hq' & Hy').
  assert (n' = n) as ->.
  { pose proof (nearest_exponent a b n n'). pose proof (nearest_exponent a b n' n). naive_solver plia. }
  assert (q' = q) as ->.
  { pose proof (Z.pow_pos_nonneg 2 n). apply (nearest_even_unique a (2 ^ n * b)); [plia|done|done]. }
  assert (∀ m e, bounded prec emax m e = true → Zpos m * 2 ^ (e + 1074) = q * 2 ^ n → 0 < q * 2 ^ n < 2 ^ 2098) as Hfin.
  { intros m e Hbd <-. pose proof (units_bound (S754_finite false m e) Hbd) as Hb'. rewrite units_finite in Hb'.
    cbn [cond_Zopp] in Hb'. apply (valid_finite_bounds false) in Hbd. pose proof (Z.pow_pos_nonneg 2 (e + 1074)). plia. }
  destruct Hy as [[-> ->]|[(m & e & -> & Hbd & Hv)|[-> Hv]]], Hy' as [[Hz ->]|[(m' & e' & -> & Hbd' & Hv')|[-> Hv']]];
    try done; subst; try (pose proof (Hfin _ _ Hbd Hv)); try (pose proof (Hfin _ _ Hbd' Hv')); try plia.
  destruct (bounded_inj m e m' e') as [-> ->]; [done..|plia|done].
Qed.

Lemma nearest_scale c a b y : 0 < c → nearest (c * a) (c * b) y → nearest a b y.
Proof.
  intros Hc (n & q & Hn & Hhi & Hlo & Hq & Hy). exists n, q. split_and!; [done|nia| | |done].
  - intros H. specialize (Hlo H). nia.
  - apply (nearest_even_scale c); [done|]. by replace (c * (2 ^ n * b)) with (2 ^ n * (c * b)) by ring.
Qed.

Lemma of_decimal_shift s p : 0 < s → of_decimal (10 * s) p = of_decimal s (p + 1).
Proof.
  intros Hs. pose proof (of_decimal_nearest (10 * s) p ltac:(lia)) as H1.
  pose proof (of_decimal_nearest s (p + 1) Hs) as H2. destruct (Z.le_gt_cases 0 p).
  - rewrite (Z.max_l p), (Z.max_r (- p)) in H1 by lia. rewrite (Z.max_l (p + 1)), (Z.max_r (- (p + 1))) in H2 by lia.
    eapply nearest_deterministic; [|exact H1|]; [done|].
    replace (10 * s * 10 ^ p * 2 ^ 1074) with (s * 10 ^ (p + 1) * 2 ^ 1074); [done|].
    rewrite Z.pow_add_r by lia. change (10 ^ 1) with 10. ring.
  - rewrite (Z.max_r p), (Z.max_l (- p)) in H1 by lia. rewrite (Z.max_r (p + 1)), (Z.max_l (- (p + 1))) in H2 by lia.
    eapply nearest_deterministic; [|eapply (nearest_scale 10); [lia|]|exact H2]; [apply Z.pow_pos_nonneg; lia|].
    replace (10 * 10 ^ (- (p + 1))) with (10 ^ (- p)).
    2: { replace (- p) with (1 + - (p + 1)) by lia. by rewrite Z.pow_add_r by lia. }
    by replace (10 * (s * 10 ^ 0 * 2 ^ 1074)) with (10 * s * 10 ^ 0 * 2 ^ 1074) by ring.
Qed.
