(* ===== verification/NumberText.v ===== *)
(** * Numbers as text

    [num_to_string] is JavaScript's [Number::toString] in radix 10: the shortest
    decimal that rounds to the number, laid out by the language's rules.
    [string_to_num] is [Number(text)] on strings. Template literals, string
    concatenation, [JSON.stringify] and the column transformers of the entities
    are built on the two. *)

From S2P Require Import Prelude Number.
From stdpp Require Export pretty.
From Stdlib Require Import ZArith Ascii String.

Local Open Scope Z_scope.

(** ** Decimal digits *)

Definition string_of_Z (n : Z) : string := pretty n.

(** Number of decimal digits of a positive integer. *)
Definition digit_count (n : Z) : Z := Z.of_nat (String.length (string_of_Z n)).

Fixpoint zeros (n : nat) : string :=
  match n with O => EmptyString | S n => String "0" (zeros n) end.

(** ** Shortest round-tripping decimal *)

(** The exact value [m * 2 ^ e] as a fraction. *)
Definition fraction (m : positive) (e : Z) : Z * Z :=
  if 0 <=? e then (Zpos m * 2 ^ e, 1) else (Zpos m, 2 ^ (- e)).

(** [n] with [10 ^ (n - 1) <= num / den < 10 ^ n]. *)
Definition decimal_exponent (num den : Z) : Z :=
  if den <=? num then digit_count (num / den)
  else let c := (den + num - 1) / num in
       1 - (if c =? 1 then 0 else digit_count (c - 1)).

(** The [k]-digit decimals around the value, the closer one first. *)
Definition candidates (num den n k : Z) : list Z :=
  let (a, b) := if n <=? k then (num * 10 ^ (k - n), den) else (num, den * 10 ^ (n - k)) in
  let lo := a / b in
  if 2 * (a mod b) <? b then [lo; lo + 1] else [lo + 1; lo].

Definition find_digits (x : number) (num den n k : Z) : option Z :=
  head (filter (λ s, num_eqb (of_decimal s (n - k)) x = true) (candidates num den n k)).

(** The triple (s, k, n): digits, their number, and the decimal exponent. *)
Fixpoint shortest_from (x : number) (num den n : Z) (k : Z) (fuel : nat) : option (Z * Z * Z) :=
  match fuel with
  | O => None
  | S fuel =>
    match find_digits x num den n k with
    | Some s => Some (if s =? 10 ^ k then (10 ^ (k - 1), k, n + 1) else (s, k, n))
    | None => shortest_from x num den n (k + 1) fuel
    end
  end.

(** Seventeen digits always suffice for binary64. *)
Definition shortest (m : positive) (e : Z) : option (Z * Z * Z) :=
  let '(num, den) := fraction m e in
  shortest_from (S754_finite false m e) num den (decimal_exponent num den) 1 17.

(** ** [Number::toString] *)

Definition layout (s k n : Z) : string :=
  let digits := string_of_Z s in
  if (k <=? n) && (n <=? 21) then (digits ++ zeros (Z.to_nat (n - k)))%string
  else if (0 <? n) && (n <=? 21) then
    (substring 0 (Z.to_nat n) digits ++ "." ++ substring (Z.to_nat n) (Z.to_nat (k - n)) digits)%string
  else if (-6 <? n) && (n <=? 0) then
    ("0." ++ zeros (Z.to_nat (- n)) ++ digits)%string
  else
    let e := n - 1 in
    let sign := if e <? 0 then "-"%string else "+"%string in
    let expo := (sign ++ string_of_Z (Z.abs e))%string in
    if k =? 1 then (digits ++ "e" ++ expo)%string
    else (substring 0 1 digits ++ "." ++ substring 1 (Z.to_nat (k - 1)) digits ++ "e" ++ expo)%string.

Definition num_to_string (x : number) : string :=
  match x with
  | S754_nan => "NaN"
  | S754_zero _ => "0"
  | S754_infinity s => (if s then "-Infinity" else "Infinity")
  | S754_finite s m e =>
    match shortest m e with
    | Some (d, k, n) => (if s then "-" else EmptyString) ++ layout d k n
    | None => EmptyString
    end
  end%string.

(** ** [toFixed] *)

(** The integer [n] closest to [num / den * 10 ^ f], the larger of two. *)
Definition fixed_digits (num den f : Z) : Z := (2 * num * 10 ^ f + den) / (2 * den).

(** The decimal [n / 10 ^ f] with exactly [f] fraction digits, [f] positive. *)
Definition fixed_layout (n f : Z) : string :=
  let m := string_of_Z n in
  let k := digit_count n in
  let m := if k <=? f then zeros (Z.to_nat (f + 1 - k)) +:+ m else m in
  let cut := (String.length m - Z.to_nat f)%nat in
  substring 0 cut m +:+ "." +:+ substring cut (Z.to_nat f) m.

(** [Number.prototype.toFixed] with a positive number of digits. *)
Definition to_fixed (f : Z) (x : number) : string :=
  match x with
  | S754_zero _ => fixed_layout 0 f
  | S754_finite s m e =>
    let '(num, den) := fraction m e in
    if 10 ^ 21 * den <=? num then num_to_string x
    else (if s then "-" else EmptyString) +:+ fixed_layout (fixed_digits num den f) f
  | _ => num_to_string x
  end.

(** ** [Number(text)] *)

Definition is_space (c : ascii) : bool :=
  let n := N_of_ascii c in ((9 <=? n) && (n <=? 13) || (n =? 32))%N.

Fixpoint trim_left (s : string) : string :=
  match s with
  | String c s' => if is_space c then trim_left s' else s
  | EmptyString => EmptyString
  end.

Fixpoint all_space (s : string) : bool :=
  match s with
  | String c s' => is_space c && all_space s'
  | EmptyString => true
  end.

Fixpoint trim_right (s : string) : string :=
  match s with
  | String c s' => if all_space s then EmptyString else String c (trim_right s')
  | EmptyString => EmptyString
  end.

Definition digit_value (base : Z) (c : ascii) : option Z :=
  let n := Z.of_N (N_of_ascii c) in
  let v := if (48 <=? n) && (n <=? 57) then n - 48
           else if (65 <=? n) && (n <=? 90) then n - 55
           else if (97 <=? n) && (n <=? 122) then n - 87 else 99 in
  if v <? base then Some v else None.

(** Longest run of digits: the accumulated value, how many, and the rest. *)
Fixpoint take_digits (base acc count : Z) (s : string) : Z * Z * string :=
  match s with
  | EmptyString => (acc, count, s)
  | String c s' =>
    match digit_value base c with
    | Some v => take_digits base (acc * base + v) (count + 1) s'
    | None => (acc, count, s)
    end
  end.

Definition strip_prefix (p s : string) : option string :=
  if String.prefix p s then Some (substring (String.length p) (String.length s - String.length p) s)
  else None.

(** The exponent part, if any; [None] when the text is not a literal. *)
Definition parse_exponent (s : string) : option Z :=
  match s with
  | EmptyString => Some 0
  | String c s' =>
    if Ascii.eqb c "e" || Ascii.eqb c "E" then
      let '(neg, s'') := match s' with
                         | String "-" t => (true, t)
                         | String "+" t => (false, t)
                         | _ => (false, s')
                         end in
      let '(v, count, rest) := take_digits 10 0 0 s'' in
      match rest with
      | EmptyString => if count =? 0 then None else Some (if neg then - v else v)
      | _ => None
      end
    else None
  end.

Definition parse_unsigned (s : string) : number :=
  if String.eqb s "Infinity" then S754_infinity false
  else
    let '(v, c1, rest) := take_digits 10 0 0 s in
    let '(v, c2, rest) := match rest with
                          | String "." t => take_digits 10 v 0 t
                          | _ => (v, 0, rest)
                          end in
    if c1 + c2 =? 0 then nan
    else match parse_exponent rest with
         | Some e => of_decimal v (e - c2)
         | None => nan
         end.

Definition parse_radix (base : Z) (s : string) : number :=
  let '(v, count, rest) := take_digits base 0 0 s in
  match rest with
  | EmptyString => if count =? 0 then nan else of_Z v
  | _ => nan
  end.

Definition string_to_num (text : string) : number :=
  let s := trim_right (trim_left text) in
  match s with
  | EmptyString => Number.zero
  | String "-" t => SFopp (parse_unsigned t)
  | String "+" t => parse_unsigned t
  | String "0" (String c t) =>
    if Ascii.eqb c "x" || Ascii.eqb c "X" then parse_radix 16 t
    else if Ascii.eqb c "o" || Ascii.eqb c "O" then parse_radix 8 t
    else if Ascii.eqb c "b" || Ascii.eqb c "B" then parse_radix 2 t
    else parse_unsigned s
  | _ => parse_unsigned s
  end.
