(* ===== verification/NumberTextFacts.v ===== *)
(** * Numbers as text read back as themselves

    Every double is named by its text: [string_to_num (num_to_string x)] is [x],
    but for the sign of zero, which the text does not carry. The digits the text
    is made of always exist, within the seventeen that [shortest] tries. *)

From S2P Require Import Prelude Number NumberFacts NumberDecimal NumberText.
From Stdlib Require Import ZArith Ascii String Lia.

Local Open Scope Z_scope.

(** ** Decimal digits *)

Definition is_digit (c : ascii) : bool := bool_decide (is_Some (digit_value 10 c)).

Fixpoint all_digits (s : string) : bool :=
  match s with EmptyString => true | String c s' => is_digit c && all_digits s' end.

(** The number a run of digits continues [acc] to. *)
Fixpoint digits_value (acc : Z) (s : string) : Z :=
  match s with
  | EmptyString => acc
  | String c s' => digits_value (acc * 10 + default 0 (digit_value 10 c)) s'
  end.

Definition no_digit_first (s : string) : Prop :=
  match s with EmptyString => True | String c _ => digit_value 10 c = None end.

Abbreviation len s := (Z.of_nat (String.length s)).

Lemma take_digits_app acc count s rest :
  all_digits s = true → no_digit_first rest →
  take_digits 10 acc count (s +:+ rest) = (digits_value acc s, count + len s, rest).
Proof.
  revert acc count. induction s as [|c s IH]; intros acc count Hs Hr.
  - cbn [String.append String.length digits_value]. rewrite Z.add_0_r.
    change (EmptyString +:+ rest) with rest. destruct rest as [|c rest]; [done|].
    cbn [take_digits]. change (digit_value 10 c = None) in Hr. by rewrite Hr.
  - cbn [all_digits] in Hs. apply andb_true_iff in Hs as [Hc Hs]. apply bool_decide_eq_true in Hc as [v Hv].
    change (String c s +:+ rest) with (String c (s +:+ rest)). cbn [take_digits digits_value String.length].
    rewrite Hv, IH by done. cbn [default]. f_equal. f_equal. lia.
Qed.

Lemma all_digits_app s t : all_digits (s +:+ t) = all_digits s && all_digits t.
Proof. induction s as [|c s IH]; [done|]. change (is_digit c && all_digits (s +:+ t) = is_digit c && all_digits s && all_digits t). by rewrite IH, andb_assoc. Qed.

Lemma digits_value_app acc s t : digits_value acc (s +:+ t) = digits_value (digits_value acc s) t.
Proof. revert acc. induction s as [|c s IH]; intros acc; [done|]. apply IH. Qed.

Lemma all_digits_zeros n : all_digits (zeros n) = true.
Proof. induction n as [|n IH]; [done|]. exact IH. Qed.

Lemma length_zeros n : String.length (zeros n) = n.
Proof. induction n as [|n IH]; [done|]. cbn. by rewrite IH. Qed.

Lemma digits_value_zeros acc n : digits_value acc (zeros n) = acc * 10 ^ Z.of_nat n.
Proof.
  revert acc. induction n as [|n IH]; intros acc; [simpl; lia|].
  cbn [zeros digits_value]. change (default 0 (digit_value 10 "0")) with 0.
  rewrite IH, Nat2Z.inj_succ, Z.pow_succ_r by lia. ring.
Qed.

(** *** The digits of an integer *)

Lemma pretty_char_digit x : (x < 10)%N → digit_value 10 (pretty_N_char x) = Some (Z.of_N x).
Proof.
  intros Hx.
  assert (x = 0 ∨ x = 1 ∨ x = 2 ∨ x = 3 ∨ x = 4 ∨ x = 5 ∨ x = 6 ∨ x = 7 ∨ x = 8 ∨ x = 9)%N as H by lia.
  by repeat (destruct H as [->|H]; [done|]); subst.
Qed.

(** What [pretty] puts in front of [s]. *)
Lemma pretty_N_go_digits x s :
  ∃ d, pretty_N_go x s = d +:+ s ∧ all_digits d = true ∧
    (∀ acc, digits_value acc d = acc * 10 ^ len d + Z.of_N x) ∧
    Z.of_N x < 10 ^ len d ∧ ((0 < x)%N → 10 ^ (len d - 1) ≤ Z.of_N x) ∧ (x = 0%N → d = EmptyString).
Proof.
  revert s. induction (N.lt_wf_0 x) as [x _ IH]; intros s.
  destruct (decide (x = 0)%N) as [->|Hx].
  { exists EmptyString. rewrite pretty_N_go_0. split_and!; try done. intros acc. simpl. lia. }
  rewrite pretty_N_go_step by lia.
  destruct (IH (x `div` 10)%N ltac:(apply N.div_lt; lia) (String (pretty_N_char (x `mod` 10)) s))
    as (d & -> & Hd & Hv & Hhi & Hlo & He).
  pose proof (pretty_char_digit (x `mod` 10) ltac:(by apply N.mod_lt)) as Hc.
  exists (d +:+ String (pretty_N_char (x `mod` 10)) EmptyString).
  rewrite all_digits_app, Hd, <- string_app_assoc.
  assert (len (d +:+ String (pretty_N_char (x `mod` 10)) EmptyString) = len d + 1) as ->
    by (rewrite string_length_app; simpl; lia).
  assert (Z.of_N x = Z.of_N (x `div` 10) * 10 + Z.of_N (x `mod` 10)) as Hdm
    by (rewrite (N.div_mod x 10) at 1 by done; lia).
  rewrite Z.pow_add_r by lia. change (10 ^ 1) with 10.
  pose proof (N.mod_lt x 10 ltac:(done)) as Hr.
  set (q := (x `div` 10)%N) in *. set (r := (x `mod` 10)%N) in *. clearbody q r.
  split_and!; [done| | |lia| |done].
  - cbn [all_digits andb]. unfold is_digit. by rewrite Hc.
  - intros acc. rewrite digits_value_app, Hv. cbn [digits_value]. rewrite Hc. unfold default, id. lia.
  - intros _. replace (len d + 1 - 1) with (len d) by lia.
    destruct (decide (q = 0)%N) as [E|E]; [rewrite (He E); simpl; lia|].
    specialize (Hlo ltac:(lia)). destruct d as [|c d]; [simpl in *; lia|].
    replace (len (String c d)) with (len (String c d) - 1 + 1) by lia.
    rewrite Z.pow_add_r by (cbn [String.length]; lia). lia.
Qed.

Lemma string_of_Z_digits n : 0 < n →
  all_digits (string_of_Z n) = true ∧ digits_value 0 (string_of_Z n) = n ∧
  10 ^ (len (string_of_Z n) - 1) ≤ n < 10 ^ len (string_of_Z n).
Proof.
  intros Hn. destruct n as [|n|n]; try lia.
  change (string_of_Z (Zpos n)) with (pretty_N_go (Npos n) EmptyString).
  destruct (pretty_N_go_digits (Npos n) EmptyString) as (d & -> & Hd & Hv & Hhi & Hlo & _).
  rewrite string_app_empty_r. split_and!; [done| |by apply Hlo|done]. rewrite Hv. lia.
Qed.

Lemma digit_count_bounds n : 0 < n → 10 ^ (digit_count n - 1) ≤ n < 10 ^ digit_count n.
Proof. intros Hn. apply (string_of_Z_digits n Hn). Qed.

Lemma digit_count_pos n : 0 < n → 1 ≤ digit_count n.
Proof.
  intros Hn. pose proof (digit_count_bounds n Hn) as [_ Hhi].
  assert (0 ≤ digit_count n) by apply Nat2Z.is_nonneg.
  destruct (decide (digit_count n = 0)) as [E|]; [rewrite E in Hhi; lia|lia].
Qed.

Lemma pow10_unique k k' n :
  10 ^ (k - 1) ≤ n < 10 ^ k → 10 ^ (k' - 1) ≤ n < 10 ^ k' → 0 ≤ k → 0 ≤ k' → k = k'.
Proof.
  intros H H' Hk Hk'. assert (10 ^ (k - 1) < 10 ^ k' ∧ 10 ^ (k' - 1) < 10 ^ k) as [H1 H2] by lia.
  assert (∀ a b, 0 ≤ b → 10 ^ (a - 1) < 10 ^ b → a ≤ b) as Hle; [|pose proof (Hle k k'); pose proof (Hle k' k); lia].
  intros a b Hb Hab. destruct (Z.le_gt_cases a b); [done|].
  assert (10 ^ b ≤ 10 ^ (a - 1)) by (apply Z.pow_le_mono_r; lia). lia.
Qed.

(** ** The digits of a double *)

(** [num / den] is the value [m * 2 ^ e]. *)
Lemma fraction_spec m e : -1074 ≤ e →
  let '(num, den) := fraction m e in
  0 < num ∧ 0 < den ∧ num * 2 ^ 1074 = Zpos m * 2 ^ (e + 1074) * den.
Proof.
  intros He. unfold fraction. destruct (Z.leb_spec 0 e).
  - split_and!; [lia..|]. rewrite Z.pow_add_r by lia. ring.
  - split_and!; [lia..|]. rewrite <- Z.mul_assoc, <- Z.pow_add_r by lia. do 2 f_equal. lia.
Qed.

(** The decimal exponent: [10 ^ (n - 1) <= num / den < 10 ^ n], read over integers. *)
Definition in_decade (num den n : Z) : Prop :=
  10 ^ Z.max (n - 1) 0 * den ≤ num * 10 ^ Z.max (1 - n) 0 ∧
  num * 10 ^ Z.max (- n) 0 < 10 ^ Z.max n 0 * den.

Lemma decimal_exponent_spec num den :
  0 < num → 0 < den → in_decade num den (decimal_exponent num den).
Proof.
  intros Hnum Hden. unfold in_decade, decimal_exponent. destruct (Z.leb_spec den num) as [Hle|Hlt].
  - assert (1 ≤ num / den) as Hq by (apply Z.div_le_lower_bound; lia).
    destruct (digit_count_bounds (num / den)) as [Hlo Hhi]; [lia|].
    pose proof (digit_count_pos (num / den) ltac:(lia)) as Hd.
    set (D := digit_count (num / den)) in *. clearbody D.
    rewrite (Z.max_l (D - 1)), (Z.max_r (1 - D)), (Z.max_r (- D)), (Z.max_l D), !Z.mul_1_r by lia.
    pose proof (Z.div_mod num den). pose proof (Z.mod_pos_bound num den). nia.
  - set (c := (den + num - 1) / num).
    assert (num * c ≤ den + num - 1 ∧ den ≤ num * c) as [Hc1 Hc2].
    { unfold c. pose proof (Z.div_mod (den + num - 1) num). pose proof (Z.mod_pos_bound (den + num - 1) num). lia. }
    assert (2 ≤ c) as Hc by nia. clearbody c.
    destruct (Z.eqb_spec c 1); [lia|].
    destruct (digit_count_bounds (c - 1)) as [Hlo Hhi]; [lia|].
    set (D := digit_count (c - 1)) in *. pose proof (digit_count_pos (c - 1) ltac:(lia)) as HD. fold D in HD.
    clearbody D. rewrite (Z.max_r (1 - D - 1)), (Z.max_l (1 - (1 - D))), (Z.max_l (- (1 - D))), (Z.max_r (1 - D)) by lia.
    replace (1 - (1 - D)) with D by lia. replace (- (1 - D)) with (D - 1) by lia. nia.
Qed.

(** The scaled value whose integer part has [k] digits. *)
Definition scaled (num den n k : Z) : Z * Z :=
  if n <=? k then (num * 10 ^ (k - n), den) else (num, den * 10 ^ (n - k)).

Lemma scaled_bounds num den n k :
  0 < num → 0 < den → 1 ≤ k → in_decade num den n →
  let '(a, b) := scaled num den n k in 0 < a ∧ 0 < b ∧ 10 ^ (k - 1) * b ≤ a ∧ a < 10 ^ k * b.
Proof.
  intros Hnum Hden Hk [Hlo Hhi]. unfold scaled.
  assert (∀ x y, 0 ≤ x → 0 ≤ y → 10 ^ (x + y) = 10 ^ x * 10 ^ y) as Hpow by (intros; apply Z.pow_add_r; lia).
  destruct (Z.leb_spec n k).
  - pose proof (Z.pow_pos_nonneg 10 (k - n)). split_and!; [nia|done| |].
    + destruct (Z.le_gt_cases 1 n).
      * rewrite Z.max_l, Z.max_r in Hlo by lia. replace (k - 1) with (n - 1 + (k - n)) by lia. rewrite Hpow by lia. nia.
      * rewrite Z.max_r, Z.max_l in Hlo by lia. replace (k - n) with (k - 1 + (1 - n)) by lia. rewrite Hpow by lia.
        pose proof (Z.pow_pos_nonneg 10 (k - 1)). nia.
    + destruct (Z.le_gt_cases 0 n).
      * rewrite Z.max_r, Z.max_l in Hhi by lia. replace (10 ^ k) with (10 ^ (n + (k - n))) by (f_equal; lia).
        rewrite Hpow by lia. nia.
      * rewrite Z.max_l, Z.max_r in Hhi by lia. replace (k - n) with (k + (- n)) by lia. rewrite Hpow by lia.
        pose proof (Z.pow_pos_nonneg 10 k). nia.
  - rewrite Z.max_l, Z.max_r in Hlo by lia. rewrite Z.max_r, Z.max_l in Hhi by lia.
    pose proof (Z.pow_pos_nonneg 10 (n - k)). split_and!; [done|nia| |].
    + replace (n - 1) with (k - 1 + (n - k)) in Hlo by lia. rewrite Hpow in Hlo by lia. lia.
    + replace n with (k + (n - k)) in Hhi at 1 by lia. rewrite Hpow in Hhi by lia. lia.
Qed.

(** The candidates are [k]-digit numbers, or the power of ten that ends them, and
    the first is within half of the scaled value. *)
Lemma candidates_spec num den n k :
  0 < num → 0 < den → 1 ≤ k → in_decade num den n →
  (∀ s, s ∈ candidates num den n k → 10 ^ (k - 1) ≤ s ≤ 10 ^ k) ∧
  (∃ s, s ∈ candidates num den n k ∧
    let '(a, b) := scaled num den n k in 2 * Z.abs (s * b - a) ≤ b).
Proof.
  intros Hnum Hden Hk Hn. pose proof (scaled_bounds num den n k Hnum Hden Hk Hn) as Hs.
  unfold candidates. fold (scaled num den n k). destruct (scaled num den n k) as [a b].
  destruct Hs as (Ha & Hb & Hlo & Hhi).
  pose proof (Z.div_mod a b) as Hdm. pose proof (Z.mod_pos_bound a b) as Hmod.
  assert (10 ^ (k - 1) ≤ a / b) by (apply Z.div_le_lower_bound; lia).
  assert (a / b < 10 ^ k) by (apply Z.div_lt_upper_bound; lia).
  split.
  - intros s. destruct (_ <? _); rewrite !elem_of_cons, elem_of_nil; lia.
  - destruct (Z.ltb_spec (2 * (a mod b)) b); eexists; (split; [by left|]); lia.
Qed.

(** A decimal within one part in 2 * 10^16 of a double reads as that double. *)
Lemma of_decimal_close m e s p :
  valid (S754_finite false m e) = true → 0 < s →
  let '(num, den) := fraction m e in
  2 * 10 ^ 16 * Z.abs (s * 10 ^ Z.max p 0 * den - num * 10 ^ Z.max (- p) 0) ≤ num * 10 ^ Z.max (- p) 0 →
  of_decimal s p = S754_finite false m e.
Proof.
  intros Hv Hs. pose proof (fraction_spec m e) as Hf. destruct (fraction m e) as [num den].
  pose proof (valid_finite_bounds _ _ _ Hv) as [[He _] _]. destruct (Hf He) as (Hnum & Hden & Heq).
  intros Hclose. assert (0 < 10 ^ Z.max (- p) 0) as Hb by (apply Z.pow_pos_nonneg; lia).
  apply (nearest_unique _ _ m e _ Hb Hv (of_decimal_nearest s p Hs)). cbn zeta.
  set (A := s * 10 ^ Z.max p 0) in *. set (B := 10 ^ Z.max (- p) 0) in *. clearbody A B.
  set (X := Zpos m * 2 ^ (e + 1074)) in *. clearbody X.
  set (T := 2 ^ 1074) in *. assert (0 < T) as HT by done. clearbody T.
  apply (Z.mul_le_mono_pos_r _ _ den); [lia|].
  replace (X * B * den) with (num * B * T) by (replace (X * B * den) with (X * den * B) by ring; rewrite <- Heq; ring).
  rewrite <- Z.mul_assoc, <- (Z.abs_eq den) at 1 by lia. rewrite <- Z.abs_mul.
  replace ((A * T - X * B) * den) with ((A * den - num * B) * T).
  2: { replace ((A * T - X * B) * den) with (A * den * T - X * den * B) by ring. rewrite <- Heq. ring. }
  rewrite Z.abs_mul, (Z.abs_eq T) by lia. nia.
Qed.

(** A finite number equal to a positive double is that double. *)
Lemma num_eqb_finite y m e :
  valid y = true → valid (S754_finite false m e) = true →
  num_eqb y (S754_finite false m e) = true → y = S754_finite false m e.
Proof.
  intros Hy Hx Heq. destruct (is_finite y) eqn:Fy; [|by destruct y as [|[]| |]].
  rewrite num_eqb_units in Heq by done. apply Z.eqb_eq in Heq.
  pose proof (valid_finite_bounds _ _ _ Hx) as [[He _] _]. pose proof (units_pos_iff false m e He) as [[_ Hp] _].
  specialize (Hp eq_refl). rewrite <- (round_units_id y), <- (round_units_id (S754_finite false m e)) by (done || lia).
  by rewrite Heq.
Qed.

Lemma find_digits_sound m e num den n k d :
  valid (S754_finite false m e) = true →
  find_digits (S754_finite false m e) num den n k = Some d →
  d ∈ candidates num den n k ∧ of_decimal d (n - k) = S754_finite false m e.
Proof.
  intros Hv Hd. apply head_Some_elem_of, list_elem_of_filter in Hd as [Heq Hd]. split; [done|].
  apply num_eqb_finite; [apply of_decimal_valid|done|done].
Qed.

Lemma find_digits_17 m e :
  valid (S754_finite false m e) = true →
  let '(num, den) := fraction m e in
  find_digits (S754_finite false m e) num den (decimal_exponent num den) 17 ≠ None.
Proof.
  intros Hv. pose proof (of_decimal_close m e) as Hclose. pose proof (fraction_spec m e) as Hf.
  destruct (fraction m e) as [num den].
  pose proof (valid_finite_bounds _ _ _ Hv) as [[He _] _]. destruct (Hf He) as (Hnum & Hden & _).
  pose proof (decimal_exponent_spec num den Hnum Hden) as Hn. set (n := decimal_exponent num den) in *. clearbody n.
  destruct (candidates_spec num den n 17 Hnum Hden ltac:(lia) Hn) as (Hrange & s & Hs & Hhalf).
  pose proof (scaled_bounds num den n 17 Hnum Hden ltac:(lia) Hn) as Hsc.
  intros Hnone. unfold find_digits in Hnone. apply head_None in Hnone.
  eapply not_elem_of_nil with (x := s). rewrite <- Hnone. apply list_elem_of_filter. split; [|done].
  specialize (Hrange s Hs). rewrite (Hclose s (n - 17) Hv ltac:(lia)); [by apply num_eqb_refl|].
  unfold scaled in *. destruct (Z.leb_spec n 17).
  - rewrite Z.max_r, (Z.max_l (- (n - 17))) by lia. replace (- (n - 17)) with (17 - n) by lia. lia.
  - rewrite Z.max_l, (Z.max_r (- (n - 17))) by lia. lia.
Qed.

(** The digits [shortest] finds: [k] of them, at most seventeen, that read as the double. *)
Definition names (x : number) (d k n : Z) : Prop :=
  1 ≤ k ∧ 10 ^ (k - 1) ≤ d < 10 ^ k ∧ of_decimal d (n - k) = x.

Lemma shortest_from_spec m e num den n fuel k :
  valid (S754_finite false m e) = true →
  0 < num → 0 < den → in_decade num den n → 1 ≤ k →
  (∃ j, (j < fuel)%nat ∧ find_digits (S754_finite false m e) num den n (k + Z.of_nat j) ≠ None) →
  ∃ d k' n', shortest_from (S754_finite false m e) num den n k fuel = Some (d, k', n') ∧
    names (S754_finite false m e) d k' n'.
Proof.
  intros Hv Hnum Hden Hn. revert k. induction fuel as [|fuel IH]; intros k Hk (j & Hj & Hfind); [lia|].
  cbn [shortest_from]. destruct (find_digits _ num den n k) as [d|] eqn:Ed.
  - apply find_digits_sound in Ed as [Hd Hread]; [|done].
    destruct (candidates_spec num den n k Hnum Hden Hk Hn) as [Hrange _]. specialize (Hrange d Hd).
    assert (10 ^ k = 10 * 10 ^ (k - 1)) as Hpow by (rewrite <- Z.pow_succ_r by lia; f_equal; lia).
    pose proof (Z.pow_pos_nonneg 10 (k - 1)).
    destruct (Z.eqb_spec d (10 ^ k)) as [->|]; do 3 eexists; (split; [reflexivity|]); unfold names.
    + split; [done|]. split; [lia|]. rewrite <- Hread, Hpow, of_decimal_shift by lia. f_equal. lia.
    + split; [done|]. split; [lia|done].
  - apply IH; [lia|]. destruct j as [|j]; [by rewrite Z.add_0_r, Ed in Hfind|].
    exists j. split; [lia|]. by replace (k + 1 + Z.of_nat j) with (k + Z.of_nat (S j)) by lia.
Qed.

(** Seventeen digits name every double. *)
Lemma shortest_spec m e :
  valid (S754_finite false m e) = true →
  ∃ d k n, shortest m e = Some (d, k, n) ∧ names (S754_finite false m e) d k n.
Proof.
  intros Hv. pose proof (find_digits_17 m e Hv) as H17. pose proof (fraction_spec m e) as Hf. unfold shortest.
  destruct (fraction m e) as [num den].
  pose proof (valid_finite_bounds _ _ _ Hv) as [[He _] _]. destruct (Hf He) as (Hnum & Hden & _).
  apply shortest_from_spec; [done..|by apply decimal_exponent_spec|done|].
  exists 16%nat. split; [lia|]. by change (1 + Z.of_nat 16) with 17.
Qed.

(** ** Literals

    The texts [layout] makes, as the parts a reader takes them apart into. *)

Record literal := { int_part : string; frac_part : string; exp_part : option Z }.

Definition exponent_text (e : option Z) : string :=
  match e with
  | None => EmptyString
  | Some e => String "e" (String (if e <? 0 then "-"%char else "+"%char) (string_of_Z (Z.abs e)))
  end.

Definition fraction_text (f : string) : string :=
  match f with EmptyString => EmptyString | _ => String "." f end.

Definition literal_text (l : literal) : string :=
  int_part l +:+ (fraction_text (frac_part l) +:+ exponent_text (exp_part l)).

(** Digits without a leading zero. *)
Definition plain_digits (s : string) : Prop :=
  all_digits s = true ∧ s ≠ EmptyString ∧ (s = "0"%string ∨ String.get 0 s ≠ Some "0"%char).

Definition literal_ok (l : literal) : Prop :=
  plain_digits (int_part l) ∧ all_digits (frac_part l) = true.

Definition literal_value (l : literal) : number :=
  of_decimal (digits_value 0 (int_part l +:+ frac_part l)) (default 0 (exp_part l) - len (frac_part l)).

Lemma digits_value_acc acc s : digits_value acc s = acc * 10 ^ len s + digits_value 0 s.
Proof.
  revert acc. induction s as [|c s IH]; intros acc; [simpl; lia|]. cbn [digits_value].
  rewrite IH, (IH (0 * 10 + _)). change (len (String c s)) with (Z.of_nat (S (String.length s))).
  rewrite Nat2Z.inj_succ, Z.pow_succ_r by lia. ring.
Qed.

Lemma digit_value_range c v : digit_value 10 c = Some v → 0 ≤ v < 10.
Proof.
  unfold digit_value. cbn zeta. set (n := Z.of_N (N_of_ascii c)).
  assert (0 ≤ n) as Hn by lia. intros H.
  repeat match type of H with context [if ?b then _ else _] => destruct b eqn:? end; simplify_eq; lia.
Qed.

Lemma digits_value_bound s : all_digits s = true → 0 ≤ digits_value 0 s < 10 ^ len s.
Proof.
  induction s as [|c s IH]; [done|]. cbn [all_digits]. intros [Hc Hs]%andb_true_iff. specialize (IH Hs).
  apply bool_decide_eq_true in Hc as [v Hv]. pose proof (digit_value_range c v Hv).
  cbn [digits_value]. rewrite Hv. unfold default, id. rewrite digits_value_acc.
  change (len (String c s)) with (Z.of_nat (S (String.length s))). rewrite Nat2Z.inj_succ, Z.pow_succ_r by lia. nia.
Qed.

Lemma string_of_Z_plain n : 0 < n → plain_digits (string_of_Z n).
Proof.
  intros Hn. destruct (string_of_Z_digits n Hn) as (Hd & Hv & Hlo & Hhi).
  destruct (string_of_Z n) as [|c s]; [simpl in *; lia|]. split_and!; [done|done|right].
  intros [= ->]. cbn [all_digits] in Hd. apply andb_true_iff in Hd as [_ Hd].
  pose proof (digits_value_bound s Hd). cbn [digits_value] in Hv.
  change (default 0 (digit_value 10 "0")) with 0 in Hv. change (0 * 10 + 0) with 0 in Hv.
  replace (len (String "0" s) - 1) with (len s) in Hlo by (cbn [String.length]; lia). lia.
Qed.

Lemma all_digits_split n s : (n ≤ String.length s)%nat → all_digits s = true →
  all_digits (substring 0 n s) = true ∧ all_digits (substring n (String.length s - n) s) = true.
Proof.
  intros Hn Hs. rewrite <- (substring_split n s Hn), all_digits_app in Hs. by apply andb_true_iff in Hs.
Qed.

Lemma plain_digits_prefix n s : (0 < n ≤ String.length s)%nat → plain_digits s → plain_digits (substring 0 n s).
Proof.
  intros Hn (Hd & He & Hz). destruct (all_digits_split n s) as [Hd1 _]; [lia|done|].
  destruct s as [|c s]; [done|]. destruct n as [|n]; [lia|]. split_and!; [done|done|].
  destruct Hz as [[= -> ->]|Hz]; [left; by destruct n|right; done].
Qed.

Lemma plain_digits_zeros n s : plain_digits s → String.get 0 s ≠ Some "0"%char → plain_digits (s +:+ zeros n).
Proof.
  intros (Hd & He & _) Hz. split_and!.
  - by rewrite all_digits_app, Hd, all_digits_zeros.
  - by destruct s.
  - right. by destruct s.
Qed.

Lemma digits_length d k : 1 ≤ k → 10 ^ (k - 1) ≤ d < 10 ^ k → len (string_of_Z d) = k.
Proof.
  intros Hk Hd. pose proof (Z.pow_pos_nonneg 10 (k - 1)).
  destruct (string_of_Z_digits d ltac:(lia)) as (_ & _ & Hb). apply (pow10_unique _ _ d Hb Hd); lia.
Qed.

Lemma fraction_text_cons s : s ≠ EmptyString → fraction_text s = String "." s.
Proof. by destruct s. Qed.

(** The exponential layout. *)
Lemma exponent_literal s k n :
  1 ≤ k → len s = k → plain_digits s →
  ∃ l, (let e := n - 1 in
        let sign := if e <? 0 then "-"%string else "+"%string in
        let expo := (sign ++ string_of_Z (Z.abs e))%string in
        if k =? 1 then (s ++ "e" ++ expo)%string
        else (substring 0 1 s ++ "." ++ substring 1 (Z.to_nat (k - 1)) s ++ "e" ++ expo)%string) = literal_text l ∧
    literal_ok l ∧ literal_value l = of_decimal (digits_value 0 s) (n - k).
Proof.
  intros Hk Hlen Hplain. pose proof Hplain as [Hdig _]. cbn zeta.
  assert (("e" ++ (if (n - 1 <? 0)%Z then "-"%string else "+"%string) ++ string_of_Z (Z.abs (n - 1)))%string =
    exponent_text (Some (n - 1))) as -> by (simpl; by destruct (n - 1 <? 0)).
  destruct (Z.eqb_spec k 1) as [Hk1|Hk1].
  - exists {| int_part := s; frac_part := EmptyString; exp_part := Some (n - 1) |}.
    unfold literal_text, literal_ok, literal_value. cbn [int_part frac_part exp_part fraction_text].
    rewrite string_app_empty_r. split; [done|]. split; [done|]. f_equal. unfold default, id. simpl. lia.
  - destruct (all_digits_split 1 s) as [_ Hd2]; [lia|done|].
    pose proof (substring_split 1 s ltac:(lia)) as Hsplit. pose proof (substring_length 1 s ltac:(lia)) as Hl1.
    replace (String.length s - 1)%nat with (Z.to_nat (k - 1)) in * by lia.
    assert (len (substring 1 (Z.to_nat (k - 1)) s) = k - 1) as Hl2.
    { rewrite <- Hsplit, string_length_app in Hlen. lia. }
    exists {| int_part := substring 0 1 s; frac_part := substring 1 (Z.to_nat (k - 1)) s; exp_part := Some (n - 1) |}.
    unfold literal_text, literal_ok, literal_value. cbn [int_part frac_part exp_part].
    rewrite Hsplit, Hl2, fraction_text_cons by (intros E; rewrite E in Hl2; simpl in Hl2; lia).
    split; [done|]. split; [split; [apply plain_digits_prefix; [lia|done]|done]|].
    f_equal. unfold default, id. lia.
Qed.

(** Every layout is a literal of the number its digits stand for. *)
Lemma layout_literal d k n :
  1 ≤ k → 10 ^ (k - 1) ≤ d < 10 ^ k →
  ∃ l, layout d k n = literal_text l ∧ literal_ok l ∧ literal_value l = of_decimal d (n - k).
Proof.
  intros Hk Hd. pose proof (Z.pow_pos_nonneg 10 (k - 1)) as Hpow.
  pose proof (digits_length d k Hk Hd) as Hlen.
  destruct (string_of_Z_digits d ltac:(lia)) as (Hdig & Hval & _).
  pose proof (string_of_Z_plain d ltac:(lia)) as Hplain.
  pose proof (exponent_literal (string_of_Z d) k n Hk Hlen Hplain) as Hexp. rewrite Hval in Hexp.
  assert (String.get 0 (string_of_Z d) ≠ Some "0"%char) as Hz.
  { destruct Hplain as (_ & _ & [Hz|Hz]); [|done]. rewrite Hz in Hval. simpl in Hval. lia. }
  unfold layout. set (s := string_of_Z d) in *. clearbody s. cbn zeta.
  destruct (Z.leb_spec n 21) as [H21|H21]; rewrite ?andb_true_r, ?andb_false_r.
  2: { rewrite (proj2 (Z.leb_gt n 0)), andb_false_r by lia. exact Hexp. }
  destruct (Z.leb_spec k n); [|destruct (Z.ltb_spec 0 n)]; [| |destruct (Z.ltb_spec (-6) n)]; cbn [andb].
  - exists {| int_part := s +:+ zeros (Z.to_nat (n - k)); frac_part := EmptyString; exp_part := None |}.
    unfold literal_text, literal_ok, literal_value. cbn [int_part frac_part exp_part fraction_text exponent_text].
    rewrite !string_app_empty_r. split; [done|]. split; [split; [by apply plain_digits_zeros|done]|].
    rewrite digits_value_app, digits_value_zeros, Hval, Z2Nat.id by lia. unfold default, id, of_decimal.
    change (0 - len EmptyString) with 0. rewrite (proj2 (Z.leb_le 0 (n - k))), Z.pow_0_r, Z.mul_1_r by lia. done.
  - destruct (all_digits_split (Z.to_nat n) s) as [_ Hd2]; [lia|done|].
    pose proof (substring_split (Z.to_nat n) s ltac:(lia)) as Hsplit.
    pose proof (substring_length (Z.to_nat n) s ltac:(lia)) as Hl1.
    replace (String.length s - Z.to_nat n)%nat with (Z.to_nat (k - n)) in * by lia.
    assert (len (substring (Z.to_nat n) (Z.to_nat (k - n)) s) = k - n) as Hl2.
    { rewrite <- Hsplit, string_length_app in Hlen. lia. }
    exists {| int_part := substring 0 (Z.to_nat n) s; frac_part := substring (Z.to_nat n) (Z.to_nat (k - n)) s;
              exp_part := None |}.
    unfold literal_text, literal_ok, literal_value. cbn [int_part frac_part exp_part exponent_text].
    rewrite Hsplit, Hl2, Hval, fraction_text_cons by (intros E; rewrite E in Hl2; simpl in Hl2; lia).
    rewrite string_app_empty_r. split; [done|]. split; [split; [apply plain_digits_prefix; [lia|done]|done]|].
    f_equal. unfold default. lia.
  - rewrite (proj2 (Z.leb_le n 0)) by lia. cbn [andb].
    exists {| int_part := "0"; frac_part := zeros (Z.to_nat (- n)) +:+ s; exp_part := None |}.
    unfold literal_text, literal_ok, literal_value. cbn [int_part frac_part exp_part exponent_text].
    rewrite fraction_text_cons by (intros E; apply (f_equal String.length) in E; rewrite string_length_app in E; simpl in E; lia).
    rewrite string_app_empty_r. split; [done|].
    split; [split; [by repeat split; auto|by rewrite all_digits_app, all_digits_zeros]|].
    rewrite !digits_value_app, digits_value_zeros. change (digits_value 0 "0") with 0.
    rewrite Z.mul_0_l, Hval, string_length_app, length_zeros. f_equal. unfold default. lia.
  - rewrite ?andb_false_r. exact Hexp.
Qed.

(** ** [Number(text)] on literals *)

Lemma no_digit_after_int l : no_digit_first (fraction_text (frac_part l) +:+ exponent_text (exp_part l)).
Proof. by destruct l as [i [|c f] [e|]]. Qed.

Lemma parse_exponent_text e : parse_exponent (exponent_text e) = Some (default 0 e).
Proof.
  destruct e as [e|]; [|done]. cbn [exponent_text parse_exponent].
  assert (∀ neg, (let '(v, count, rest) := take_digits 10 0 0 (string_of_Z (Z.abs e)) in
     match rest with
     | EmptyString => if count =? 0 then None else Some (if neg : bool then - v else v)
     | _ => None
     end) = Some (if neg then - Z.abs e else Z.abs e)) as Hdig.
  { intros neg. destruct (decide (e = 0)) as [->|He0]; [by destruct neg|].
    destruct (string_of_Z_digits (Z.abs e) ltac:(lia)) as (Hd & Hv & _).
    rewrite <- (string_app_empty_r (string_of_Z (Z.abs e))), take_digits_app by done. cbn match.
    rewrite Hv. destruct (Z.eqb_spec (0 + len (string_of_Z (Z.abs e))) 0) as [E|E]; [|done].
    destruct (string_of_Z (Z.abs e)); [|simpl in E; lia]. simpl in Hv. lia. }
  change (Ascii.eqb "e" "e" || Ascii.eqb "e" "E") with true. cbn match.
  destruct (Z.ltb_spec e 0).
  - etransitivity; [exact (Hdig true)|]. unfold default, id. f_equal. lia.
  - etransitivity; [exact (Hdig false)|]. unfold default, id. f_equal. lia.
Qed.

Lemma parse_unsigned_literal l : literal_ok l → parse_unsigned (literal_text l) = literal_value l.
Proof.
  intros ((Hint & Hne & _) & Hfrac). unfold parse_unsigned, literal_text.
  assert (String.eqb (int_part l +:+ (fraction_text (frac_part l) +:+ exponent_text (exp_part l))) "Infinity" = false) as ->.
  { apply String.eqb_neq. destruct (int_part l) as [|c s]; [done|]. intros [= -> _]. done. }
  rewrite take_digits_app by (done || apply no_digit_after_int). cbn match.
  assert (0 < len (int_part l)) as Hlen by (destruct (int_part l); [done|cbn [String.length]; lia]).
  unfold literal_value. destruct (frac_part l) as [|c f] eqn:Ef.
  - cbn [fraction_text]. change (EmptyString +:+ ?x) with x.
    assert (∀ (A : Type) (f : string → A) (y : A),
      match exponent_text (exp_part l) with String "." t => f t | _ => y end = y) as Hm
      by (intros; by destruct (exp_part l)).
    rewrite Hm. cbn match. rewrite Z.add_0_r, (proj2 (Z.eqb_neq _ _)) by lia.
    rewrite parse_exponent_text, string_app_empty_r. done.
  - cbn [fraction_text]. rewrite string_app_cons. cbn match. rewrite take_digits_app.
    2: done.
    2: by destruct (exp_part l).
    cbn match. rewrite (proj2 (Z.eqb_neq _ _)) by lia. rewrite parse_exponent_text, digits_value_app. done.
Qed.

(** *** Nothing to trim *)

Fixpoint no_space (s : string) : bool :=
  match s with EmptyString => true | String c s' => negb (is_space c) && no_space s' end.

Lemma trim_left_id s : no_space s = true → trim_left s = s.
Proof. destruct s as [|c s]; [done|]. cbn [no_space trim_left]. by destruct (is_space c). Qed.

Lemma trim_right_id s : no_space s = true → trim_right s = s.
Proof.
  induction s as [|c s IH]; [done|]. cbn [no_space trim_right all_space]. intros [Hc Hs]%andb_true_iff.
  apply negb_true_iff in Hc. by rewrite Hc, (IH Hs).
Qed.

Lemma no_space_app s t : no_space (s +:+ t) = no_space s && no_space t.
Proof.
  induction s as [|c s IH]; [done|]. rewrite string_app_cons. cbn [no_space]. by rewrite IH, andb_assoc.
Qed.

Lemma digit_not_space c : is_digit c = true → is_space c = false.
Proof. destruct c as [[] [] [] [] [] [] [] []]; (reflexivity || (intros H; discriminate H)). Qed.

Lemma no_space_digits s : all_digits s = true → no_space s = true.
Proof.
  induction s as [|c s IH]; [done|]. cbn [all_digits no_space]. intros [Hc Hs]%andb_true_iff.
  by rewrite (digit_not_space c Hc), IH.
Qed.

Lemma string_of_Z_abs_digits e : all_digits (string_of_Z (Z.abs e)) = true.
Proof.
  destruct (decide (e = 0)) as [->|He]; [done|]. apply string_of_Z_digits. lia.
Qed.

Lemma literal_no_space l : literal_ok l → no_space (literal_text l) = true.
Proof.
  intros ((Hint & _) & Hfrac). unfold literal_text. rewrite !no_space_app, no_space_digits by done.
  assert (no_space (fraction_text (frac_part l)) = true) as ->.
  { destruct (frac_part l) as [|c f]; [done|]. by apply no_space_digits in Hfrac. }
  destruct (exp_part l) as [e|]; [|done]. cbn [exponent_text no_space].
  rewrite no_space_digits by apply string_of_Z_abs_digits. by destruct (e <? 0).
Qed.

(** A literal is read as an unsigned decimal: no sign, no radix prefix. *)
Lemma literal_unsigned l : literal_ok l →
  (match literal_text l with
   | EmptyString => Number.zero
   | String "-" t => SFopp (parse_unsigned t)
   | String "+" t => parse_unsigned t
   | String "0" (String c t) =>
     if Ascii.eqb c "x" || Ascii.eqb c "X" then parse_radix 16 t
     else if Ascii.eqb c "o" || Ascii.eqb c "O" then parse_radix 8 t
     else if Ascii.eqb c "b" || Ascii.eqb c "B" then parse_radix 2 t
     else parse_unsigned (literal_text l)
   | _ => parse_unsigned (literal_text l)
   end) = parse_unsigned (literal_text l).
Proof.
  destruct l as [i f e]. intros ((Hint & Hne & Hz) & _). cbn [int_part] in *. unfold literal_text. cbn [int_part frac_part exp_part].
  destruct i as [|c i]; [done|]. cbn [all_digits] in Hint. apply andb_true_iff in Hint as [Hc _].
  destruct Hz as [[= -> ->]|Hz].
  - destruct f as [|d f]; [destruct e as [e|]|]; done.
  - rewrite string_app_cons. generalize (i +:+ (fraction_text f +:+ exponent_text e)). intros t.
    cbn [String.get] in Hz.
    destruct c as [[] [] [] [] [] [] [] []]; try discriminate Hc; try reflexivity. done.
Qed.

Lemma string_to_num_literal l : literal_ok l → string_to_num (literal_text l) = literal_value l.
Proof.
  intros Hl. unfold string_to_num. pose proof (literal_no_space l Hl) as Hs.
  rewrite trim_left_id, trim_right_id by done. rewrite (literal_unsigned l Hl). by apply parse_unsigned_literal.
Qed.

Lemma string_to_num_opp l : literal_ok l →
  string_to_num (String "-" (literal_text l)) = SFopp (literal_value l).
Proof.
  intros Hl. unfold string_to_num. pose proof (literal_no_space l Hl) as Hs.
  rewrite trim_left_id, trim_right_id by done. by rewrite parse_unsigned_literal.
Qed.

(** The text of a finite double other than zero: an optional sign and a literal. *)
Lemma num_to_string_literal s m e :
  valid (S754_finite s m e) = true →
  ∃ l, num_to_string (S754_finite s m e) = (if s then "-" else EmptyString) +:+ literal_text l ∧
    literal_ok l ∧ literal_value l = S754_finite false m e.
Proof.
  intros Hv. destruct (shortest_spec m e Hv) as (d & k & n & Hs & Hk & Hd & Hread).
  destruct (layout_literal d k n Hk Hd) as (l & Hl & Hok & Hval).
  exists l. cbn [num_to_string]. rewrite Hs, Hl. split; [done|]. split; [done|]. by rewrite Hval.
Qed.

(** A number is named by its text; the text of both zeros is the one of zero. *)
Lemma number_text_round_trip x :
  valid x = true →
  string_to_num (num_to_string x) = match x with S754_zero _ => Number.zero | _ => x end.
Proof.
  destruct x as [s|s| |s m e]; intros Hv; [done|by destruct s|done|].
  destruct (num_to_string_literal s m e Hv) as (l & -> & Hok & Hval). destruct s.
  - change ("-" +:+ literal_text l) with (String "-" (literal_text l)).
    by rewrite string_to_num_opp, Hval.
  - change (EmptyString +:+ ?x) with x. by rewrite string_to_num_literal.
Qed.
