(* ===== verification/Json.v ===== *)
(** * JSON values, [JSON.stringify] and stored columns

    Event payloads are plain objects. A [json] value is what they can hold once
    serialised; an object is its properties in enumeration order. The
    [simple-json] columns store [JSON.stringify payload] and read back
    [JSON.parse] of it, which is [stored]. *)

From S2P Require Import Prelude Number NumberText.
From Stdlib Require Import ZArith Ascii String.

(** ** Data *)

#[local] Unset Elimination Schemes.

Inductive json :=
| JNull
| JBool (b : bool)
| JNum (n : number)
| JStr (s : string)
| JArr (l : list json)
| JObj (o : list (string * json)).

#[local] Set Elimination Schemes.

(** An object literal with string-named properties. *)
Abbreviation object := (list (string * json)).

(** ** Property access *)

Fixpoint get_property (k : string) (o : object) : option json :=
  match o with
  | [] => None
  | (k', v) :: o' => if String.eqb k k' then Some v else get_property k o'
  end.

(** [value[k]] for any value: only objects have named properties here. *)
Definition property (k : string) (j : json) : option json :=
  match j with JObj o => get_property k o | _ => None end.

(** Whether a value, or no value, counts as true in a condition. *)
Definition truthy (v : option json) : bool :=
  match v with
  | None | Some JNull => false
  | Some (JBool b) => b
  | Some (JNum n) => negb (is_nan n || num_eqb n Number.zero)
  | Some (JStr s) => negb (String.eqb s EmptyString)
  | Some _ => true
  end.

(** [Object.keys]. *)
Definition object_keys (o : object) : list string := o.*1.

(** A canonical array index: such keys are enumerated first, in numeric order. *)
Definition array_index (k : string) : option Z :=
  match take_digits 10 0 0 k with
  | (v, count, EmptyString) =>
    if (0 <? count)%Z && String.eqb (string_of_Z v) k && (v <? 2 ^ 32 - 1)%Z then Some v else None
  | _ => None
  end.

(** [o[k] = v]: replace in place, or add where enumeration order puts it. *)
Fixpoint add_property (k : string) (v : json) (o : object) : object :=
  match o with
  | [] => [(k, v)]
  | (k', v') :: o' =>
    if String.eqb k k' then (k, v) :: o'
    else match array_index k, array_index k' with
         | Some i, Some i' => if (i <? i')%Z then (k, v) :: o else (k', v') :: add_property k v o'
         | Some _, None => (k, v) :: o
         | None, _ => (k', v') :: add_property k v o'
         end
  end.

(** ** [JSON.stringify] *)

Definition quote : ascii := ascii_of_nat 34.
Definition backslash : ascii := ascii_of_nat 92.

Definition hex_digit (n : N) : ascii :=
  ascii_of_N (if (n <? 10)%N then 48 + n else 87 + n).

Definition escape_char (c : ascii) (rest : string) : string :=
  let n := N_of_ascii c in
  if (n =? 34)%N then String backslash (String quote rest)
  else if (n =? 92)%N then String backslash (String backslash rest)
  else if (n =? 8)%N then String backslash (String "b" rest)
  else if (n =? 9)%N then String backslash (String "t" rest)
  else if (n =? 10)%N then String backslash (String "n" rest)
  else if (n =? 12)%N then String backslash (String "f" rest)
  else if (n =? 13)%N then String backslash (String "r" rest)
  else if (n <? 32)%N then
    String backslash (String "u" (String "0" (String "0"
      (String (hex_digit (n / 16)) (String (hex_digit (n mod 16)) rest)))))
  else String c rest.

Fixpoint escape (s : string) : string :=
  match s with
  | EmptyString => EmptyString
  | String c s' => escape_char c (escape s')
  end.

Definition quoted (s : string) : string :=
  (String quote (escape s) ++ String quote EmptyString)%string.

Definition stringify_num (n : number) : string :=
  if is_finite n then num_to_string n else "null"%string.

Fixpoint concat_comma (l : list string) : string :=
  match l with
  | [] => EmptyString
  | [s] => s
  | s :: l' => (s ++ "," ++ concat_comma l')%string
  end.

Fixpoint stringify (j : json) : string :=
  match j with
  | JNull => "null"
  | JBool b => if b then "true" else "false"
  | JNum n => stringify_num n
  | JStr s => quoted s
  | JArr l => "[" ++ concat_comma (map stringify l) ++ "]"
  | JObj o => "{" ++ concat_comma (map (λ '(k, v), quoted k ++ ":" ++ stringify v) o) ++ "}"
  end%string.

(** What a [simple-json] column gives back: numbers that JSON cannot express
    have become [null], and the negative zero has become zero. *)
Definition stored_num (n : number) : json :=
  match n with
  | S754_nan | S754_infinity _ => JNull
  | S754_zero _ => JNum Number.zero
  | S754_finite _ _ _ => JNum n
  end.

Fixpoint stored (j : json) : json :=
  match j with
  | JNum n => stored_num n
  | JArr l => JArr (map stored l)
  | JObj o => JObj (map (λ '(k, v), (k, stored v)) o)
  | _ => j
  end.

(** ** [Number(value)] *)

Fixpoint json_to_text (j : json) : string :=
  match j with
  | JNull => "null"
  | JBool b => if b then "true" else "false"
  | JNum n => num_to_string n
  | JStr s => s
  | JArr l => concat_comma (map (λ x, match x with JNull => EmptyString | _ => json_to_text x end) l)
  | JObj _ => "[object Object]"
  end%string.

Definition json_to_num (j : json) : number :=
  match j with
  | JNull => Number.zero
  | JBool b => if b then of_Z 1 else Number.zero
  | JNum n => n
  | JStr s => string_to_num s
  | JArr _ => string_to_num (json_to_text j)
  | JObj _ => nan
  end.

(** [Number(payload[k] ?? 0)]. *)
Definition number_property (k : string) (payload : json) : number :=
  match property k payload with
  | None | Some JNull => Number.zero
  | Some v => json_to_num v
  end.

(** ** Facts *)

Lemma json_nested_ind (P : json → Prop) :
  P JNull → (∀ b, P (JBool b)) → (∀ n, P (JNum n)) → (∀ s, P (JStr s)) →
  (∀ l, Forall P l → P (JArr l)) → (∀ o, Forall (λ kv, P kv.2) o → P (JObj o)) → ∀ j, P j.
Proof.
  intros Hnull Hb Hn Hs Ha Ho. fix IH 1. intros [|b|n|s|l|o].
  - exact Hnull.
  - apply Hb.
  - apply Hn.
  - apply Hs.
  - apply Ha. induction l as [|x l IHl]; constructor; [apply IH|exact IHl].
  - apply Ho. induction o as [|[k x] o IHo]; constructor; [apply IH|exact IHo].
Qed.

Lemma stringify_stored_num n : stringify (stored_num n) = stringify_num n.
Proof. by destruct n as [[]|[]| |]. Qed.

(** Writing a payload to its column and reading it back does not change its
    serialisation, so the hash recomputed from the row is the hash of the event. *)
Lemma stringify_stored j : stringify (stored j) = stringify j.
Proof.
  induction j as [| | | |l IH|o IH] using json_nested_ind; try done; simpl.
  - apply stringify_stored_num.
  - do 3 f_equal. rewrite map_map. apply map_ext_Forall. done.
  - do 3 f_equal. rewrite map_map. apply map_ext_Forall.
    eapply Forall_impl; [exact IH|]. intros [k v]; simpl. by intros ->.
Qed.

Lemma stored_idempotent j : stored (stored j) = stored j.
Proof.
  induction j as [| | | |l IH|o IH] using json_nested_ind; try done; simpl.
  - by destruct n.
  - f_equal. rewrite map_map. by apply map_ext_Forall.
  - f_equal. rewrite map_map. apply map_ext_Forall.
    eapply Forall_impl; [exact IH|]. intros [k v]; simpl. by intros ->.
Qed.

Lemma get_property_stored k o :
  get_property k (map (λ '(k, v), (k, stored v)) o) = stored <$> get_property k o.
Proof.
  induction o as [|[k' v] o IH]; simpl; [done|]. by destruct (String.eqb k k').
Qed.

Lemma get_property_elem k v o :
  NoDup (object_keys o) → (k, v) ∈ o → get_property k o = Some v.
Proof.
  induction o as [|[k' v'] o IH]; simpl; intros Hnd Hin; [by apply not_elem_of_nil in Hin|].
  apply NoDup_cons in Hnd as [Hk Hnd]. apply elem_of_cons in Hin as [[= -> ->]|Hin].
  - by rewrite String.eqb_refl.
  - destruct (String.eqb_spec k k') as [->|]; [|auto].
    destruct Hk. by apply (list_elem_of_fmap_2 fst) in Hin.
Qed.

Lemma get_property_none k o : k ∉ object_keys o → get_property k o = None.
Proof.
  induction o as [|[k' v'] o IH]; simpl; [done|]. intros [Hk Hin]%not_elem_of_cons.
  destruct (String.eqb_spec k k'); [done|auto].
Qed.

(** Property lookup does not depend on the order of the properties. *)
Lemma get_property_perm k o1 o2 :
  NoDup (object_keys o1) → o1 ≡ₚ o2 → get_property k o1 = get_property k o2.
Proof.
  intros Hnd Hp. destruct (decide (k ∈ object_keys o1)) as [Hin|Hin].
  - apply list_elem_of_fmap in Hin as ([k' v] & -> & Hin). cbn [fst].
    rewrite (get_property_elem k' v o1) by done. symmetry. apply get_property_elem.
    + unfold object_keys. by rewrite <- Hp.
    + by rewrite <- Hp.
  - rewrite !get_property_none; [done| |done]. unfold object_keys. by rewrite <- Hp.
Qed.

(** ** A quoted string ends where its own closing quote is *)

(** Reads back one escaped character. *)
Definition unhex (c : ascii) : N := let n := N_of_ascii c in if (n <? 58)%N then n - 48 else n - 87.

Definition unescape_char (s : string) : option (ascii * string) :=
  match s with
  | EmptyString => None
  | String c rest =>
    if Ascii.eqb c quote then None
    else if Ascii.eqb c backslash then
      match rest with
      | String "b" rest => Some (ascii_of_N 8, rest)
      | String "t" rest => Some (ascii_of_N 9, rest)
      | String "n" rest => Some (ascii_of_N 10, rest)
      | String "f" rest => Some (ascii_of_N 12, rest)
      | String "r" rest => Some (ascii_of_N 13, rest)
      | String "u" (String _ (String _ (String h (String l rest)))) =>
        Some (ascii_of_N (16 * unhex h + unhex l), rest)
      | String c rest => Some (c, rest)
      | EmptyString => None
      end
    else Some (c, rest)
  end.

Lemma unescape_escape_char c rest : unescape_char (escape_char c rest) = Some (c, rest).
Proof. destruct c as [[] [] [] [] [] [] [] []]; reflexivity. Qed.

Lemma escape_char_app c s t : (escape_char c s ++ t = escape_char c (s ++ t))%string.
Proof. unfold escape_char. by repeat case_match_goal. Qed.

Lemma escape_prefix_free a b s t :
  (escape a ++ String quote s = escape b ++ String quote t)%string → a = b ∧ s = t.
Proof.
  assert (∀ s, unescape_char (EmptyString ++ String quote s)%string = None) as Hq by done.
  revert b. induction a as [|c a IH]; intros [|d b] H; cbn [escape String.append] in H; rewrite ?escape_char_app in H.
  - by injection H.
  - apply (f_equal unescape_char) in H. by rewrite Hq, unescape_escape_char in H.
  - apply (f_equal unescape_char) in H. by rewrite Hq, unescape_escape_char in H.
  - apply (f_equal unescape_char) in H. rewrite !unescape_escape_char in H. injection H as -> H.
    by destruct (IH b H) as [-> ->].
Qed.

Lemma quoted_prefix_free a b s t : (quoted a ++ s = quoted b ++ t)%string → a = b ∧ s = t.
Proof.
  unfold quoted. simpl. intros H. injection H as H.
  change (String.append ?x ?y) with (x +:+ y) in H.
  assert (∀ x y, (escape x +:+ String quote EmptyString) +:+ y = escape x +:+ String quote y) as Ha.
  { intros x y. by rewrite <- string_app_assoc. }
  rewrite !Ha in H. by apply escape_prefix_free.
Qed.
