(* ===== verification/JsonParse.v ===== *)
(** * [JSON.parse]

    The grammar of JSON as the language defines it: white space, literals, numbers
    without leading zeros, strings without control characters, and objects built
    property by property, a later one replacing an earlier one of the same name.
    Strings are UTF-8 bytes, so an escaped UTF-16 unit becomes its encoding, a pair
    of surrogates one character, and a lone one the three bytes of its code point.

    The theorem is the round trip: parsing what [JSON.stringify] wrote gives the
    value back, as a [simple-json] column does ([stored]). *)

From S2P Require Import Prelude Number NumberFacts NumberDecimal NumberText NumberTextFacts Json.
From Stdlib Require Import ZArith Ascii String.

(** ** Lexical grammar *)

Definition is_json_space (c : ascii) : bool :=
  let n := N_of_ascii c in ((n =? 32) || (n =? 9) || (n =? 10) || (n =? 13))%N.

Fixpoint skip_ws (s : string) : string :=
  match s with
  | String c s' => if is_json_space c then skip_ws s' else s
  | EmptyString => EmptyString
  end.

(** The rest of [s] after the literal [t]. *)
Fixpoint expect (t s : string) : option string :=
  match t, s with
  | EmptyString, _ => Some s
  | String c t', String d s' => if Ascii.eqb c d then expect t' s' else None
  | _, EmptyString => None
  end.

(** *** Strings *)

(** A character of a string literal: a byte of the text, or a UTF-16 unit of an escape. *)
Inductive piece := Raw (c : ascii) | CodeUnit (u : Z).

Definition hex_unit (a b c d : ascii) : option Z :=
  a ← digit_value 16 a; b ← digit_value 16 b; c ← digit_value 16 c; d ← digit_value 16 d;
  Some (((a * 16 + b) * 16 + c) * 16 + d)%Z.

Definition simple_escape (c : ascii) : option ascii :=
  if Ascii.eqb c quote || Ascii.eqb c backslash || Ascii.eqb c "/" then Some c
  else if Ascii.eqb c "b" then Some (ascii_of_N 8)
  else if Ascii.eqb c "f" then Some (ascii_of_N 12)
  else if Ascii.eqb c "n" then Some (ascii_of_N 10)
  else if Ascii.eqb c "r" then Some (ascii_of_N 13)
  else if Ascii.eqb c "t" then Some (ascii_of_N 9)
  else None.

(** The pieces up to the closing quote, and what follows it. *)
Fixpoint read_pieces (s : string) : option (list piece * string) :=
  match s with
  | EmptyString => None
  | String c s' =>
    if Ascii.eqb c quote then Some ([], s')
    else if (N_of_ascii c <? 32)%N then None
    else if Ascii.eqb c backslash then
      match s' with
      | EmptyString => None
      | String e s'' =>
        if Ascii.eqb e "u" then
          match s'' with
          | String h1 (String h2 (String h3 (String h4 rest))) =>
            u ← hex_unit h1 h2 h3 h4; '(l, out) ← read_pieces rest; Some (CodeUnit u :: l, out)
          | _ => None
          end
        else d ← simple_escape e; '(l, out) ← read_pieces s''; Some (Raw d :: l, out)
      end
    else '(l, out) ← read_pieces s'; Some (Raw c :: l, out)
  end.

Definition byte (n : Z) : ascii := ascii_of_N (Z.to_N n).

(** The UTF-8 encoding of a code point. *)
Definition utf8 (u : Z) (rest : string) : string :=
  (if u <? 128 then String (byte u) rest
   else if u <? 2048 then String (byte (192 + u / 64)) (String (byte (128 + u mod 64)) rest)
   else if u <? 65536 then
     String (byte (224 + u / 4096)) (String (byte (128 + u / 64 mod 64)) (String (byte (128 + u mod 64)) rest))
   else String (byte (240 + u / 262144)) (String (byte (128 + u / 4096 mod 64))
          (String (byte (128 + u / 64 mod 64)) (String (byte (128 + u mod 64)) rest))))%Z.

Definition is_high (u : Z) : bool := (55296 <=? u)%Z && (u <? 56320)%Z.
Definition is_low (u : Z) : bool := (56320 <=? u)%Z && (u <? 57344)%Z.
Definition surrogates (h l : Z) : Z := (65536 + (h - 55296) * 1024 + (l - 56320))%Z.

Fixpoint text_of (l : list piece) : string :=
  match l with
  | [] => EmptyString
  | Raw c :: l' => String c (text_of l')
  | CodeUnit u :: l' =>
    match l' with
    | CodeUnit v :: l'' => if is_high u && is_low v then utf8 (surrogates u v) (text_of l'') else utf8 u (text_of l')
    | _ => utf8 u (text_of l')
    end
  end.

Definition read_string (s : string) : option (string * string) :=
  '(l, out) ← read_pieces s; Some (text_of l, out).

(** *** Numbers *)

(** Digits: the value [acc] continued, how many, the rest; at least one digit. *)
Definition some_digits (acc : Z) (s : string) : option (Z * Z * string) :=
  let '(v, count, rest) := take_digits 10 acc 0 s in
  if (count =? 0)%Z then None else Some (v, count, rest).

(** The integer part has no leading zero. *)
Definition read_int (s : string) : option (Z * string) :=
  match s with
  | String "0" rest => Some (0%Z, rest)
  | _ => '(v, _, rest) ← some_digits 0 s; Some (v, rest)
  end.

Definition read_fraction (v : Z) (s : string) : option (Z * Z * string) :=
  match s with
  | String "." rest => some_digits v rest
  | _ => Some (v, 0%Z, s)
  end.

Definition read_exponent (s : string) : option (Z * string) :=
  match s with
  | String c rest =>
    if Ascii.eqb c "e" || Ascii.eqb c "E" then
      match rest with
      | String "-" rest => '(v, _, rest) ← some_digits 0 rest; Some ((- v)%Z, rest)
      | String "+" rest => '(v, _, rest) ← some_digits 0 rest; Some (v, rest)
      | _ => '(v, _, rest) ← some_digits 0 rest; Some (v, rest)
      end
    else Some (0%Z, s)
  | EmptyString => Some (0%Z, s)
  end.

Definition read_unsigned (s : string) : option (number * string) :=
  '(v, s) ← read_int s;
  '(v, places, s) ← read_fraction v s;
  '(e, s) ← read_exponent s;
  Some (of_decimal v (e - places), s).

Definition read_number (s : string) : option (number * string) :=
  match s with
  | String "-" s' => '(x, s) ← read_unsigned s'; Some (SFopp x, s)
  | _ => read_unsigned s
  end.

(** ** Values *)

(** The object the properties build, in order. *)
Definition build_object (o : object) : object :=
  fold_left (λ acc '(k, v), add_property k v acc) o [].

(** A value, the elements of an array after its bracket, the properties of an object
    after its brace. *)
Fixpoint read_value (fuel : nat) (s : string) : option (json * string) :=
  match fuel with
  | O => None
  | S fuel =>
    let s := skip_ws s in
    match s with
    | EmptyString => None
    | String c s' =>
      if Ascii.eqb c quote then '(t, s) ← read_string s'; Some (JStr t, s)
      else if Ascii.eqb c "[" then
        match expect "]" (skip_ws s') with
        | Some s => Some (JArr [], s)
        | None => '(l, s) ← read_elements fuel s'; Some (JArr l, s)
        end
      else if Ascii.eqb c "{" then
        match expect "}" (skip_ws s') with
        | Some s => Some (JObj [], s)
        | None => '(o, s) ← read_members fuel s'; Some (JObj (build_object o), s)
        end
      else if Ascii.eqb c "t" then s ← expect "true" s; Some (JBool true, s)
      else if Ascii.eqb c "f" then s ← expect "false" s; Some (JBool false, s)
      else if Ascii.eqb c "n" then s ← expect "null" s; Some (JNull, s)
      else '(x, s) ← read_number s; Some (JNum x, s)
    end
  end
with read_elements (fuel : nat) (s : string) : option (list json * string) :=
  match fuel with
  | O => None
  | S fuel =>
    '(v, s) ← read_value fuel s;
    let s := skip_ws s in
    match expect "]" s with
    | Some s => Some ([v], s)
    | None => s ← expect "," s; '(l, s) ← read_elements fuel s; Some (v :: l, s)
    end
  end
with read_members (fuel : nat) (s : string) : option (object * string) :=
  match fuel with
  | O => None
  | S fuel =>
    s ← expect (String quote EmptyString) (skip_ws s);
    '(k, s) ← read_string s;
    s ← expect ":" (skip_ws s);
    '(v, s) ← read_value fuel s;
    let s := skip_ws s in
    match expect "}" s with
    | Some s => Some ([(k, v)], s)
    | None => s ← expect "," s; '(o, s) ← read_members fuel s; Some ((k, v) :: o, s)
    end
  end.

(** Every call but the first of a pair reads a character. *)
Definition parse_fuel (s : string) : nat := S (2 * String.length s).

(** [JSON.parse]; a text that is no JSON value throws. *)
Definition JSON_parse (s : string) : option json :=
  '(j, rest) ← read_value (parse_fuel s) s;
  match skip_ws rest with EmptyString => Some j | _ => None end.

(** ** Fuel

    Every reader returns a proper suffix, so the fuel of [JSON_parse] is never
    what makes it fail. *)

Abbreviation slen := String.length.

Lemma skip_ws_le s : (slen (skip_ws s) ≤ slen s)%nat.
Proof. induction s as [|c s IH]; [done|]. cbn [skip_ws]. destruct (is_json_space c); cbn [slen]; lia. Qed.

Lemma expect_len t s r : expect t s = Some r → slen s = (slen t + slen r)%nat.
Proof.
  revert s. induction t as [|c t IH]; intros s; [by intros [= ->]|]. destruct s as [|d s]; [done|]. cbn [expect].
  destruct (Ascii.eqb c d); [|done]. intros H%IH. cbn [slen]. lia.
Qed.

Lemma take_digits_len base acc count s v n r :
  take_digits base acc count s = (v, n, r) → (Z.of_nat (slen s) = n - count + Z.of_nat (slen r) ∧ count ≤ n)%Z.
Proof.
  revert acc count. induction s as [|c s IH]; intros acc count; cbn [take_digits].
  - intros [= <- <- <-]. cbn [slen]. lia.
  - destruct (digit_value base c); [intros H%IH; cbn [slen]; lia|]. intros [= <- <- <-]. lia.
Qed.

Lemma some_digits_len acc s v n r : some_digits acc s = Some (v, n, r) → (slen r < slen s)%nat.
Proof.
  unfold some_digits. destruct (take_digits 10 acc 0 s) as [[v' n'] r'] eqn:E.
  apply take_digits_len in E. destruct (Z.eqb_spec n' 0); [done|]. intros [= <- <- <-]. lia.
Qed.

Lemma read_pieces_len s l r : read_pieces s = Some (l, r) → (slen r < slen s)%nat.
Proof.
  revert l r. induction s as [s IH] using (induction_ltof1 _ slen). unfold ltof in IH. intros l r.
  destruct s as [|c s]; [done|]. cbn [read_pieces slen].
  destruct (Ascii.eqb c quote); [intros [= <- <-]; lia|]. destruct (_ <? 32)%N; [done|].
  assert (∀ s0 l0 r0, (slen s0 ≤ slen s)%nat → read_pieces s0 = Some (l0, r0) → (slen r0 < S (slen s))%nat) as Hrec.
  { intros s0 l0 r0 Hs0 H0. apply IH in H0; cbn [slen]; lia. }
  destruct (Ascii.eqb c backslash).
  - destruct s as [|e s]; [done|]. destruct (Ascii.eqb e "u").
    + destruct s as [|h1 [|h2 [|h3 [|h4 s]]]]; try done.
      destruct (hex_unit h1 h2 h3 h4); [|done]. cbn [mbind option_bind].
      destruct (read_pieces s) as [[l' r']|] eqn:E; [|done]. intros [= <- <-].
      eapply Hrec; [|exact E]. cbn [slen]. lia.
    + destruct (simple_escape e); [|done]. cbn [mbind option_bind].
      destruct (read_pieces s) as [[l' r']|] eqn:E; [|done]. intros [= <- <-].
      eapply Hrec; [|exact E]. cbn [slen]. lia.
  - destruct (read_pieces s) as [[l' r']|] eqn:E; [|done]. intros [= <- <-]. eapply Hrec; [|exact E]. lia.
Qed.

Lemma read_string_len s t r : read_string s = Some (t, r) → (slen r < slen s)%nat.
Proof.
  unfold read_string. destruct (read_pieces s) as [[l r']|] eqn:E; [|done]. intros [= <- <-]. by eapply read_pieces_len.
Qed.

Lemma read_int_len s v r : read_int s = Some (v, r) → (slen r < slen s)%nat.
Proof.
  assert (∀ s, ('(v, _, rest) ← some_digits 0 s; Some (v, rest)) = Some (v, r) → (slen r < slen s)%nat) as Hd.
  { intros t. destruct (some_digits 0 t) as [[[v' n] r']|] eqn:E; [|done]. intros [= <- <-]. by eapply some_digits_len. }
  destruct s as [|c s]; [apply (Hd EmptyString)|].
  destruct c as [[] [] [] [] [] [] [] []]; try apply (Hd (String _ s)). intros [= <- <-]. cbn [slen]. lia.
Qed.

Lemma read_fraction_len v s v' n r : read_fraction v s = Some (v', n, r) → (slen r ≤ slen s)%nat.
Proof.
  destruct s as [|c s]; [by intros [= <- <- <-]|].
  destruct c as [[] [] [] [] [] [] [] []]; try (intros [= <- <- <-]; done).
  cbn [read_fraction slen]. intros H%some_digits_len. lia.
Qed.

Lemma read_exponent_len s e r : read_exponent s = Some (e, r) → (slen r ≤ slen s)%nat.
Proof.
  destruct s as [|c s]; [by intros [= <- <-]|]. cbn [read_exponent].
  destruct (_ || _); [|by intros [= <- <-]].
  assert (∀ (f : Z → Z) t, (slen t ≤ slen s)%nat →
    ('(v, _, rest) ← some_digits 0 t; Some (f v, rest)) = Some (e, r) → (slen r ≤ slen (String c s))%nat) as Hd.
  { intros f t Ht. destruct (some_digits 0 t) as [[[v' n] r']|] eqn:E; [|done]. intros [= <- <-].
    apply some_digits_len in E. cbn [slen]. lia. }
  destruct s as [|d s]; [done|].
  destruct d as [[] [] [] [] [] [] [] []]; try (apply (Hd (λ v, v)); done);
    [apply (Hd (λ v, v))|apply (Hd Z.opp)]; cbn [slen]; lia.
Qed.

Lemma read_number_len s x r : read_number s = Some (x, r) → (slen r < slen s)%nat.
Proof.
  assert (∀ s x r, read_unsigned s = Some (x, r) → (slen r < slen s)%nat) as Hu.
  { clear. intros s x r. unfold read_unsigned.
    destruct (read_int s) as [[v s1]|] eqn:E1; [|done]. cbn [mbind option_bind].
    destruct (read_fraction v s1) as [[[v' n] s2]|] eqn:E2; [|done]. cbn [mbind option_bind].
    destruct (read_exponent s2) as [[e s3]|] eqn:E3; [|done]. intros [= <- <-].
    apply read_int_len in E1. apply read_fraction_len in E2. apply read_exponent_len in E3. lia. }
  destruct s as [|c s]; [apply Hu|].
  destruct c as [[] [] [] [] [] [] [] []]; try apply Hu. cbn [read_number slen].
  destruct (read_unsigned s) as [[y r']|] eqn:E; [|done]. intros [= <- <-]. apply Hu in E. lia.
Qed.

#[local] Arguments expect : simpl never.
#[local] Arguments skip_ws : simpl never.
#[local] Arguments read_string : simpl never.
#[local] Arguments read_number : simpl never.
#[local] Arguments String.length : simpl nomatch.

(** What a reader leaves is shorter than what it was given. *)
Ltac lengths :=
  repeat match goal with
  | H : expect _ _ = Some _ |- _ => apply expect_len in H; cbn [slen] in H
  | H : read_string _ = Some _ |- _ => apply read_string_len in H
  | H : read_number _ = Some _ |- _ => apply read_number_len in H
  | H : context [skip_ws ?s] |- _ =>
    lazymatch goal with L : (slen (skip_ws s) ≤ slen s)%nat |- _ => fail | _ => pose proof (skip_ws_le s) end
  | |- context [skip_ws ?s] =>
    lazymatch goal with L : (slen (skip_ws s) ≤ slen s)%nat |- _ => fail | _ => pose proof (skip_ws_le s) end
  end; cbn [slen] in *.

Ltac invert_reader :=
  repeat (simplify_option_eq; repeat match goal with
  | H : context [match ?p with (_, _) => _ end] |- _ => destruct p eqn:?
  | H : context [match ?x with Some _ => _ | None => _ end] |- _ => destruct x eqn:?
  | H : context [if ?b then _ else _] |- _ => destruct b eqn:?
  end).

Lemma read_len fuel :
  (∀ s j r, read_value fuel s = Some (j, r) → (slen r < slen s)%nat) ∧
  (∀ s l r, read_elements fuel s = Some (l, r) → (slen r < slen s)%nat) ∧
  (∀ s o r, read_members fuel s = Some (o, r) → (slen r < slen s)%nat).
Proof.
  induction fuel as [|fuel (IHv & IHe & IHm)]; [by split_and!|]. split_and!.
  - intros s j r. cbn [read_value]. pose proof (skip_ws_le s).
    destruct (skip_ws s) as [|c s'] eqn:Es; [done|]. intros H0.
    invert_reader;
      repeat match goal with
      | H : read_elements _ _ = Some _ |- _ => apply IHe in H
      | H : read_members _ _ = Some _ |- _ => apply IHm in H
      end; lengths; lia.
  - intros s l r. cbn [read_elements]. intros H0. invert_reader;
      repeat match goal with
      | H : read_elements _ _ = Some _ |- _ => apply IHe in H
      | H : read_value _ _ = Some _ |- _ => apply IHv in H
      end; lengths; lia.
  - intros s o r. cbn [read_members]. intros H0. invert_reader;
      repeat match goal with
      | H : read_members _ _ = Some _ |- _ => apply IHm in H
      | H : read_value _ _ = Some _ |- _ => apply IHv in H
      end; lengths; lia.
Qed.

Lemma read_fuel f :
  (∀ f' s, (2 * slen s < f ≤ f')%nat → read_value f' s = read_value f s) ∧
  (∀ f' s, (2 * slen s + 1 < f ≤ f')%nat → read_elements f' s = read_elements f s) ∧
  (∀ f' s, (2 * slen s + 1 < f ≤ f')%nat → read_members f' s = read_members f s).
Proof.
  induction f as [|f (IHv & IHe & IHm)]; [split_and!; intros; lia|]. split_and!; intros [|f'] s Hf; try lia.
  - cbn [read_value]. pose proof (skip_ws_le s) as Hs. destruct (skip_ws s) as [|c s']; [done|].
    cbn [slen] in Hs. rewrite (IHe f' s'), (IHm f' s') by lia. done.
  - cbn [read_elements]. rewrite (IHv f' s) by lia.
    destruct (read_value f s) as [[v r]|] eqn:Ev; [|done]. cbn [mbind option_bind].
    apply (read_len f) in Ev. pose proof (skip_ws_le r).
    destruct (expect "]" (skip_ws r)); [done|]. destruct (expect "," (skip_ws r)) as [t|] eqn:Et; [|done].
    cbn [mbind option_bind]. apply expect_len in Et. cbn [slen] in Et. by rewrite (IHe f' t) by lia.
  - cbn [read_members]. pose proof (skip_ws_le s).
    destruct (expect (String quote EmptyString) (skip_ws s)) as [t|] eqn:Et; [|done]. cbn [mbind option_bind].
    destruct (read_string t) as [[k u]|] eqn:Ek; [|done]. cbn [mbind option_bind]. pose proof (skip_ws_le u).
    destruct (expect ":" (skip_ws u)) as [u'|] eqn:Eu; [|done]. cbn [mbind option_bind].
    apply expect_len in Et, Eu. apply read_string_len in Ek. cbn [slen] in Et, Eu.
    rewrite (IHv f' u') by lia. destruct (read_value f u') as [[v r]|] eqn:Ev; [|done]. cbn [mbind option_bind].
    apply (read_len f) in Ev. pose proof (skip_ws_le r).
    destruct (expect "}" (skip_ws r)); [done|]. destruct (expect "," (skip_ws r)) as [w|] eqn:Ew; [|done].
    cbn [mbind option_bind]. apply expect_len in Ew. cbn [slen] in Ew. by rewrite (IHm f' w) by lia.
Qed.

(** More fuel never changes the answer of [JSON_parse]. *)
Lemma parse_fuel_enough f s : (parse_fuel s ≤ f)%nat → read_value f s = read_value (parse_fuel s) s.
Proof. intros Hf. apply read_fuel. unfold parse_fuel in *. lia. Qed.

(** ** Reading what [JSON.stringify] wrote *)

(** What may follow a value: nothing a number could go on with. *)
Definition stop (s : string) : Prop :=
  match s with
  | EmptyString => True
  | String c _ => c = ","%char ∨ c = "]"%char ∨ c = "}"%char
  end.

(** The piece that stands for a character of a quoted string. *)
Definition escaped_piece (c : ascii) : piece :=
  let n := N_of_ascii c in
  if ((n =? 8) || (n =? 9) || (n =? 10) || (n =? 12) || (n =? 13))%N then Raw c
  else if (n <? 32)%N then CodeUnit (Z.of_N n) else Raw c.

Lemma read_escape_char c rest :
  read_pieces (escape_char c rest) = '(l, out) ← read_pieces rest; Some (escaped_piece c :: l, out).
Proof. destruct c as [[] [] [] [] [] [] [] []]; reflexivity. Qed.

Lemma text_of_escaped c l : text_of (escaped_piece c :: l) = String c (text_of l).
Proof.
  assert (∀ u, is_high u = false → text_of (CodeUnit u :: l) = utf8 u (text_of l)) as Hu.
  { intros u Hh. cbn [text_of]. rewrite Hh. by destruct l as [|[|]]. }
  destruct c as [[] [] [] [] [] [] [] []]; try reflexivity; by apply Hu.
Qed.

Lemma read_pieces_escape s rest :
  read_pieces (escape s +:+ String quote rest) = Some (escaped_piece <$> list_ascii_of_string s, rest).
Proof.
  induction s as [|c s IH]; [done|]. cbn [escape list_ascii_of_string]. rewrite escape_char_app.
  change (String.append ?x ?y) with (x +:+ y). by rewrite read_escape_char, IH.
Qed.

Lemma text_of_escape s : text_of (escaped_piece <$> list_ascii_of_string s) = s.
Proof.
  induction s as [|c s IH]; [done|]. cbn [list_ascii_of_string]. rewrite fmap_cons, text_of_escaped. by rewrite IH.
Qed.

(** A quoted string reads back as itself, whatever follows. *)
Lemma read_string_escape s rest : read_string (escape s +:+ String quote rest) = Some (s, rest).
Proof. unfold read_string. rewrite read_pieces_escape. cbn. by rewrite text_of_escape. Qed.

Lemma quoted_app s rest : quoted s +:+ rest = String quote (escape s +:+ String quote rest).
Proof.
  unfold quoted. change (String.append ?x ?y) with (x +:+ y).
  by rewrite <- string_app_assoc, string_app_cons.
Qed.

(** *** Numbers *)

Lemma stop_no_digit s : stop s → no_digit_first s.
Proof. destruct s as [|c s]; [done|]. by intros [->|[->| ->]]. Qed.

Lemma some_digits_app acc s rest :
  all_digits s = true → s ≠ EmptyString → no_digit_first rest →
  some_digits acc (s +:+ rest) = Some (digits_value acc s, Z.of_nat (slen s), rest).
Proof.
  intros Hs Hne Hr. unfold some_digits. rewrite take_digits_app by done. cbn match. rewrite Z.add_0_l.
  destruct (Z.eqb_spec (Z.of_nat (slen s)) 0) as [E|]; [|done]. by destruct s.
Qed.

Lemma read_int_plain s rest :
  plain_digits s → no_digit_first rest → read_int (s +:+ rest) = Some (digits_value 0 s, rest).
Proof.
  intros (Hd & Hne & Hz) Hr. pose proof (some_digits_app 0 s rest Hd Hne Hr) as Hs.
  destruct Hz as [->|Hz]; [done|]. destruct s as [|c s]; [done|]. rewrite string_app_cons in *. cbn [String.get] in Hz.
  assert (∀ t, c ≠ "0"%char → read_int (String c t) = '(v, _, rest) ← some_digits 0 (String c t); Some (v, rest)) as Hc.
  { intros t Hc. destruct c as [[] [] [] [] [] [] [] []]; try reflexivity. done. }
  rewrite Hc, Hs by congruence. done.
Qed.

Lemma read_fraction_text v f rest :
  all_digits f = true → no_digit_first rest → (f = EmptyString → String.get 0 rest ≠ Some "."%char) →
  read_fraction v (fraction_text f +:+ rest) = Some (digits_value v f, Z.of_nat (slen f), rest).
Proof.
  intros Hd Hr Hdot. destruct f as [|c f].
  - specialize (Hdot eq_refl). change (fraction_text EmptyString +:+ rest) with rest.
    destruct rest as [|c rest]; [done|]. cbn [String.get] in Hdot.
    destruct c as [[] [] [] [] [] [] [] []]; try reflexivity. done.
  - cbn [fraction_text]. rewrite string_app_cons. cbn [read_fraction]. by apply some_digits_app.
Qed.

Lemma read_exponent_text e rest :
  stop rest → read_exponent (exponent_text e +:+ rest) = Some (default 0%Z e, rest).
Proof.
  intros Hr. destruct e as [e|].
  - cbn [exponent_text]. rewrite !string_app_cons. cbn [read_exponent].
    change (Ascii.eqb "e" "e" || Ascii.eqb "e" "E") with true. cbn match.
    assert (some_digits 0 (string_of_Z (Z.abs e) +:+ rest) =
            Some (Z.abs e, Z.of_nat (slen (string_of_Z (Z.abs e))), rest)) as Hd.
    { destruct (decide (e = 0%Z)) as [->|He].
      - rewrite some_digits_app; [done|done|done|by apply stop_no_digit].
      - destruct (string_of_Z_plain (Z.abs e) ltac:(lia)) as (Hd & Hne & _).
        rewrite some_digits_app; [|done|done|by apply stop_no_digit].
        destruct (string_of_Z_digits (Z.abs e) ltac:(lia)) as (_ & -> & _). done. }
    unfold default, id. destruct (Z.ltb_spec e 0); cbn match; rewrite Hd; cbn [mbind option_bind]; do 2 f_equal; lia.
  - change (exponent_text None +:+ rest) with rest. destruct rest as [|c rest]; [done|].
    by destruct Hr as [->|[->| ->]].
Qed.

Lemma read_literal l rest :
  literal_ok l → stop rest → read_unsigned (literal_text l +:+ rest) = Some (literal_value l, rest).
Proof.
  intros [Hint Hfrac] Hr. unfold read_unsigned, literal_text. rewrite <- !string_app_assoc.
  assert (∀ f e, no_digit_first (fraction_text f +:+ (exponent_text e +:+ rest))) as Hnd.
  { intros [|c f] [e|]; try done. by apply stop_no_digit. }
  rewrite read_int_plain by done. cbn [mbind option_bind].
  rewrite read_fraction_text; [|done|apply (Hnd EmptyString)|].
  2: { intros _. destruct (exp_part l); [done|]. destruct rest as [|c rest]; [done|]. cbn. by destruct Hr as [->|[->| ->]]. }
  cbn [mbind option_bind]. rewrite read_exponent_text by done. cbn [mbind option_bind].
  unfold literal_value. by rewrite digits_value_app.
Qed.

Lemma read_number_unsigned s : String.get 0 s ≠ Some "-"%char → read_number s = read_unsigned s.
Proof.
  destruct s as [|c s]; [done|]. cbn [String.get]. intros Hc.
  destruct c as [[] [] [] [] [] [] [] []]; try reflexivity. done.
Qed.

Lemma literal_first l rest : literal_ok l → ∃ c t, literal_text l +:+ rest = String c t ∧ is_digit c = true.
Proof.
  destruct l as [i f e]. intros ((Hd & Hne & _) & _). unfold literal_text. cbn [int_part] in *.
  destruct i as [|c i]; [done|]. cbn [all_digits] in Hd. apply andb_true_iff in Hd as [Hc _]. rewrite !string_app_cons. eauto.
Qed.

Lemma digit_not_minus c : is_digit c = true → c ≠ "-"%char.
Proof. by intros H ->. Qed.

Lemma read_number_text x rest :
  valid x = true → is_finite x = true → stop rest →
  read_number (num_to_string x +:+ rest) = Some (match x with S754_zero _ => Number.zero | _ => x end, rest).
Proof.
  intros Hv Hf Hr. destruct x as [s|s| |s m e]; try done.
  - rewrite read_number_unsigned by done. change (num_to_string (S754_zero s)) with "0"%string.
    apply (read_literal {| int_part := "0"; frac_part := EmptyString; exp_part := None |} rest); [|done].
    split; [|done]. split_and!; [done|done|by left].
  - destruct (num_to_string_literal s m e Hv) as (l & -> & Hok & Hval). rewrite <- string_app_assoc. destruct s.
    + change (('(x, s) ← read_unsigned (literal_text l +:+ rest); Some (SFopp x, s)) =
              Some (S754_finite true m e, rest)).
      rewrite read_literal by done. cbn [mbind option_bind]. by rewrite Hval.
    + cbn match. change (read_number (literal_text l +:+ rest) = Some (S754_finite false m e, rest)).
      destruct (literal_first l rest Hok) as (c & t & Ht & Hc).
      rewrite read_number_unsigned; [by rewrite read_literal, Hval|].
      rewrite Ht. intros [= E]. by apply (digit_not_minus c).
Qed.

(** *** Values *)

(** A value the language can hold: valid numbers, and objects whose properties are
    distinct and in enumeration order. *)
Fixpoint well_formed (j : json) : Prop :=
  match j with
  | JNum x => valid x = true
  | JArr l => Forall (λ P, P) (map well_formed l)
  | JObj o => build_object o = o ∧ Forall (λ P, P) (map (λ '(k, v), well_formed v) o)
  | _ => True
  end.

Lemma add_property_map (f : json → json) k v o :
  add_property k (f v) (map (λ '(k, v), (k, f v)) o) = map (λ '(k, v), (k, f v)) (add_property k v o).
Proof.
  induction o as [|[k' v'] o IH]; [done|]. cbn [map add_property].
  destruct (String.eqb k k'); [done|]. destruct (array_index k), (array_index k'); cbn [map]; rewrite ?IH; try done.
  by destruct (_ <? _)%Z; cbn [map]; rewrite ?IH.
Qed.

Lemma build_object_map (f : json → json) o :
  build_object (map (λ '(k, v), (k, f v)) o) = map (λ '(k, v), (k, f v)) (build_object o).
Proof.
  unfold build_object. change (@nil (string * json)) with (map (λ '(k, v), (k, f v)) (@nil (string * json))) at 1.
  generalize (@nil (string * json)). induction o as [|[k v] o IH]; intros acc; [done|].
  cbn [map fold_left]. by rewrite add_property_map, IH.
Qed.

(** The first character of a text: no white space, no closing bracket. *)
Definition starts (s : string) : Prop :=
  ∃ c t, s = String c t ∧ is_json_space c = false ∧ c ≠ "]"%char ∧ c ≠ "}"%char.

Lemma starts_app s t : starts s → starts (s +:+ t).
Proof. intros (c & u & -> & H). rewrite string_app_cons. unfold starts. eauto 6. Qed.

Lemma skip_ws_starts s : starts s → skip_ws s = s.
Proof. intros (c & t & -> & Hc & _). unfold skip_ws. by rewrite Hc. Qed.

Lemma expect_starts s : starts s → expect "]" s = None ∧ expect "}" s = None.
Proof.
  intros (c & t & -> & _ & H1 & H2). unfold expect.
  rewrite (proj2 (Ascii.eqb_neq "]" c)), (proj2 (Ascii.eqb_neq "}" c)) by congruence. done.
Qed.

Lemma digit_starts c t : is_digit c = true ∨ c = "-"%char → starts (String c t).
Proof.
  intros Hc. exists c, t. split; [done|].
  destruct c as [[] [] [] [] [] [] [] []]; destruct Hc as [Hc|Hc]; try discriminate Hc; done.
Qed.

(** A number is read where its text starts. *)
Lemma read_value_number f c t : is_digit c = true ∨ c = "-"%char →
  read_value (S f) (String c t) = '(x, s) ← read_number (String c t); Some (JNum x, s).
Proof.
  intros Hc. cbn [read_value]. rewrite skip_ws_starts by by apply digit_starts.
  destruct c as [[] [] [] [] [] [] [] []]; destruct Hc as [Hc|Hc]; try discriminate Hc; reflexivity.
Qed.

Lemma finite_first x rest : valid x = true → is_finite x = true →
  ∃ c t, num_to_string x +:+ rest = String c t ∧ (is_digit c = true ∨ c = "-"%char).
Proof.
  intros Hv Hf. destruct x as [s|s| |s m e]; try done.
  - exists "0"%char, rest. split; [done|by left].
  - destruct (num_to_string_literal s m e Hv) as (l & -> & Hok & _). rewrite <- string_app_assoc.
    destruct (literal_first l rest Hok) as (c & t & Ht & Hc). rewrite Ht.
    destruct s; [exists "-"%char, (String c t)|exists c, t]; auto.
Qed.

Lemma stringify_starts j : well_formed j → starts (stringify j).
Proof.
  destruct j as [|b|x|s|l|o]; intros Hw; try (do 2 eexists; split; [reflexivity|by split_and!]).
  - by destruct b; do 2 eexists.
  - cbn [stringify]. unfold stringify_num. destruct (is_finite x) eqn:Hf; [|by do 2 eexists].
    destruct (finite_first x EmptyString Hw Hf) as (c & t & Ht & Hc). rewrite string_app_empty_r in Ht.
    rewrite Ht. by apply digit_starts.
Qed.

(** [j] reads back as what a column stores of it, in front of any rest. *)
Definition reads_back (j : json) : Prop :=
  ∀ f rest, stop rest → (2 * slen (stringify j +:+ rest) < f)%nat →
    read_value f (stringify j +:+ rest) = Some (stored j, rest).

Abbreviation member_text := (λ '(k, v), (quoted k ++ ":" ++ stringify v)%string).

Lemma concat_comma_cons s l rest :
  concat_comma (s :: l) +:+ rest =
  s +:+ match l with [] => rest | _ => String "," (concat_comma l +:+ rest) end.
Proof.
  destruct l as [|t l]; [done|]. cbn [concat_comma].
  change (String.append ?x ?y) with (x +:+ y). by rewrite <- !string_app_assoc.
Qed.

Lemma read_elements_back l : l ≠ [] →
  Forall well_formed l → Forall reads_back l → ∀ f rest,
  (2 * slen (concat_comma (map stringify l) +:+ String "]" rest) + 1 < f)%nat →
  read_elements f (concat_comma (map stringify l) +:+ String "]" rest) = Some (map stored l, rest).
Proof.
  intros Hne Hw Hr. induction Hr as [|j l Hj Hl IH]; [done|]. apply Forall_cons in Hw as [Hwj Hwl].
  intros [|f] rest Hf; [lia|]. cbn [map] in *. rewrite concat_comma_cons in *. cbn [read_elements].
  destruct l as [|j' l].
  - cbn [map] in *. rewrite Hj; [done|right; by left|lia].
  - change (map stringify (j' :: l)) with (stringify j' :: map stringify l) in *. cbn match in *.
    set (tail := concat_comma (stringify j' :: map stringify l) +:+ String "]" rest) in *.
    rewrite Hj; [|by left|lia]. cbn [mbind option_bind].
    change (skip_ws (String "," tail)) with (String "," tail).
    change (expect "]" (String "," tail)) with (@None string). change (expect "," (String "," tail)) with (Some tail).
    cbn [mbind option_bind]. unfold tail. rewrite IH; [done|done|done|].
    fold tail. rewrite string_length_app in Hf. cbn [slen] in Hf. lia.
Qed.

Lemma read_members_back o : o ≠ [] →
  Forall (λ kv, well_formed kv.2) o → Forall (λ kv, reads_back kv.2) o → ∀ f rest,
  (2 * slen (concat_comma (map member_text o) +:+ String "}" rest) + 1 < f)%nat →
  read_members f (concat_comma (map member_text o) +:+ String "}" rest) =
    Some (map (λ '(k, v), (k, stored v)) o, rest).
Proof.
  intros Hne Hw Hr. induction Hr as [|[k j] o Hj Ho IH]; [done|]. apply Forall_cons in Hw as [Hwj Hwo].
  cbn [snd] in Hj, Hwj. intros [|f] rest Hf; [lia|]. cbn [map] in *. rewrite concat_comma_cons in *.
  set (tail := match map member_text o with
               | [] => String "}" rest
               | _ => String "," (concat_comma (map member_text o) +:+ String "}" rest)
               end) in *.
  assert (((quoted k ++ ":" ++ stringify j)%string +:+ tail) =
          String quote (escape k +:+ String quote (String ":" (stringify j +:+ tail)))) as Htext.
  { change (String.append ?x ?y) with (x +:+ y). rewrite <- !string_app_assoc. by rewrite quoted_app. }
  rewrite Htext in *. cbn [slen] in Hf. rewrite string_length_app in Hf. cbn [slen] in Hf.
  cbn [read_members]. change (skip_ws (String quote ?x)) with (String quote x).
  change (expect (String quote EmptyString) (String quote ?x)) with (Some x). cbn [mbind option_bind].
  rewrite read_string_escape. cbn [mbind option_bind].
  change (skip_ws (String ":" ?x)) with (String ":" x). change (expect ":" (String ":" ?x)) with (Some x).
  cbn [mbind option_bind]. destruct o as [|[k' j'] o].
  - unfold tail in *. cbn [map] in *. rewrite Hj; [done|right; by right|lia].
  - unfold tail in *. change (map member_text ((k', j') :: o)) with (member_text (k', j') :: map member_text o) in *.
    cbn match in *. set (rest' := concat_comma _ +:+ _) in *.
    rewrite Hj; [|by left|lia]. cbn [mbind option_bind].
    change (skip_ws (String "," ?x)) with (String "," x). change (expect "}" (String "," ?x)) with (@None string).
    change (expect "," (String "," ?x)) with (Some x). cbn [mbind option_bind]. unfold rest'. rewrite IH; [done|done|done|].
    fold rest'. rewrite string_length_app in Hf. cbn [slen] in Hf. lia.
Qed.

Lemma well_formed_members o : well_formed (JObj o) → build_object o = o ∧ Forall (λ kv, well_formed kv.2) o.
Proof.
  cbn [well_formed]. intros [Hb Hw]. split; [done|]. clear Hb.
  induction o as [|[k v] o IH]; [done|]. apply Forall_cons in Hw as [Hv Hw]. constructor; auto.
Qed.

Lemma well_formed_elements l : well_formed (JArr l) → Forall well_formed l.
Proof.
  cbn [well_formed]. induction l as [|v l IH]; [done|]. intros [Hv Hw]%Forall_cons. constructor; auto.
Qed.

Lemma Forall_impl2 {A} (P Q R : A → Prop) l :
  (∀ x, P x → Q x → R x) → Forall P l → Forall Q l → Forall R l.
Proof. intros H Hp Hq. induction Hp; inversion Hq; constructor; auto. Qed.

Lemma concat_comma_starts s l : starts s → starts (concat_comma (s :: l)).
Proof. intros Hs. destruct l; [done|]. by apply starts_app. Qed.

Lemma reads_back_all j : well_formed j → reads_back j.
Proof.
  induction j as [|b|x|s|l IH|o IH] using json_nested_ind; intros Hw [|f] rest Hr Hf; try lia.
  - done.
  - by destruct b.
  - cbn [stringify stored] in *. unfold stringify_num in *. destruct (is_finite x) eqn:Hx.
    + destruct (finite_first x rest Hw Hx) as (c & t & Ht & Hc). rewrite Ht, read_value_number by done. rewrite <- Ht.
      rewrite read_number_text by done. by destruct x.
    + by destruct x.
  - cbn [stringify stored]. rewrite quoted_app. cbn [read_value].
    change (skip_ws (String quote ?x)) with (String quote x). cbn match. rewrite Ascii.eqb_refl, read_string_escape. done.
  - pose proof (well_formed_elements l Hw) as Hl. cbn [stringify stored] in *.
    change (String.append ?x ?y) with (x +:+ y) in *. rewrite <- !string_app_assoc in *.
    change ("[" +:+ ?x) with (String "[" x) in *. change ("]" +:+ ?x) with (String "]" x) in *.
    cbn [read_value]. change (skip_ws (String "[" ?x)) with (String "[" x). cbn match.
    change (Ascii.eqb "[" quote) with false. change (Ascii.eqb "[" "[") with true. cbn match.
    destruct (decide (l = [])) as [->|Hne]; [done|].
    assert (starts (concat_comma (map stringify l) +:+ String "]" rest)) as Hs.
    { destruct l as [|j l]; [done|]. apply starts_app, concat_comma_starts, stringify_starts. by inversion Hl. }
    rewrite (skip_ws_starts _ Hs), (proj1 (expect_starts _ Hs)).
    rewrite read_elements_back; [done|done|done| |cbn [slen] in Hf; lia].
    eapply Forall_impl2; [|exact IH|exact Hl]. auto.
  - pose proof (well_formed_members o Hw) as [Hb Ho]. cbn [stringify stored] in *.
    change (String.append ?x ?y) with (x +:+ y) in *. rewrite <- !string_app_assoc in *.
    change ("{" +:+ ?x) with (String "{" x) in *. change ("}" +:+ ?x) with (String "}" x) in *.
    cbn [read_value]. change (skip_ws (String "{" ?x)) with (String "{" x). cbn match.
    change (Ascii.eqb "{" quote) with false. change (Ascii.eqb "{" "[") with false.
    change (Ascii.eqb "{" "{") with true. cbn match.
    destruct (decide (o = [])) as [->|Hne]; [done|].
    assert (starts (concat_comma (map member_text o) +:+ String "}" rest)) as Hs.
    { destruct o as [|[k j] o]; [done|]. apply starts_app, concat_comma_starts.
      do 2 eexists. split; [reflexivity|by split_and!]. }
    rewrite (skip_ws_starts _ Hs), (proj2 (expect_starts _ Hs)).
    rewrite read_members_back; [|done|done| |cbn [slen] in Hf; lia].
    + cbn [mbind option_bind]. rewrite build_object_map, Hb. done.
    + eapply Forall_impl2; [|exact IH|exact Ho]. auto.
Qed.

(** What [JSON.parse] makes of a stored column is the value the model reads. *)
Lemma JSON_parse_stringify j : well_formed j → JSON_parse (stringify j) = Some (stored j).
Proof.
  intros Hw. pose proof (reads_back_all j Hw (parse_fuel (stringify j)) EmptyString I) as H.
  rewrite string_app_empty_r in H. unfold JSON_parse. rewrite H; [done|]. unfold parse_fuel. lia.
Qed.

(** ** Objects in enumeration order

    [build_object] leaves the objects it makes alone. *)

(** [k] is enumerated before [k']: array indices in numeric order, then the rest. *)
Definition before (k k' : string) : Prop :=
  k ≠ k' ∧ match array_index k, array_index k' with
           | Some i, Some j => (i < j)%Z
           | None, Some _ => False
           | _, None => True
           end.

Definition enumerated (o : object) : Prop := StronglySorted (λ a b, before a.1 b.1) o.

Lemma array_index_inj k k' i : array_index k = Some i → array_index k' = Some i → k = k'.
Proof.
  assert (∀ k, array_index k = Some i → k = string_of_Z i) as H.
  { clear. intros k. unfold array_index. destruct (take_digits 10 0 0 k) as [[v n] [|]]; [|done].
    destruct (_ && _ && _) eqn:E; [|done]. intros [= <-].
    apply andb_true_iff in E as [E _]. apply andb_true_iff in E as [_ E]. by apply String.eqb_eq in E. }
  intros H1 H2. by rewrite (H k H1), (H k' H2).
Qed.

Lemma add_property_last k v o : Forall (λ x, before x.1 k) o → add_property k v o = o ++ [(k, v)].
Proof.
  induction 1 as [|[k' v'] o [Hne Hb] Ho IH]; [done|]. cbn [add_property fst app] in *.
  rewrite (proj2 (String.eqb_neq k k')) by congruence. rewrite IH.
  destruct (array_index k) as [i|], (array_index k') as [j|]; try done. by rewrite (proj2 (Z.ltb_ge i j)) by lia.
Qed.

Lemma add_property_keys k v o k' : k' ∈ object_keys (add_property k v o) → k' = k ∨ k' ∈ object_keys o.
Proof.
  unfold object_keys. induction o as [|[k0 v0] o IH]; cbn [add_property].
  - csimpl. rewrite elem_of_cons. tauto.
  - destruct (String.eqb_spec k k0) as [->|]; [csimpl; rewrite !elem_of_cons; tauto|].
    destruct (array_index k), (array_index k0); csimpl; try destruct (_ <? _)%Z; csimpl;
      rewrite ?elem_of_cons in *; tauto.
Qed.

Lemma Forall_keys (P : string → Prop) (o : object) : Forall (λ x, P x.1) o ↔ ∀ k, k ∈ object_keys o → P k.
Proof.
  unfold object_keys. rewrite Forall_forall. split.
  - intros H k ([k' v] & -> & Hin)%list_elem_of_fmap. by apply (H (k', v)).
  - intros H x Hx. apply H. by apply (list_elem_of_fmap_2 fst).
Qed.

Lemma add_property_enumerated k v o : enumerated o → enumerated (add_property k v o).
Proof.
  unfold enumerated. induction 1 as [|[k0 v0] o Ho IH Hf]; [by repeat constructor|]. cbn [fst] in Hf.
  cbn [add_property]. destruct (String.eqb_spec k k0) as [<-|Hne]; [by constructor|].
  assert (∀ x, before k0 k → StronglySorted (λ a b, before a.1 b.1) ((k0, x) :: add_property k v o)) as Hlater.
  { intros x Hb. constructor; [exact IH|]. cbn [fst]. apply Forall_keys. intros k' [->|Hk]%add_property_keys; [done|].
    by apply (proj1 (Forall_keys _ _) Hf). }
  destruct (array_index k) as [i|] eqn:Ei, (array_index k0) as [j|] eqn:Ej.
  - destruct (Z.ltb_spec i j).
    + constructor; [by constructor|]. constructor; cbn [fst]; [unfold before; by rewrite Ei, Ej|].
      apply Forall_keys. intros k' Hk. apply (proj1 (Forall_keys _ _) Hf) in Hk as [_ Hk].
      rewrite Ej in Hk. split.
      * intros <-. rewrite Ei in Hk. lia.
      * rewrite Ei. destruct (array_index k'); [lia|done].
    + apply Hlater. split; [done|]. rewrite Ei, Ej. assert (i ≠ j); [|lia]. intros ->. by apply Hne, (array_index_inj _ _ j).
  - constructor; [by constructor|]. constructor; cbn [fst]; [unfold before; by rewrite Ei, Ej|].
    apply Forall_keys. intros k' Hk. apply (proj1 (Forall_keys _ _) Hf) in Hk as [_ Hk]. rewrite Ej in Hk.
    split; [intros <-; by rewrite Ei in Hk|]. rewrite Ei. by destruct (array_index k').
  - apply Hlater. split; [done|]. by rewrite Ei, Ej.
  - apply Hlater. split; [done|]. by rewrite Ei, Ej.
Qed.

Lemma fold_add_enumerated (o acc : object) :
  enumerated acc → enumerated (fold_left (λ acc '(k, v), add_property k v acc) o acc).
Proof. revert acc. induction o as [|[k v] o IH]; intros acc Ha; [done|]. apply IH. by apply add_property_enumerated. Qed.

Lemma build_object_enumerated o : enumerated o → build_object o = o.
Proof.
  intros Ho. assert (∀ acc, enumerated (acc ++ o) →
    fold_left (λ acc '(k, v), add_property k v acc) o acc = acc ++ o) as H; [|by apply (H [])].
  clear Ho. induction o as [|[k v] o IH]; intros acc Ha; [by rewrite app_nil_r|]. cbn [fold_left].
  rewrite add_property_last.
  - rewrite IH; [by rewrite <- app_assoc|]. by rewrite <- app_assoc.
  - unfold enumerated in Ha. apply Forall_forall. intros x Hx.
    exact (StronglySorted_app_1_elem_of (λ a b, before a.1 b.1) acc ((k, v) :: o) x (k, v) Ha Hx (list_elem_of_here _ _)).
Qed.

Lemma build_object_idempotent o : build_object (build_object o) = build_object o.
Proof. apply build_object_enumerated, fold_add_enumerated. constructor. Qed.
