(* ===== verification/Storage.v ===== *)
(** * The database the services persist to

    Each service holds TypeORM repositories. The library itself is not part of
    the repository, so it enters as the class [Storage]: the operations the
    services call, with the laws its documentation gives for entities with a
    primary key. [list_storage] is a concrete storage used to run the model. *)

From S2P Require Import Prelude.
From Stdlib Require Import ZArith.

(** ** Entities *)

(** A row type and the column marked [@PrimaryColumn]. *)
Class Entity (R K : Type) := {
  entity_key_dec :: EqDecision K;
  primaryKey : R → K
}.

Section Rows.
Context {R K : Type} {E : Entity R K}.

(** The row with a given key, among rows in storage order. *)
Fixpoint lookup_key (k : K) (rows : list R) : option R :=
  match rows with
  | [] => None
  | r :: rows' => if decide (primaryKey r = k) then Some r else lookup_key k rows'
  end.

(** Insert a row, or replace in place the row that has its key. *)
Fixpoint upsert (r : R) (rows : list R) : list R :=
  match rows with
  | [] => [r]
  | r' :: rows' => if decide (primaryKey r' = primaryKey r) then r :: rows' else r' :: upsert r rows'
  end.
End Rows.

(** ** The repository interface *)

Class Storage := {
  repo : Type → Type;
  (** An empty table. *)
  empty_repo : ∀ {R}, repo R;
  (** [find()]: the rows in the order the storage returns them. *)
  find : ∀ {R}, repo R → list R;
  (** [findOne({ where: { <primary key> } })]. *)
  findOne : ∀ {R K} `{Entity R K}, K → repo R → option R;
  (** [save(row)]: insert or update by primary key. *)
  save : ∀ {R K} `{Entity R K}, R → repo R → repo R;
  (** The next value of a [@PrimaryGeneratedColumn], given those in use. *)
  generatedId : list Z → Z;
  find_empty : ∀ {R}, find (@empty_repo R) = [];
  findOne_find : ∀ {R K} `{Entity R K} (k : K) (t : repo R), findOne k t = lookup_key k (find t);
  find_save : ∀ {R K} `{Entity R K} (r : R) (t : repo R), find (save r t) = upsert r (find t);
  generatedId_fresh : ∀ ids i, i ∈ ids → (i < generatedId ids)%Z
}.

(** Rows kept in a list, ids counted from the largest in use. *)
Definition max_id (ids : list Z) : Z := foldr Z.max 0%Z ids.

Lemma max_id_fresh ids i : i ∈ ids → (i < max_id ids + 1)%Z.
Proof.
  unfold max_id. induction 1 as [j ids|j j' ids Hin IH]; simpl; lia.
Qed.

#[global, refine] Instance list_storage : Storage := {|
  repo := list;
  empty_repo R := [];
  find R t := t;
  findOne R K E := lookup_key;
  save R K E := upsert;
  generatedId ids := (max_id ids + 1)%Z
|}.
Proof. all: try done. intros. by apply max_id_fresh. Defined.

(** ** Query builder: [orderBy], [limit], [offset] *)

Definition order_asc {R} (column : R → Z) : list R → list R :=
  sort_by (λ x y, column x <=? column y)%Z.
Definition order_desc {R} (column : R → Z) : list R → list R :=
  sort_by (λ x y, column y <=? column x)%Z.

Definition limit_rows {R} (n : option nat) (l : list R) : list R :=
  match n with Some n => take n l | None => l end.
Definition offset_rows {R} (n : option nat) (l : list R) : list R :=
  match n with Some n => drop n l | None => l end.

(** ** Facts *)

Section Ordering.
Context {R : Type} (column : R → Z).

(** Rows stored in the order of the column. *)
Definition column_sorted (rows : list R) : Prop := StronglySorted (λ x y, column x < column y)%Z rows.

Lemma order_asc_sorted rows : column_sorted rows → order_asc column rows = rows.
Proof.
  intros Hs. apply sort_by_sorted_id. unfold sorted_by.
  induction Hs as [|s rows Hs IH Hf]; constructor; [done|].
  eapply Forall_impl; [exact Hf|]. intros x Hx. apply Z.leb_le. simpl in Hx. lia.
Qed.

(** [ORDER BY column DESC LIMIT 1] finds the last of them. *)
Lemma order_desc_head rows :
  column_sorted rows → head (limit_rows (Some 1) (order_desc column rows)) = last rows.
Proof.
  intros Hs. assert (head (order_desc column rows) = last rows) as <-.
  - induction Hs as [|x rows Hs IH Hf]; [done|].
    unfold order_desc in *. simpl sort_by. destruct rows as [|y rows]; [done|].
    rewrite last_cons_cons, <- IH. destruct (sort_by _ (y :: rows)) as [|z l] eqn:E.
    { exfalso. assert (y ∈ []) as Hy by (rewrite <- E, sort_by_perm; left). by apply not_elem_of_nil in Hy. }
    simpl. assert (z ∈ y :: rows) as Hz by (rewrite <- (sort_by_perm (λ x y, column y <=? column x)%Z (y :: rows)), E; left).
    rewrite Forall_forall in Hf. specialize (Hf z Hz). destruct (Z.leb_spec (column z) (column x)); [lia|done].
  - unfold limit_rows. by destruct (order_desc column rows).
Qed.

Lemma column_sorted_snoc rows r :
  column_sorted rows → Forall (λ x, column x < column r)%Z rows → column_sorted (rows ++ [r]).
Proof.
  intros Hs Hf. apply StronglySorted_app_2; [|done|repeat constructor].
  intros x y Hx ->%list_elem_of_singleton. rewrite Forall_forall in Hf. auto.
Qed.
End Ordering.

Section RowFacts.
Context {R K : Type} {E : Entity R K}.
Implicit Types (r : R) (rows : list R) (k : K).

Lemma lookup_key_some k rows r : lookup_key k rows = Some r → r ∈ rows ∧ primaryKey r = k.
Proof.
  induction rows as [|x rows IH]; simpl; [done|]. case_decide as Hk.
  - intros [= ->]. split; [left|done].
  - intros [? ?]%IH. split; [by right|done].
Qed.

Lemma lookup_key_none k rows : lookup_key k rows = None ↔ k ∉ primaryKey <$> rows.
Proof.
  induction rows as [|x rows IH]; simpl; [split; [intros _ ?%not_elem_of_nil; done|done]|].
  rewrite not_elem_of_cons. case_decide as Hk; [split; [done|]; intros [? _]; congruence|]. rewrite IH. split; [|by intros [_ ?]].
  intros ?. split; [congruence|done].
Qed.

Lemma lookup_key_upsert_eq r rows : lookup_key (primaryKey r) (upsert r rows) = Some r.
Proof.
  induction rows as [|x rows IH]; simpl; [by rewrite decide_True|].
  case_decide; simpl; [by rewrite decide_True|by rewrite decide_False].
Qed.

Lemma lookup_key_upsert_ne k r rows :
  primaryKey r ≠ k → lookup_key k (upsert r rows) = lookup_key k rows.
Proof.
  intros Hne. induction rows as [|x rows IH]; simpl; [by rewrite decide_False|].
  case_decide as H1; simpl; [rewrite !decide_False by congruence; done|]. by rewrite IH.
Qed.

Lemma upsert_fresh r rows : primaryKey r ∉ primaryKey <$> rows → upsert r rows = rows ++ [r].
Proof.
  induction rows as [|x rows IH]; simpl; [done|]. intros [Hne Hin]%not_elem_of_cons.
  rewrite decide_False by congruence. by rewrite IH.
Qed.

Lemma upsert_last rows r r' :
  primaryKey r' = primaryKey r → primaryKey r ∉ primaryKey <$> rows →
  upsert r' (rows ++ [r]) = rows ++ [r'].
Proof.
  intros Hk. induction rows as [|x rows IH]; simpl; [by rewrite decide_True|].
  intros [Hne Hin]%not_elem_of_cons. rewrite decide_False by congruence. by rewrite IH.
Qed.

Lemma upsert_middle rows r r' rows' :
  primaryKey r ∉ primaryKey <$> rows → primaryKey r' = primaryKey r →
  upsert r' (rows ++ r :: rows') = rows ++ r' :: rows'.
Proof.
  intros Hn He. induction rows as [|x rows IH]; simpl; [by rewrite decide_True|].
  rewrite fmap_cons, not_elem_of_cons in Hn. destruct Hn as [Hx Hn].
  rewrite decide_False by congruence. by rewrite IH.
Qed.

Lemma upsert_keys r rows :
  lookup_key (primaryKey r) rows ≠ None → primaryKey <$> upsert r rows = primaryKey <$> rows.
Proof.
  induction rows as [|x rows IH]; csimpl; [done|].
  case_decide as Hk; intros Hl; csimpl; [congruence|]. by rewrite IH.
Qed.

Lemma upsert_nodup r rows : NoDup (primaryKey <$> rows) → NoDup (primaryKey <$> upsert r rows).
Proof.
  destruct (lookup_key (primaryKey r) rows) eqn:El; intros Hnd.
  - rewrite upsert_keys; [done|congruence].
  - apply lookup_key_none in El. rewrite upsert_fresh, fmap_app by done. apply NoDup_app.
    split_and!; [done| |apply NoDup_singleton]. intros k Hk ->%list_elem_of_singleton. done.
Qed.

Lemma lookup_key_elem r rows :
  NoDup (primaryKey <$> rows) → r ∈ rows → lookup_key (primaryKey r) rows = Some r.
Proof.
  induction rows as [|x rows IH]; simpl; intros Hnd Hin; [by apply not_elem_of_nil in Hin|].
  apply NoDup_cons in Hnd as [Hx Hnd]. apply elem_of_cons in Hin as [->|Hin]; [by rewrite decide_True|].
  rewrite decide_False; [auto|]. intros Heq. destruct Hx. rewrite Heq.
  by apply (list_elem_of_fmap_2 primaryKey).
Qed.

Lemma Forall_upsert (P : R → Prop) r rows : P r → Forall P rows → Forall P (upsert r rows).
Proof.
  intros Hr. induction 1 as [|x rows Hx Hl IH]; simpl; [by constructor|].
  case_decide; by constructor.
Qed.

Context {ST : Storage}.

(** A property of all rows is kept by saving a row that has it, and holds of the row found. *)
Lemma Forall_save (P : R → Prop) r (t : repo R) : P r → Forall P (find t) → Forall P (find (save r t)).
Proof. intros. rewrite find_save. by apply Forall_upsert. Qed.

Lemma Forall_findOne (P : R → Prop) k r (t : repo R) : Forall P (find t) → findOne k t = Some r → P r.
Proof.
  rewrite findOne_find. intros Hl [Hin _]%lookup_key_some. by apply (proj1 (Forall_forall P _) Hl).
Qed.

Lemma findOne_save_eq r (t : repo R) : findOne (primaryKey r) (save r t) = Some r.
Proof. rewrite findOne_find, find_save. apply lookup_key_upsert_eq. Qed.

Lemma findOne_save_ne k r (t : repo R) : primaryKey r ≠ k → findOne k (save r t) = findOne k t.
Proof. intros. rewrite !findOne_find, find_save. by apply lookup_key_upsert_ne. Qed.

Lemma findOne_empty k : findOne k (@empty_repo _ R) = None.
Proof. by rewrite findOne_find, find_empty. Qed.
End RowFacts.

Create Rewrite HintDb storage.
#[export] Hint Rewrite @findOne_find @find_save @find_empty : storage.
