(* ===== verification/Effects.v ===== *)
(** * Asynchronous programs over a shared state

    A service method is a program: a tree of atomic actions on the state,
    ended by a result or by a thrown exception. An action is the code a task
    runs between two suspension points: one query, one transaction, or one
    synchronous update of a field. [run] executes a program alone; [step] runs
    a pool of programs, one action of one program at a time, which is how the
    event loop interleaves concurrent requests. *)

From S2P Require Import Prelude.
From Stdlib Require Import ZArith FunctionalExtensionality.

(** ** Programs *)

(** What the services throw. *)
Inductive exn :=
| NotFoundException (message : string)
| EntityNotFoundError
| QueryFailedError
| JsError (message : string).

#[global] Instance exn_eq_dec : EqDecision exn.
Proof. solve_decision. Defined.

Inductive prog (S A : Type) : Type :=
| Ret (a : A)
| Throw (e : exn)
| Act {B : Type} (f : S → B * S) (k : B → prog S A).

Arguments Ret {S A} a.
Arguments Throw {S A} e.
Arguments Act {S A B} f k.

Fixpoint prog_bind_rec {S A B} (k : A → prog S B) (p : prog S A) : prog S B :=
  match p with
  | Ret a => k a
  | Throw e => Throw e
  | Act f c => Act f (λ b, prog_bind_rec k (c b))
  end.

#[global] Instance prog_ret {S} : MRet (prog S) := λ A, Ret.
#[global] Instance prog_bind {S} : MBind (prog S) := λ A B k p, prog_bind_rec k p.

(** One atomic action. *)
Definition act {S B} (f : S → B * S) : prog S B := Act f Ret.
(** A read. *)
Definition query {S B} (f : S → B) : prog S B := act (λ s, (f s, s)).
(** A write. *)
Definition update {S} (f : S → S) : prog S () := act (λ s, (tt, f s)).

(** [for (const x of l) await f(x)]. *)
Fixpoint for_each {S A} (f : A → prog S ()) (l : list A) : prog S () :=
  match l with
  | [] => mret tt
  | x :: l' => f x;; for_each f l'
  end.

(** [for (const x of l) acc = await f(acc, x)]. *)
Fixpoint fold_each {S A B} (f : B → A → prog S B) (acc : B) (l : list A) : prog S B :=
  match l with
  | [] => mret acc
  | x :: l' => acc' ← f acc x; fold_each f acc' l'
  end.

(** [try { p }]: the outcome of [p], thrown or returned. *)
Fixpoint attempt {S A} (p : prog S A) : prog S (exn + A) :=
  match p with
  | Ret a => Ret (inr a)
  | Throw e => Ret (inl e)
  | Act f k => Act f (λ b, attempt (k b))
  end.

(** Loops that may go on: a turn answers [inl] to go on and [inr] to stop.
    [turns n] takes at most [n] turns, [doubled k] at most [2 ^ k], which it counts
    by doubling so that a large bound costs nothing when the loop stops early. *)
Fixpoint turns {S A} (n : nat) (turn : A → prog S (A + A)) (a : A) : prog S (A + A) :=
  match n with
  | 0 => mret (inl a)
  | S n' => r ← turn a; match r with inl a' => turns n' turn a' | inr _ => mret r end
  end.

Fixpoint doubled {S A} (k : nat) (turn : A → prog S (A + A)) (a : A) : prog S (A + A) :=
  match k with
  | 0 => turn a
  | S k' => r ← doubled k' turn a; match r with inl a' => doubled k' turn a' | inr _ => mret r end
  end.

(** ** Sequential execution *)

Fixpoint run {S A} (p : prog S A) (s : S) : (exn + A) * S :=
  match p with
  | Ret a => (inr a, s)
  | Throw e => (inl e, s)
  | Act f k => let (b, s') := f s in run (k b) s'
  end.

(** ** Interleaved execution *)

Abbreviation pool S A := (list (prog S A) * S)%type.

(** Let task [i] perform its next action; finished tasks do nothing. *)
Definition advance {S A} (i : nat) (c : pool S A) : pool S A :=
  match c.1 !! i with
  | Some (Act f k) => let (b, s') := f c.2 in (<[i := k b]> c.1, s')
  | _ => c
  end.

(** Run a schedule: the order in which tasks get their turns. *)
Definition run_schedule {S A} (sched : list nat) (c : pool S A) : pool S A :=
  fold_left (λ c i, advance i c) sched c.

Inductive step {S A} : pool S A → pool S A → Prop :=
| step_act ps s i B (f : S → B * S) k b s' :
    ps !! i = Some (Act f k) → f s = (b, s') →
    step (ps, s) (<[i := k b]> ps, s').

Definition steps {S A} : pool S A → pool S A → Prop := rtc step.

(** The states in which [p], running alone from [s], can be stopped. *)
Fixpoint stops_at {S A} (p : prog S A) (s s' : S) : Prop :=
  s' = s ∨ match p with Act f k => stops_at (k (f s).1) (f s).2 s' | _ => False end.

(** ** Guarantees

    What is known of every state change of a program is a relation on states, kept
    under one of three disciplines. [stepwise R]: every action, whatever the state it
    finds, moves the state along [R]; this holds of every interleaving. [shared I G]:
    when the programs it runs with keep the invariant [I] and move along [G], so does
    every action of the program, which may use what its earlier reads returned.
    [alone R]: wherever the program is stopped when it runs alone, the state has moved
    along [R]; this says nothing of interleavings. The three compose in one way, so the
    components prove what they guarantee once, for every discipline. *)

Record discipline (S : Type) := {
  related :> S → S → Prop;
  related_preorder : PreOrder related;
  guarantee : ∀ {A : Type}, prog S A → Prop;
  guarantee_Ret : ∀ {A} (a : A), guarantee (Ret a);
  guarantee_Throw : ∀ {A} e, guarantee (Throw e : prog S A);
  guarantee_act : ∀ {B} (f : S → B * S), (∀ s, related s (f s).2) → guarantee (act f);
  guarantee_bind : ∀ {A B} (p : prog S A) (k : A → prog S B),
    guarantee p → (∀ a, guarantee (k a)) → guarantee (p ≫= k);
  guarantee_run : ∀ {A} (p : prog S A) s, guarantee p → related s (run p s).2
}.
Arguments related {S} _ _ _.
Arguments related_preorder {S} _.
Arguments guarantee {S} _ {A} _.
Arguments guarantee_Ret {S} _ {A} a.
Arguments guarantee_Throw {S} _ {A} e.
Arguments guarantee_act {S} _ {B} f _.
Arguments guarantee_bind {S} _ {A B} p k _ _.
Arguments guarantee_run {S} _ {A} p s _.

#[global] Existing Instance related_preorder.

Fixpoint step_guarantee {S A} (R : S → S → Prop) (p : prog S A) : Prop :=
  match p with
  | Ret _ | Throw _ => True
  | Act f k => (∀ s, R s (f s).2) ∧ ∀ b, step_guarantee R (k b)
  end.

(** [sound I G p s]: from [s] on, as long as the others keep [I] and move along [G],
    so does every action of [p]. *)
Fixpoint sound {S A} (I : S → Prop) (G : S → S → Prop) (p : prog S A) (s : S) : Prop :=
  match p with
  | Ret _ | Throw _ => True
  | Act f k => ∀ s', G s s' → I s' → I (f s').2 ∧ G s' (f s').2 ∧ sound I G (k (f s').1) (f s').2
  end.

Definition moves {S} (I : S → Prop) (G : S → S → Prop) (s s' : S) : Prop := I s → I s' ∧ G s s'.

(** [maintains I Q p]: every action of [p] keeps the invariant [I], and the
    values the program computes from states that satisfy [I] satisfy [Q]. Unlike a
    guarantee it may rely on what earlier reads returned. *)

Fixpoint maintains {S A} (I : S → Prop) (Q : A → Prop) (p : prog S A) : Prop :=
  match p with
  | Ret a => Q a
  | Throw _ => True
  | Act f k => ∀ s, I s → I (f s).2 ∧ maintains I Q (k (f s).1)
  end.

(** ** Laws *)

Section Laws.
Context {S : Type}.

Lemma bind_ret {A B} (a : A) (k : A → prog S B) : (mret a ≫= k) = k a.
Proof. done. Qed.

Lemma run_bind {A B} (p : prog S A) (k : A → prog S B) s :
  run (p ≫= k) s =
  match run p s with (inr a, s') => run (k a) s' | (inl e, s') => (inl e, s') end.
Proof.
  revert s. induction p as [a|e|C f c IH]; intros s; try done.
  simpl. destruct (f s) as [b s']. apply IH.
Qed.

Lemma run_ret {A} (a : A) (s : S) : run (mret a) s = (inr a, s).
Proof. done. Qed.

Lemma run_act {B} (f : S → B * S) s : run (act f) s = (inr (f s).1, (f s).2).
Proof. unfold act. simpl. by destruct (f s). Qed.

Lemma run_query {B} (f : S → B) s : run (query f) s = (inr (f s), s).
Proof. done. Qed.

Lemma run_update (f : S → S) s : run (update f) s = (inr tt, f s).
Proof. done. Qed.

Lemma prog_bind_assoc {A B C} (p : prog S A) (k : A → prog S B) (k' : B → prog S C) :
  ((p ≫= k) ≫= k') = (p ≫= λ a, k a ≫= k').
Proof.
  induction p as [a|e|D f c IH]; [done|done|]. unfold mbind, prog_bind in *. simpl. f_equal.
  apply functional_extensionality. apply IH.
Qed.

Lemma run_attempt {A} (p : prog S A) s : run (attempt p) s = (inr (run p s).1, (run p s).2).
Proof. revert s. induction p as [a|e|C f c IH]; intros s; [done|done|]. simpl. destruct (f s). apply IH. Qed.

(** A first turn that stops ends the loop, however many turns are allowed. *)
Lemma run_doubled_stop {A} k (turn : A → prog S (A + A)) a a' s s' :
  run (turn a) s = (inr (inr a'), s') → run (doubled k turn a) s = (inr (inr a'), s').
Proof. intros Ht. induction k as [|k IH]; [done|]. cbn [doubled]. by rewrite run_bind, IH. Qed.

Lemma stops_at_start {A} (p : prog S A) s : stops_at p s s.
Proof. destruct p; by left. Qed.

Lemma stops_at_run {A} (p : prog S A) s : stops_at p s (run p s).2.
Proof.
  revert s. induction p as [a|e|C f c IH]; intros s; [by left|by left|]. simpl. right.
  specialize (IH (f s).1 (f s).2). by destruct (f s).
Qed.

Lemma stops_at_bind {A B} (p : prog S A) (k : A → prog S B) s s' :
  stops_at (p ≫= k) s s' → stops_at p s s' ∨ ∃ a, (run p s).1 = inr a ∧ stops_at (k a) (run p s).2 s'.
Proof.
  revert s. induction p as [a|e|C f c IH]; intros s; simpl.
  - intros H. right. by exists a.
  - intros [->|[]]. by left; left.
  - intros [->|H]; [by left; left|]. destruct (IH _ _ H) as [H1|(a & H1 & H2)]; [by left; right|].
    right. exists a. by destruct (f s).
Qed.

(** A lone task of a pool is somewhere along its run. *)
Lemma steps_alone {A} (p : prog S A) s ps s' : steps ([p], s) (ps, s') → stops_at p s s'.
Proof.
  intros Hs. remember ([p], s) as c eqn:Hc. remember (ps, s') as c' eqn:Hc'. revert p s Hc ps s' Hc'.
  induction Hs as [c|c c1 c' Hstep Hs IH]; intros p s -> ps s' Hc'.
  - injection Hc' as _ <-. apply stops_at_start.
  - inversion Hstep as [ps0 s0 i B f k b s1 Hi Hf]; subst. destruct i as [|i]; [|done].
    injection Hi as ->. specialize (IH (k b) s1 eq_refl ps s' eq_refl).
    right. by rewrite Hf.
Qed.

(** *** The three disciplines *)

Section Disciplines.
Context (R : S → S → Prop) `{HR : !PreOrder R}.

Lemma step_guarantee_bind {A B} (p : prog S A) (k : A → prog S B) :
  step_guarantee R p → (∀ a, step_guarantee R (k a)) → step_guarantee R (p ≫= k).
Proof.
  intros Hp Hk. induction p as [a|e|C f c IH]; simpl in *; [apply Hk|done|].
  destruct Hp as [Hf Hc]. split; [done|]. intros b. by apply IH.
Qed.

Lemma step_guarantee_run {A} (p : prog S A) s : step_guarantee R p → R s (run p s).2.
Proof.
  revert s. induction p as [a|e|C f c IH]; intros s Hp; simpl in *; try reflexivity.
  destruct Hp as [Hf Hc]. specialize (Hf s). destruct (f s) as [b s'].
  etransitivity; [exact Hf|]. by apply IH.
Qed.

Definition stepwise : discipline S := {|
  related := R; related_preorder := HR;
  guarantee A p := step_guarantee R p;
  guarantee_Ret A a := Logic.I; guarantee_Throw A e := Logic.I;
  guarantee_act B f Hf := conj Hf (λ _, Logic.I);
  guarantee_bind A B := step_guarantee_bind;
  guarantee_run A := step_guarantee_run
|}.

Lemma guarantee_step {A} (c c' : pool S A) :
  Forall (guarantee stepwise) c.1 → step c c' → Forall (guarantee stepwise) c'.1 ∧ R c.2 c'.2.
Proof.
  intros Hc Hs. destruct Hs as [ps s i B f k b s' Hi Hf]. simpl in *.
  pose proof (Forall_lookup_1 _ _ _ _ Hc Hi) as [Hf' Hk]. split.
  - by apply Forall_insert.
  - specialize (Hf' s). by rewrite Hf in Hf'.
Qed.

(** Any interleaving of guaranteed programs moves the state along [R]. *)
Lemma guarantee_steps {A} (c c' : pool S A) :
  Forall (guarantee stepwise) c.1 → steps c c' → R c.2 c'.2.
Proof.
  intros Hc Hs. induction Hs as [c|c c1 c' Hstep Hs IH]; [reflexivity|].
  destruct (guarantee_step _ _ Hc Hstep). etransitivity; eauto.
Qed.

Lemma alone_bind {A B} (p : prog S A) (k : A → prog S B) :
  (∀ s s', stops_at p s s' → R s s') → (∀ a s s', stops_at (k a) s s' → R s s') →
  ∀ s s', stops_at (p ≫= k) s s' → R s s'.
Proof.
  intros Hp Hk s s' [H|(a & _ & H)]%stops_at_bind; [by apply Hp|].
  etransitivity; [apply Hp, stops_at_run|]. by eapply Hk.
Qed.

#[refine] Definition alone : discipline S := {|
  related := R; related_preorder := HR;
  guarantee A p := ∀ s s', stops_at p s s' → R s s';
  guarantee_bind A B := alone_bind;
|}.
Proof.
  - intros A a s s' [->|[]]. reflexivity.
  - intros A e s s' [->|[]]. reflexivity.
  - intros B f Hf s s' [->|[->|[]]]; [reflexivity|apply Hf].
  - intros A p s Hp. apply Hp, stops_at_run.
Defined.

(** A program none of whose reads matter: what every action keeps, a run keeps. *)
Lemma stepwise_alone {A} (p : prog S A) : guarantee stepwise p → guarantee alone p.
Proof.
  intros Hp s s' H. revert s H. induction p as [a|e|C f c IH]; intros s H; simpl in *.
  - destruct H as [->|[]]. reflexivity.
  - destruct H as [->|[]]. reflexivity.
  - destruct Hp as [Hf Hc], H as [->|H]; [reflexivity|]. etransitivity; [apply Hf|]. by eapply IH.
Qed.
End Disciplines.

Section Shared.
Context (I : S → Prop) (G : S → S → Prop) `{HG : !PreOrder G}.

Lemma moves_preorder : PreOrder (moves I G).
Proof.
  split; [by intros s Hs|]. intros s1 s2 s3 H12 H23 H1. destruct (H12 H1) as [H2 G12], (H23 H2) as [H3 G23].
  split; [done|]. by transitivity s2.
Qed.

Lemma sound_later {A} (p : prog S A) s s' : sound I G p s → G s s' → sound I G p s'.
Proof. destruct p; [done|done|]. intros Hp Hs s1 H1 HI. apply Hp; [|done]. by transitivity s'. Qed.

Lemma sound_bind {A B} (p : prog S A) (k : A → prog S B) s :
  sound I G p s → (∀ a s', sound I G (k a) s') → sound I G (p ≫= k) s.
Proof.
  revert s. induction p as [a|e|C f c IH]; intros s Hp Hk; simpl in *; [apply Hk|done|].
  intros s' Hs HI. destruct (Hp s' Hs HI) as (H1 & H2 & H3). split_and!; [done|done|]. by apply IH.
Qed.

Lemma sound_run {A} (p : prog S A) s : (∀ s', sound I G p s') → moves I G s (run p s).2.
Proof.
  intros Hp. specialize (Hp s). revert s Hp. induction p as [a|e|C f c IH]; intros s Hp; simpl in *.
  - intros Hs. by split.
  - intros Hs. by split.
  - intros Hs. destruct (Hp s) as (H1 & H2 & H3); [reflexivity|done|].
    destruct (f s) as [b s1]. simpl in *. destruct (IH b s1 H3 H1) as [H4 H5]. split; [done|]. by transitivity s1.
Qed.

#[refine] Definition shared : discipline S := {|
  related := moves I G; related_preorder := moves_preorder;
  guarantee A p := ∀ s, sound I G p s;
  guarantee_run A := sound_run
|}.
Proof.
  - done.
  - done.
  - intros B f Hf s s' _ HI. destruct (Hf s' HI). by split_and!.
  - intros A B p k Hp Hk s. by apply sound_bind.
Defined.

(** Programs that are sound together keep the invariant in every interleaving. *)
Lemma shared_steps {A} (c c' : pool S A) :
  Forall (λ p, sound I G p c.2) c.1 → I c.2 → steps c c' → I c'.2 ∧ G c.2 c'.2.
Proof.
  intros Hc HI Hs. induction Hs as [c|c c1 c' Hstep Hs IH]; [by split|].
  destruct Hstep as [ps s i B f k b s' Hi Hf]. cbn [fst snd] in *.
  pose proof (Forall_lookup_1 _ _ _ _ Hc Hi s (reflexivity s) HI) as (H1 & H2 & H3). rewrite Hf in H1, H2, H3.
  assert (Forall (λ p, sound I G p s') (<[i:=k b]> ps)) as Hall.
  { apply Forall_insert; [|exact H3]. eapply Forall_impl; [exact Hc|]. intros p Hp. exact (sound_later p s s' Hp H2). }
  destruct (IH Hall H1) as [H4 H5]. split; [done|]. by transitivity s'.
Qed.
End Shared.

Section Guarantee.
Context (R : discipline S).

Lemma guarantee_ret {A} (a : A) : guarantee R (mret a : prog S A).
Proof. apply guarantee_Ret. Qed.

Lemma guarantee_throw {A} e : guarantee R (Throw e : prog S A).
Proof. apply guarantee_Throw. Qed.

Lemma guarantee_for_each {A} (f : A → prog S ()) l :
  (∀ x, guarantee R (f x)) → guarantee R (for_each f l).
Proof. intros Hf. induction l; simpl; [apply guarantee_ret|]. by apply guarantee_bind. Qed.

Lemma guarantee_fold_each {A B} (f : B → A → prog S B) l acc :
  (∀ b x, guarantee R (f b x)) → guarantee R (fold_each f acc l).
Proof.
  intros Hf. revert acc. induction l; intros acc; simpl; [apply guarantee_ret|]. by apply guarantee_bind.
Qed.

Lemma guarantee_turns {A} n (turn : A → prog S (A + A)) a :
  (∀ a, guarantee R (turn a)) → guarantee R (turns n turn a).
Proof.
  intros Hf. revert a. induction n as [|n IH]; intros a; simpl; [apply guarantee_ret|].
  apply guarantee_bind; [done|]. intros [a'|a']; [apply IH|apply guarantee_ret].
Qed.

Lemma guarantee_doubled {A} k (turn : A → prog S (A + A)) a :
  (∀ a, guarantee R (turn a)) → guarantee R (doubled k turn a).
Proof.
  intros Hf. revert a. induction k as [|k IH]; intros a; simpl; [done|].
  apply guarantee_bind; [done|]. intros [a'|a']; [apply IH|apply guarantee_ret].
Qed.

Lemma guarantee_update (f : S → S) : (∀ s, R s (f s)) → guarantee R (update f).
Proof. intros Hf. by apply guarantee_act. Qed.

Lemma guarantee_query {B} (f : S → B) : guarantee R (query f).
Proof. apply guarantee_act. intros s. simpl. reflexivity. Qed.
End Guarantee.

Section Maintains.
Context (I : S → Prop).

Lemma maintains_bind {A B} (Q : A → Prop) (Q' : B → Prop) (p : prog S A) (k : A → prog S B) :
  maintains I Q p → (∀ a, Q a → maintains I Q' (k a)) → maintains I Q' (p ≫= k).
Proof.
  intros Hp Hk. induction p as [a|e|C f c IH]; simpl in *; [by apply Hk|done|].
  intros s Hs. destruct (Hp s Hs) as [Hf Hc]. split; [done|]. by apply IH.
Qed.

Lemma maintains_weaken {A} (Q Q' : A → Prop) (p : prog S A) :
  maintains I Q p → (∀ a, Q a → Q' a) → maintains I Q' p.
Proof.
  intros Hp HQ. induction p as [a|e|C f c IH]; simpl in *; [by apply HQ|done|].
  intros s Hs. destruct (Hp s Hs) as [Hf Hc]. split; [done|]. by apply IH.
Qed.

Lemma maintains_query {B} (f : S → B) (Q : B → Prop) :
  (∀ s, I s → Q (f s)) → maintains I Q (query f).
Proof. intros Hf s Hs. simpl. auto. Qed.

Lemma maintains_act {B} (f : S → B * S) (Q : B → Prop) :
  (∀ s, I s → I (f s).2 ∧ Q (f s).1) → maintains I Q (act f).
Proof. intros Hf s Hs. simpl. auto. Qed.

Lemma maintains_update (f : S → S) : (∀ s, I s → I (f s)) → maintains I (λ _, True) (update f).
Proof. intros Hf s Hs. simpl. auto. Qed.

Lemma maintains_for_each {A} (f : A → prog S ()) l :
  (∀ x, maintains I (λ _, True) (f x)) → maintains I (λ _, True) (for_each f l).
Proof. intros Hf. induction l; simpl; [done|]. eapply maintains_bind; eauto. Qed.

Lemma maintains_fold_each {A B} (Q : B → Prop) (f : B → A → prog S B) l acc :
  (∀ b x, Q b → maintains I Q (f b x)) → Q acc → maintains I Q (fold_each f acc l).
Proof.
  intros Hf. revert acc. induction l; intros acc Ha; simpl; [done|]. eapply maintains_bind; eauto.
Qed.

(** A guarantee that carries the invariant along. *)
Lemma maintains_turns {A} (Q : A → Prop) n (turn : A → prog S (A + A)) a :
  (∀ a, Q a → maintains I (λ r, match r with inl b | inr b => Q b end) (turn a)) → Q a →
  maintains I (λ r, match r with inl b | inr b => Q b end) (turns n turn a).
Proof.
  intros Hf. revert a. induction n as [|n IH]; intros a Ha; simpl; [done|].
  eapply maintains_bind; [by apply Hf|]. intros [b|b] Hb; [by apply IH|done].
Qed.

Lemma maintains_doubled {A} (Q : A → Prop) k (turn : A → prog S (A + A)) a :
  (∀ a, Q a → maintains I (λ r, match r with inl b | inr b => Q b end) (turn a)) → Q a →
  maintains I (λ r, match r with inl b | inr b => Q b end) (doubled k turn a).
Proof.
  intros Hf. revert a. induction k as [|k IH]; intros a Ha; simpl; [by apply Hf|].
  eapply maintains_bind; [by apply IH|]. intros [b|b] Hb; [by apply IH|done].
Qed.

Lemma guarantee_maintains {A} (R : S → S → Prop) `{!PreOrder R} (p : prog S A) :
  (∀ s s', R s s' → I s → I s') → guarantee (stepwise R) p → maintains I (λ _, True) p.
Proof.
  intros HR. cbn [guarantee stepwise]. induction p as [a|e|C f c IH]; simpl; [done|done|]. intros [Hf Hc] s Hs. eauto.
Qed.

Lemma maintains_run {A} (Q : A → Prop) (p : prog S A) s :
  maintains I Q p → I s →
  I (run p s).2 ∧ match (run p s).1 with inr a => Q a | inl _ => True end.
Proof.
  revert s. induction p as [a|e|C f c IH]; intros s Hp Hs; simpl in *; [done|done|].
  destruct (Hp s Hs) as [Hf Hc]. destruct (f s) as [b s']. by apply IH.
Qed.

(** The invariant survives every interleaving. *)
Lemma maintains_steps {A} (Q : A → Prop) (c c' : pool S A) :
  Forall (maintains I Q) c.1 → I c.2 → steps c c' → Forall (maintains I Q) c'.1 ∧ I c'.2.
Proof.
  intros Hc Hi Hs. induction Hs as [c|c c1 c' Hstep Hs IH]; [done|].
  destruct Hstep as [ps s i B f k b s' Hi' Hf]. simpl in *.
  pose proof (Forall_lookup_1 _ _ _ _ Hc Hi' s Hi) as [H1 H2]. rewrite Hf in H1, H2.
  apply IH; [by apply Forall_insert|done].
Qed.
End Maintains.

Lemma advance_steps {A} i (c : pool S A) : steps c (advance i c).
Proof.
  destruct c as [ps s]. unfold advance. simpl.
  destruct (ps !! i) as [[a|e|B f k]|] eqn:Hi; try apply rtc_refl.
  destruct (f s) as [b s'] eqn:Hf. apply rtc_once. by econstructor.
Qed.

Lemma run_schedule_steps {A} sched (c : pool S A) : steps c (run_schedule sched c).
Proof.
  unfold run_schedule. revert c. induction sched as [|i sched IH]; intros c; simpl; [apply rtc_refl|].
  etransitivity; [apply (advance_steps i)|apply IH].
Qed.

(** A task that runs to its end while the others wait. *)
Lemma run_steps {A} i (p : prog S A) ps s a s' :
  ps !! i = Some p → run p s = (inr a, s') → steps (ps, s) (<[i := Ret a]> ps, s').
Proof.
  revert ps s. induction p as [b|e|C f c IH]; intros ps s Hi Hrun; simpl in Hrun.
  - injection Hrun as <- <-. by rewrite list_insert_id.
  - done.
  - destruct (f s) as [b s1] eqn:Hf. eapply rtc_l; [by econstructor|].
    rewrite <- (list_insert_insert_eq ps i (Ret a) (c b)).
    apply (IH b); [|done]. apply list_lookup_insert_eq. by eapply lookup_lt_Some.
Qed.

(** A task that runs a first part to its end while the others wait. *)
Lemma run_prefix_steps {A B} i (p : prog S B) (k : B → prog S A) ps s b s' :
  ps !! i = Some (p ≫= k) → run p s = (inr b, s') → steps (ps, s) (<[i := k b]> ps, s').
Proof.
  revert ps s. induction p as [x|e|C f c IH]; intros ps s Hi Hrun; simpl in Hrun.
  - injection Hrun as <- <-. by rewrite list_insert_id.
  - done.
  - destruct (f s) as [y s1] eqn:Hf. eapply rtc_l; [by econstructor|].
    rewrite <- (list_insert_insert_eq ps i (k b) (c y ≫= k)).
    apply (IH y); [|done]. apply list_lookup_insert_eq. by eapply lookup_lt_Some.
Qed.

(** One action of a task. *)
Lemma act_steps {A B} i (f : S → B * S) (k : B → prog S A) ps s :
  ps !! i = Some (Act f k) → steps (ps, s) (<[i := k (f s).1]> ps, (f s).2).
Proof. intros Hi. apply rtc_once. econstructor; [done|]. by destruct (f s). Qed.
End Laws.

(** ** Termination

    A program is a finite tree, whatever its actions read, so a pool cannot run for
    ever: every interleaving ends, with every task returned or thrown. *)

Definition ended {S A} (p : prog S A) : Prop :=
  match p with Act _ _ => False | _ => True end.

Section Termination.
Context {S A : Type}.

(** A program after its next action. *)
Definition resumes (p' p : prog S A) : Prop :=
  match p with Act f k => ∃ b, p' = k b | _ => False end.

Lemma resumes_wf : well_founded resumes.
Proof.
  intros p. induction p as [a|e|B f k IH]; constructor; intros q Hq; [done..|].
  destruct Hq as [b ->]. apply IH.
Qed.

(** One task of a pool resumes. *)
Definition pool_resumes (ps' ps : list (prog S A)) : Prop :=
  ∃ i p p', ps !! i = Some p ∧ resumes p' p ∧ ps' = <[i := p']> ps.

Lemma pool_resumes_cons p ps : Acc resumes p → Acc pool_resumes ps → Acc pool_resumes (p :: ps).
Proof.
  intros Hp. revert ps. induction Hp as [p _ IHp]. intros ps Hps. induction Hps as [ps Hps IHps].
  constructor. intros ps' ([|i] & q & q' & Hi & Hq & ->).
  - injection Hi as ->. apply IHp; [exact Hq|]. by constructor.
  - apply IHps. by exists i, q, q'.
Qed.

Lemma pool_resumes_wf : well_founded pool_resumes.
Proof.
  intros ps. induction ps as [|p ps IH].
  - constructor. by intros ps' (i & p & p' & Hi & _).
  - apply pool_resumes_cons; [apply resumes_wf|exact IH].
Qed.

Lemma step_wf : well_founded (λ c' c : pool S A, step c c').
Proof.
  apply (wf_projected pool_resumes fst); [|exact pool_resumes_wf].
  intros c' c Hs. destruct Hs as [ps s i B f k b s' Hi Hf]. exists i, (Act f k), (k b).
  split; [exact Hi|]. split; [by exists b|done].
Qed.

(** A pool that cannot move has ended. *)
Lemma pool_progress (c : pool S A) : Forall ended c.1 ∨ ∃ c', step c c'.
Proof.
  destruct c as [ps s]. cbn [fst].
  assert (Forall ended ps ∨ ∃ i B (f : S → B * S) k, ps !! i = Some (Act f k)) as [H|(i & B & f & k & Hi)].
  - induction ps as [|p ps [IH|(i & B & f & k & Hi)]]; [by left| |].
    + destruct p as [a|e|B f k]; [left; by constructor..|]. right. by exists 0, B, f, k.
    + right. by exists (1 + i), B, f, k.
  - by left.
  - right. destruct (f s) as [b s'] eqn:Hf. eexists. by econstructor.
Qed.

Lemma pool_ends (c : pool S A) : ∃ c', steps c c' ∧ Forall ended c'.1.
Proof.
  induction (step_wf c) as [c _ IH]. destruct (pool_progress c) as [H|(c1 & Hs)]; [by exists c|].
  destruct (IH c1 Hs) as (c' & Hc' & He). exists c'. split; [by eapply rtc_l|done].
Qed.
End Termination.

(** No tactic should look for a loop by counting its turns. *)
#[global] Opaque doubled.

Create HintDb guarantee.

(** Decompose a program into its atomic writes, and discharge those by what the
    relation is known to allow. The components declare, in [guarantee], which
    writes a relation allows and which programs guarantee it. *)
Ltac guarantee_step :=
  first
    [ solve [eauto with guarantee]
    | apply guarantee_ret
    | apply guarantee_throw
    | apply guarantee_bind; [|intros ?]
    | apply guarantee_query
    | apply guarantee_for_each; intros ?
    | apply guarantee_fold_each; intros ? ?
    | apply guarantee_turns; intros ?
    | apply guarantee_doubled; intros ?
    | match goal with |- guarantee _ (match ?x with _ => _ end) => destruct x end
    | match goal with |- guarantee _ (let (_, _) := ?x in _) => destruct x end
    | apply guarantee_update; intros ?; solve [eauto with guarantee]
    | apply guarantee_act; intros ?; solve [eauto with guarantee] ].

Ltac guarantee_tac := repeat guarantee_step.

Create Rewrite HintDb run.
#[export] Hint Rewrite @run_bind @run_ret @run_act @run_query @run_update @run_attempt : run.
