(* ===== verification/Entities.v ===== *)
(** * Entities: the rows of the database

    One record per TypeORM entity, with its column transformers. Column names
    that several entities share carry a prefix. Ticks, counters and sequence
    numbers are integers; money, weights and indices are doubles. *)

From S2P Require Import Prelude Number NumberText Json Storage.
From Stdlib Require Import ZArith.

(** ** Column values and transformers *)

(** What the database driver hands to a transformer. *)
Inductive column :=
| ColNull
| ColNumber (n : number)
| ColString (s : string).

(** [numericBigintTransformer] / [numericTransformer]: null stays null. *)
Definition numericBigintTransformer_from (value : column) : option number :=
  match value with
  | ColNull => None
  | ColNumber n => Some n
  | ColString s => Some (string_to_num s)
  end.

(** [numericDecimalTransformer]: null becomes 0. *)
Definition numericDecimalTransformer_from (value : column) : number :=
  match value with
  | ColNull => zero
  | ColNumber n => n
  | ColString s => string_to_num s
  end.

Definition transformer_to (value : number) : column := ColNumber value.

(** The integer a number is, if it is one. *)
Definition integer_of (x : number) : option Z :=
  match x with
  | S754_zero _ => Some 0%Z
  | S754_finite s m e =>
    let v := if s then Zneg m else Zpos m in
    if (0 <=? e)%Z then Some (v * 2 ^ e)%Z
    else if (v mod 2 ^ (- e) =? 0)%Z then Some (v / 2 ^ (- e))%Z else None
  | _ => None
  end.

(** What a Postgres [integer] column can hold: 32 bits, signed. A query that compares
    such a column with anything else is refused by the database. *)
Definition int4 (n : Z) : bool := (- 2 ^ 31 <=? n)%Z && (n <? 2 ^ 31)%Z.

(** The key of an [integer] column a number is, if it is one. *)
Definition integer_key (x : number) : option Z :=
  match integer_of x with Some n => if int4 n then Some n else None | None => None end.

(** ** NodeChain *)

Record ExecutionSnapshot := {
  sequenceId : Z;
  eventType : string;
  payload : json;
  timestamp : Z;
  prevHash : string;
  hash : string
}.

#[global] Instance snapshot_entity : Entity ExecutionSnapshot Z :=
  {| primaryKey := sequenceId |}.

(** ** PoT *)

(** [verified : 0 | 1] is a boolean; [reasons] is the [simple-json] list. *)
Record PotVerdict := {
  verdict_processId : string;
  verified : bool;
  reasons : list string;
  verdict_timestamp : Z;
  snapshotSequenceId : Z
}.

#[global] Instance verdict_entity : Entity PotVerdict string :=
  {| primaryKey := verdict_processId |}.

(** ** ArosCoin *)

Record ArosCoinLedger := {
  ledger_id : Z;
  processMinted : number;
  processBurned : number;
  earnedRetained : number
}.

Definition LEDGER_ID : Z := 1.

#[global] Instance ledger_entity : Entity ArosCoinLedger Z :=
  {| primaryKey := ledger_id |}.

(** ** Commission *)

Record DistributionEntry := {
  entry_nodeId : string;
  entry_amount : number;
  entry_reason : string
}.

Inductive EpochStatus := open | finalized | archived.

#[global] Instance epoch_status_eq_dec : EqDecision EpochStatus.
Proof. solve_decision. Defined.

(** [epoch_number] is an [integer] column: the rows have [int4] keys, because every
    query by a number that is not one throws ([Commission.getEpoch]). *)
Record Epoch := {
  epochNumber : Z;
  startTime : Z;
  endTime : Z;
  totalFees : number;
  distributionLog : list DistributionEntry;
  epoch_status : EpochStatus;
  operationalMargin : number
}.

#[global] Instance epoch_entity : Entity Epoch Z := {| primaryKey := epochNumber |}.

(** ** Nodes *)

Inductive NodeStatus := active | penalized | disconnected.

#[global] Instance node_status_eq_dec : EqDecision NodeStatus.
Proof. solve_decision. Defined.

Record NodeEntity := {
  node_id : string;
  node_type : string;
  uptime : number;
  successes : Z;
  total : Z;
  node_status : NodeStatus;
  weight : number;
  reputation : number
}.

#[global] Instance node_entity : Entity NodeEntity string := {| primaryKey := node_id |}.

(** ** Release *)

Record ReleasePhase := {
  phase_id : Z;
  phase_active : bool;
  activatedAt : option Z;
  reserveIndexAtActivation : option number;
  velocityAtActivation : option number
}.

Definition PHASE_ID : Z := 1.

#[global] Instance phase_entity : Entity ReleasePhase Z := {| primaryKey := phase_id |}.

(** ** All-Seeing Eye *)

Record OversightLogEntry := {
  log_id : Z;
  log_eventType : string;
  log_layer : string;
  log_description : string;
  log_hash : string;
  log_prevHash : string;
  log_timestamp : Z;
  log_signature : string
}.

#[global] Instance oversight_entity : Entity OversightLogEntry Z := {| primaryKey := log_id |}.

(** ** In-memory data of the services *)

Record Participation := {
  part_processId : string;
  part_nodeId : string
}.
