(* ===== verification/World.v ===== *)
(** * The state the services share

    The tables of the database, the clock of [ClockService], and the fields the
    services keep in memory: the event types captured per process
    ([StateRecordingService.captured]), the participations of the open epochs
    ([CommissionService.participation]) and the one-time initialisation of the
    ledger row ([ArosCoinService.initialization]). *)

From S2P Require Import Prelude Number NumberText Json Storage Effects Entities.
From Stdlib Require Import ZArith.

(** ** What the runtime supplies

    [sha256_hex] is the hex digest computed by [node:crypto], [math_log10] is
    [Math.log10]; the language standard fixes its value at 1. *)
Class Platform := {
  sha256_hex : string → string;
  math_log10 : number → number;
  math_log10_one : math_log10 (of_Z 1) = zero
}.

(** [common/hash.util.ts]. *)
Definition sha256 `{Platform} (s : string) : string := sha256_hex s.
Definition log10 `{Platform} (x : number) : number := math_log10 x.

(** Two hashes with different inputs and one digest. *)
Definition collision `{Platform} : Prop := ∃ a b, a ≠ b ∧ sha256 a = sha256 b.

(** Concrete platforms on which the model runs: one keeps the text it should
    hash, the other maps every text to one digest of the length of SHA-256's. *)
Definition transparent_platform : Platform :=
  {| sha256_hex s := s; math_log10 _ := zero; math_log10_one := eq_refl |}.

Definition constant_platform : Platform :=
  {| sha256_hex _ := zeros 64; math_log10 _ := zero; math_log10_one := eq_refl |}.

(** ** The state *)

(** [Map<number, Participation[]>]. The arrays are objects: a loop over one goes on
    over it after the map has dropped it, and sees what is pushed to it meanwhile. The
    array of an epoch is named by how often the map dropped an array of that epoch
    before, so an array is never reused. *)
Record Participations := {
  arrays : gmap (Z * nat) (list Participation);
  generation : gmap Z nat
}.

Definition no_participations : Participations := {| arrays := ∅; generation := ∅ |}.

Record World `{Storage} := {
  clock : Z;
  snapshots : repo ExecutionSnapshot;
  verdicts : repo PotVerdict;
  ledger_rows : repo ArosCoinLedger;
  epochs : repo Epoch;
  nodes : repo NodeEntity;
  phases : repo ReleasePhase;
  oversight : repo OversightLogEntry;
  captured : gmap string (gset string);
  participation : Participations;
  ledger_ready : bool
}.

Section World.
Context {ST : Storage}.

(** A fresh process on an empty database; the clock starts at 1_700_000_000_000. *)
Definition clock_start : Z := 1700000000000.

Definition fresh_world : World := {|
  clock := clock_start;
  snapshots := empty_repo; verdicts := empty_repo; ledger_rows := empty_repo;
  epochs := empty_repo; nodes := empty_repo; phases := empty_repo; oversight := empty_repo;
  captured := ∅; participation := no_participations; ledger_ready := false
|}.

(** The process restarts: the tables survive, the memory does not. *)
Definition restart (w : World) : World := {|
  clock := clock_start;
  snapshots := snapshots w; verdicts := verdicts w; ledger_rows := ledger_rows w;
  epochs := epochs w; nodes := nodes w; phases := phases w; oversight := oversight w;
  captured := ∅; participation := no_participations; ledger_ready := false
|}.

Definition set_clock (x : Z) (w : World) : World :=
  {| clock := x; snapshots := snapshots w; verdicts := verdicts w; ledger_rows := ledger_rows w;
     epochs := epochs w; nodes := nodes w; phases := phases w; oversight := oversight w;
     captured := captured w; participation := participation w; ledger_ready := ledger_ready w |}.
Definition set_snapshots (x : repo ExecutionSnapshot) (w : World) : World :=
  {| clock := clock w; snapshots := x; verdicts := verdicts w; ledger_rows := ledger_rows w;
     epochs := epochs w; nodes := nodes w; phases := phases w; oversight := oversight w;
     captured := captured w; participation := participation w; ledger_ready := ledger_ready w |}.
Definition set_verdicts (x : repo PotVerdict) (w : World) : World :=
  {| clock := clock w; snapshots := snapshots w; verdicts := x; ledger_rows := ledger_rows w;
     epochs := epochs w; nodes := nodes w; phases := phases w; oversight := oversight w;
     captured := captured w; participation := participation w; ledger_ready := ledger_ready w |}.
Definition set_ledger_rows (x : repo ArosCoinLedger) (w : World) : World :=
  {| clock := clock w; snapshots := snapshots w; verdicts := verdicts w; ledger_rows := x;
     epochs := epochs w; nodes := nodes w; phases := phases w; oversight := oversight w;
     captured := captured w; participation := participation w; ledger_ready := ledger_ready w |}.
Definition set_epochs (x : repo Epoch) (w : World) : World :=
  {| clock := clock w; snapshots := snapshots w; verdicts := verdicts w; ledger_rows := ledger_rows w;
     epochs := x; nodes := nodes w; phases := phases w; oversight := oversight w;
     captured := captured w; participation := participation w; ledger_ready := ledger_ready w |}.
Definition set_nodes (x : repo NodeEntity) (w : World) : World :=
  {| clock := clock w; snapshots := snapshots w; verdicts := verdicts w; ledger_rows := ledger_rows w;
     epochs := epochs w; nodes := x; phases := phases w; oversight := oversight w;
     captured := captured w; participation := participation w; ledger_ready := ledger_ready w |}.
Definition set_phases (x : repo ReleasePhase) (w : World) : World :=
  {| clock := clock w; snapshots := snapshots w; verdicts := verdicts w; ledger_rows := ledger_rows w;
     epochs := epochs w; nodes := nodes w; phases := x; oversight := oversight w;
     captured := captured w; participation := participation w; ledger_ready := ledger_ready w |}.
Definition set_oversight (x : repo OversightLogEntry) (w : World) : World :=
  {| clock := clock w; snapshots := snapshots w; verdicts := verdicts w; ledger_rows := ledger_rows w;
     epochs := epochs w; nodes := nodes w; phases := phases w; oversight := x;
     captured := captured w; participation := participation w; ledger_ready := ledger_ready w |}.
Definition set_captured (x : gmap string (gset string)) (w : World) : World :=
  {| clock := clock w; snapshots := snapshots w; verdicts := verdicts w; ledger_rows := ledger_rows w;
     epochs := epochs w; nodes := nodes w; phases := phases w; oversight := oversight w;
     captured := x; participation := participation w; ledger_ready := ledger_ready w |}.
Definition set_participation (x : Participations) (w : World) : World :=
  {| clock := clock w; snapshots := snapshots w; verdicts := verdicts w; ledger_rows := ledger_rows w;
     epochs := epochs w; nodes := nodes w; phases := phases w; oversight := oversight w;
     captured := captured w; participation := x; ledger_ready := ledger_ready w |}.
Definition set_ledger_ready (x : bool) (w : World) : World :=
  {| clock := clock w; snapshots := snapshots w; verdicts := verdicts w; ledger_rows := ledger_rows w;
     epochs := epochs w; nodes := nodes w; phases := phases w; oversight := oversight w;
     captured := captured w; participation := participation w; ledger_ready := x |}.

(** ** [ClockService] *)

(** [++this.t] on a double: integers are exact up to 2^53, where the increment
    rounds back and the clock stops. *)
Definition next_tick (t : Z) : Z := if (t <? 2 ^ 53)%Z then (t + 1)%Z else t.

(** [now()] as part of a larger atomic action: the tick and the new state. *)
Definition now (w : World) : Z * World := let t := next_tick (clock w) in (t, set_clock t w).

(** ** The clock moves forward *)

Definition clock_le (w w' : World) : Prop := (clock w ≤ clock w')%Z.

#[global] Instance clock_le_preorder : PreOrder clock_le.
Proof. split; [intros w; apply Z.le_refl|intros w1 w2 w3; apply Z.le_trans]. Qed.

Lemma next_tick_le t : (t ≤ next_tick t)%Z.
Proof. unfold next_tick. destruct (Z.ltb_spec t (2 ^ 53)); lia. Qed.

Lemma next_tick_lt t : (t < 2 ^ 53)%Z → (t < next_tick t ≤ 2 ^ 53)%Z.
Proof. unfold next_tick. intros. destruct (Z.ltb_spec t (2 ^ 53)); lia. Qed.
End World.
