(* ===== verification/NodeChain.v ===== *)
(** * NodeChain: the append-only system of record

    [src/src/nodechain/nodechain.service.ts]. [append] runs in a transaction that takes
    no lock and sets no isolation level, so other requests can run between its
    statements: the read of the head, the tick and the save are three actions.
    [append_tx] is what they do when nothing runs between them. [reconstruct] replays
    the hashes from genesis. *)

From S2P Require Import Prelude Number NumberText Json Storage Effects Entities World.
From Stdlib Require Import ZArith.

Section NodeChain.
Context {ST : Storage} {PL : Platform}.

(** ** Operations *)

(** The preimage of a snapshot's hash: [payloadJson + prevHash + sequenceId]. *)
Definition snapshot_preimage (p : json) (prev : string) (seq : Z) : string :=
  stringify p +:+ prev +:+ string_of_Z seq.

(** The head of the chain: [orderBy('snap.sequenceId', 'DESC').limit(1).getOne()]. *)
Definition chain_head (rows : list ExecutionSnapshot) : option ExecutionSnapshot :=
  head (limit_rows (Some 1) (order_desc sequenceId rows)).

(** The snapshot built for an event on top of a head, at a given tick. *)
Definition next_snapshot (h : option ExecutionSnapshot) (event : string) (p : json) (t : Z)
  : ExecutionSnapshot :=
  let seq := match h with Some s => (sequenceId s + 1)%Z | None => 1%Z end in
  let prev := match h with Some s => hash s | None => EmptyString end in
  {| sequenceId := seq; eventType := event; payload := p; timestamp := t;
     prevHash := prev; hash := sha256 (snapshot_preimage p prev seq) |}.

(** The row a snapshot leaves in the table: its payload went through the column. *)
Definition snapshot_row (s : ExecutionSnapshot) : ExecutionSnapshot :=
  {| sequenceId := sequenceId s; eventType := eventType s; payload := stored (payload s);
     timestamp := timestamp s; prevHash := prevHash s; hash := hash s |}.

Definition store_snapshot (s : ExecutionSnapshot) (w : World) : World :=
  set_snapshots (save (snapshot_row s) (snapshots w)) w.

Definition append (event : string) (p : json) : prog World ExecutionSnapshot :=
  h ← query (λ w, chain_head (find (snapshots w)));
  t ← act now;
  let s := next_snapshot h event p t in
  update (store_snapshot s);;
  mret s.

Definition latest : prog World (option ExecutionSnapshot) :=
  query (λ w, chain_head (find (snapshots w))).

Definition getBySequence (seq : Z) : prog World (option ExecutionSnapshot) :=
  query (λ w, findOne seq (snapshots w)).

Definition list_snapshots (limit offset : option nat) (w : World) : list ExecutionSnapshot :=
  limit_rows limit (offset_rows offset (order_asc sequenceId (find (snapshots w)))).

Definition chain_list (limit offset : option nat) : prog World (list ExecutionSnapshot) :=
  query (list_snapshots limit offset).

Record ReconstructResult := { ok : bool; brokenAt : option Z }.

(** The loop of [reconstruct], from the hash the next snapshot must point to. *)
Fixpoint replay (expectedPrevHash : string) (rows : list ExecutionSnapshot) : ReconstructResult :=
  match rows with
  | [] => {| ok := true; brokenAt := None |}
  | s :: rows' =>
    let expectedHash := sha256 (snapshot_preimage (payload s) expectedPrevHash (sequenceId s)) in
    if negb (String.eqb (prevHash s) expectedPrevHash) || negb (String.eqb (hash s) expectedHash)
    then {| ok := false; brokenAt := Some (sequenceId s) |}
    else replay (hash s) rows'
  end.

Definition reconstruct : prog World ReconstructResult :=
  rows ← chain_list None None; mret (replay EmptyString rows).

(** ** Abstract specification

    An intact chain: positions 1, 2, 3, ..., each snapshot carrying the hash of
    its payload, position and predecessor. *)

Fixpoint linked (prev : string) (rows : list ExecutionSnapshot) : Prop :=
  match rows with
  | [] => True
  | s :: rows' =>
    prevHash s = prev ∧ hash s = sha256 (snapshot_preimage (payload s) prev (sequenceId s)) ∧
    linked (hash s) rows'
  end.

Definition numbered (rows : list ExecutionSnapshot) : Prop :=
  sequenceId <$> rows = seqZ 1 (Z.of_nat (length rows)).

Definition intact (rows : list ExecutionSnapshot) : Prop := numbered rows ∧ linked EmptyString rows.

Definition chain (w : World) : list ExecutionSnapshot := find (snapshots w).

(** The chain stays intact and only grows at its end. *)
Definition chain_extends (w w' : World) : Prop :=
  intact (chain w) → intact (chain w') ∧ chain w `prefix_of` chain w'.

(** [append] when nothing runs between its statements. *)
Definition append_tx (event : string) (p : json) (w : World) : ExecutionSnapshot * World :=
  let h := chain_head (find (snapshots w)) in
  let (t, w) := now w in
  let s := next_snapshot h event p t in
  (s, store_snapshot s w).

(** A snapshot that carries the hash of its own payload, link and position. *)
Definition sealed (s : ExecutionSnapshot) : Prop :=
  hash s = sha256 (snapshot_preimage (payload s) (prevHash s) (sequenceId s)).

(** What is left of an intact chain when appends interleave: positions 1, 2, 3, ...,
    every snapshot sealed and stamped in the past. *)
Record chain_sound (w : World) : Prop := {
  cs_numbered : numbered (chain w);
  cs_sealed : Forall sealed (chain w);
  cs_past : Forall (λ s, timestamp s ≤ clock w)%Z (chain w)
}.

Definition chain_grows (w w' : World) : Prop :=
  (clock w ≤ clock w')%Z ∧ length (chain w) ≤ length (chain w').

(** What a discipline must allow for the users of the chain to guarantee it: one
    more snapshot, one more tick. *)
Class AllowsAppend (R : discipline World) : Prop := {
  allows_append : ∀ event p, guarantee R (append event p);
  allows_now : ∀ w, R w (now w).2
}.

(** Ticks along the chain increase strictly until the clock saturates at 2^53. *)
Definition tick_lt (a b : Z) : Prop := (a < b ∨ b = 2 ^ 53)%Z.

Definition ticks_ordered (w : World) : Prop :=
  (clock w ≤ 2 ^ 53)%Z ∧ StronglySorted tick_lt (timestamp <$> chain w) ∧
  Forall (λ t, (t ≤ clock w)%Z) (timestamp <$> chain w).

Definition preserves_ticks (w w' : World) : Prop :=
  intact (chain w) → ticks_ordered w → intact (chain w') ∧ ticks_ordered w'.

(** The hash of the last snapshot, or the genesis value. *)
Definition head_hash (rows : list ExecutionSnapshot) : string :=
  match last rows with Some s => hash s | None => EmptyString end.

(** What the hash of a stored snapshot was computed from. *)
Definition preimage_of (s : ExecutionSnapshot) : string :=
  snapshot_preimage (payload s) (prevHash s) (sequenceId s).

(** Two snapshots of two chains hashed from different texts to one digest. *)
Definition collide_in (rows rows' : list ExecutionSnapshot) : Prop :=
  ∃ s s', s ∈ rows ∧ s' ∈ rows' ∧ preimage_of s ≠ preimage_of s' ∧
    sha256 (preimage_of s) = sha256 (preimage_of s').

(** The snapshot at position [n] is the first that does not link. *)
Definition breaks_from (prev : string) (n : Z) (rows : list ExecutionSnapshot) : Prop :=
  ∃ rows1 s rows2, rows = rows1 ++ s :: rows2 ∧ sequenceId s = n ∧ linked prev rows1 ∧
    ¬ linked (match last rows1 with Some s' => hash s' | None => prev end) [s].

Definition breaks_at : Z → list ExecutionSnapshot → Prop := breaks_from EmptyString.

(** ** Facts *)

#[global] Instance chain_extends_preorder : PreOrder chain_extends.
Proof.
  split; [by intros w Hw|]. intros w1 w2 w3 H12 H23 H1.
  destruct (H12 H1) as [H2 P12]. destruct (H23 H2) as [H3 P23]. split; [done|by trans (chain w2)].
Qed.

#[global] Instance preserves_ticks_preorder : PreOrder preserves_ticks.
Proof. split; [by intros w|]. intros w1 w2 w3 H12 H23 H1 T1. destruct (H12 H1 T1). auto. Qed.

(** *** Order of the rows *)

Lemma seqZ_one m : seqZ m 1 = [m].
Proof. done. Qed.

Lemma numbered_app rows s :
  numbered (rows ++ [s]) ↔ numbered rows ∧ sequenceId s = (Z.of_nat (length rows) + 1)%Z.
Proof.
  unfold numbered. rewrite fmap_app, length_app, Nat2Z.inj_add.
  change (Z.of_nat (length [s])) with 1%Z. rewrite seqZ_app, seqZ_one by lia. csimpl.
  split.
  - intros [H1 H2]%app_inj_2; [|done]. split; [done|]. injection H2. lia.
  - intros [-> ->]. f_equal. f_equal. lia.
Qed.

Lemma numbered_lookup rows i s : numbered rows → rows !! i = Some s → sequenceId s = (Z.of_nat i + 1)%Z.
Proof.
  intros Hn Hi. assert ((sequenceId <$> rows) !! i = Some (sequenceId s)) as H
    by (by rewrite list_lookup_fmap, Hi).
  rewrite Hn, lookup_seqZ in H. lia.
Qed.

Lemma numbered_sorted rows : numbered rows → column_sorted sequenceId rows.
Proof.
  intros Hn. assert (∀ n, (sequenceId <$> rows) = seqZ n (Z.of_nat (length rows)) →
    column_sorted sequenceId rows) as H; [|by apply (H 1%Z)].
  clear Hn. induction rows as [|s rows IH]; intros n Hn; [constructor|].
  rewrite seqZ_cons in Hn by (simpl; lia). injection Hn as Hs Hrows.
  change (sequenceId <$> rows = seqZ (Z.succ n) (Z.pred (Z.of_nat (S (length rows))))) in Hrows.
  rewrite Nat2Z.inj_succ, Z.pred_succ in Hrows.
  constructor; [eapply IH, Hrows|]. apply Forall_forall. intros x Hx.
  assert (sequenceId x ∈ seqZ (Z.succ n) (Z.of_nat (length rows))) as Hin
    by (rewrite <- Hrows; by apply list_elem_of_fmap_2).
  apply elem_of_seqZ in Hin. lia.
Qed.

Lemma order_asc_numbered rows : numbered rows → order_asc sequenceId rows = rows.
Proof. intros. by apply order_asc_sorted, numbered_sorted. Qed.

Lemma order_desc_numbered_head rows : numbered rows → chain_head rows = last rows.
Proof. intros Hn. by apply order_desc_head, numbered_sorted. Qed.

(** *** Links *)

Lemma linked_app prev rows1 rows2 :
  linked prev (rows1 ++ rows2) ↔
  linked prev rows1 ∧ linked (match last rows1 with Some s => hash s | None => prev end) rows2.
Proof.
  revert prev. induction rows1 as [|s rows1 IH]; intros prev; simpl; [naive_solver|].
  rewrite IH. destruct rows1 as [|s' rows1]; simpl; [naive_solver|].
  destruct (last (s' :: rows1)) eqn:E; [naive_solver|].
  by apply last_None in E.
Qed.

(** [replay] decides [linked], and reports the first snapshot that does not link. *)
Lemma replay_linked prev rows : ok (replay prev rows) = true ↔ linked prev rows.
Proof.
  revert prev. induction rows as [|s rows IH]; intros prev; simpl; [done|].
  destruct (String.eqb_spec (prevHash s) prev) as [Hp|Hp]; simpl; [|naive_solver].
  destruct (String.eqb_spec (hash s) (sha256 (snapshot_preimage (payload s) prev (sequenceId s))))
    as [Hh|Hh]; simpl; [|naive_solver].
  rewrite IH. naive_solver.
Qed.

Lemma replay_ok_eq prev rows : linked prev rows → replay prev rows = {| ok := true; brokenAt := None |}.
Proof.
  revert prev. induction rows as [|s rows IH]; intros prev; simpl; [done|].
  intros (Hp & Hh & Hl). rewrite <- Hh, <- Hp, !String.eqb_refl. simpl. auto.
Qed.

(** The prefix before a break is intact, and the snapshot at the break is not. *)
Lemma replay_broken prev rows1 s rows2 :
  linked prev rows1 →
  ¬ linked (match last rows1 with Some s' => hash s' | None => prev end) [s] →
  replay prev (rows1 ++ s :: rows2) = {| ok := false; brokenAt := Some (sequenceId s) |}.
Proof.
  revert prev. induction rows1 as [|s' rows1 IH]; intros prev; simpl.
  - intros _ Hs.
    destruct (String.eqb_spec (prevHash s) prev); simpl; [|done].
    destruct (String.eqb_spec (hash s) (sha256 (snapshot_preimage (payload s) prev (sequenceId s))));
      simpl; [|done]. naive_solver.
  - intros (Hp & Hh & Hl) Hs. rewrite <- Hh, <- Hp, !String.eqb_refl. simpl.
    apply IH; [done|]. destruct rows1 as [|x rows1]; [done|]. simpl in *.
    destruct (last (x :: rows1)) eqn:E; [done|]. by apply last_None in E.
Qed.

Lemma replay_decides_from prev rows :
  match brokenAt (replay prev rows) with
  | None => ok (replay prev rows) = true ∧ linked prev rows
  | Some n => ok (replay prev rows) = false ∧ breaks_from prev n rows
  end.
Proof.
  revert prev. induction rows as [|s rows IH]; intros prev; simpl; [done|].
  destruct (_ || _) eqn:Hb; cbn [brokenAt ok].
  - split; [done|]. exists [], s, rows. split_and!; [done..|]. cbn. intros (Hp & Hh & _).
    rewrite Hp, String.eqb_refl in Hb. rewrite <- Hh, String.eqb_refl in Hb. done.
  - apply orb_false_iff in Hb as [Hp%negb_false_iff%String.eqb_eq Hh%negb_false_iff%String.eqb_eq].
    specialize (IH (hash s)). destruct (brokenAt _) as [n|]; [|by destruct IH].
    destruct IH as [Ho (rows1 & x & rows2 & -> & Hx & Hl & Hn)]. split; [done|].
    exists (s :: rows1), x, rows2. split_and!; [done..|].
    destruct rows1 as [|y rows1]; [done|]. cbn [last] in *. destruct (last (y :: rows1)) eqn:El; [done|].
    by apply last_None in El.
Qed.

Lemma replay_decides rows :
  match brokenAt (replay EmptyString rows) with
  | None => ok (replay EmptyString rows) = true ∧ linked EmptyString rows
  | Some n => ok (replay EmptyString rows) = false ∧ breaks_at n rows
  end.
Proof. apply replay_decides_from. Qed.

Lemma head_hash_length rows :
  (∀ s, String.length (sha256 s) = 64) → linked EmptyString rows →
  String.length (head_hash rows) = match rows with [] => 0 | _ => 64 end.
Proof.
  intros Hlen. destruct rows as [|x rows _] using rev_ind; [done|]. intros [_ (_ & Hh & _)]%linked_app.
  unfold head_hash. rewrite last_snoc, Hh, Hlen. by destruct rows.
Qed.

(** *** [append] *)

Lemma snapshot_preimage_stored p prev seq :
  snapshot_preimage (stored p) prev seq = snapshot_preimage p prev seq.
Proof. unfold snapshot_preimage. by rewrite stringify_stored. Qed.

Lemma intact_keys rows :
  numbered rows → (Z.of_nat (length rows) + 1)%Z ∉ (primaryKey <$> rows : list Z).
Proof.
  intros Hn Hin. change (primaryKey <$> rows) with (sequenceId <$> rows) in Hin.
  rewrite Hn, elem_of_seqZ in Hin. lia.
Qed.

(** The snapshot [append] adds to an intact chain. *)
Definition appended (rows : list ExecutionSnapshot) (event : string) (p : json) (t : Z) :=
  {| sequenceId := (Z.of_nat (length rows) + 1)%Z; eventType := event; payload := p; timestamp := t;
     prevHash := head_hash rows;
     hash := sha256 (snapshot_preimage p (head_hash rows) (Z.of_nat (length rows) + 1)%Z) |}.

Lemma next_snapshot_appended rows event p t :
  numbered rows → next_snapshot (chain_head rows) event p t = appended rows event p t.
Proof.
  intros Hn. rewrite order_desc_numbered_head by done. unfold next_snapshot, appended, head_hash.
  destruct (last rows) as [s|] eqn:El.
  - rewrite last_lookup in El.
    rewrite (numbered_lookup _ _ _ Hn El). apply lookup_lt_Some in El.
    replace (Z.of_nat (pred (length rows)) + 1)%Z with (Z.of_nat (length rows)) by lia. done.
  - by apply last_None in El as ->.
Qed.

Lemma append_tx_spec event p w :
  intact (chain w) →
  let s := appended (chain w) event p (next_tick (clock w)) in
  append_tx event p w = (s, store_snapshot s (set_clock (next_tick (clock w)) w)) ∧
  find (save (snapshot_row s) (snapshots w)) = chain w ++ [snapshot_row s].
Proof.
  intros [Hn _]. cbn zeta. unfold append_tx, now. cbn [snapshots set_clock].
  change (find (snapshots w)) with (chain w). rewrite next_snapshot_appended by done. split; [done|].
  rewrite find_save. by apply upsert_fresh, intact_keys.
Qed.

Lemma intact_snoc rows event p t :
  intact rows → intact (rows ++ [snapshot_row (appended rows event p t)]).
Proof.
  intros [Hn Hl]. split; [by apply numbered_app|]. apply linked_app. split; [done|].
  simpl. by rewrite snapshot_preimage_stored.
Qed.

Lemma append_chain event p w :
  intact (chain w) →
  chain (append_tx event p w).2 =
    chain w ++ [snapshot_row (appended (chain w) event p (next_tick (clock w)))].
Proof. intros Hw. destruct (append_tx_spec event p w Hw) as [-> Hf]. exact Hf. Qed.

Lemma append_extends event p w : chain_extends w (append_tx event p w).2.
Proof.
  intros Hw. rewrite append_chain by done. split; [by apply intact_snoc|by apply prefix_app_r].
Qed.

Lemma append_ticks event p w : preserves_ticks w (append_tx event p w).2.
Proof.
  intros Hw (Hc & Hs & Hf). split; [by apply append_extends|].
  unfold ticks_ordered. rewrite append_chain by done. rewrite fmap_app.
  destruct (append_tx_spec event p w Hw) as [-> _]. cbn [snd clock set_snapshots set_clock fmap list_fmap].
  pose proof (next_tick_le (clock w)) as Hle.
  assert (next_tick (clock w) ≤ 2 ^ 53)%Z as Hb by (unfold next_tick; destruct (Z.ltb_spec (clock w) (2 ^ 53)); lia).
  split; [done|]. split.
  - apply StronglySorted_app_2; [|done|repeat constructor].
    intros x y Hx ->%list_elem_of_singleton. rewrite Forall_forall in Hf. specialize (Hf x Hx).
    unfold tick_lt, snapshot_row, appended, next_tick. simpl.
    destruct (Z.ltb_spec (clock w) (2 ^ 53)); lia.
  - apply Forall_app. split; [|by constructor].
    eapply Forall_impl; [exact Hf|]. simpl. lia.
Qed.

Lemma now_ticks w : preserves_ticks w (now w).2.
Proof.
  intros Hw (Hc & Hs & Hf). split; [done|]. pose proof (next_tick_le (clock w)) as Hle.
  unfold ticks_ordered, now. cbn [snd clock set_clock]. split_and!; [|done|].
  - unfold next_tick. destruct (Z.ltb_spec (clock w) (2 ^ 53)); lia.
  - eapply Forall_impl; [exact Hf|]. simpl. lia.
Qed.

Lemma run_append event p w : run (append event p) w = (inr (append_tx event p w).1, (append_tx event p w).2).
Proof. reflexivity. Qed.

(** *** What [append] guarantees *)

(** Alone, it can be stopped before the tick, after the tick, and after the save. *)
Lemma stops_append event p w w' :
  stops_at (append event p) w w' → w' = w ∨ w' = (now w).2 ∨ w' = (append_tx event p w).2.
Proof. intros [->|[->|[->|[->|[]]]]]; auto. Qed.

Lemma alone_append R `{!PreOrder R} event p :
  (∀ w, R w (now w).2) → (∀ w, R w (append_tx event p w).2) → guarantee (alone R) (append event p).
Proof. intros Hn Ha w w' [->|[->| ->]]%stops_append; [reflexivity|apply Hn|apply Ha]. Qed.

(** Interleaved, it may save whatever snapshot it built on the head it read. *)
Lemma stepwise_append R `{!PreOrder R} event p :
  (∀ w, R w (now w).2) → (∀ s w, R w (store_snapshot s w)) → guarantee (stepwise R) (append event p).
Proof.
  intros Hn Hs. unfold append. apply guarantee_bind; [apply guarantee_query|]. intros h.
  apply guarantee_bind; [by apply guarantee_act|]. intros t.
  apply guarantee_bind; [|intros []; apply guarantee_ret]. apply guarantee_update. apply Hs.
Qed.

#[global] Instance chain_grows_preorder : PreOrder chain_grows.
Proof. split; [by split|]. intros w1 w2 w3 [] []. split; lia. Qed.

(** The next position of a head read earlier is a position of the chain or the first
    free one: saving there overwrites or extends, and leaves the numbering whole. *)
Lemma upsert_numbered rows s (P : ExecutionSnapshot → Prop) :
  numbered rows → (1 ≤ sequenceId s ≤ Z.of_nat (length rows) + 1)%Z → P s → Forall P rows →
  numbered (upsert s rows) ∧ Forall P (upsert s rows) ∧ length rows ≤ length (upsert s rows).
Proof.
  intros Hn Hs HP HF. destruct (lookup_key (primaryKey s) rows) as [s'|] eqn:Hl.
  - assert (sequenceId <$> upsert s rows = sequenceId <$> rows) as Hk.
    { pose proof (upsert_keys s rows) as Hk. rewrite Hl in Hk. exact (Hk ltac:(done)). }
    assert (length (upsert s rows) = length rows) as Hlen.
    { rewrite <- (length_fmap sequenceId (upsert s rows)), Hk. apply length_fmap. }
    split_and!; [|by apply Forall_upsert|lia]. unfold numbered. by rewrite Hk, Hlen.
  - apply lookup_key_none in Hl. pose proof Hl as Hk. change (sequenceId s ∉ sequenceId <$> rows) in Hk.
    rewrite Hn, elem_of_seqZ in Hk. rewrite upsert_fresh by done. split_and!.
    + apply numbered_app. split; [done|]. lia.
    + apply Forall_app. by split; [|constructor].
    + rewrite length_app. lia.
Qed.

Lemma numbered_head rows :
  numbered rows → match chain_head rows with
                  | Some s => sequenceId s = Z.of_nat (length rows) | None => rows = [] end.
Proof.
  intros Hn. rewrite order_desc_numbered_head by done. destruct (last rows) as [s|] eqn:El.
  - rewrite last_lookup in El. rewrite (numbered_lookup _ _ _ Hn El). apply lookup_lt_Some in El. lia.
  - by apply last_None in El.
Qed.

Lemma next_snapshot_sealed h event p t : sealed (snapshot_row (next_snapshot h event p t)).
Proof. unfold sealed. cbn [hash payload prevHash sequenceId snapshot_row]. by rewrite snapshot_preimage_stored. Qed.

Lemma chain_sound_now w : chain_sound w → chain_sound (now w).2 ∧ chain_grows w (now w).2.
Proof.
  intros [H1 H2 H3]. pose proof (next_tick_le (clock w)) as Hle. split; [split; [done|done|]|by split].
  eapply Forall_impl; [exact H3|]. simpl. lia.
Qed.

(** In company, it keeps the chain sound. *)
Lemma shared_append event p : guarantee (shared chain_sound chain_grows) (append event p).
Proof.
  intros w0 w1 _ H1. cbn [fst snd]. split_and!; [done|done|].
  pose proof (numbered_head _ (cs_numbered _ H1)) as Hh. fold (chain w1).
  intros w2 [_ L2] H2. destruct (chain_sound_now w2 H2) as [Hn Hg]. split_and!; [done|done|].
  intros w3 [C3 L3] H3. cbn [now fst snd] in *.
  set (s := next_snapshot (chain_head (chain w1)) event p (next_tick (clock w2))).
  destruct (upsert_numbered (chain w3) (snapshot_row s) (λ s, sealed s ∧ timestamp s ≤ clock w3)%Z) as (N & F & L).
  - apply H3.
  - change (length (chain (set_clock (next_tick (clock w2)) w2))) with (length (chain w2)) in L3.
    cbn. destruct (chain_head (chain w1)) as [x|]; [|lia]. rewrite Hh. lia.
  - split; [apply next_snapshot_sealed|exact C3].
  - apply Forall_and. split; apply H3.
  - apply Forall_and in F as [F1 F2]. split; [|split]; [|split; [done|]|done].
    + split; unfold chain, store_snapshot; cbn [snapshots set_snapshots]; by rewrite find_save.
    + unfold chain, store_snapshot. cbn [snapshots set_snapshots]. by rewrite find_save.
Qed.

(** Reads do not move the state. *)
Lemma guarantee_reconstruct (R : discipline World) : guarantee R reconstruct.
Proof. unfold reconstruct, chain_list. guarantee_tac. Qed.

Lemma guarantee_append R `{!AllowsAppend R} event p : guarantee R (append event p).
Proof. apply allows_append. Qed.

Lemma guarantee_now R `{!AllowsAppend R} : guarantee R (act now).
Proof. apply guarantee_act, allows_now. Qed.

#[global] Instance chain_extends_append : AllowsAppend (alone chain_extends).
Proof. split; [|by intros w Hw]. intros e p. apply alone_append; [by intros w Hw|apply append_extends]. Qed.

#[global] Instance preserves_ticks_append : AllowsAppend (alone preserves_ticks).
Proof. split; [|apply now_ticks]. intros e p. apply alone_append; [apply now_ticks|apply append_ticks]. Qed.

#[global] Instance chain_sound_append : AllowsAppend (shared chain_sound chain_grows).
Proof. split; [apply shared_append|exact chain_sound_now]. Qed.

Lemma run_reconstruct w :
  run reconstruct w = (inr (replay EmptyString (order_asc sequenceId (chain w))), w).
Proof. done. Qed.

Lemma run_reconstruct_intact w :
  intact (chain w) → run reconstruct w = (inr {| ok := true; brokenAt := None |}, w).
Proof.
  intros [Hn Hl]. rewrite run_reconstruct, order_asc_numbered by done. by rewrite replay_ok_eq.
Qed.

(** Snapshots with the columns that no hash covers rewritten. *)
Definition relabel (event : Z → string) (time : Z → Z) (s : ExecutionSnapshot) : ExecutionSnapshot :=
  {| sequenceId := sequenceId s; eventType := event (sequenceId s); payload := payload s;
     timestamp := time (sequenceId s); prevHash := prevHash s; hash := hash s |}.

Lemma order_asc_relabel event time rows :
  order_asc sequenceId (relabel event time <$> rows) = relabel event time <$> order_asc sequenceId rows.
Proof.
  unfold order_asc. induction rows as [|s rows IH]; [done|]. rewrite fmap_cons. simpl. rewrite IH.
  generalize (sort_by (λ x y, sequenceId x <=? sequenceId y)%Z rows). intros l.
  induction l as [|x l IHl]; [done|]. rewrite fmap_cons. simpl.
  case_match_goal; [done|]. by rewrite IHl, <- fmap_cons.
Qed.

Lemma replay_relabel event time prev rows :
  replay prev (relabel event time <$> rows) = replay prev rows.
Proof.
  revert prev. induction rows as [|s rows IH]; intros prev; [done|]. rewrite fmap_cons. simpl.
  case_match_goal; [done|apply IH].
Qed.

(** ** Properties *)

(** C13. On an intact chain [append] returns the next snapshot (position, link and
    hash over the stored head) and leaves the chain extended by exactly that
    snapshot, still intact. *)
Theorem append_appends event p w :
  intact (chain w) →
  let s := appended (chain w) event p (next_tick (clock w)) in
  ∃ w', run (append event p) w = (inr s, w') ∧
        chain w' = chain w ++ [snapshot_row s] ∧ intact (chain w').
Proof.
  intros Hw s. exists (append_tx event p w).2. rewrite run_append, append_chain by done.
  destruct (append_tx_spec event p w Hw) as [-> _].
  split_and!; [done|done|by apply intact_snoc].
Qed.

(** C34. [reconstruct] is read-only and decides the chain: it answers [ok] without a
    position exactly when every stored snapshot, in order, carries the hash of its
    payload, position and predecessor, and otherwise answers the position of the first
    snapshot that does not, after a prefix that links. *)
Theorem reconstruct_decides w :
  ∃ r, run reconstruct w = (inr r, w) ∧
    match brokenAt r with
    | None => ok r = true ∧ linked EmptyString (order_asc sequenceId (chain w))
    | Some n => ok r = false ∧ breaks_at n (order_asc sequenceId (chain w))
    end.
Proof. eexists. split; [apply run_reconstruct|]. apply replay_decides. Qed.

(** C12. Tampering with a payload of an intact chain is located: replacing the
    payload of one stored snapshot by one that serialises differently makes
    [reconstruct] answer [false] with that snapshot's position, unless the old and the
    new payload, on that link and position, have one digest. *)
Theorem tampered_payload_located w w' rows1 s rows2 p :
  chain w = rows1 ++ s :: rows2 → intact (chain w) → stringify p ≠ stringify (payload s) →
  chain w' = rows1 ++ {| sequenceId := sequenceId s; eventType := eventType s; payload := p;
                         timestamp := timestamp s; prevHash := prevHash s; hash := hash s |} :: rows2 →
  run reconstruct w' = (inr {| ok := false; brokenAt := Some (sequenceId s) |}, w') ∨
  (preimage_of s ≠ snapshot_preimage p (prevHash s) (sequenceId s) ∧
   sha256 (preimage_of s) = sha256 (snapshot_preimage p (prevHash s) (sequenceId s))).
Proof.
  intros Hw [Hn Hl] Hp Hw'. rewrite Hw in Hn, Hl. apply linked_app in Hl as [Hl1 Hl2].
  simpl in Hl2. destruct Hl2 as (Hprev & Hhash & _). rewrite <- Hprev in Hhash.
  destruct (decide (hash s = sha256 (snapshot_preimage p (prevHash s) (sequenceId s)))) as [E|E].
  - right. unfold preimage_of. split; [|congruence]. unfold snapshot_preimage. by intros ?%string_app_inj_l.
  - left. rewrite run_reconstruct, Hw', order_asc_numbered.
    + rewrite replay_broken; [done|done|]. rewrite <- Hprev. simpl. naive_solver.
    + unfold numbered in *. rewrite fmap_app, length_app in *. exact Hn.
Qed.

(** C27. The head commits to the whole history: two intact chains of one length
    with one head hash hold the same serialised payloads in the same order, unless
    two of their own snapshots are hashed from different texts to one digest. Digests
    are 64 hexadecimal digits. *)
Theorem head_hash_commits rows rows' :
  (∀ s, String.length (sha256 s) = 64) →
  intact rows → intact rows' → length rows = length rows' → head_hash rows = head_hash rows' →
  Forall2 (λ s s', stringify (payload s) = stringify (payload s')) rows rows' ∨ collide_in rows rows'.
Proof.
  intros Hlen. revert rows'. induction rows as [|s rows IH] using rev_ind; intros rows' Hr Hr' Hl Hh.
  { destruct rows'; [by left; constructor|done]. }
  destruct rows' as [|s' rows' _] using rev_ind; [rewrite length_app in Hl; simpl in Hl; lia|].
  rewrite !length_app in Hl. simpl in Hl. assert (length rows = length rows') as Hl' by lia.
  destruct Hr as [[Hn Hs]%numbered_app Hk], Hr' as [[Hn' Hs']%numbered_app Hk'].
  apply linked_app in Hk as [Hk (Hp & Hd & _)], Hk' as [Hk' (Hp' & Hd' & _)].
  unfold head_hash in Hh. rewrite !last_snoc in Hh.
  destruct (decide (preimage_of s = preimage_of s')) as [E|E].
  - unfold preimage_of, snapshot_preimage in E. rewrite Hp, Hp', Hs, Hs', Hl' in E.
    fold (head_hash rows) (head_hash rows') in E.
    apply string_app_split in E as [Ep Eh].
    2: { rewrite !string_length_app, !head_hash_length by done. destruct rows, rows'; done. }
    apply string_app_inj_l in Eh.
    destruct (IH rows') as [IHr|(x & y & Hx & Hy & Hxy)]; auto; [split; auto..| |].
    + left. by apply Forall2_app; [|constructor].
    + right. exists x, y. rewrite !elem_of_app. auto.
  - right. exists s, s'. rewrite !elem_of_app, !list_elem_of_singleton. split_and!; [auto..|done|].
    unfold preimage_of. rewrite Hp, Hp', <- Hd, <- Hd'. exact Hh.
Qed.

(** What the chain does not protect: [eventType] and [timestamp] are in no
    hash, so rewriting them in every stored snapshot changes no answer of
    [reconstruct]. *)
Theorem reconstruct_ignores_event_and_time w w' (event : Z → string) (time : Z → Z) :
  chain w' = relabel event time <$> chain w →
  (run reconstruct w').1 = (run reconstruct w).1.
Proof.
  intros Hw. rewrite !run_reconstruct, Hw, order_asc_relabel. cbn [fst]. f_equal.
  by rewrite replay_relabel.
Qed.

(** The transaction of [append] does not make it atomic. Two appends can read one head
    and return a snapshot for one position, and the save of the second overwrites the
    first: an event that was acknowledged is no longer on the chain, and the chain
    still replays. (A database that rejects the second insert instead makes the second
    append fail.) *)
Theorem unserialised_append_loses_event e1 p1 e2 p2 w :
  intact (chain w) →
  ∃ s1 s2 w', run_schedule [0; 1; 0; 0; 1; 1] ([append e1 p1; append e2 p2], w) =
      ([mret s1; mret s2], w') ∧
    eventType s1 = e1 ∧ payload s1 = p1 ∧ sequenceId s1 = sequenceId s2 ∧
    chain w' = chain w ++ [snapshot_row s2] ∧ intact (chain w').
Proof.
  intros Hi.
  set (s1 := appended (chain w) e1 p1 (next_tick (clock w))).
  set (s2 := appended (chain w) e2 p2 (next_tick (next_tick (clock w)))).
  assert (find (save (snapshot_row s2) (save (snapshot_row s1) (snapshots w))) =
          chain w ++ [snapshot_row s2]) as Hsaved.
  { destruct (append_tx_spec e1 p1 w Hi) as [_ Hf]. rewrite find_save. fold s1 in Hf. rewrite Hf.
    apply upsert_last; [reflexivity|]. by apply intact_keys, Hi. }
  exists s1, s2. eexists. split; [|split_and!; [done..| |]].
  - unfold run_schedule, advance. cbn -[chain_head save].
    rewrite !next_snapshot_appended by apply Hi. fold s1 s2. reflexivity.
  - exact Hsaved.
  - change (intact (find (save (snapshot_row s2) (save (snapshot_row s1) (snapshots w))))).
    rewrite Hsaved. by apply intact_snoc.
Qed.

(** C14. And it can break the chain: an append that read the head early saves on top of a
    chain that has grown by two since. Its snapshot replaces the one the last points
    to, and from then on [reconstruct] reports the chain as tampered with. *)
Theorem late_append_breaks_chain e0 p0 e1 p1 e2 p2 w :
  intact (chain w) →
  hash (appended (chain w) e0 p0 0) ≠ hash (appended (chain w) e1 p1 0) →
  ∃ s0 s1 s2 w', run_schedule [0; 1; 1; 1; 2; 2; 2; 0; 0] ([append e0 p0; append e1 p1; append e2 p2], w) =
      ([mret s0; mret s1; mret s2], w') ∧
    run reconstruct w' = (inr {| ok := false; brokenAt := Some (Z.of_nat (length (chain w)) + 2)%Z |}, w').
Proof.
  intros Hi Hne.
  set (w1 := (append_tx e1 p1 w).2). set (w2 := (append_tx e2 p2 w1).2).
  set (s0 := appended (chain w) e0 p0 (next_tick (clock w2))).
  assert (run_schedule [0; 1; 1; 1; 2; 2; 2; 0; 0] ([append e0 p0; append e1 p1; append e2 p2], w) =
    ([mret s0; mret (append_tx e1 p1 w).1; mret (append_tx e2 p2 w1).1],
     store_snapshot s0 (now w2).2)) as Hrun.
  { unfold run_schedule, advance. cbn -[chain_head save].
    rewrite (next_snapshot_appended _ e0) by apply Hi. reflexivity. }
  exists s0, (append_tx e1 p1 w).1, (append_tx e2 p2 w1).1. eexists. split; [exact Hrun|].
  pose proof (append_chain e1 p1 w Hi) as C1. fold w1 in C1.
  assert (intact (chain w1)) as Hi1 by (by apply append_extends).
  pose proof (append_chain e2 p2 w1 Hi1) as C2. fold w2 in C2.
  assert (intact (chain w2)) as [Hn2 _] by (by apply append_extends).
  set (a2 := snapshot_row (appended (chain w1) e2 p2 (next_tick (clock w1)))) in *.
  assert (chain (store_snapshot s0 (now w2).2) = chain w ++ [snapshot_row s0; a2]) as Hc.
  { unfold chain, store_snapshot, now. cbn [snapshots set_snapshots set_clock snd]. rewrite find_save.
    change (find (snapshots w2)) with (chain w2). rewrite C2, C1, <- app_assoc. apply upsert_middle; [|done].
    by apply intact_keys, Hi. }
  rewrite run_reconstruct, Hc, order_asc_numbered.
  - replace (chain w ++ [snapshot_row s0; a2]) with ((chain w ++ [snapshot_row s0]) ++ [a2]) by by rewrite <- app_assoc.
    rewrite replay_broken; [| |].
    + cbn [sequenceId a2 snapshot_row appended]. rewrite C1, length_app. cbn [length]. do 4 f_equal. lia.
    + apply (proj2 (intact_snoc (chain w) e0 p0 (next_tick (clock w2)) Hi)).
    + rewrite last_snoc. intros (Hp & _ & _). cbn [prevHash a2 snapshot_row appended hash s0] in Hp.
      unfold head_hash in Hp at 1. rewrite C1, last_snoc in Hp. by symmetry in Hp.
  - unfold numbered in *. rewrite C2, C1, <- app_assoc in Hn2. rewrite !fmap_app, length_app in *. exact Hn2.
Qed.

(** A restart turns the clock back: the tick is in memory only. Whatever time the
    chain has reached, the first event after a restart is stamped with the first
    tick of the epoch, so the ticks of a chain that reached it are out of order. *)
Theorem restart_repeats_ticks e pl w :
  intact (chain w) → (∃ s, s ∈ chain w ∧ (clock_start < timestamp s < 2 ^ 53)%Z) →
  ∃ s w', run (append e pl) (restart w) = (inr s, w') ∧ timestamp s = (clock_start + 1)%Z ∧
    intact (chain w') ∧ ¬ ticks_ordered w'.
Proof.
  intros Hi (s0 & Hs0 & Ht0). assert (intact (chain (restart w))) as Hi' by exact Hi.
  rewrite run_append. destruct (append_tx_spec e pl (restart w) Hi') as [Heq _].
  pose proof (append_chain e pl (restart w) Hi') as Hc.
  eexists _, (append_tx e pl (restart w)).2. split_and!; [reflexivity|by rewrite Heq|by apply append_extends|].
  intros (_ & Hsort & _). rewrite Hc, fmap_app in Hsort. change (chain (restart w)) with (chain w) in Hsort.
  apply list_elem_of_lookup in Hs0 as [k Hk]. apply list_elem_of_split_length in Hk as (l1 & l2 & Hsplit & _).
  rewrite Hsplit, fmap_app, fmap_cons, <- app_assoc in Hsort.
  apply StronglySorted_app_1_r in Hsort. apply StronglySorted_inv in Hsort as [_ Hall].
  rewrite Forall_app in Hall. destruct Hall as [_ Hlast]. csimpl in Hlast. apply Forall_cons in Hlast as [Hlast _].
  change (tick_lt (timestamp s0) (clock_start + 1)%Z) in Hlast. unfold tick_lt, clock_start in *. lia.
Qed.

End NodeChain.

#[export] Hint Extern 1 (guarantee _ reconstruct) => apply guarantee_reconstruct; apply _ : guarantee.
#[export] Hint Extern 1 (guarantee _ (append _ _)) => apply guarantee_append; apply _ : guarantee.
#[export] Hint Extern 1 (guarantee _ (act now)) => apply guarantee_now; apply _ : guarantee.
#[export] Hint Rewrite @run_append : run.

(** ** Witnesses *)

Section Witnesses.
#[local] Existing Instance transparent_platform.

(** A chain of two events. *)
Definition two_events : World :=
  (run (append "initiation" (JStr "a");; append "execution_complete" (JStr "b")) fresh_world).2.

Lemma append_appends_witness :
  intact (chain two_events) ∧
  ∃ w', run (append "x" JNull) two_events =
          (inr (appended (chain two_events) "x" JNull (next_tick (clock two_events))), w') ∧
        chain w' = chain two_events ++
          [snapshot_row (appended (chain two_events) "x" JNull (next_tick (clock two_events)))] ∧
        intact (chain w').
Proof.
  assert (intact (chain two_events)) as Hi by (vm_compute; repeat split).
  split; [exact Hi|exact (append_appends "x" JNull two_events Hi)].
Defined.

(** The same chain with the payload of its second event replaced. *)
Definition tamper_second (rows : list ExecutionSnapshot) : list ExecutionSnapshot :=
  match rows with
  | s1 :: s :: rows' =>
    s1 :: {| sequenceId := sequenceId s; eventType := eventType s; payload := JStr "c";
             timestamp := timestamp s; prevHash := prevHash s; hash := hash s |} :: rows'
  | _ => rows
  end.

Definition tampered_events : World :=
  set_snapshots (ST := list_storage) (tamper_second (chain two_events)) two_events.

Lemma tampered_payload_located_witness :
  run reconstruct tampered_events = (inr {| ok := false; brokenAt := Some 2%Z |}, tampered_events).
Proof.
  set (s1 := snapshot_row (appended [] "initiation" (JStr "a") (next_tick clock_start))).
  set (s2 := snapshot_row (appended [s1] "execution_complete" (JStr "b") (next_tick (next_tick clock_start)))).
  destruct (tampered_payload_located two_events tampered_events [s1] s2 [] (JStr "c")) as [H|[_ H]].
  - vm_compute. reflexivity.
  - vm_compute. repeat split.
  - vm_compute. discriminate.
  - vm_compute. reflexivity.
  - exact H.
  - vm_compute in H. discriminate.
Defined.

Lemma reconstruct_ignores_event_and_time_witness :
  (run reconstruct (set_snapshots (ST := list_storage)
     (relabel (λ _, "forged") (λ _, 0%Z) <$> chain two_events) two_events)).1 =
  (run reconstruct two_events).1.
Proof.
  apply (reconstruct_ignores_event_and_time two_events _ (λ _, "forged") (λ _, 0%Z)). reflexivity.
Defined.

Lemma unserialised_append_loses_event_witness :
  ∃ s1 s2 w', run_schedule [0; 1; 0; 0; 1; 1]
      ([append "x" JNull; append "y" JNull], two_events) = ([mret s1; mret s2], w') ∧
    sequenceId s1 = 3%Z ∧ length (chain w') = 3.
Proof.
  assert (intact (chain two_events)) as Hi by (vm_compute; repeat split).
  destruct (unserialised_append_loses_event "x" JNull "y" JNull two_events Hi)
    as (s1 & s2 & w' & H1 & _ & _ & H2 & H3 & [Hn _]).
  exists s1, s2, w'. split; [exact H1|]. split; [|rewrite H3; vm_compute; reflexivity].
  rewrite H3 in Hn. apply numbered_app in Hn as [_ Hs]. rewrite H2. change (sequenceId s2) with (sequenceId (snapshot_row s2)). rewrite Hs. vm_compute. reflexivity.
Defined.

Lemma late_append_breaks_chain_witness :
  ∃ s0 s1 s2 w', run_schedule [0; 1; 1; 1; 2; 2; 2; 0; 0]
      ([append "x" (JStr "x"); append "y" (JStr "y"); append "z" JNull], two_events) =
      ([mret s0; mret s1; mret s2], w') ∧
    run reconstruct w' = (inr {| ok := false; brokenAt := Some 4%Z |}, w').
Proof.
  apply (late_append_breaks_chain "x" (JStr "x") "y" (JStr "y") "z" JNull two_events).
  - vm_compute. repeat split.
  - vm_compute. discriminate.
Defined.

Lemma restart_repeats_ticks_witness :
  ∃ s w', run (append "x" JNull) (restart two_events) = (inr s, w') ∧ ¬ ticks_ordered w'.
Proof.
  destruct (restart_repeats_ticks "x" JNull two_events) as (s & w' & H1 & _ & _ & H2).
  - vm_compute. repeat split.
  - eexists. split; [apply list_elem_of_lookup_2 with (i := 1); vm_compute; reflexivity|].
    vm_compute. split; reflexivity.
  - exists s, w'. split; [exact H1|exact H2].
Defined.
End Witnesses.

Section DigestWitness.
#[local] Existing Instance constant_platform.

Lemma head_hash_commits_witness :
  let rows := [appended [] "a" (JStr "a") 1%Z] in
  Forall2 (λ s s', stringify (payload s) = stringify (payload s')) rows rows ∨ collide_in rows rows.
Proof.
  apply head_hash_commits.
  - intros s. reflexivity.
  - vm_compute. repeat split.
  - vm_compute. repeat split.
  - reflexivity.
  - reflexivity.
Defined.
End DigestWitness.
