(* ===== verification/StateRecording.v ===== *)
(** * StateRecording: completeness of a process's evidence

    [src/src/state-recording/state-recording.service.ts]. [capture] submits an
    event to the chain and then remembers its type, in memory, per process. *)

From S2P Require Import Prelude Number NumberText Json Storage Effects Entities World NodeChain.
From Stdlib Require Import ZArith.

Section StateRecording.
Context {ST : Storage} {PL : Platform}.

(** ** Operations *)

Definition REQUIRED_BEFORE_VERDICT : list string :=
  ["initiation"; "task_assignment"; "stage_transition"; "execution_complete"].

Record CompletenessResult := { complete : bool; missing : list string }.

(** [sorted[key] = value[key]] over the sorted keys. *)
Definition sortKeys (value : object) : object :=
  fold_left (λ sorted key, add_property key (default JNull (get_property key value)) sorted)
    (sort_strings (object_keys value)) [].

Definition string_or_null (s : option string) : json :=
  match s with Some s => JStr s | None => JNull end.

Definition buildPayload (processId : string) (data : object) (validatorId : option string) : json :=
  JObj [("processId", JStr processId); ("data", JObj (sortKeys data));
        ("validatorId", string_or_null validatorId)].

(** The set of a process, empty when it has none. *)
Definition capturedEvents (processId : string) (w : World) : gset string :=
  default ∅ (captured w !! processId).

(** [captured.get(processId)!.add(eventType)], the set created if needed. *)
Definition remember (processId eventType : string) (w : World) : World :=
  set_captured (<[processId := {[eventType]} ∪ capturedEvents processId w]> (captured w)) w.

Definition capture (processId eventType : string) (data : object) (validatorId : option string)
  : prog World ExecutionSnapshot :=
  snapshot ← append eventType (buildPayload processId data validatorId);
  update (remember processId eventType);;
  mret snapshot.

Definition record (processId eventType : string) (data : object) (validatorId : option string)
  : prog World ExecutionSnapshot :=
  capture processId eventType data validatorId.

Definition missing_events (have : gset string) : list string :=
  filter (λ event, event ∉ have) REQUIRED_BEFORE_VERDICT.

Definition checkCompleteness (processId : string) (w : World) : CompletenessResult :=
  let missing := missing_events (capturedEvents processId w) in
  {| complete := (length missing =? 0)%nat; missing := missing |}.

(** ** Abstract specification *)

(** Every required event type has been captured. *)
Definition all_required (have : gset string) : Prop := Forall (λ e, e ∈ have) REQUIRED_BEFORE_VERDICT.

#[global] Instance all_required_dec have : Decision (all_required have).
Proof. unfold all_required. apply _. Defined.

(** What a process has captured never shrinks. *)
Definition captured_grows (w w' : World) : Prop :=
  ∀ processId, capturedEvents processId w ⊆ capturedEvents processId w'.

#[global] Instance captured_grows_preorder : PreOrder captured_grows.
Proof. split; [by intros w p|]. intros w1 w2 w3 H1 H2 p. by trans (capturedEvents p w2). Qed.

(** What a discipline must allow for [capture] to guarantee it. *)
Class AllowsRecording (R : discipline World) : Prop := {
  allows_recording_append :: AllowsAppend R;
  allows_remember : ∀ p e w, R w (remember p e w)
}.

(** ** Facts *)

Lemma capturedEvents_remember p q e w :
  capturedEvents p (remember q e w) =
    if decide (p = q) then {[e]} ∪ capturedEvents p w else capturedEvents p w.
Proof.
  unfold capturedEvents, remember. cbn [captured set_captured].
  case_decide as Hp; [subst; by rewrite lookup_insert_eq|by rewrite lookup_insert_ne].
Qed.

Lemma capturedEvents_append p event pl w :
  capturedEvents p (append_tx event pl w).2 = capturedEvents p w.
Proof. unfold append_tx, now. done. Qed.

Lemma append_captured event pl w : captured_grows w (append_tx event pl w).2.
Proof. intros p. by rewrite capturedEvents_append. Qed.

Lemma remember_captured p e w : captured_grows w (remember p e w).
Proof. intros q. rewrite capturedEvents_remember. case_decide; set_solver. Qed.

Lemma missing_events_nil have : missing_events have = [] ↔ all_required have.
Proof.
  unfold missing_events, all_required. generalize REQUIRED_BEFORE_VERDICT as l.
  induction l as [|e l IH]; [split; [constructor|done]|].
  rewrite filter_cons, Forall_cons, <- IH. case_decide; naive_solver.
Qed.

Lemma missing_events_elem have e :
  e ∈ missing_events have ↔ e ∈ REQUIRED_BEFORE_VERDICT ∧ e ∉ have.
Proof. unfold missing_events. rewrite list_elem_of_filter. naive_solver. Qed.

Lemma complete_iff p w : complete (checkCompleteness p w) = true ↔ all_required (capturedEvents p w).
Proof.
  unfold checkCompleteness. cbn [complete]. rewrite <- missing_events_nil.
  destruct (missing_events _); naive_solver.
Qed.

Lemma sortKeys_perm o1 o2 : NoDup (object_keys o1) → o1 ≡ₚ o2 → sortKeys o1 = sortKeys o2.
Proof.
  intros Hnd Hp. unfold sortKeys.
  rewrite (sort_strings_canonical (object_keys o1) (object_keys o2)) by (unfold object_keys; by rewrite Hp).
  generalize (sort_strings (object_keys o2)), ([] : object) as acc. intros keys.
  induction keys as [|k keys IH]; intros acc; simpl; [done|].
  by rewrite (get_property_perm k o1 o2) by done.
Qed.

Lemma run_capture p e d v w :
  run (capture p e d v) w =
  (inr (append_tx e (buildPayload p d v) w).1, remember p e (append_tx e (buildPayload p d v) w).2).
Proof. unfold capture. by rewrite run_bind, run_append. Qed.

Lemma guarantee_capture R `{!AllowsRecording R} p e d v : guarantee R (capture p e d v).
Proof. unfold capture. pose proof allows_remember. guarantee_tac. Qed.

(** The chain is where the events go: [remember] does not touch it. *)
Lemma chain_remember p e w : chain (remember p e w) = chain w.
Proof. done. Qed.

(** ** Properties *)

(** [capture] passes the event through to the chain unchanged and then marks
    its type: on an intact chain the row it adds carries the caller's event type
    and the canonical payload, the event type is now captured for that process,
    and no other process's set moves. *)
Theorem capture_passes_through p e d v w :
  intact (chain w) →
  let s := appended (chain w) e (buildPayload p d v) (next_tick (clock w)) in
  ∃ w', run (capture p e d v) w = (inr s, w') ∧
        chain w' = chain w ++ [snapshot_row s] ∧ intact (chain w') ∧
        capturedEvents p w' = {[e]} ∪ capturedEvents p w ∧
        (∀ q, q ≠ p → capturedEvents q w' = capturedEvents q w).
Proof.
  intros Hw s. rewrite run_capture.
  destruct (append_tx_spec e (buildPayload p d v) w Hw) as [Hs _].
  exists (remember p e (append_tx e (buildPayload p d v) w).2).
  rewrite chain_remember, append_chain by done. split_and!.
  - by rewrite Hs.
  - done.
  - by apply intact_snoc.
  - rewrite capturedEvents_remember, decide_True by done. by rewrite capturedEvents_append.
  - intros q Hq. by rewrite capturedEvents_remember, decide_False, capturedEvents_append.
Qed.

(** C33. The payload is canonical: recording one logical event with its data keys
    in another order runs identically: one snapshot, one hash, one state. *)
Theorem capture_canonical p e d1 d2 v w :
  NoDup (object_keys d1) → d1 ≡ₚ d2 → run (capture p e d1 v) w = run (capture p e d2 v) w.
Proof. intros Hnd Hp. unfold capture, buildPayload. by rewrite (sortKeys_perm d1 d2). Qed.

(** The completeness gate: [complete] holds exactly when each of the four
    required events has been captured, [missing] lists exactly the required
    events still absent, in order and without repetition. *)
Theorem checkCompleteness_spec p w :
  let r := checkCompleteness p w in
  (complete r = true ↔
     "initiation" ∈ capturedEvents p w ∧ "task_assignment" ∈ capturedEvents p w ∧
     "stage_transition" ∈ capturedEvents p w ∧ "execution_complete" ∈ capturedEvents p w) ∧
  (complete r = true ↔ missing r = []) ∧
  (∀ e, e ∈ missing r ↔ e ∈ REQUIRED_BEFORE_VERDICT ∧ e ∉ capturedEvents p w) ∧
  missing r `sublist_of` REQUIRED_BEFORE_VERDICT.
Proof.
  cbn zeta. split_and!.
  - rewrite complete_iff. unfold all_required, REQUIRED_BEFORE_VERDICT.
    rewrite !Forall_cons, Forall_nil. tauto.
  - rewrite complete_iff. symmetry. apply missing_events_nil.
  - apply missing_events_elem.
  - apply sublist_filter.
Qed.

End StateRecording.

#[export] Hint Extern 1 (guarantee _ (capture _ _ _ _)) => apply guarantee_capture; apply _ : guarantee.
#[export] Hint Rewrite @run_capture : run.

(** ** Witnesses *)

Section Witnesses.
#[local] Existing Instance transparent_platform.

Lemma capture_passes_through_witness :
  let s := appended (chain two_events) "initiation" (buildPayload "p" [] None) (next_tick (clock two_events)) in
  ∃ w', run (capture "p" "initiation" [] None) two_events = (inr s, w') ∧
        chain w' = chain two_events ++ [snapshot_row s] ∧ intact (chain w') ∧
        capturedEvents "p" w' = {["initiation"]} ∪ capturedEvents "p" two_events ∧
        (∀ q, q ≠ "p" → capturedEvents q w' = capturedEvents q two_events).
Proof. apply capture_passes_through. vm_compute. repeat split. Defined.

Lemma capture_canonical_witness :
  run (capture "p" "initiation" [("b", JBool true); ("a", JNull)] None) fresh_world =
  run (capture "p" "initiation" [("a", JNull); ("b", JBool true)] None) fresh_world.
Proof.
  apply capture_canonical.
  - apply (bool_decide_unpack _). vm_compute. exact I.
  - apply Permutation_swap.
Defined.
End Witnesses.
