(* ===== verification/Pot.v ===== *)
(** * PoT: the verdict engine

    [src/src/pot/pot.service.ts]. [verify] issues the verdict of a process from
    its captured events and the state of the chain, once. *)

From S2P Require Import Prelude Number NumberText Json Storage Effects Entities World NodeChain.
From S2P Require Import StateRecording.
From Stdlib Require Import ZArith.

Section Pot.
Context {ST : Storage} {PL : Platform}.

(** ** Operations *)

Record VerifyResult := {
  result_verified : bool;
  result_reasons : list string;
  result_snapshotSequenceId : Z
}.

Record CriteriaResult := {
  admissible_context : bool;
  full_stage_sequence : bool;
  states_recorded_in_nodechain : bool;
  completion_per_rules : bool
}.

Definition has (events : gset string) (event : string) : bool := bool_decide (event ∈ events).

Definition criteria (captured : gset string) (chainOk : bool) : CriteriaResult := {|
  admissible_context := has captured "initiation";
  full_stage_sequence := has captured "task_assignment" && has captured "stage_transition";
  states_recorded_in_nodechain := chainOk && (0 <? size captured)%nat;
  completion_per_rules := has captured "execution_complete"
|}.

(** [Object.values(criteriaResult).every(Boolean)]. *)
Definition every_criterion (c : CriteriaResult) : bool :=
  forallb id [admissible_context c; full_stage_sequence c; states_recorded_in_nodechain c;
              completion_per_rules c].

Definition failureReasons (c : CriteriaResult) (captured : gset string) : list string :=
  ((λ event, "missing_event:" +:+ event) <$> missing_events captured) ++
  (if negb (states_recorded_in_nodechain c) && (0 <? size captured)%nat
   then ["states_recorded_in_nodechain"] else []).

(** [verified : 0 | 1] as a number. *)
Definition flag (b : bool) : json := JNum (if b then of_Z 1 else zero).

Definition verdict_payload (processId : string) (verified : bool) (reasons : list string) : json :=
  JObj [("processId", JStr processId); ("verified", flag verified); ("reasons", JArr (JStr <$> reasons))].

Definition record_verdict (v : PotVerdict) (w : World) : World :=
  set_verdicts (save v (verdicts w)) w.

Definition verdict_result (v : PotVerdict) : VerifyResult :=
  {| result_verified := verified v; result_reasons := reasons v;
     result_snapshotSequenceId := snapshotSequenceId v |}.

(** The part of [verify] after the evidence has been read. *)
Definition issue_verdict (processId : string) (captured : gset string) (chainOk : bool)
  : prog World VerifyResult :=
  let criteriaResult := criteria captured chainOk in
  let verified := every_criterion criteriaResult in
  let reasons := failureReasons criteriaResult captured in
  snapshot ← append "pot.verified" (verdict_payload processId verified reasons);
  t ← act now;
  let verdict := {| verdict_processId := processId; verified := verified; reasons := reasons;
                    verdict_timestamp := t; snapshotSequenceId := sequenceId snapshot |} in
  update (record_verdict verdict);;
  mret (verdict_result verdict).

Definition getVerdict (processId : string) : prog World (option PotVerdict) :=
  query (λ w, findOne processId (verdicts w)).

Definition verify (processId : string) : prog World VerifyResult :=
  existing ← getVerdict processId;
  match existing with
  | Some v => mret (verdict_result v)
  | None =>
    captured ← query (capturedEvents processId);
    r ← reconstruct;
    issue_verdict processId captured (ok r)
  end.

Definition verdict_list : prog World (list PotVerdict) := query (λ w, find (verdicts w)).

(** ** Abstract specification *)

(** The verdict the evidence deserves. *)
Definition deserved (have : gset string) (chainOk : bool) : Prop := all_required have ∧ chainOk = true.

Definition verdict_of (processId : string) (w : World) : option PotVerdict :=
  findOne processId (verdicts w).

(** A recorded verdict stays as it is. *)
Definition verdicts_final (w w' : World) : Prop :=
  ∀ p v, verdict_of p w = Some v → verdict_of p w' = Some v.

#[global] Instance verdicts_final_preorder : PreOrder verdicts_final.
Proof. split; [by intros w p v|]. intros w1 w2 w3 H12 H23 p v Hv. auto. Qed.

(** What a discipline must allow for [verify] to guarantee it. *)
Class AllowsVerdict (R : discipline World) : Prop := {
  allows_verdict_append :: AllowsAppend R;
  allows_record_verdict : ∀ v w, R w (record_verdict v w)
}.

(** ** Facts *)

Lemma size_pos (X : gset string) e : e ∈ X → (0 <? size X)%nat = true.
Proof.
  intros He. apply Nat.ltb_lt. destruct (decide (size X = 0)) as [Hz|]; [|lia].
  apply size_empty_inv in Hz. set_solver.
Qed.

Lemma every_criterion_deserved have chainOk :
  every_criterion (criteria have chainOk) = true ↔ deserved have chainOk.
Proof.
  unfold every_criterion, criteria, deserved, all_required, REQUIRED_BEFORE_VERDICT, has, id. simpl.
  rewrite !andb_true_iff, !bool_decide_eq_true, !Forall_cons, Forall_nil.
  split; [tauto|]. intros [(H1 & H2 & H3 & H4 & _) Hok]. rewrite (size_pos _ _ H1). tauto.
Qed.

Lemma failureReasons_nil have chainOk :
  failureReasons (criteria have chainOk) have = [] ↔ deserved have chainOk.
Proof.
  unfold failureReasons, deserved. rewrite <- missing_events_nil.
  destruct (missing_events have) as [|m l] eqn:Em; simpl; [|naive_solver].
  apply missing_events_nil in Em. unfold all_required, REQUIRED_BEFORE_VERDICT in Em.
  apply Forall_cons in Em as [Hi _]. rewrite (size_pos _ _ Hi). destruct chainOk; naive_solver.
Qed.

Lemma find_record_verdict v w p :
  verdict_of p (record_verdict v w) = if decide (verdict_processId v = p) then Some v else verdict_of p w.
Proof.
  unfold verdict_of, record_verdict. cbn [verdicts set_verdicts]. case_decide as Hp.
  - subst p. exact (findOne_save_eq v (verdicts w)).
  - by apply findOne_save_ne.
Qed.

Lemma verdict_of_append p e pl w : verdict_of p (append_tx e pl w).2 = verdict_of p w.
Proof. done. Qed.

Lemma verdict_of_remember p q e w : verdict_of p (remember q e w) = verdict_of p w.
Proof. done. Qed.

Lemma run_getVerdict p w : run (getVerdict p) w = (inr (verdict_of p w), w).
Proof. done. Qed.

Lemma guarantee_getVerdict (R : discipline World) p : guarantee R (getVerdict p).
Proof. apply guarantee_query. Qed.

Lemma stored_strings l : map stored (JStr <$> l) = JStr <$> l.
Proof. induction l as [|x l IH]; [done|]. csimpl. by rewrite IH. Qed.

Lemma stored_verdict_payload p v rs : stored (verdict_payload p v rs) = verdict_payload p v rs.
Proof. unfold verdict_payload. simpl. rewrite stored_strings. by destruct v. Qed.

(** The verdict row [verify] records, and the world it leaves. *)
Definition new_verdict (p : string) (have : gset string) (chainOk : bool) (seq t : Z) : PotVerdict :=
  {| verdict_processId := p; verified := every_criterion (criteria have chainOk);
     reasons := failureReasons (criteria have chainOk) have;
     verdict_timestamp := t; snapshotSequenceId := seq |}.

Definition verify_world (p : string) (chainOk : bool) (w : World) : World :=
  let have := capturedEvents p w in
  let pl := verdict_payload p (every_criterion (criteria have chainOk))
              (failureReasons (criteria have chainOk) have) in
  let (s, w1) := append_tx "pot.verified" pl w in
  let (t, w2) := now w1 in
  record_verdict (new_verdict p have chainOk (sequenceId s) t) w2.

Lemma run_verify_existing p v w :
  verdict_of p w = Some v → run (verify p) w = (inr (verdict_result v), w).
Proof. intros Hv. unfold verify. by rewrite run_bind, run_getVerdict, Hv. Qed.

Lemma run_verify_new p w :
  verdict_of p w = None →
  ∃ v, run (verify p) w = (inr (verdict_result v), verify_world p (ok (replay EmptyString (order_asc sequenceId (chain w)))) w) ∧
       verdict_of p (verify_world p (ok (replay EmptyString (order_asc sequenceId (chain w)))) w) = Some v.
Proof.
  intros Hv. unfold verify, issue_verdict, verify_world.
  rewrite run_bind, run_getVerdict, Hv, run_bind, run_query, run_bind, run_reconstruct.
  rewrite run_bind, run_append. destruct (append_tx _ _ w) as [s w1].
  rewrite run_bind, run_act. cbn [fst snd]. destruct (now w1) as [t w2]. cbn [fst snd].
  rewrite run_bind, run_update, run_ret. eexists. split; [reflexivity|].
  by rewrite find_record_verdict, decide_True.
Qed.

Lemma guarantee_verify R `{!AllowsVerdict R} p : guarantee R (verify p).
Proof.
  unfold verify, issue_verdict. pose proof allows_record_verdict. guarantee_tac.
Qed.

Lemma verify_world_appends p w chainOk :
  intact (chain w) →
  chain (verify_world p chainOk w) = chain w ++ [snapshot_row (appended (chain w) "pot.verified"
    (verdict_payload p (every_criterion (criteria (capturedEvents p w) chainOk))
       (failureReasons (criteria (capturedEvents p w) chainOk) (capturedEvents p w)))
    (next_tick (clock w)))] ∧
  verdict_of p (verify_world p chainOk w) =
    Some (new_verdict p (capturedEvents p w) chainOk (Z.of_nat (length (chain w)) + 1)
            (next_tick (next_tick (clock w)))) ∧
  (∀ q, q ≠ p → verdict_of q (verify_world p chainOk w) = verdict_of q w) ∧
  capturedEvents p (verify_world p chainOk w) = capturedEvents p w.
Proof.
  intros Hw. unfold verify_world.
  match goal with |- context [append_tx "pot.verified" ?pl w] =>
    pose proof (append_chain "pot.verified" pl w Hw) as Hc;
    pose proof (append_tx_spec "pot.verified" pl w Hw) as [Hs _];
    set (s := appended (chain w) "pot.verified" pl (next_tick (clock w))) in *
  end.
  rewrite Hs in *. cbn [snd] in Hc. unfold now. split_and!.
  - exact Hc.
  - by rewrite find_record_verdict, decide_True.
  - intros q Hq. by rewrite find_record_verdict, decide_False by (simpl; congruence).
  - done.
Qed.

Lemma verify_final p w : verdicts_final w (run (verify p) w).2.
Proof.
  intros q v Hv. destruct (verdict_of p w) as [v'|] eqn:Hp.
  - by rewrite (run_verify_existing p v' w Hp).
  - destruct (run_verify_new p w Hp) as (v' & -> & _). cbn [snd]. unfold verify_world.
    unfold append_tx, now. rewrite find_record_verdict. cbn [verdict_processId new_verdict].
    rewrite decide_False by congruence. exact Hv.
Qed.

(** ** Properties *)

(** C15. The first [verify] of a process on an intact chain issues the verdict its
    evidence deserves: [verified] exactly when the four required events were
    captured, reasons empty exactly then; the verdict is on the chain as one new
    snapshot, and the row points to that snapshot. *)
Theorem verify_issues p w :
  intact (chain w) → verdict_of p w = None →
  ∃ w' v, run (verify p) w = (inr (verdict_result v), w') ∧ verdict_of p w' = Some v ∧
    (verified v = true ↔ all_required (capturedEvents p w)) ∧
    (reasons v = [] ↔ verified v = true) ∧
    (∃ s, chain w' = chain w ++ [s] ∧ sequenceId s = snapshotSequenceId v ∧ eventType s = "pot.verified" ∧
          payload s = verdict_payload p (verified v) (reasons v)) ∧
    intact (chain w') ∧ (∀ q, q ≠ p → verdict_of q w' = verdict_of q w).
Proof.
  intros Hw Hv. destruct (run_verify_new p w Hv) as (v & Hrun & Hv').
  rewrite order_asc_numbered, replay_ok_eq in Hrun, Hv' by apply Hw. cbn [ok] in Hrun, Hv'.
  destruct (verify_world_appends p w true Hw) as (Hc & Hvo & Hq & _).
  rewrite Hvo in Hv'. injection Hv' as Hv'. eexists _, _. split; [exact Hrun|]. subst v.
  split; [exact Hvo|]. cbn [new_verdict verified reasons]. split_and!.
  - rewrite every_criterion_deserved. unfold deserved. tauto.
  - by rewrite every_criterion_deserved, failureReasons_nil.
  - eexists. split; [exact Hc|]. split_and!; try reflexivity.
    apply stored_verdict_payload.
  - rewrite Hc. by apply intact_snoc.
  - exact Hq.
Qed.

(** One verdict per process: once a process has a verdict, [verify] returns that
    verdict and changes nothing, and no [verify] alters a verdict already recorded. *)
Theorem verify_once p q w :
  (∀ v, verdict_of p w = Some v → run (verify p) w = (inr (verdict_result v), w)) ∧
  (∀ r w1, run (verify p) w = (inr r, w1) → run (verify p) w1 = (inr r, w1)) ∧
  (∀ v, verdict_of q w = Some v → verdict_of q (run (verify p) w).2 = Some v).
Proof.
  split_and!.
  - intros v. apply run_verify_existing.
  - intros r w1. destruct (verdict_of p w) as [v|] eqn:Hv.
    + rewrite (run_verify_existing p v w Hv). intros [= <- <-]. by apply run_verify_existing.
    + destruct (run_verify_new p w Hv) as (v & -> & Hv'). intros [= <- <-]. by apply run_verify_existing.
  - intros v. apply verify_final.
Qed.

(** A broken chain verifies nothing: when the chain does not replay, a process
    without a verdict is refused, and a process with evidence is told so. *)
Theorem broken_chain_refuses p w :
  ¬ linked EmptyString (order_asc sequenceId (chain w)) → verdict_of p w = None →
  ∃ w' r, run (verify p) w = (inr r, w') ∧ result_verified r = false ∧
          (capturedEvents p w ≠ ∅ → "states_recorded_in_nodechain" ∈ result_reasons r).
Proof.
  intros Hl Hv. rewrite <- replay_linked, not_true_iff_false in Hl.
  destruct (run_verify_new p w Hv) as (v & Hrun & Hv'). rewrite Hl in Hrun, Hv'.
  unfold verify_world in Hv'. destruct (append_tx _ _ w) as [s w1]. destruct (now w1) as [t w2].
  rewrite find_record_verdict, decide_True in Hv' by done. injection Hv' as <-.
  eexists _, _. split; [exact Hrun|]. cbn [verdict_result result_verified result_reasons new_verdict verified reasons].
  split.
  - apply not_true_iff_false. rewrite every_criterion_deserved. by intros [_ ?].
  - intros [e He]%set_choose_L. unfold failureReasons, criteria. cbn [states_recorded_in_nodechain].
    rewrite (size_pos _ e He). simpl. apply elem_of_app. right. by apply list_elem_of_singleton.
Qed.

End Pot.

#[export] Hint Extern 1 (guarantee _ (getVerdict _)) => apply guarantee_getVerdict; apply _ : guarantee.
#[export] Hint Extern 1 (guarantee _ (verify _)) => apply guarantee_verify; apply _ : guarantee.

(** ** Witnesses *)

Section Witnesses.
#[local] Existing Instance transparent_platform.

(** A process whose four required events have been captured. *)
Definition executed : World :=
  (run (for_each (λ e, capture "p" e [] None;; mret tt) REQUIRED_BEFORE_VERDICT) fresh_world).2.

Lemma verify_issues_witness :
  ∃ w' v, run (verify "p") executed = (inr (verdict_result v), w') ∧ verdict_of "p" w' = Some v ∧
    verified v = true ∧ (reasons v = [] ↔ verified v = true) ∧ intact (chain w').
Proof.
  destruct (verify_issues "p" executed) as (w' & v & H1 & H2 & H3 & H4 & H5 & H6 & H7).
  - vm_compute. repeat split.
  - reflexivity.
  - exists w', v. split_and!; [exact H1|exact H2| |exact H4|exact H6].
    apply H3. vm_compute. repeat constructor; discriminate.
Defined.

Lemma verify_once_witness :
  run (verify "p") (run (verify "p") executed).2 =
  (inr {| result_verified := true; result_reasons := []; result_snapshotSequenceId := 5%Z |}, (run (verify "p") executed).2).
Proof.
  refine (proj1 (proj2 (verify_once "p" "p" executed)) _ _ _). vm_compute. reflexivity.
Defined.

Lemma broken_chain_refuses_witness :
  ∃ w' r, run (verify "p") tampered_events = (inr r, w') ∧ result_verified r = false.
Proof.
  destruct (broken_chain_refuses "p" tampered_events) as (w' & r & H1 & H2 & H3).
  - rewrite <- replay_linked. vm_compute. discriminate.
  - reflexivity.
  - exists w', r. split; [exact H1|exact H2].
Defined.
End Witnesses.
