(* ===== verification/ArosCoin.v ===== *)
(** * ArosCoin: the unit ledger

    [src/src/aroscoin/aroscoin.service.ts]. One row carries three running
    tallies; supply is derived from them. The one-time creation of the row is
    one atomic action: every other access awaits the promise that creates it. *)

From S2P Require Import Prelude Number NumberFacts NumberText Json Storage Effects Entities World.
From S2P Require Import NodeChain.
From Stdlib Require Import ZArith.

Section ArosCoin.
Context {ST : Storage}.

(** ** Operations *)

Record SupplySnapshot := {
  snap_processMinted : number;
  snap_processBurned : number;
  snap_earnedRetained : number;
  snap_timestamp : Z
}.

Record SupplyView := { view_totalSupply : number; view_retained : number }.

Definition base : number := of_Z 1.

Definition zero_ledger : ArosCoinLedger :=
  {| ledger_id := LEDGER_ID; processMinted := zero; processBurned := zero; earnedRetained := zero |}.

Definition save_ledger (row : ArosCoinLedger) (w : World) : World :=
  set_ledger_rows (save row (ledger_rows w)) w.

Definition ensureLedger (w : World) : World :=
  if ledger_ready w then w
  else set_ledger_ready true
    (match findOne LEDGER_ID (ledger_rows w) with Some _ => w | None => save_ledger zero_ledger w end).

Definition ledger : prog World ArosCoinLedger :=
  update ensureLedger;;
  row ← query (λ w, findOne LEDGER_ID (ledger_rows w));
  match row with Some row => mret row | None => Throw EntityNotFoundError end.

Definition add_minted (row : ArosCoinLedger) (amount : number) : ArosCoinLedger :=
  {| ledger_id := ledger_id row; processMinted := (processMinted row + amount)%num;
     processBurned := processBurned row; earnedRetained := earnedRetained row |}.
Definition add_burned (row : ArosCoinLedger) (amount : number) : ArosCoinLedger :=
  {| ledger_id := ledger_id row; processMinted := processMinted row;
     processBurned := (processBurned row + amount)%num; earnedRetained := earnedRetained row |}.
Definition add_earned (row : ArosCoinLedger) (amount : number) : ArosCoinLedger :=
  {| ledger_id := ledger_id row; processMinted := processMinted row;
     processBurned := processBurned row; earnedRetained := (earnedRetained row + amount)%num |}.

Definition recordMint (amount : number) : prog World () :=
  row ← ledger; update (save_ledger (add_minted row amount)).
Definition recordBurn (amount : number) : prog World () :=
  row ← ledger; update (save_ledger (add_burned row amount)).
Definition recordEarned (amount : number) : prog World () :=
  row ← ledger; update (save_ledger (add_earned row amount)).

Definition supply_of (row : ArosCoinLedger) : number :=
  ((processMinted row - processBurned row) + earnedRetained row)%num.

Definition totalSupply : prog World number := row ← ledger; mret (supply_of row).
Definition processNet : prog World number :=
  row ← ledger; mret (processMinted row - processBurned row)%num.
Definition retained : prog World number := row ← ledger; mret (earnedRetained row).

Definition coin_internalPrice (reserveIndex : number) : number := (base * reserveIndex)%num.

Definition snapshot : prog World SupplySnapshot :=
  row ← ledger;
  t ← act now;
  mret {| snap_processMinted := processMinted row; snap_processBurned := processBurned row;
          snap_earnedRetained := earnedRetained row; snap_timestamp := t |}.

Definition supplyView : prog World SupplyView :=
  row ← ledger;
  mret {| view_totalSupply := supply_of row; view_retained := earnedRetained row |}.

(** ** Abstract specification *)

(** The tallies the database holds; a database without the row holds zeros. *)
Definition tallies (w : World) : ArosCoinLedger :=
  default zero_ledger (findOne LEDGER_ID (ledger_rows w)).

(** The row exists once its creation is recorded as done. *)
Definition ledger_ok (w : World) : Prop :=
  ledger_ready w = true → findOne LEDGER_ID (ledger_rows w) ≠ None.

(** The process part is closed: what was minted was burned. *)
Definition closed (row : ArosCoinLedger) : Prop :=
  is_finite (processMinted row) = true ∧ processMinted row = processBurned row ∧
  is_nan (earnedRetained row) = false.

(** The actions of the ledger leave everything else alone. *)
Record only_ledger (w w' : World) : Prop := {
  ol_clock : clock w' = clock w; ol_snapshots : snapshots w' = snapshots w;
  ol_verdicts : verdicts w' = verdicts w; ol_epochs : epochs w' = epochs w;
  ol_nodes : nodes w' = nodes w; ol_phases : phases w' = phases w;
  ol_oversight : oversight w' = oversight w; ol_captured : captured w' = captured w;
  ol_participation : participation w' = participation w
}.

#[global] Instance only_ledger_preorder : PreOrder only_ledger.
Proof. split; [intros w; by split|]. intros w1 w2 w3 [] []. split; congruence. Qed.

Definition keeps_ledger_ok (w w' : World) : Prop := ledger_ok w → ledger_ok w'.

#[global] Instance keeps_ledger_ok_preorder : PreOrder keeps_ledger_ok.
Proof. split; [intros w H; exact H|]. intros w1 w2 w3 H12 H23 H. auto. Qed.

(** What a discipline must allow for the ledger's operations to guarantee it. *)
Class AllowsLedger (R : discipline World) : Prop := {
  allows_ensureLedger : ∀ w, R w (ensureLedger w);
  allows_save_ledger : ∀ row w, R w (save_ledger row w)
}.

(** ** Facts *)

Lemma findOne_save_ledger row w :
  ledger_id row = LEDGER_ID → findOne LEDGER_ID (ledger_rows (save_ledger row w)) = Some row.
Proof. intros Hid. rewrite <- Hid. exact (findOne_save_eq row (ledger_rows w)). Qed.

Lemma tallies_save row w : ledger_id row = LEDGER_ID → tallies (save_ledger row w) = row.
Proof. intros Hid. unfold tallies. by rewrite findOne_save_ledger. Qed.

Lemma save_ledger_only row w : only_ledger w (save_ledger row w).
Proof. by split. Qed.

Lemma ensureLedger_only w : only_ledger w (ensureLedger w).
Proof. unfold ensureLedger. destruct (ledger_ready w); [by split|]. destruct (findOne _ _); by split. Qed.

Lemma tallies_id w : ledger_id (tallies w) = LEDGER_ID.
Proof.
  unfold tallies. destruct (findOne _ _) as [row|] eqn:E; [|done]. simpl.
  rewrite findOne_find in E. by apply lookup_key_some in E as [_ ?].
Qed.

Lemma ensureLedger_row w :
  ledger_ok w → findOne LEDGER_ID (ledger_rows (ensureLedger w)) = Some (tallies w).
Proof.
  intros Hok. unfold ensureLedger, tallies. destruct (ledger_ready w) eqn:Hr.
  - specialize (Hok Hr). by destruct (findOne _ _).
  - destruct (findOne LEDGER_ID (ledger_rows w)) eqn:E; [done|].
    exact (findOne_save_ledger zero_ledger w eq_refl).
Qed.

Lemma ensureLedger_tallies w : ledger_ok w → tallies (ensureLedger w) = tallies w.
Proof. intros Hok. unfold tallies at 1. by rewrite ensureLedger_row. Qed.

Lemma ensureLedger_ok w : keeps_ledger_ok w (ensureLedger w).
Proof. intros Hok _. by rewrite ensureLedger_row. Qed.

Lemma save_ledger_ok row w : ledger_id row = LEDGER_ID → keeps_ledger_ok w (save_ledger row w).
Proof. intros Hid _ _. by rewrite findOne_save_ledger. Qed.

Lemma ledger_ok_keep w w' :
  ledger_rows w' = ledger_rows w → ledger_ready w' = ledger_ready w → keeps_ledger_ok w w'.
Proof. intros H1 H2 Hok. unfold ledger_ok. by rewrite H1, H2. Qed.

Lemma run_ledger w : ledger_ok w → run ledger w = (inr (tallies w), ensureLedger w).
Proof.
  intros Hok. unfold ledger. rewrite run_bind, run_update, run_bind, run_query.
  by rewrite ensureLedger_row.
Qed.

(** Every reader of the ledger computes from the tallies. *)
Lemma run_read_ledger {A} (f : ArosCoinLedger → A) w :
  ledger_ok w → run (row ← ledger; mret (f row)) w = (inr (f (tallies w)), ensureLedger w).
Proof. intros Hok. by rewrite run_bind, run_ledger. Qed.

(** Every writer replaces the tallies by a function of them. *)
Definition after_write (f : ArosCoinLedger → ArosCoinLedger) (w : World) : World :=
  save_ledger (f (tallies w)) (ensureLedger w).

Lemma run_write_ledger (f : ArosCoinLedger → ArosCoinLedger) w :
  ledger_ok w → run (row ← ledger; update (save_ledger (f row))) w = (inr tt, after_write f w).
Proof. intros Hok. by rewrite run_bind, run_ledger. Qed.

Lemma after_write_spec f w :
  ledger_ok w → ledger_id (f (tallies w)) = LEDGER_ID →
  tallies (after_write f w) = f (tallies w) ∧ ledger_ok (after_write f w) ∧ only_ledger w (after_write f w).
Proof.
  intros Hok Hid. unfold after_write. split_and!.
  - by apply tallies_save.
  - by apply save_ledger_ok; [|apply ensureLedger_ok].
  - etransitivity; [apply ensureLedger_only|apply save_ledger_only].
Qed.

(** The guarantees of every access. *)
Lemma guarantee_ledger R `{!AllowsLedger R} : guarantee R ledger.
Proof. unfold ledger. pose proof allows_ensureLedger. guarantee_tac. Qed.

Lemma guarantee_read_ledger {A} R `{!AllowsLedger R} (f : ArosCoinLedger → A) :
  guarantee R (row ← ledger; mret (f row)).
Proof. apply guarantee_bind; [by apply guarantee_ledger|]. intros row. apply guarantee_ret. Qed.

Lemma guarantee_write_ledger R `{!AllowsLedger R} (f : ArosCoinLedger → ArosCoinLedger) :
  guarantee R (row ← ledger; update (save_ledger (f row))).
Proof.
  apply guarantee_bind; [by apply guarantee_ledger|]. intros row.
  apply guarantee_update. intros w. apply allows_save_ledger.
Qed.

Lemma supply_of_closed row :
  closed row → num_eqb (supply_of row) (earnedRetained row) = true.
Proof.
  intros (Hf & Heq & Hn). unfold supply_of. rewrite <- Heq, num_sub_diag by done.
  by apply num_add_zero_l.
Qed.

(** ** Properties *)

(** The record operations: each adds its amount to its own tally, leaves the
    other two and every other table alone, and always succeeds. *)
Theorem record_operations amount w :
  ledger_ok w →
  (∃ w', run (recordMint amount) w = (inr tt, w') ∧ tallies w' = add_minted (tallies w) amount ∧
         ledger_ok w' ∧ only_ledger w w') ∧
  (∃ w', run (recordBurn amount) w = (inr tt, w') ∧ tallies w' = add_burned (tallies w) amount ∧
         ledger_ok w' ∧ only_ledger w w') ∧
  (∃ w', run (recordEarned amount) w = (inr tt, w') ∧ tallies w' = add_earned (tallies w) amount ∧
         ledger_ok w' ∧ only_ledger w w').
Proof.
  intros Hok. split_and!.
  - exists (after_write (λ r, add_minted r amount) w).
    split; [by apply run_write_ledger|]. apply after_write_spec; [done|apply tallies_id].
  - exists (after_write (λ r, add_burned r amount) w).
    split; [by apply run_write_ledger|]. apply after_write_spec; [done|apply tallies_id].
  - exists (after_write (λ r, add_earned r amount) w).
    split; [by apply run_write_ledger|]. apply after_write_spec; [done|apply tallies_id].
Qed.

(** The derived supply: every view computes from the three tallies, and when the
    process part is closed the net is exactly zero, [totalSupply === retained],
    and the view handed to the Eye agrees with itself. *)
Theorem closed_supply w :
  ledger_ok w → closed (tallies w) →
  run processNet w = (inr zero, ensureLedger w) ∧
  (∃ s r, run totalSupply w = (inr s, ensureLedger w) ∧ run retained w = (inr r, ensureLedger w) ∧
     run supplyView w = (inr {| view_totalSupply := s; view_retained := r |}, ensureLedger w) ∧
     num_eqb s r = true ∧ r = earnedRetained (tallies w)).
Proof.
  intros Hok Hc. split.
  - unfold processNet. rewrite run_read_ledger by done.
    destruct Hc as (Hf & Heq & _). by rewrite <- Heq, num_sub_diag.
  - exists (supply_of (tallies w)), (earnedRetained (tallies w)).
    split_and!; try by apply run_read_ledger.
    + by apply supply_of_closed.
    + done.
Qed.

(** The tallies are read and written back in separate queries with no
    transaction: two concurrent [recordMint] calls can both succeed and leave the
    tally grown by the second amount only. *)
Theorem concurrent_mint_lost a b w :
  ledger_ok w →
  ∃ w', run_schedule [0; 0; 1; 1; 0; 1] ([recordMint a; recordMint b], w) = ([mret tt; mret tt], w') ∧
        tallies w' = add_minted (tallies w) b ∧
        steps ([recordMint a; recordMint b], w) ([mret tt; mret tt], w').
Proof.
  intros Hok.
  assert (run_schedule [0; 0; 1; 1; 0; 1] ([recordMint a; recordMint b], w) =
    ([mret tt; mret tt], save_ledger (add_minted (tallies w) b)
       (save_ledger (add_minted (tallies w) a) (ensureLedger (ensureLedger w))))) as Hrun.
  { pose proof (ensureLedger_row w Hok) as H1.
    pose proof (ensureLedger_row _ (ensureLedger_ok w Hok)) as H2. rewrite ensureLedger_tallies in H2 by done.
    unfold run_schedule, advance. cbn -[ensureLedger save_ledger]. rewrite H1.
    cbn -[ensureLedger save_ledger]. rewrite H2. reflexivity. }
  eexists. split_and!; [exact Hrun|..].
  - apply tallies_save, tallies_id.
  - rewrite <- Hrun. apply run_schedule_steps.
Qed.

End ArosCoin.

#[export] Hint Extern 1 (guarantee _ ledger) => apply guarantee_ledger; apply _ : guarantee.
#[export] Hint Extern 1 (guarantee _ (recordMint _)) => apply guarantee_write_ledger; apply _ : guarantee.
#[export] Hint Extern 1 (guarantee _ (recordBurn _)) => apply guarantee_write_ledger; apply _ : guarantee.
#[export] Hint Extern 1 (guarantee _ (recordEarned _)) => apply guarantee_write_ledger; apply _ : guarantee.
#[export] Hint Extern 1 (guarantee _ totalSupply) => apply guarantee_read_ledger; apply _ : guarantee.
#[export] Hint Extern 1 (guarantee _ retained) => apply guarantee_read_ledger; apply _ : guarantee.
#[export] Hint Extern 1 (guarantee _ supplyView) => apply guarantee_read_ledger; apply _ : guarantee.

(** ** Witnesses *)

Lemma fresh_ledger_ok : ledger_ok fresh_world.
Proof. discriminate. Qed.

Lemma record_operations_witness :
  ∃ w', run (recordMint (of_Z 7)) fresh_world = (inr tt, w') ∧
        tallies w' = add_minted zero_ledger (of_Z 7).
Proof.
  destruct (proj1 (record_operations (of_Z 7) fresh_world fresh_ledger_ok)) as (w' & H1 & H2 & _).
  exists w'. split; [exact H1|exact H2].
Defined.

Lemma closed_supply_witness : run processNet fresh_world = (inr zero, ensureLedger fresh_world).
Proof.
  apply closed_supply; [exact fresh_ledger_ok|]. vm_compute. repeat split.
Defined.

Lemma concurrent_mint_lost_witness :
  ∃ w', run_schedule [0; 0; 1; 1; 0; 1] ([recordMint (of_Z 7); recordMint (of_Z 5)], fresh_world) =
          ([mret tt; mret tt], w') ∧
        processMinted (tallies w') = of_Z 5.
Proof.
  destruct (concurrent_mint_lost (of_Z 7) (of_Z 5) fresh_world fresh_ledger_ok) as (w' & H1 & H2 & _).
  exists w'. split; [exact H1|]. rewrite H2. vm_compute. reflexivity.
Defined.
