(* ===== verification/Emission.v ===== *)
(** * Emission: the gated minter

    [src/src/emission/emission.service.ts]. Emission mints and burns the process
    part of a process whose recorded verdict is positive, and records both. *)

From S2P Require Import Prelude Number NumberFacts NumberText Json Storage Effects Entities World.
From S2P Require Import NodeChain StateRecording Pot ArosCoin.
From Stdlib Require Import ZArith.

Section Emission.
Context {ST : Storage} {PL : Platform}.

(** ** Operations *)

Record EmitResult := {
  authorized : bool;
  minted : number;
  burned : number;
  emit_processId : string
}.

(** [!verdict || verdict.verified !== 1], negated. *)
Definition confirmed (verdict : option PotVerdict) : bool :=
  match verdict with Some v => verified v | None => false end.

Definition refusal (processId : string) : exn :=
  JsError ("emission refused for " +:+ processId +:+ ": no PoT confirmation (verified === 1 required)").

Definition minted_payload (processId : string) (amount : number) : json :=
  JObj [("processId", JStr processId); ("minted", JNum amount)].
Definition burned_payload (processId : string) (amount : number) : json :=
  JObj [("processId", JStr processId); ("burned", JNum amount)].

Definition mint (processId : string) (amount : number) : prog World number :=
  verdict ← getVerdict processId;
  if confirmed verdict then
    recordMint amount;;
    append "emission.minted" (minted_payload processId amount);;
    mret amount
  else Throw (refusal processId).

Definition burn (processId : string) (amount : number) : prog World number :=
  recordBurn amount;;
  append "emission.burned" (burned_payload processId amount);;
  mret amount.

Definition emit (processId : string) (amount : number) : prog World EmitResult :=
  verdict ← getVerdict processId;
  if confirmed verdict then
    minted ← mint processId amount;
    burned ← burn processId minted;
    mret {| authorized := true; minted := minted; burned := burned; emit_processId := processId |}
  else mret {| authorized := false; minted := zero; burned := zero; emit_processId := processId |}.

Definition emission_totalSupply : prog World number := totalSupply.

Record EmissionCycle := {
  cycle_emission : number;
  cycle_commission : number;
  cycle_nodeShare : number;
  cycle_afcShare : number;
  cycle_net : number
}.

Definition default_commissionRate : number := of_decimal 5 (-3).

Definition calculate (txAmount commissionRate : number) : EmissionCycle :=
  let commission := (txAmount * commissionRate)%num in
  {| cycle_emission := txAmount; cycle_commission := commission;
     cycle_nodeShare := (commission * of_decimal 75 (-2))%num;
     cycle_afcShare := (commission * of_decimal 25 (-2))%num;
     cycle_net := zero |}.

(** ** Abstract specification *)

(** The tallies after one full cycle of the process part. *)
Definition cycled (row : ArosCoinLedger) (amount : number) : ArosCoinLedger :=
  add_burned (add_minted row amount) amount.

(** The world after a cycle, without the two snapshots it leaves. *)
Definition minted_world (processId : string) (amount : number) (w : World) : World :=
  (append_tx "emission.minted" (minted_payload processId amount)
     (after_write (λ r, add_minted r amount) w)).2.
Definition burned_world (processId : string) (amount : number) (w : World) : World :=
  (append_tx "emission.burned" (burned_payload processId amount)
     (after_write (λ r, add_burned r amount) w)).2.

(** ** Facts *)

Lemma tallies_append e pl w : tallies (append_tx e pl w).2 = tallies w.
Proof. done. Qed.

Lemma ledger_ok_append e pl w : keeps_ledger_ok w (append_tx e pl w).2.
Proof. by apply ledger_ok_keep. Qed.

Lemma only_ledger_chain w w' : only_ledger w w' → chain w' = chain w.
Proof. intros []. unfold chain. congruence. Qed.

Lemma only_ledger_verdict p w w' : only_ledger w w' → verdict_of p w' = verdict_of p w.
Proof. intros []. unfold verdict_of. congruence. Qed.

Lemma only_ledger_captured p w w' : only_ledger w w' → capturedEvents p w' = capturedEvents p w.
Proof. intros []. unfold capturedEvents. congruence. Qed.

Lemma run_mint p amount w :
  ledger_ok w →
  run (mint p amount) w =
    if confirmed (verdict_of p w) then (inr amount, minted_world p amount w) else (inl (refusal p), w).
Proof.
  intros Hok. unfold mint. rewrite run_bind, run_getVerdict. destruct (confirmed _); [|done].
  unfold recordMint. rewrite run_bind, run_write_ledger by done. by rewrite run_bind, run_append.
Qed.

Lemma run_burn p amount w :
  ledger_ok w → run (burn p amount) w = (inr amount, burned_world p amount w).
Proof.
  intros Hok. unfold burn, recordBurn. rewrite run_bind, run_write_ledger by done.
  by rewrite run_bind, run_append.
Qed.

Lemma minted_world_spec p amount w :
  ledger_ok w →
  ledger_ok (minted_world p amount w) ∧
  tallies (minted_world p amount w) = add_minted (tallies w) amount ∧
  (∀ q, verdict_of q (minted_world p amount w) = verdict_of q w) ∧
  (∀ q, capturedEvents q (minted_world p amount w) = capturedEvents q w) ∧
  (intact (chain w) → intact (chain (minted_world p amount w)) ∧
     ∃ s, chain (minted_world p amount w) = chain w ++ [s] ∧ eventType s = "emission.minted" ∧
          payload s = stored (minted_payload p amount)).
Proof.
  intros Hok. destruct (after_write_spec (λ r, add_minted r amount) w Hok) as (Ht & Hl & Ho);
    [apply tallies_id|]. unfold minted_world. split_and!.
  - by apply ledger_ok_append.
  - by rewrite tallies_append.
  - intros q. rewrite verdict_of_append. by apply only_ledger_verdict.
  - intros q. rewrite capturedEvents_append. by apply only_ledger_captured.
  - rewrite <- (only_ledger_chain _ _ Ho). intros Hi. split; [by apply append_extends|].
    rewrite append_chain by done. by eexists.
Qed.

Lemma burned_world_spec p amount w :
  ledger_ok w →
  ledger_ok (burned_world p amount w) ∧
  tallies (burned_world p amount w) = add_burned (tallies w) amount ∧
  (∀ q, verdict_of q (burned_world p amount w) = verdict_of q w) ∧
  (∀ q, capturedEvents q (burned_world p amount w) = capturedEvents q w) ∧
  (intact (chain w) → intact (chain (burned_world p amount w)) ∧
     ∃ s, chain (burned_world p amount w) = chain w ++ [s] ∧ eventType s = "emission.burned" ∧
          payload s = stored (burned_payload p amount)).
Proof.
  intros Hok. destruct (after_write_spec (λ r, add_burned r amount) w Hok) as (Ht & Hl & Ho);
    [apply tallies_id|]. unfold burned_world. split_and!.
  - by apply ledger_ok_append.
  - by rewrite tallies_append.
  - intros q. rewrite verdict_of_append. by apply only_ledger_verdict.
  - intros q. rewrite capturedEvents_append. by apply only_ledger_captured.
  - rewrite <- (only_ledger_chain _ _ Ho). intros Hi. split; [by apply append_extends|].
    rewrite append_chain by done. by eexists.
Qed.

(** The world a call of [emit] leaves. *)
Definition emitted_world (p : string) (amount : number) (w : World) : World :=
  if confirmed (verdict_of p w) then burned_world p amount (minted_world p amount w) else w.

Definition emit_result (p : string) (amount : number) (w : World) : EmitResult :=
  if confirmed (verdict_of p w)
  then {| authorized := true; minted := amount; burned := amount; emit_processId := p |}
  else {| authorized := false; minted := zero; burned := zero; emit_processId := p |}.

Lemma run_emit p amount w :
  ledger_ok w → run (emit p amount) w = (inr (emit_result p amount w), emitted_world p amount w).
Proof.
  intros Hok. unfold emit, emit_result, emitted_world. rewrite run_bind, run_getVerdict.
  destruct (confirmed _) eqn:Hc; [|done]. rewrite run_bind, run_mint, Hc by done.
  rewrite run_bind, run_burn by (by apply minted_world_spec). done.
Qed.

Lemma closed_cycled row amount :
  closed row → is_finite (processMinted row + amount)%num = true → closed (cycled row amount).
Proof.
  intros (Hf & Heq & Hn) Hs. unfold closed, cycled. simpl. split_and!; [done| |done]. by rewrite Heq.
Qed.

Lemma emitted_world_spec p amount w :
  ledger_ok w →
  ledger_ok (emitted_world p amount w) ∧
  tallies (emitted_world p amount w) =
    (if confirmed (verdict_of p w) then cycled (tallies w) amount else tallies w) ∧
  (∀ q, verdict_of q (emitted_world p amount w) = verdict_of q w) ∧
  (∀ q, capturedEvents q (emitted_world p amount w) = capturedEvents q w) ∧
  (intact (chain w) → intact (chain (emitted_world p amount w)) ∧
     chain w `prefix_of` chain (emitted_world p amount w)).
Proof.
  intros Hok. unfold emitted_world. destruct (confirmed _); [|by split_and!].
  destruct (minted_world_spec p amount w Hok) as (M1 & M2 & M3 & M4 & M5).
  destruct (burned_world_spec p amount _ M1) as (B1 & B2 & B3 & B4 & B5). split_and!.
  - done.
  - by rewrite B2, M2.
  - intros q. by rewrite B3, M3.
  - intros q. by rewrite B4, M4.
  - intros Hi. destruct (M5 Hi) as [Hi' (s & Hs & _)]. destruct (B5 Hi') as [Hi'' (s' & Hs' & _)].
    split; [done|]. rewrite Hs', Hs, <- app_assoc. by apply prefix_app_r.
Qed.

Lemma guarantee_mint R `{!AllowsAppend R, !AllowsLedger R} p amount : guarantee R (mint p amount).
Proof. unfold mint. guarantee_tac. Qed.

Lemma guarantee_burn R `{!AllowsAppend R, !AllowsLedger R} p amount : guarantee R (burn p amount).
Proof. unfold burn. guarantee_tac. Qed.

Lemma guarantee_emit R `{!AllowsAppend R, !AllowsLedger R} p amount : guarantee R (emit p amount).
Proof.
  pose proof (guarantee_mint R). pose proof (guarantee_burn R). unfold emit. guarantee_tac.
Qed.

(** ** Properties *)

(** C20. No value without a positive verdict: for a process with no verdict or a
    negative one, [emit] authorises nothing and [mint] throws, and neither changes
    anything in the system. *)
Theorem emission_gate p amount w :
  (∀ v, verdict_of p w = Some v → verified v = false) →
  run (emit p amount) w =
    (inr {| authorized := false; minted := zero; burned := zero; emit_processId := p |}, w) ∧
  run (mint p amount) w = (inl (refusal p), w).
Proof.
  intros Hv. assert (confirmed (verdict_of p w) = false) as Hc.
  { unfold confirmed. destruct (verdict_of p w) as [v|]; [by apply Hv|done]. }
  split.
  - unfold emit. by rewrite run_bind, run_getVerdict, Hc.
  - unfold mint. by rewrite run_bind, run_getVerdict, Hc.
Qed.

(** A confirmed process is emitted symmetrically: the amount is minted and
    burned, both on the chain in that order, the earned tally does not move, and
    a closed process part stays closed unless the tally overflows. *)
Theorem emit_confirmed p amount v w :
  ledger_ok w → intact (chain w) → verdict_of p w = Some v → verified v = true →
  ∃ w' s1 s2,
    run (emit p amount) w =
      (inr {| authorized := true; minted := amount; burned := amount; emit_processId := p |}, w') ∧
    chain w' = chain w ++ [s1; s2] ∧ intact (chain w') ∧
    eventType s1 = "emission.minted" ∧ payload s1 = stored (minted_payload p amount) ∧
    eventType s2 = "emission.burned" ∧ payload s2 = stored (burned_payload p amount) ∧
    tallies w' = cycled (tallies w) amount ∧ verdict_of p w' = Some v ∧
    (closed (tallies w) → is_finite (processMinted (tallies w) + amount)%num = true → closed (tallies w')).
Proof.
  intros Hok Hi Hv Hver. rewrite run_emit by done. unfold emit_result, emitted_world, confirmed.
  rewrite Hv, Hver.
  destruct (minted_world_spec p amount w Hok) as (M1 & M2 & M3 & _ & M5).
  destruct (M5 Hi) as [Hi' (s1 & Hs1 & He1 & Hp1)].
  destruct (burned_world_spec p amount _ M1) as (B1 & B2 & B3 & _ & B5).
  destruct (B5 Hi') as [Hi'' (s2 & Hs2 & He2 & Hp2)].
  assert (tallies (burned_world p amount (minted_world p amount w)) = cycled (tallies w) amount) as Ht
    by (by rewrite B2, M2).
  exists (burned_world p amount (minted_world p amount w)), s1, s2. split_and!; try done.
  - by rewrite Hs2, Hs1, <- app_assoc.
  - by rewrite B3, M3.
  - intros Hc Hs. rewrite Ht. by apply closed_cycled.
Qed.

End Emission.

#[export] Hint Extern 1 (guarantee _ (emit _ _)) => apply guarantee_emit; apply _ : guarantee.
#[export] Hint Extern 1 (guarantee _ (mint _ _)) => apply guarantee_mint; apply _ : guarantee.
#[export] Hint Extern 1 (guarantee _ (burn _ _)) => apply guarantee_burn; apply _ : guarantee.

(** ** Witnesses *)

Section Witnesses.
#[local] Existing Instance transparent_platform.

Lemma emission_gate_witness :
  run (mint "p" (of_Z 10)) executed = (inl (refusal "p"), executed).
Proof. apply emission_gate. intros v. vm_compute. discriminate. Defined.

(** The process of [executed], verified. *)
Definition verified_world : World := (run (verify "p") executed).2.

Lemma emit_confirmed_witness :
  ∃ w' s1 s2,
    run (emit "p" (of_Z 10)) verified_world =
      (inr {| authorized := true; minted := of_Z 10; burned := of_Z 10; emit_processId := "p" |}, w') ∧
    chain w' = chain verified_world ++ [s1; s2] ∧ closed (tallies w').
Proof.
  destruct (emit_confirmed "p" (of_Z 10)
    {| verdict_processId := "p"; verified := true; reasons := [];
       verdict_timestamp := clock verified_world; snapshotSequenceId := 5 |} verified_world)
    as (w' & s1 & s2 & H1 & H2 & _ & _ & _ & _ & _ & _ & _ & H3).
  - discriminate.
  - vm_compute. repeat split.
  - vm_compute. reflexivity.
  - reflexivity.
  - exists w', s1, s2. split; [exact H1|]. split; [exact H2|]. apply H3; vm_compute; repeat split.
Defined.
End Witnesses.
