(* ===== verification/Nodes.v ===== *)
(** * Nodes: the workforce registry

    [src/src/nodes/nodes.service.ts]. Nodes are rows with work counters and the
    scores derived from them. *)

From S2P Require Import Prelude Number NumberFacts NumberText Json Storage Effects Entities World.
From S2P Require Import NodeChain.
From Stdlib Require Import ZArith.

Section Nodes.
Context {ST : Storage} {PL : Platform}.

(** ** Operations *)

Definition new_node (id type : string) : NodeEntity := {|
  node_id := id; node_type := type; uptime := of_Z 1; successes := 0; total := 0;
  node_status := active; weight := of_Z 1; reputation := of_Z 1
|}.

Definition registration_payload (saved : NodeEntity) : json :=
  JObj [("nodeId", JStr (node_id saved)); ("type", JStr (node_type saved));
        ("uptime", JNum (uptime saved)); ("reputation", JNum (reputation saved));
        ("weight", JNum (weight saved))].

Definition save_node (n : NodeEntity) (w : World) : World := set_nodes (save n (nodes w)) w.

Definition register (id type : string) : prog World NodeEntity :=
  let entity := new_node id type in
  update (save_node entity);;
  append "node.registered" (registration_payload entity);;
  mret entity.

Definition nodes_list : prog World (list NodeEntity) := query (λ w, find (nodes w)).

Definition node_of (id : string) (w : World) : option NodeEntity := findOne id (nodes w).

Definition get_node (id : string) : prog World (option NodeEntity) := query (node_of id).

Definition unknown_node (id : string) : exn :=
  NotFoundException ("Node " +:+ id +:+ " is not registered").

Definition requireNode (id : string) : prog World NodeEntity :=
  node ← get_node id;
  match node with Some n => mret n | None => Throw (unknown_node id) end.

Definition computeReputation (successes total : Z) (uptime : number) : number :=
  if (total =? 0)%Z then of_Z 1 else (of_Z successes / of_Z total * uptime)%num.

Definition computeWeight (reputation uptime : number) : number := (reputation * uptime)%num.

(** The row after one more attempted unit of work. *)
Definition executed_node (n : NodeEntity) (success : bool) : NodeEntity :=
  let total' := (total n + 1)%Z in
  let successes' := if success then (successes n + 1)%Z else successes n in
  let reputation' := computeReputation successes' total' (uptime n) in
  {| node_id := node_id n; node_type := node_type n; uptime := uptime n;
     successes := successes'; total := total'; node_status := node_status n;
     weight := computeWeight reputation' (uptime n); reputation := reputation' |}.

Definition recordExecution (id : string) (success : bool) : prog World NodeEntity :=
  node ← requireNode id;
  update (save_node (executed_node node success));;
  mret (executed_node node success).

Definition currentWeight (id : string) : prog World number :=
  node ← requireNode id; mret (weight node).

Definition payment_payload (n : NodeEntity) (amount : number) : json :=
  JObj [("nodeId", JStr (node_id n)); ("amount", JNum amount); ("weight", JNum (weight n))].

Definition receivePayment (id : string) (amount : number) : prog World () :=
  node ← requireNode id;
  append "node.payment.received" (payment_payload node amount);;
  mret tt.

(** ** Abstract specification *)

(** Counters in order, availability in the unit interval, scores derived from
    both. The counters are 32-bit columns, well inside the exact integers. *)
Definition node_ok (n : NodeEntity) : Prop :=
  (0 ≤ successes n ≤ total n)%Z ∧ unit_interval (uptime n) ∧
  reputation n = computeReputation (successes n) (total n) (uptime n) ∧
  (total n = 0%Z ∧ weight n = of_Z 1 ∨ (0 < total n)%Z ∧ weight n = computeWeight (reputation n) (uptime n)).

Definition nodes_ok (w : World) : Prop := Forall node_ok (find (nodes w)).

(** What a discipline must allow for the registry's writes to guarantee it. *)
Class AllowsNodes (R : discipline World) : Prop := {
  allows_save_node : ∀ n w, R w (save_node n w)
}.

(** ** Facts *)

Lemma unit_interval_one : unit_interval (of_Z 1).
Proof. split_and!; done. Qed.

Lemma new_node_ok id type : node_ok (new_node id type).
Proof. unfold node_ok. simpl. split_and!; try done. by left. Qed.

Lemma executed_node_ok n success : node_ok n → node_ok (executed_node n success).
Proof.
  intros (Hs & Hu & _ & _). unfold node_ok. cbn [executed_node successes total uptime reputation weight].
  split_and!; [destruct success; lia|destruct success; lia|done|done|]. right. split; [lia|done].
Qed.

(** Scores derived from in-range counters stay in the unit interval. *)
Lemma node_scores n :
  node_ok n → (total n ≤ 2 ^ 53)%Z → unit_interval (reputation n) ∧ unit_interval (weight n).
Proof.
  intros (Hs & Hu & Hr & Hw) Ht.
  assert (unit_interval (reputation n)) as Hrep.
  { rewrite Hr. unfold computeReputation. destruct (Z.eqb_spec (total n) 0); [apply unit_interval_one|].
    apply unit_interval_mul; [|done]. apply unit_interval_ratio; lia. }
  split; [done|]. destruct Hw as [[_ ->]|[_ ->]]; [apply unit_interval_one|by apply unit_interval_mul].
Qed.

Lemma nodes_ok_save n w : node_ok n → nodes_ok w → nodes_ok (save_node n w).
Proof. intros Hn Hw. by apply Forall_save. Qed.

Lemma node_of_some id n w : node_of id w = Some n → n ∈ find (nodes w) ∧ node_id n = id.
Proof. unfold node_of. rewrite findOne_find. intros H. exact (lookup_key_some _ _ _ H). Qed.

Lemma node_of_ok id n w : nodes_ok w → node_of id w = Some n → node_ok n.
Proof. intros Hw [Hin _]%node_of_some. unfold nodes_ok in Hw. rewrite Forall_forall in Hw. auto. Qed.

Lemma node_of_save n id w :
  node_of id (save_node n w) = if decide (node_id n = id) then Some n else node_of id w.
Proof.
  unfold node_of, save_node. cbn [nodes set_nodes]. case_decide as Hp.
  - subst id. exact (findOne_save_eq n (nodes w)).
  - by apply findOne_save_ne.
Qed.

Lemma run_requireNode id w :
  run (requireNode id) w =
  match node_of id w with Some n => (inr n, w) | None => (inl (unknown_node id), w) end.
Proof.
  unfold requireNode, get_node. rewrite run_bind, run_query. by destruct (node_of id w).
Qed.

Lemma maintains_requireNode (I : World → Prop) id :
  (∀ w, I w → nodes_ok w) → maintains I node_ok (requireNode id).
Proof.
  intros HI. unfold requireNode, get_node.
  eapply (maintains_bind _ (λ o, ∀ n, o = Some n → node_ok n)).
  - apply maintains_query. intros w Hw n Hn. eapply node_of_ok; eauto.
  - intros [n|] Hn; simpl; auto.
Qed.

Lemma maintains_recordExecution (I : World → Prop) id success :
  (∀ w, I w → nodes_ok w) → (∀ n w, node_ok n → I w → I (save_node n w)) →
  maintains I (λ _, True) (recordExecution id success).
Proof.
  intros HI HS. unfold recordExecution.
  eapply maintains_bind; [by apply maintains_requireNode|]. intros n Hn.
  eapply maintains_bind; [|done]. apply maintains_update. intros w Hw.
  apply HS; [by apply executed_node_ok|done].
Qed.

Lemma guarantee_requireNode (R : discipline World) id : guarantee R (requireNode id).
Proof. unfold requireNode, get_node. guarantee_tac. Qed.

Lemma guarantee_register R `{!AllowsAppend R, !AllowsNodes R} id type : guarantee R (register id type).
Proof. unfold register. pose proof allows_save_node. guarantee_tac. Qed.

Lemma guarantee_recordExecution R `{!AllowsNodes R} id success : guarantee R (recordExecution id success).
Proof.
  unfold recordExecution. pose proof allows_save_node.
  apply guarantee_bind; [apply guarantee_requireNode|]. intros n. guarantee_tac.
Qed.

Lemma guarantee_currentWeight (R : discipline World) id : guarantee R (currentWeight id).
Proof. unfold currentWeight. apply guarantee_bind; [apply guarantee_requireNode|intros n; apply guarantee_ret]. Qed.

Lemma guarantee_receivePayment R `{!AllowsAppend R} id amount : guarantee R (receivePayment id amount).
Proof.
  unfold receivePayment. apply guarantee_bind; [apply guarantee_requireNode|].
  intros n. guarantee_tac.
Qed.

(** What execution records on a world. *)
Lemma run_recordExecution id success w :
  run (recordExecution id success) w =
  match node_of id w with
  | Some n => (inr (executed_node n success), save_node (executed_node n success) w)
  | None => (inl (unknown_node id), w)
  end.
Proof.
  unfold recordExecution. rewrite run_bind, run_requireNode. by destruct (node_of id w).
Qed.

(** ** Properties *)

(** Recording work: on a registered node the attempt is counted, the scores are
    recomputed by the formula [successes / total * uptime], and only that row
    changes; on an unknown id the call throws [NotFoundException] and nothing
    changes. *)
Theorem recordExecution_spec id success w :
  nodes_ok w →
  match node_of id w with
  | Some n => ∃ w' n',
      run (recordExecution id success) w = (inr n', w') ∧ node_of id w' = Some n' ∧
      total n' = (total n + 1)%Z ∧ successes n' = (successes n + (if success then 1 else 0))%Z ∧
      reputation n' = (of_Z (successes n') / of_Z (total n') * uptime n)%num ∧
      weight n' = (reputation n' * uptime n)%num ∧ uptime n' = uptime n ∧
      node_status n' = node_status n ∧ nodes_ok w' ∧
      chain w' = chain w ∧ (∀ id', id' ≠ id → node_of id' w' = node_of id' w)
  | None => run (recordExecution id success) w =
      (inl (NotFoundException ("Node " +:+ id +:+ " is not registered")), w)
  end.
Proof.
  intros Hw. rewrite run_recordExecution. destruct (node_of id w) as [n|] eqn:Hn; [|done].
  pose proof (node_of_ok _ _ _ Hw Hn) as Hok. apply node_of_some in Hn as [_ Hid].
  exists (save_node (executed_node n success) w), (executed_node n success). split_and!; try done.
  - rewrite node_of_save. by rewrite decide_True by exact Hid.
  - simpl. destruct success; lia.
  - cbn [reputation executed_node successes total]. unfold computeReputation.
    destruct (Z.eqb_spec (total n + 1) 0); [|done]. destruct Hok as [? _]. lia.
  - apply nodes_ok_save; [by apply executed_node_ok|done].
  - intros id' Hne. rewrite node_of_save. by rewrite decide_False by (simpl; congruence).
Qed.

(** C31. Scores stay in the unit interval: in a well-formed registry every node with
    fewer than 2^53 recorded attempts has a finite reputation and weight between
    zero and one, and a fully available node whose attempts all succeeded has
    weight exactly one. *)
Theorem scores_in_unit_interval w :
  nodes_ok w →
  Forall (λ n, (total n ≤ 2 ^ 53)%Z →
    unit_interval (reputation n) ∧ unit_interval (weight n) ∧
    (uptime n = of_Z 1 → successes n = total n → weight n = of_Z 1)) (find (nodes w)).
Proof.
  intros Hw. eapply Forall_impl; [exact Hw|]. intros n Hn Ht.
  pose proof (node_scores n Hn Ht) as [Hr Hwt]. split_and!; [done|done|]. intros Hu Hs.
  destruct Hn as (Hc & _ & Hrep & [[_ ?]|[Htot ->]]); [done|]. rewrite Hrep, Hu, Hs.
  unfold computeReputation, computeWeight. destruct (Z.eqb_spec (total n) 0); [lia|].
  destruct (of_Z_spec (total n)) as (V & F & U); [lia|].
  rewrite num_div_diag, !num_mul_one_r by (auto; lia). done.
Qed.

(** Registration: a new id enters with the default metrics and a
    [node.registered] snapshot. An id already registered is overwritten: its
    counters, scores and status go back to the defaults. *)
Theorem register_resets id type w :
  intact (chain w) → nodes_ok w →
  ∃ w', run (register id type) w = (inr (new_node id type), w') ∧
    node_of id w' = Some (new_node id type) ∧
    (∀ id', id' ≠ id → node_of id' w' = node_of id' w) ∧
    (∃ s, chain w' = chain w ++ [s] ∧ eventType s = "node.registered" ∧
          payload s = stored (registration_payload (new_node id type))) ∧
    intact (chain w') ∧ nodes_ok w' ∧
    (node_of id w = None → find (nodes w') = find (nodes w) ++ [new_node id type]).
Proof.
  intros Hi Hw. unfold register. rewrite run_bind, run_update, run_bind, run_append, run_ret.
  set (w1 := save_node (new_node id type) w). set (pl := registration_payload _).
  exists (append_tx "node.registered" pl w1).2.
  assert (∀ id', node_of id' (append_tx "node.registered" pl w1).2 = node_of id' w1) as Hn by done.
  assert (intact (chain w1)) as Hi1 by exact Hi. split_and!; [done| | | | | |].
  - rewrite Hn. unfold w1. by rewrite node_of_save, decide_True.
  - intros id' Hne. rewrite Hn. unfold w1. by rewrite node_of_save, decide_False by (simpl; congruence).
  - rewrite append_chain by done. by eexists.
  - by apply append_extends.
  - by apply (nodes_ok_save (new_node id type) w); [apply new_node_ok|].
  - intros Hnone. change (find (save (new_node id type) (nodes w)) = find (nodes w) ++ [new_node id type]).
    rewrite find_save. apply upsert_fresh, lookup_key_none. unfold node_of in Hnone.
    by rewrite findOne_find in Hnone.
Qed.

(** A payment receipt is only an event: [receivePayment] appends one
    [node.payment.received] snapshot with the node's weight and changes no node
    row and no tally; for an unknown node it throws and changes nothing. *)
Theorem receivePayment_spec id amount w :
  intact (chain w) →
  match node_of id w with
  | Some n => ∃ w' s, run (receivePayment id amount) w = (inr tt, w') ∧
      chain w' = chain w ++ [s] ∧ intact (chain w') ∧ eventType s = "node.payment.received" ∧
      payload s = stored (payment_payload n amount) ∧ nodes w' = nodes w ∧ ledger_rows w' = ledger_rows w
  | None => run (receivePayment id amount) w = (inl (unknown_node id), w)
  end.
Proof.
  intros Hi. unfold receivePayment. rewrite run_bind, run_requireNode.
  destruct (node_of id w) as [n|]; [|done]. rewrite run_bind, run_append, run_ret.
  eexists _, _. split_and!; [reflexivity|by apply append_chain|by apply append_extends|done..].
Qed.

End Nodes.

#[export] Hint Extern 1 (guarantee _ (requireNode _)) => apply guarantee_requireNode; apply _ : guarantee.
#[export] Hint Extern 1 (guarantee _ (register _ _)) => apply guarantee_register; apply _ : guarantee.
#[export] Hint Extern 1 (guarantee _ (recordExecution _ _)) => apply guarantee_recordExecution; apply _ : guarantee.
#[export] Hint Extern 1 (guarantee _ (currentWeight _)) => apply guarantee_currentWeight; apply _ : guarantee.
#[export] Hint Extern 1 (guarantee _ (receivePayment _ _)) => apply guarantee_receivePayment; apply _ : guarantee.

(** ** Witnesses *)

Section Witnesses.
#[local] Existing Instance transparent_platform.

(** One registered node. *)
Definition one_node : World := (run (register "n1" "validator") fresh_world).2.

Lemma one_node_ok : nodes_ok one_node.
Proof. apply (Forall_singleton node_ok). apply new_node_ok. Qed.

Lemma recordExecution_spec_witness :
  ∃ w' n', run (recordExecution "n1" true) one_node = (inr n', w') ∧ total n' = 1%Z ∧
           chain w' = chain one_node.
Proof.
  pose proof (recordExecution_spec "n1" true one_node one_node_ok) as H.
  assert (node_of "n1" one_node = Some (new_node "n1" "validator")) as E by (vm_compute; reflexivity).
  rewrite E in H. destruct H as (w' & n' & H1 & _ & H2 & _ & _ & _ & _ & _ & _ & H3 & _).
  exists w', n'. split; [exact H1|]. split; [exact H2|exact H3].
Defined.

Lemma scores_in_unit_interval_witness :
  Forall (λ n, (total n ≤ 2 ^ 53)%Z →
    unit_interval (reputation n) ∧ unit_interval (weight n) ∧
    (uptime n = of_Z 1 → successes n = total n → weight n = of_Z 1)) (find (nodes one_node)).
Proof. exact (scores_in_unit_interval one_node one_node_ok). Defined.

Lemma register_resets_witness :
  ∃ w', run (register "n1" "router") (run (recordExecution "n1" false) one_node).2 =
          (inr (new_node "n1" "router"), w') ∧
        node_of "n1" w' = Some (new_node "n1" "router").
Proof.
  destruct (register_resets "n1" "router" (run (recordExecution "n1" false) one_node).2) as (w' & H1 & H2 & _).
  - vm_compute. repeat split.
  - apply (Forall_singleton node_ok). apply (executed_node_ok (new_node "n1" "validator") false), new_node_ok.
  - exists w'. split; [exact H1|exact H2].
Defined.

Lemma receivePayment_spec_witness :
  ∃ w' s, run (receivePayment "n1" (of_Z 3)) one_node = (inr tt, w') ∧ chain w' = chain one_node ++ [s].
Proof.
  pose proof (receivePayment_spec "n1" (of_Z 3) one_node) as H.
  assert (node_of "n1" one_node = Some (new_node "n1" "validator")) as E by (vm_compute; reflexivity).
  rewrite E in H. destruct H as (w' & s & H1 & H2 & _); [vm_compute; repeat split|].
  exists w', s. split; [exact H1|exact H2].
Defined.
End Witnesses.
