(* ===== verification/Reserve.v ===== *)
(** * Reserve: capitalisation read from history

    [src/src/reserve/reserve.service.ts]. The reserve keeps no state: its figures
    are folds over the chain. *)

From S2P Require Import Prelude Number NumberFacts NumberText Json Storage Effects Entities World.
From S2P Require Import NodeChain.
From Stdlib Require Import ZArith.

Section Reserve.
Context {ST : Storage} {PL : Platform}.

(** ** Operations *)

Definition CONFIRMED_VOLUME_EVENT : string := "emission.minted".
Definition COMMISSION_EPOCH_EVENT : string := "commission.epoch.finalized".
Definition AFC_ACCRUAL_EVENT : string := "reserve.afc.accrual".

(** One turn of the loop of [totalProcessVolume]. *)
Definition volume_step (total : number) (s : ExecutionSnapshot) : number :=
  if String.eqb (eventType s) CONFIRMED_VOLUME_EVENT then
    let minted := number_property "minted" (payload s) in
    if is_finite minted then (total + minted)%num else total
  else if String.eqb (eventType s) COMMISSION_EPOCH_EVENT then
    let margin := number_property "operationalMargin" (payload s) in
    if is_finite margin && num_ltb zero margin then (total + margin)%num else total
  else total.

Definition process_volume (history : list ExecutionSnapshot) : number :=
  fold_left volume_step history zero.

Definition totalProcessVolume : prog World number :=
  history ← chain_list None None; mret (process_volume history).

(** One turn of the loop of [totalAfcReserve]. *)
Definition afc_step (total : number) (s : ExecutionSnapshot) : number :=
  if String.eqb (eventType s) AFC_ACCRUAL_EVENT then
    let amount := number_property "amount" (payload s) in
    if is_finite amount then (total + amount)%num else total
  else total.

Definition afc_reserve (history : list ExecutionSnapshot) : number := fold_left afc_step history zero.

Definition totalAfcReserve : prog World number :=
  history ← chain_list None None; mret (afc_reserve history).

Definition accrual_payload (amount : number) : json := JObj [("amount", JNum amount)].

Definition addAfcAccrual (amount : number) : prog World () :=
  append AFC_ACCRUAL_EVENT (accrual_payload amount);; mret tt.

Definition index_of_volume (volume : number) : number := log10 (of_Z 1 + volume)%num.

Definition reserveIndex : prog World number :=
  volume ← totalProcessVolume; mret (index_of_volume volume).

Definition reserve_internalPrice (base : number) : prog World number :=
  index ← reserveIndex; mret (base * index)%num.

(** ** Abstract specification *)

(** What one snapshot contributes to the confirmed volume. *)
Definition contribution (s : ExecutionSnapshot) : option number :=
  if String.eqb (eventType s) CONFIRMED_VOLUME_EVENT then
    let minted := number_property "minted" (payload s) in
    if is_finite minted then Some minted else None
  else if String.eqb (eventType s) COMMISSION_EPOCH_EVENT then
    let margin := number_property "operationalMargin" (payload s) in
    if is_finite margin && num_ltb zero margin then Some margin else None
  else None.

(** The chain as the list queries return it, on an intact chain. *)
Definition world_volume (w : World) : number := process_volume (order_asc sequenceId (chain w)).

(** ** Facts *)

Lemma volume_step_contribution total s :
  volume_step total s = match contribution s with Some v => (total + v)%num | None => total end.
Proof.
  unfold volume_step, contribution. cbn zeta. repeat (case_match_goal; try done).
Qed.

Lemma process_volume_app rows rows' :
  process_volume (rows ++ rows') = fold_left volume_step rows' (process_volume rows).
Proof. apply fold_left_app. Qed.

Lemma process_volume_snoc rows s :
  process_volume (rows ++ [s]) =
  match contribution s with Some v => (process_volume rows + v)%num | None => process_volume rows end.
Proof. rewrite process_volume_app. apply volume_step_contribution. Qed.

Lemma run_totalProcessVolume w : run totalProcessVolume w = (inr (world_volume w), w).
Proof. done. Qed.

Lemma run_reserveIndex w : run reserveIndex w = (inr (index_of_volume (world_volume w)), w).
Proof. done. Qed.

Lemma world_volume_intact w : intact (chain w) → world_volume w = process_volume (chain w).
Proof. intros [Hn _]. unfold world_volume. by rewrite order_asc_numbered. Qed.

(** The contribution of the event [emission.minted] of an amount. *)
Lemma contribution_minted s v :
  eventType s = "emission.minted" → number_property "minted" (payload s) = v → is_finite v = true →
  contribution s = Some v.
Proof. intros He Hv Hf. unfold contribution. rewrite He, Hv. simpl. by rewrite Hf. Qed.

Lemma contribution_other s :
  eventType s ≠ CONFIRMED_VOLUME_EVENT → eventType s ≠ COMMISSION_EPOCH_EVENT → contribution s = None.
Proof. intros H1 H2. unfold contribution. by rewrite !(proj2 (String.eqb_neq _ _)). Qed.

Lemma num_add_overflow x v : is_finite x = false → is_finite (x + v)%num = false.
Proof. intros Hx. destruct x as [|sx| |]; try done; destruct v as [|sv| |]; try done; by destruct sx, sv. Qed.

(** A sum that has overflowed stays non-finite. *)
Lemma volume_fold_overflow rows total :
  is_finite total = false → is_finite (fold_left volume_step rows total) = false.
Proof.
  revert total. induction rows as [|s rows IH]; intros total Ht; simpl; [done|]. apply IH.
  rewrite volume_step_contribution. destruct (contribution s); [by apply num_add_overflow|done].
Qed.

(** Adding contributions that are amounts never lowers the volume. *)
Lemma volume_fold_mono rows total :
  amount total → Forall (λ s, ∀ v, contribution s = Some v → amount v) rows →
  is_finite (fold_left volume_step rows total) = true →
  amount (fold_left volume_step rows total) ∧
  (units total ≤ units (fold_left volume_step rows total))%Z.
Proof.
  intros Ht Hr. revert total Ht. induction Hr as [|s rows Hs Hr IH]; intros total Ht Hf; simpl in *; [done|].
  rewrite volume_step_contribution in *. destruct (contribution s) as [v|] eqn:Ec; [|auto].
  destruct (is_finite (total + v)%num) eqn:Hfin.
  - destruct (num_add_amount total v Ht (Hs v eq_refl) Hfin) as (Ha & H1 & _).
    destruct (IH _ Ha Hf). split; [done|lia].
  - by rewrite volume_fold_overflow in Hf.
Qed.

Lemma guarantee_reserveIndex (R : discipline World) : guarantee R reserveIndex.
Proof. unfold reserveIndex, totalProcessVolume, chain_list. guarantee_tac. Qed.

Lemma guarantee_addAfcAccrual R `{!AllowsAppend R} v : guarantee R (addAfcAccrual v).
Proof. unfold addAfcAccrual. guarantee_tac. Qed.

(** ** Properties *)

(** The capitalisation is a function of history that only confirmed events
    move: on an intact chain, appending an event with a finite [minted] amount
    adds that amount; appending an event that is neither a mint nor an epoch
    settlement, the AFC accrual among them, leaves the volume alone. *)
Theorem volume_from_history e pl w :
  intact (chain w) →
  run totalProcessVolume w = (inr (process_volume (chain w)), w) ∧
  (e = "emission.minted" → is_finite (number_property "minted" (stored pl)) = true →
     run totalProcessVolume (append_tx e pl w).2 =
       (inr (process_volume (chain w) + number_property "minted" (stored pl))%num, (append_tx e pl w).2)) ∧
  (e ≠ "emission.minted" → e ≠ "commission.epoch.finalized" →
     run totalProcessVolume (append_tx e pl w).2 = (inr (process_volume (chain w)), (append_tx e pl w).2)).
Proof.
  intros Hi. pose proof (append_extends e pl w Hi) as [Hi' _].
  rewrite !run_totalProcessVolume, !world_volume_intact by done.
  rewrite append_chain, process_volume_snoc by done. split_and!; [done| |].
  - intros -> Hf. by rewrite (contribution_minted _ (number_property "minted" (stored pl))).
  - intros H1 H2. by rewrite contribution_other.
Qed.

(** The volume never falls: when a chain extends another, and what the new
    snapshots contribute are amounts, the volume has not decreased (in exact
    value), unless it overflowed. *)
Theorem volume_monotone rows rows' :
  rows `prefix_of` rows' →
  Forall (λ s, ∀ v, contribution s = Some v → amount v) rows' →
  is_finite (process_volume rows') = true →
  (0 ≤ units (process_volume rows) ≤ units (process_volume rows'))%Z ∧ amount (process_volume rows).
Proof.
  intros [l ->] Hc Hf. rewrite process_volume_app in *. apply Forall_app in Hc as [H1 H2].
  destruct (is_finite (process_volume rows)) eqn:Hp.
  - destruct (volume_fold_mono rows zero amount_zero H1 Hp) as [Ha H0].
    destruct (volume_fold_mono l _ Ha H2 Hf) as [_ Hle]. unfold process_volume in *. simpl in H0. by split.
  - by rewrite volume_fold_overflow in Hf.
Qed.

End Reserve.

#[export] Hint Extern 1 (guarantee _ reserveIndex) => apply guarantee_reserveIndex; apply _ : guarantee.
#[export] Hint Extern 1 (guarantee _ (addAfcAccrual _)) => apply guarantee_addAfcAccrual; apply _ : guarantee.

(** ** Witnesses *)

Section Witnesses.
#[local] Existing Instance transparent_platform.

Lemma volume_from_history_witness :
  run totalProcessVolume (append_tx "reserve.afc.accrual" (accrual_payload (of_Z 5)) two_events).2 =
  (inr zero, (append_tx "reserve.afc.accrual" (accrual_payload (of_Z 5)) two_events).2).
Proof.
  apply (volume_from_history "reserve.afc.accrual" (accrual_payload (of_Z 5)) two_events).
  - vm_compute. repeat split.
  - discriminate.
  - discriminate.
Defined.

Lemma volume_monotone_witness :
  let rows := [appended [] "emission.minted" (JObj [("minted", JNum (of_Z 5))]) 1] in
  (0 ≤ units (process_volume []) ≤ units (process_volume rows))%Z ∧ amount (process_volume []).
Proof.
  apply volume_monotone.
  - apply prefix_nil.
  - constructor; [|constructor]. intros v. vm_compute. intros [= <-]. repeat split; discriminate.
  - reflexivity.
Defined.
End Witnesses.
