(* ===== verification/Commission.v ===== *)
(** * Commission: fees, epochs and their settlement

    [src/src/commission/commission.service.ts]. Fees accrue into an epoch's pool;
    finalising the epoch pays the nodes of confirmed processes by weight and
    routes the remainder to the reserve. *)

From S2P Require Import Prelude Number NumberFacts NumberText Json Storage Effects Entities World.
From S2P Require Import NodeChain StateRecording Pot ArosCoin Emission Nodes Reserve.
From Stdlib Require Import ZArith.

Section Commission.
Context {ST : Storage} {PL : Platform}.

(** ** Operations *)

Record FinalizeResult := {
  final_epochNumber : Z;
  final_distributionLog : list DistributionEntry;
  final_operationalMargin : number;
  final_paid : number;
  final_totalFees : number;
  final_reconciled : bool
}.

Definition RECONCILE_EPSILON : number := of_decimal 1 (-9).
Definition MARGIN_RECIPIENT : string := "AFC_RESERVE".
Definition REASON_WORK : string := "work_weight".
Definition feeRate : number := of_decimal 5 (-3).
Definition marginRate : number := of_decimal 25 (-2).

Definition computeFee (amount overloadRate : number) : number :=
  let fee := (amount * feeRate)%num in (fee * (of_Z 1 + overloadRate))%num.

(** *** The epoch rows *)

(** What the [simple-json] log column gives back: an amount JSON cannot express
    is read as [null], which sums as zero. *)
Definition stored_entry (e : DistributionEntry) : DistributionEntry :=
  {| entry_nodeId := entry_nodeId e;
     entry_amount := json_to_num (stored_num (entry_amount e));
     entry_reason := entry_reason e |}.

Definition epoch_row (e : Epoch) : Epoch :=
  {| epochNumber := epochNumber e; startTime := startTime e; endTime := endTime e;
     totalFees := totalFees e; distributionLog := stored_entry <$> distributionLog e;
     epoch_status := epoch_status e; operationalMargin := operationalMargin e |}.

Definition save_epoch (e : Epoch) (w : World) : World := set_epochs (save (epoch_row e) (epochs w)) w.

(** The row of an epoch; there is none out of the range of the [integer] column. *)
Definition epoch_of (n : Z) (w : World) : option Epoch := if int4 n then findOne n (epochs w) else None.

(** The query of a number out of that range fails. *)
Definition getEpoch (n : Z) : prog World (option Epoch) :=
  if int4 n then query (epoch_of n) else Throw QueryFailedError.

Definition epoch_list : prog World (list Epoch) := query (λ w, order_asc epochNumber (find (epochs w))).

Definition new_epoch (n t : Z) : Epoch :=
  {| epochNumber := n; startTime := t; endTime := 0; totalFees := zero; distributionLog := [];
     epoch_status := open; operationalMargin := zero |}.

Definition openEpoch (n : Z) : prog World Epoch :=
  existing ← getEpoch n;
  match existing with
  | Some e => mret e
  | None => t ← act now; mret (new_epoch n t)
  end.

Definition unknown_epoch (n : Z) : exn :=
  NotFoundException ("Epoch " +:+ string_of_Z n +:+ " does not exist").

Definition requireEpoch (n : Z) : prog World Epoch :=
  e ← getEpoch n;
  match e with Some e => mret e | None => Throw (unknown_epoch n) end.

(** *** Accrual *)

(** [this.participation.get(n)]: the array the map holds for an epoch. *)
Definition array_of (n : Z) (w : World) : Z * nat := (n, default 0 (generation (participation w) !! n)).

Definition participants_of (n : Z) (w : World) : list Participation :=
  default [] (arrays (participation w) !! array_of n w).

Definition add_fee (e : Epoch) (fee : number) : Epoch :=
  {| epochNumber := epochNumber e; startTime := startTime e; endTime := endTime e;
     totalFees := (totalFees e + fee)%num; distributionLog := distributionLog e;
     epoch_status := epoch_status e; operationalMargin := operationalMargin e |}.

(** [recorded.push(...participants); this.participation.set(n, recorded)]. *)
Definition push_participants (n : Z) (parts : list Participation) (w : World) : World :=
  set_participation
    {| arrays := <[array_of n w := participants_of n w ++ parts]> (arrays (participation w));
       generation := generation (participation w) |} w.

(** The epoch a process names is any number; one that is no key of the [integer]
    column makes [findOne] fail before anything is accrued. *)
Definition accrue (x : number) (fee : number) (participants : list Participation) : prog World Epoch :=
  match integer_of x with
  | None => Throw QueryFailedError
  | Some n =>
    epoch ← openEpoch n;
    update (save_epoch (add_fee epoch fee));;
    update (push_participants n participants);;
    mret (add_fee epoch fee)
  end.

(** *** Weights of confirmed participation *)

(** A JavaScript [Map] from node ids to weights, in insertion order. *)
Fixpoint weight_get (id : string) (weights : list (string * number)) : option number :=
  match weights with
  | [] => None
  | (id', v) :: weights' => if decide (id = id') then Some v else weight_get id weights'
  end.

Fixpoint weight_set (id : string) (v : number) (weights : list (string * number)) : list (string * number) :=
  match weights with
  | [] => [(id, v)]
  | (id', v') :: weights' =>
    if decide (id = id') then (id', v) :: weights' else (id', v') :: weight_set id v weights'
  end.

Definition add_weight (id : string) (v : number) (weights : list (string * number)) :=
  weight_set id (default zero (weight_get id weights) + v)%num weights.

(** The verdict of a process, through the cache of the loop. *)
Definition cached_verdict (processId : string) (cache : gmap string bool)
  : prog World (bool * gmap string bool) :=
  match cache !! processId with
  | Some c => mret (c, cache)
  | None =>
    verdict ← getVerdict processId;
    mret (confirmed verdict, <[processId := confirmed verdict]> cache)
  end.

(** One turn of the loop of [confirmedWeights]. *)
Definition weigh_part (acc : list (string * number) * gmap string bool) (x : Participation)
  : prog World (list (string * number) * gmap string bool) :=
  '(ok, cache) ← cached_verdict (part_processId x) acc.2;
  if ok : bool then
    wt ← currentWeight (part_nodeId x);
    mret (add_weight (part_nodeId x) wt acc.1, cache)
  else mret (acc.1, cache).

(** The state of the loop: the next index, the weights and the cache. *)
Abbreviation weighing_state := (nat * (list (string * number) * gmap string bool))%type.

(** One turn of [for (const { processId, nodeId } of parts)]: the iterator reads the
    array as it is now. *)
Definition weigh_turn (a : Z * nat) (st : weighing_state) : prog World (weighing_state + weighing_state) :=
  x ← query (λ w, default [] (arrays (participation w) !! a) !! st.1);
  match x with
  | None => mret (inr st)
  | Some part => acc ← weigh_part st.2 part; mret (inl (S st.1, acc))
  end.

(** The loop walks the array the map holds when it starts, to its end as it is by
    then: participations pushed meanwhile are walked too. An array has less than
    [2 ^ 32] elements, so after those it has when the loop starts, [2 ^ 32] turns reach
    the end of whatever is pushed. *)
Definition weigh_array (a : Z * nat) (known : nat) : prog World (list (string * number)) :=
  r ← turns known (weigh_turn a) (0, ([], ∅));
  r ← match r with inl st => doubled 32 (weigh_turn a) st | inr st => mret (inr st) end;
  match r with inl (_, (weights, _)) | inr (_, (weights, _)) => mret weights end.

Definition confirmedWeights (n : Z) : prog World (list (string * number)) :=
  '(a, parts) ← query (λ w, (array_of n w, arrays (participation w) !! array_of n w));
  match parts with
  | Some parts => weigh_array a (length parts)
  | None => mret []
  end.

(** *** Settlement *)

Definition sum_numbers (l : list number) : number := fold_left num_add l zero.

Definition distributable (total : number) : number := (total * (of_Z 1 - marginRate))%num.

Definition node_share (weights : list (string * number)) (total totalWeight : number) (nodeId : string) : number :=
  ((default nan (weight_get nodeId weights) * distributable total) / totalWeight)%num.

Definition work_entry (nodeId : string) (amount : number) : DistributionEntry :=
  {| entry_nodeId := nodeId; entry_amount := amount; entry_reason := REASON_WORK |}.
Definition margin_entry (amount : number) : DistributionEntry :=
  {| entry_nodeId := MARGIN_RECIPIENT; entry_amount := amount; entry_reason := "afc_reserve" |}.

(** One turn of the payment loop. *)
Definition pay_node (share : string → number) (acc : number * list DistributionEntry) (nodeId : string)
  : prog World (number * list DistributionEntry) :=
  let amount := share nodeId in
  receivePayment nodeId amount;;
  recordEarned amount;;
  mret ((acc.1 + amount)%num, acc.2 ++ [work_entry nodeId amount]).

Definition payments (weights : list (string * number)) (total : number)
  : prog World (number * list DistributionEntry) :=
  let totalWeight := sum_numbers weights.*2 in
  if num_ltb zero totalWeight
  then fold_each (pay_node (node_share weights total totalWeight)) (zero, []) (sort_strings weights.*1)
  else mret (zero, []).

Definition reconciles (paid margin total : number) : bool :=
  num_ltb (num_abs (paid + margin - total)%num) RECONCILE_EPSILON.

Definition finalized_epoch (e : Epoch) (log : list DistributionEntry) (margin : number) (t : Z) : Epoch :=
  {| epochNumber := epochNumber e; startTime := startTime e; endTime := t; totalFees := totalFees e;
     distributionLog := log; epoch_status := finalized; operationalMargin := margin |}.

Definition entry_json (e : DistributionEntry) : json :=
  JObj [("nodeId", JStr (entry_nodeId e)); ("amount", JNum (entry_amount e)); ("reason", JStr (entry_reason e))].

Definition settlement_payload (r : FinalizeResult) : json :=
  JObj [("epochNumber", JNum (of_Z (final_epochNumber r))); ("totalFees", JNum (final_totalFees r));
        ("operationalMargin", JNum (final_operationalMargin r)); ("paid", JNum (final_paid r));
        ("reconciled", JBool (final_reconciled r));
        ("distributionLog", JArr (entry_json <$> final_distributionLog r))].

(** [this.participation.delete(n)]: the next array of the epoch is a new one. *)
Definition forget_participants (n : Z) (w : World) : World :=
  set_participation
    {| arrays := delete (n, S (array_of n w).2) (arrays (participation w));
       generation := <[n := S (array_of n w).2]> (generation (participation w)) |} w.

(** [toResult]: the settlement of an epoch read back from its row. *)
Definition toResult (e : Epoch) : FinalizeResult :=
  let paid := sum_numbers (entry_amount <$>
    filter (λ x, entry_reason x ≠ "afc_reserve") (distributionLog e)) in
  {| final_epochNumber := epochNumber e; final_distributionLog := distributionLog e;
     final_operationalMargin := operationalMargin e; final_paid := paid;
     final_totalFees := totalFees e;
     final_reconciled := reconciles paid (operationalMargin e) (totalFees e) |}.

(** [finalizeEpoch] on an open epoch, after the weights are known. *)
Definition settle (n : Z) (e : Epoch) (weights : list (string * number)) : prog World FinalizeResult :=
  let total := totalFees e in
  '(paid, log) ← payments weights total;
  let margin := (total - paid)%num in
  addAfcAccrual margin;;
  let log := log ++ [margin_entry margin] in
  t ← act now;
  update (save_epoch (finalized_epoch e log margin t));;
  let r := {| final_epochNumber := n; final_distributionLog := log;
              final_operationalMargin := margin; final_paid := paid; final_totalFees := total;
              final_reconciled := reconciles paid margin total |} in
  append "commission.epoch.finalized" (settlement_payload r);;
  update (forget_participants n);;
  mret r.

Definition finalizeEpoch (n : Z) : prog World FinalizeResult :=
  epoch ← requireEpoch n;
  if decide (epoch_status epoch = open) then
    weights ← confirmedWeights n;
    settle n epoch weights
  else mret (toResult epoch).

(** ** Abstract specification *)

(** The verdict a process has in a world. *)
Definition confirmed_in (w : World) (processId : string) : bool := confirmed (verdict_of processId w).

(** The weights of confirmed participation, without cache or queries; an
    unregistered participant of a confirmed process is an error. *)
Fixpoint weigh (w : World) (weights : list (string * number)) (parts : list Participation)
  : exn + list (string * number) :=
  match parts with
  | [] => inr weights
  | x :: parts' =>
    if confirmed_in w (part_processId x) then
      match node_of (part_nodeId x) w with
      | Some n => weigh w (add_weight (part_nodeId x) (weight n) weights) parts'
      | None => inl (unknown_node (part_nodeId x))
      end
    else weigh w weights parts'
  end.

(** What the payment loop adds up. *)
Definition pay_pure (share : string → number) (acc : number * list DistributionEntry) (nodeId : string) :=
  ((acc.1 + share nodeId)%num, acc.2 ++ [work_entry nodeId (share nodeId)]).

Definition paid_and_log (weights : list (string * number)) (total : number) : number * list DistributionEntry :=
  let totalWeight := sum_numbers weights.*2 in
  if num_ltb zero totalWeight
  then fold_left (pay_pure (node_share weights total totalWeight)) (sort_strings weights.*1) (zero, [])
  else (zero, []).

(** The settlement of a pool: what [finalizeEpoch] returns. *)
Definition settlement (n : Z) (weights : list (string * number)) (total : number) : FinalizeResult :=
  let '(paid, log) := paid_and_log weights total in
  let margin := (total - paid)%num in
  {| final_epochNumber := n; final_distributionLog := log ++ [margin_entry margin];
     final_operationalMargin := margin; final_paid := paid; final_totalFees := total;
     final_reconciled := reconciles paid margin total |}.

(** The parts of the state a settlement does not write. *)
Record settles (w w' : World) : Prop := {
  st_nodes : nodes w' = nodes w; st_verdicts : verdicts w' = verdicts w;
  st_phases : phases w' = phases w; st_oversight : oversight w' = oversight w;
  st_captured : captured w' = captured w
}.

#[global] Instance settles_preorder : PreOrder settles.
Proof. split; [intros w; by split|]. intros w1 w2 w3 [] []. split; congruence. Qed.

(** What a discipline must allow for accrual and settlement to guarantee it. *)
Class AllowsEpochs (R : discipline World) : Prop := {
  allows_epochs_append :: AllowsAppend R;
  allows_epochs_ledger :: AllowsLedger R;
  allows_save_epoch : ∀ e w, R w (save_epoch e w);
  allows_push_participants : ∀ n parts w, R w (push_participants n parts w);
  allows_forget_participants : ∀ n w, R w (forget_participants n w)
}.

(** ** Facts *)

Lemma epoch_of_int4 n e w : epoch_of n w = Some e → int4 n = true.
Proof. unfold epoch_of. by destruct (int4 n). Qed.

Lemma epoch_of_save e n w :
  int4 (epochNumber e) = true →
  epoch_of n (save_epoch e w) = if decide (epochNumber e = n) then Some (epoch_row e) else epoch_of n w.
Proof.
  intros Hk. unfold epoch_of, save_epoch. cbn [epochs set_epochs]. case_decide as Hp.
  - subst n. rewrite Hk. exact (findOne_save_eq (epoch_row e) (epochs w)).
  - destruct (int4 n); [|done]. by apply findOne_save_ne.
Qed.

Lemma epoch_of_number n e w : epoch_of n w = Some e → epochNumber e = n.
Proof.
  unfold epoch_of. destruct (int4 n); [|done]. rewrite findOne_find. intros H. by apply lookup_key_some in H as [_ ?].
Qed.

Lemma run_getEpoch n w :
  run (getEpoch n) w = if int4 n then (inr (epoch_of n w), w) else (inl QueryFailedError, w).
Proof. unfold getEpoch. by destruct (int4 n). Qed.

Lemma run_openEpoch n w :
  int4 n = true →
  run (openEpoch n) w =
  match epoch_of n w with
  | Some e => (inr e, w)
  | None => (inr (new_epoch n (now w).1), (now w).2)
  end.
Proof.
  intros Hn. unfold openEpoch. rewrite run_bind, run_getEpoch, Hn. destruct (epoch_of n w); [done|].
  by rewrite run_bind, run_act.
Qed.

(** What [requireEpoch] throws when there is no row. *)
Definition no_epoch (n : Z) : exn := if int4 n then unknown_epoch n else QueryFailedError.

Lemma run_requireEpoch n w :
  run (requireEpoch n) w =
  match epoch_of n w with Some e => (inr e, w) | None => (inl (no_epoch n), w) end.
Proof.
  unfold requireEpoch, no_epoch. rewrite run_bind, run_getEpoch. unfold epoch_of.
  destruct (int4 n); [|done]. by destruct (findOne n (epochs w)).
Qed.

(** *** Weights *)

Definition cache_ok (w : World) (cache : gmap string bool) : Prop :=
  ∀ p c, cache !! p = Some c → c = confirmed_in w p.

Lemma run_cached_verdict p cache w :
  cache_ok w cache →
  ∃ cache', run (cached_verdict p cache) w = (inr (confirmed_in w p, cache'), w) ∧ cache_ok w cache'.
Proof.
  intros Hc. unfold cached_verdict. destruct (cache !! p) as [c|] eqn:E.
  - exists cache. by rewrite (Hc _ _ E).
  - rewrite run_bind, run_getVerdict. eexists. split; [done|]. intros p' c'.
    rewrite lookup_insert. case_decide; [naive_solver|apply Hc].
Qed.

Lemma run_weigh_part acc x w :
  cache_ok w acc.2 →
  (confirmed_in w (part_processId x) = true ∧ node_of (part_nodeId x) w = None ∧
     run (weigh_part acc x) w = (inl (unknown_node (part_nodeId x)), w)) ∨
  ∃ cache', cache_ok w cache' ∧
    run (weigh_part acc x) w =
      (inr (match node_of (part_nodeId x) w with
            | Some n => if confirmed_in w (part_processId x)
                        then add_weight (part_nodeId x) (weight n) acc.1 else acc.1
            | None => acc.1 end, cache'), w) ∧
    (confirmed_in w (part_processId x) = true → node_of (part_nodeId x) w ≠ None).
Proof.
  intros Hc. destruct (run_cached_verdict (part_processId x) acc.2 w Hc) as (cache' & Hrun & Hc').
  unfold weigh_part. rewrite run_bind, Hrun. destruct (confirmed_in w (part_processId x)).
  - unfold currentWeight. rewrite !run_bind, run_requireNode.
    destruct (node_of (part_nodeId x) w) as [n|]; [right|by left].
    exists cache'. split_and!; [done|by rewrite run_ret|done].
  - right. exists cache'. split_and!; [done| |done]. by destruct (node_of (part_nodeId x) w).
Qed.

Definition array_at (a : Z * nat) (w : World) : list Participation := default [] (arrays (participation w) !! a).

(** Alone, a turn weighs the next participation and moves on, or stops at the end. *)
Lemma run_weigh_turn a i acc w :
  cache_ok w acc.2 →
  match array_at a w !! i with
  | None => run (weigh_turn a (i, acc)) w = (inr (inr (i, acc)), w)
  | Some x =>
    match weigh w acc.1 [x] with
    | inl e => run (weigh_turn a (i, acc)) w = (inl e, w)
    | inr weights => ∃ cache, cache_ok w cache ∧
        run (weigh_turn a (i, acc)) w = (inr (inl (S i, (weights, cache))), w)
    end
  end.
Proof.
  intros Hc. unfold weigh_turn. rewrite run_bind, run_query. cbn [fst snd]. fold (array_at a w).
  destruct (array_at a w !! i) as [x|]; [|done]. rewrite run_bind. cbn [weigh].
  destruct (run_weigh_part acc x w Hc) as [(H1 & H2 & ->)|(cache & Hc' & -> & Hn)]; [by rewrite H1, H2|].
  destruct (confirmed_in w (part_processId x)).
  - destruct (node_of (part_nodeId x) w) as [n|]; [|by destruct Hn]. by exists cache.
  - exists cache. split; [done|]. by destruct (node_of (part_nodeId x) w).
Qed.

Lemma weigh_app w weights parts parts' :
  weigh w weights (parts ++ parts') =
  match weigh w weights parts with inl e => inl e | inr weights' => weigh w weights' parts' end.
Proof.
  revert weights. induction parts as [|x parts IH]; intros weights; [done|]. simpl.
  destruct (confirmed_in _ _); [|apply IH]. destruct (node_of _ _); [apply IH|done].
Qed.

(** So as many turns as there are elements left weigh them all. *)
Lemma run_weigh_turns a n i acc w :
  cache_ok w acc.2 → length (array_at a w) = i + n →
  match weigh w acc.1 (drop i (array_at a w)) with
  | inl e => run (turns n (weigh_turn a) (i, acc)) w = (inl e, w)
  | inr weights => ∃ cache, cache_ok w cache ∧
      run (turns n (weigh_turn a) (i, acc)) w = (inr (inl (i + n, (weights, cache))), w)
  end.
Proof.
  revert i acc. induction n as [|n IH]; intros i acc Hc Hl.
  - rewrite drop_ge by lia. exists acc.2. rewrite Nat.add_0_r. split; [done|]. by destruct acc.
  - assert (is_Some (array_at a w !! i)) as [x Hx] by (apply lookup_lt_is_Some; lia).
    rewrite (drop_S _ _ _ Hx). change (x :: drop (S i) (array_at a w)) with ([x] ++ drop (S i) (array_at a w)).
    rewrite weigh_app. cbn [turns]. rewrite run_bind.
    pose proof (run_weigh_turn a i acc w Hc) as Ht. rewrite Hx in Ht.
    destruct (weigh w acc.1 [x]) as [e|weights]; [by rewrite Ht|]. destruct Ht as (cache & Hc' & ->).
    specialize (IH (S i) (weights, cache) Hc'). replace (S i + n) with (i + S n) in IH by lia. by apply IH.
Qed.

Lemma run_confirmedWeights n w :
  run (confirmedWeights n) w = (weigh w [] (participants_of n w), w).
Proof.
  unfold confirmedWeights, participants_of. rewrite run_bind, run_query.
  destruct (arrays (participation w) !! array_of n w) as [parts|] eqn:Hp; [|done].
  assert (array_at (array_of n w) w = parts) as Ha by (unfold array_at; by rewrite Hp).
  assert (cache_ok w ∅) as H0 by (intros p c; by rewrite lookup_empty).
  unfold weigh_array. rewrite run_bind. change (default [] (Some parts)) with parts.
  pose proof (run_weigh_turns (array_of n w) (length parts) 0 ([], ∅) w H0) as H. rewrite Ha, drop_0 in H.
  cbn [fst] in H. specialize (H eq_refl). destruct (weigh w [] parts) as [e|weights]; [by rewrite H|].
  destruct H as (cache & Hc & ->). rewrite Nat.add_0_l. cbn beta iota. rewrite run_bind.
  pose proof (run_weigh_turn (array_of n w) (length parts) (weights, cache) w Hc) as Ht.
  rewrite Ha, lookup_ge_None_2 in Ht by done. by rewrite (run_doubled_stop 32 _ _ _ _ _ Ht).
Qed.

(** *** Payments *)

Definition paid_world (nd : NodeEntity) (amount : number) (w : World) : World :=
  after_write (λ r, add_earned r amount)
    (append_tx "node.payment.received" (payment_payload nd amount) w).2.

(** The receipt of a payment. *)
Definition receipt (w : World) (share : string → number) (s : ExecutionSnapshot) (id : string) : Prop :=
  eventType s = "node.payment.received" ∧
  ∃ nd, node_of id w = Some nd ∧ payload s = stored (payment_payload nd (share id)).

(** What paying a list of nodes leaves: one receipt each, the earned tally grown
    by each share in turn, everything else as it was. *)
Record paid_nodes (share : string → number) (ids : list string) (w w' : World) : Prop := {
  pn_ledger : ledger_ok w';
  pn_settles : settles w w';
  pn_epochs : epochs w' = epochs w;
  pn_participation : participation w' = participation w;
  pn_tallies : tallies w' = fold_left (λ r id, add_earned r (share id)) ids (tallies w);
  pn_chain : intact (chain w) → intact (chain w') ∧
    ∃ rows, chain w' = chain w ++ rows ∧ Forall2 (receipt w share) rows ids
}.

Lemma run_pay_node share acc id nd w :
  ledger_ok w → node_of id w = Some nd →
  run (pay_node share acc id) w = (inr (pay_pure share acc id), paid_world nd (share id) w).
Proof.
  intros Hok Hn. unfold pay_node, receivePayment, recordEarned.
  rewrite !run_bind, run_requireNode, Hn, run_bind, run_append. cbn [fst snd]. rewrite run_ret.
  rewrite run_bind, run_write_ledger by (by apply ledger_ok_append). done.
Qed.

Lemma paid_world_spec share id nd w :
  ledger_ok w → node_of id w = Some nd → paid_nodes share [id] w (paid_world nd (share id) w).
Proof.
  intros Hok Hn. unfold paid_world.
  set (w1 := (append_tx "node.payment.received" (payment_payload nd (share id)) w).2).
  assert (ledger_ok w1) as Hok1 by (by apply ledger_ok_append).
  destruct (after_write_spec (λ r, add_earned r (share id)) w1 Hok1) as (Ht & Hl & Ho); [apply tallies_id|].
  split.
  - done.
  - destruct Ho. split; done.
  - by destruct Ho.
  - by destruct Ho.
  - by rewrite Ht.
  - intros Hi. rewrite (only_ledger_chain _ _ Ho). unfold w1. split; [by apply append_extends|].
    rewrite append_chain by done. eexists. split; [done|]. constructor; [|constructor]. split; [done|]. by exists nd.
Qed.

Lemma paid_nodes_nil share w : ledger_ok w → paid_nodes share [] w w.
Proof. intros Hok. split; try done. intros Hi. split; [done|]. exists []. by rewrite app_nil_r. Qed.

Lemma paid_nodes_cons share id ids w w1 w2 :
  paid_nodes share [id] w w1 → paid_nodes share ids w1 w2 → paid_nodes share (id :: ids) w w2.
Proof.
  intros [L1 S1 E1 P1 T1 C1] [L2 S2 E2 P2 T2 C2]. split.
  - done.
  - by transitivity w1.
  - congruence.
  - congruence.
  - by rewrite T2, T1.
  - intros Hi. destruct (C1 Hi) as [Hi1 (r1 & Hr1 & F1)]. destruct (C2 Hi1) as [Hi2 (r2 & Hr2 & F2)].
    split; [done|]. exists (r1 ++ r2). split; [by rewrite Hr2, Hr1, app_assoc|].
    change (id :: ids) with ([id] ++ ids). apply Forall2_app; [done|]. eapply Forall2_impl; [exact F2|].
    intros s i [He (nd & Hn & Hp)]. split; [done|]. exists nd. split; [|done].
    unfold node_of in *. by rewrite <- (st_nodes _ _ S1).
Qed.

Lemma run_pay_nodes share ids acc w :
  ledger_ok w → Forall (λ id, node_of id w ≠ None) ids →
  ∃ w', run (fold_each (pay_node share) acc ids) w = (inr (fold_left (pay_pure share) ids acc), w') ∧
        paid_nodes share ids w w'.
Proof.
  revert acc w. induction ids as [|id ids IH]; intros acc w Hok Hids; cbn [fold_each fold_left].
  { exists w. split; [done|by apply paid_nodes_nil]. }
  apply Forall_cons in Hids as [Hid Hids]. destruct (node_of id w) as [nd|] eqn:Hn; [|done].
  rewrite run_bind, (run_pay_node _ _ _ nd) by done.
  pose proof (paid_world_spec share id nd w Hok Hn) as Hp.
  destruct (IH (pay_pure share acc id) (paid_world nd (share id) w)) as (w' & Hrun & Hw').
  - apply Hp.
  - destruct Hp as [_ [Hnodes _ _ _ _] _ _ _ _]. unfold node_of in *. by rewrite Hnodes.
  - exists w'. split; [done|]. by eapply paid_nodes_cons.
Qed.

(** The nodes an epoch pays. *)
Definition payees (weights : list (string * number)) : list string :=
  if num_ltb zero (sum_numbers weights.*2) then sort_strings weights.*1 else [].

Definition epoch_share (weights : list (string * number)) (total : number) : string → number :=
  node_share weights total (sum_numbers weights.*2).

Lemma run_payments weights total w :
  ledger_ok w → Forall (λ id, node_of id w ≠ None) weights.*1 →
  ∃ w', run (payments weights total) w = (inr (paid_and_log weights total), w') ∧
        paid_nodes (epoch_share weights total) (payees weights) w w'.
Proof.
  intros Hok Hids. unfold payments, paid_and_log, payees, epoch_share.
  destruct (num_ltb zero (sum_numbers weights.*2)).
  - apply run_pay_nodes; [done|]. eapply Forall_forall. intros id Hid. rewrite Forall_forall in Hids.
    apply Hids. by rewrite sort_strings_perm in Hid.
  - exists w. split; [done|]. by apply paid_nodes_nil.
Qed.

(** *** Who is weighed *)

Lemma weight_set_keys id v weights k :
  k ∈ (weight_set id v weights).*1 ↔ k = id ∨ k ∈ weights.*1.
Proof.
  induction weights as [|[id' v'] weights IH]; simpl.
  - rewrite list_elem_of_singleton. split; [by left|]. intros [->|H]; [done|by apply not_elem_of_nil in H].
  - case_decide as Hid; csimpl; rewrite !elem_of_cons; [naive_solver|]. rewrite IH. naive_solver.
Qed.

(** A node has a weight exactly when it took part in a confirmed process, and
    then it is registered. *)
Lemma weigh_keys w weights parts weights' :
  weigh w weights parts = inr weights' →
  (∀ k, k ∈ weights'.*1 ↔ k ∈ weights.*1 ∨
     Exists (λ x, part_nodeId x = k ∧ confirmed_in w (part_processId x) = true) parts) ∧
  (Forall (λ id, node_of id w ≠ None) weights.*1 → Forall (λ id, node_of id w ≠ None) weights'.*1).
Proof.
  revert weights. induction parts as [|x parts IH]; intros weights; simpl.
  - intros [= ->]. split; [|done]. intros k. rewrite Exists_nil. tauto.
  - destruct (confirmed_in w (part_processId x)) eqn:Hc.
    + destruct (node_of (part_nodeId x) w) as [n|] eqn:Hn; [|done]. intros [H1 H2]%IH. split.
      * intros k. rewrite H1, Exists_cons, Hc. unfold add_weight. rewrite weight_set_keys.
        split; [intros [[->|?]|?]|intros [?|[[-> _]|?]]]; tauto.
      * intros Hw. apply H2. apply Forall_forall. intros id. unfold add_weight. rewrite weight_set_keys.
        rewrite Forall_forall in Hw. intros [->|?]; [congruence|auto].
    + intros [H1 H2]%IH. split; [|done]. intros k. rewrite H1, Exists_cons, Hc.
      split; [tauto|]. intros [?|[[_ [=]]|?]]; tauto.
Qed.

(** *** Settlement *)

(** What settling epoch [n] leaves behind. *)
Record settled (n : Z) (e : Epoch) (weights : list (string * number)) (w w' : World) : Prop := {
  sd_ledger : ledger_ok w';
  sd_settles : settles w w';
  sd_tallies : tallies w' =
    fold_left (λ r id, add_earned r (epoch_share weights (totalFees e) id)) (payees weights) (tallies w);
  sd_epoch : ∃ t, epoch_of n w' = Some (epoch_row (finalized_epoch e
    (final_distributionLog (settlement n weights (totalFees e)))
    (final_operationalMargin (settlement n weights (totalFees e))) t));
  sd_epochs : ∀ m, m ≠ n → epoch_of m w' = epoch_of m w;
  sd_participants : participants_of n w' = [];
  sd_others : ∀ m, m ≠ n → participants_of m w' = participants_of m w;
  sd_chain : intact (chain w) → intact (chain w') ∧
    ∃ rows a f, chain w' = chain w ++ rows ++ [a; f] ∧
      Forall2 (receipt w (epoch_share weights (totalFees e))) rows (payees weights) ∧
      eventType a = AFC_ACCRUAL_EVENT ∧
      payload a = stored (accrual_payload (final_operationalMargin (settlement n weights (totalFees e)))) ∧
      eventType f = COMMISSION_EPOCH_EVENT ∧
      payload f = stored (settlement_payload (settlement n weights (totalFees e)))
}.

(** The actions of [settle] after the payments. *)
Definition close_epoch (n : Z) (e : Epoch) (r : FinalizeResult) (w : World) : World :=
  let w1 := (append_tx AFC_ACCRUAL_EVENT (accrual_payload (final_operationalMargin r)) w).2 in
  let (t, w2) := now w1 in
  let w3 := save_epoch (finalized_epoch e (final_distributionLog r) (final_operationalMargin r) t) w2 in
  forget_participants n (append_tx "commission.epoch.finalized" (settlement_payload r) w3).2.

Lemma run_settle_payments n e weights w w1 :
  run (payments weights (totalFees e)) w = (inr (paid_and_log weights (totalFees e)), w1) →
  run (settle n e weights) w =
    (inr (settlement n weights (totalFees e)), close_epoch n e (settlement n weights (totalFees e)) w1).
Proof.
  intros Hrun. unfold settle, settlement, close_epoch. rewrite run_bind, Hrun.
  destruct (paid_and_log weights (totalFees e)) as [paid log]. cbn [fst snd].
  unfold addAfcAccrual. rewrite !run_bind, run_append, run_ret. cbn [fst snd].
  rewrite run_bind, run_act. destruct (now _) as [t w2]. cbn [fst snd].
  rewrite run_bind, run_update, run_bind, run_append, run_bind, run_update. done.
Qed.

Lemma chain_save_epoch e w : chain (save_epoch e w) = chain w.
Proof. done. Qed.

Lemma close_epoch_chain n e r w :
  intact (chain w) →
  intact (chain (close_epoch n e r w)) ∧
  ∃ a f, chain (close_epoch n e r w) = chain w ++ [a; f] ∧
    eventType a = AFC_ACCRUAL_EVENT ∧ payload a = stored (accrual_payload (final_operationalMargin r)) ∧
    eventType f = COMMISSION_EPOCH_EVENT ∧ payload f = stored (settlement_payload r).
Proof.
  intros Hi. unfold close_epoch.
  set (w1 := (append_tx AFC_ACCRUAL_EVENT (accrual_payload (final_operationalMargin r)) w).2).
  assert (intact (chain w1)) as Hi1 by (by apply append_extends).
  unfold now. set (w3 := save_epoch _ _).
  assert (chain w3 = chain w1) as H3 by done. assert (intact (chain w3)) as Hi3 by (by rewrite H3).
  change (chain (forget_participants n ?x)) with (chain x). split; [by apply append_extends|].
  rewrite append_chain, H3 by done. unfold w1. rewrite append_chain by done. rewrite <- app_assoc.
  eexists _, _. split; [reflexivity|]. done.
Qed.

Lemma participants_eq m w w' : participation w' = participation w → participants_of m w' = participants_of m w.
Proof. unfold participants_of, array_of. by intros ->. Qed.

Lemma epoch_of_eq m w w' : epochs w' = epochs w → epoch_of m w' = epoch_of m w.
Proof. unfold epoch_of. by intros ->. Qed.

Lemma participants_forget m n w :
  participants_of m (forget_participants n w) = if decide (m = n) then [] else participants_of m w.
Proof.
  unfold participants_of, forget_participants, array_of. cbn [participation set_participation arrays generation].
  case_decide as Hm.
  - subst. by rewrite lookup_insert_eq, lookup_delete_eq.
  - by rewrite lookup_insert_ne, lookup_delete_ne by congruence.
Qed.

Lemma run_settle n e weights w :
  ledger_ok w → int4 n = true → epochNumber e = n → Forall (λ id, node_of id w ≠ None) weights.*1 →
  ∃ w', run (settle n e weights) w = (inr (settlement n weights (totalFees e)), w') ∧
        settled n e weights w w'.
Proof.
  intros Hok Hk He Hids. destruct (run_payments weights (totalFees e) w Hok Hids) as (w1 & Hrun & Hp).
  set (r := settlement n weights (totalFees e)).
  exists (close_epoch n e r w1). split; [by apply run_settle_payments|].
  destruct Hp as [L S E P T C].
  assert (∀ m, epoch_of m (close_epoch n e r w1) =
    epoch_of m (save_epoch (finalized_epoch e (final_distributionLog r) (final_operationalMargin r)
      (next_tick (next_tick (clock w1)))) w1)) as Hep by done.
  split.
  - unfold close_epoch. destruct (now _) as [t w2] eqn:Hnow. injection Hnow as _ <-.
    repeat apply ledger_ok_append. done.
  - destruct S. by split.
  - exact T.
  - eexists. rewrite Hep, epoch_of_save by (cbn; congruence). cbn [epochNumber finalized_epoch]. by rewrite decide_True.
  - intros m Hm. rewrite Hep, epoch_of_save by (cbn; congruence). cbn [epochNumber finalized_epoch].
    rewrite decide_False by congruence. unfold epoch_of. by rewrite E.
  - unfold close_epoch. destruct (now _). rewrite participants_forget. by rewrite decide_True.
  - intros m Hm. unfold close_epoch. destruct (now _) as [t w2] eqn:Hnow. injection Hnow as _ <-.
    rewrite participants_forget, decide_False by done. unfold participants_of, array_of. by rewrite <- P.
  - intros Hi. destruct (C Hi) as [Hi1 (rows & Hrows & F)].
    destruct (close_epoch_chain n e r w1 Hi1) as [Hi2 (a & f & Hc & Ha)]. split; [done|].
    exists rows, a, f. rewrite Hc, Hrows, <- app_assoc. split; [done|]. split; [done|]. exact Ha.
Qed.

(** [finalizeEpoch] in closed form. *)
Lemma run_finalize_open n e w :
  epoch_of n w = Some e → epoch_status e = open →
  run (finalizeEpoch n) w =
  match weigh w [] (participants_of n w) with
  | inl x => (inl x, w)
  | inr weights => run (settle n e weights) w
  end.
Proof.
  intros He Hs. unfold finalizeEpoch. rewrite run_bind, run_requireEpoch, He, decide_True by done.
  rewrite run_bind, run_confirmedWeights. by destruct (weigh w [] (participants_of n w)).
Qed.

Lemma run_finalize_closed n e w :
  epoch_of n w = Some e → epoch_status e ≠ open → run (finalizeEpoch n) w = (inr (toResult e), w).
Proof.
  intros He Hs. unfold finalizeEpoch. by rewrite run_bind, run_requireEpoch, He, decide_False.
Qed.

Lemma run_finalize_unknown n w :
  epoch_of n w = None → run (finalizeEpoch n) w = (inl (no_epoch n), w).
Proof. intros He. unfold finalizeEpoch. by rewrite run_bind, run_requireEpoch, He. Qed.

(** A confirmed participation of a node the registry does not know. *)
Definition unknown_participant (w : World) (parts : list Participation) : Prop :=
  Exists (λ x, confirmed_in w (part_processId x) = true ∧ node_of (part_nodeId x) w = None) parts.

#[global] Instance unknown_participant_dec w parts : Decision (unknown_participant w parts).
Proof. unfold unknown_participant. apply _. Defined.

Lemma weigh_total w weights parts :
  ¬ unknown_participant w parts → ∃ weights', weigh w weights parts = inr weights'.
Proof.
  unfold unknown_participant. revert weights. induction parts as [|x parts IH]; intros weights; simpl; [eauto|].
  rewrite Exists_cons. intros Hn. destruct (confirmed_in w (part_processId x)); [|apply IH; tauto].
  destruct (node_of (part_nodeId x) w); [apply IH; tauto|]. destruct Hn. by left.
Qed.

Lemma weigh_unknown w weights parts :
  unknown_participant w parts → ∃ id, weigh w weights parts = inl (unknown_node id).
Proof.
  unfold unknown_participant. intros H. revert weights.
  induction H as [x parts [Hc Hn]|x parts Hp IH]; intros weights; simpl.
  - rewrite Hc, Hn. eauto.
  - destruct (confirmed_in _ _); [|auto]. destruct (node_of _ _); eauto.
Qed.


(** The log of the payments names the payees. *)
Lemma pay_pure_log share ids acc :
  (fold_left (pay_pure share) ids acc).2 = acc.2 ++ ((λ id, work_entry id (share id)) <$> ids).
Proof.
  revert acc. induction ids as [|id ids IH]; intros acc; cbn [fold_left]; csimpl; [by rewrite app_nil_r|].
  rewrite IH. cbn [pay_pure snd]. by rewrite <- app_assoc.
Qed.

Lemma settlement_log n weights total :
  final_distributionLog (settlement n weights total) =
    ((λ id, work_entry id (epoch_share weights total id)) <$> payees weights) ++
    [margin_entry (final_operationalMargin (settlement n weights total))].
Proof.
  unfold settlement, paid_and_log, payees, epoch_share. destruct (num_ltb _ _); [|done].
  rewrite (surjective_pairing (fold_left _ _ _)). cbn [final_distributionLog final_operationalMargin].
  by rewrite pay_pure_log.
Qed.

Lemma pay_pure_paid share ids acc :
  (fold_left (pay_pure share) ids acc).1 = fold_left num_add (share <$> ids) acc.1.
Proof. revert acc. induction ids as [|id ids IH]; intros acc; cbn [fold_left]; csimpl; [done|]. by rewrite IH. Qed.

Lemma settlement_paid n weights total :
  final_paid (settlement n weights total) = sum_numbers (epoch_share weights total <$> payees weights).
Proof.
  unfold settlement, paid_and_log, payees, epoch_share, sum_numbers. destruct (num_ltb _ _); [|done].
  rewrite (surjective_pairing (fold_left _ _ _)). cbn [final_paid]. by rewrite pay_pure_paid.
Qed.

Lemma settlement_fields n weights total :
  final_epochNumber (settlement n weights total) = n ∧
  final_totalFees (settlement n weights total) = total ∧
  final_operationalMargin (settlement n weights total) = (total - final_paid (settlement n weights total))%num ∧
  final_reconciled (settlement n weights total) =
    reconciles (final_paid (settlement n weights total))
      (final_operationalMargin (settlement n weights total)) total.
Proof. unfold settlement. by destruct (paid_and_log weights total). Qed.

(** The pool splits exactly when the paid part is at least half and at most
    twice the pool, and when nothing is paid. *)
Lemma split_reconciles total paid :
  amount total → amount paid →
  paid = zero ∨ (units total ≤ 2 * units paid ∧ units paid ≤ 2 * units total)%Z →
  (units paid + units (total - paid)%num = units total)%Z ∧ reconciles paid (total - paid)%num total = true.
Proof.
  intros Ht Hp Hc.
  assert (is_finite (total - paid)%num = true ∧ units (total - paid)%num = (units total - units paid)%Z ∧
          units (paid + (total - paid))%num = units total ∧ is_finite (paid + (total - paid))%num = true)
    as (Hf & Hu & Hs & Hfs).
  { destruct Hc as [->|[H1 H2]]; [|by apply pool_split_exact].
    destruct Ht as (Hv & Hf & Hn). pose proof (units_bound _ Hv).
    destruct (num_sub_exact total zero) as [Hf' Hu']; auto.
    - simpl. rewrite Z.sub_0_r. by apply units_representable.
    - simpl. plia.
    - simpl units in *. assert (valid (total - zero)%num = true) by (by apply num_sub_valid).
      destruct (num_add_exact zero (total - zero)%num) as [Hf2 Hu2]; auto.
      + simpl. rewrite Hu', Z.sub_0_r. by apply units_representable.
      + simpl. plia.
      + simpl units in *. split_and!; auto; plia. }
  split; [plia|]. unfold reconciles.
  destruct Ht as (Hvt & Hft & Hnt), Hp as (Hvp & Hfp & Hnp).
  assert (valid (total - paid)%num = true) by (by apply num_sub_valid).
  assert (valid (paid + (total - paid))%num = true) by (by apply num_add_valid).
  destruct (num_sub_exact (paid + (total - paid))%num total) as [Hfd Hud]; auto.
  { rewrite Hs, Z.sub_diag. apply representable_small. plia. }
  { rewrite Hs, Z.sub_diag. simpl. plia. }
  rewrite Hs, Z.sub_diag in Hud.
  destruct (paid + (total - paid) - total)%num as [s|s| |s m e] eqn:E; try done.
  exfalso. rewrite units_finite in Hud.
  assert (valid (S754_finite s m e) = true) as Hv by (rewrite <- E; by apply num_sub_valid).
  pose proof (valid_finite_bounds _ _ _ Hv). assert (0 < 2 ^ (e + 1074))%Z by (apply Z.pow_pos_nonneg; plia).
  destruct s; simpl in Hud; pnia.
Qed.

(** *** What a settlement reports *)

(** The entries of a log that pay nodes: all but the margin. *)
Definition work_entries (r : FinalizeResult) : list DistributionEntry :=
  filter (λ x, entry_reason x ≠ "afc_reserve") (final_distributionLog r).


Lemma settlement_work n weights total :
  work_entries (settlement n weights total) =
    (λ id, work_entry id (epoch_share weights total id)) <$> payees weights.
Proof.
  unfold work_entries. rewrite settlement_log, filter_app, (filter_cons_False _ (margin_entry _)) by auto.
  rewrite filter_nil, app_nil_r. induction (payees weights) as [|id ids IH]; [done|].
  rewrite fmap_cons, filter_cons_True by done. by rewrite IH.
Qed.


Lemma work_amounts (share : string → number) (ids : list string) : entry_amount <$> ((λ id, work_entry id (share id)) <$> ids) = share <$> ids.
Proof. by rewrite <- list_fmap_compose. Qed.

Lemma earned_total (share : string → number) (ids : list string) row :
  earnedRetained (fold_left (λ r id, add_earned r (share id)) ids row) =
  fold_left num_add (share <$> ids) (earnedRetained row).
Proof. revert row. induction ids as [|id ids IH]; intros row; [done|]. cbn [fold_left]. by rewrite IH. Qed.




Lemma finalize_open_inv n e w r w' :
  ledger_ok w → epoch_of n w = Some e → epoch_status e = open → run (finalizeEpoch n) w = (inr r, w') →
  ∃ weights, weigh w [] (participants_of n w) = inr weights ∧
    r = settlement n weights (totalFees e) ∧ settled n e weights w w'.
Proof.
  intros Hok He Hs. rewrite (run_finalize_open n e) by done.
  destruct (weigh w [] (participants_of n w)) as [x|weights] eqn:Hw; [done|].
  destruct (run_settle n e weights w Hok) as (w1 & Hrun & Hset).
  - by eapply epoch_of_int4.
  - by eapply epoch_of_number.
  - by apply (weigh_keys _ _ _ _ Hw), Forall_nil.
  - rewrite Hrun. intros [= <- <-]. by exists weights.
Qed.

(** *** Accrual *)

Lemma integer_key_spec x n : integer_key x = Some n ↔ integer_of x = Some n ∧ int4 n = true.
Proof.
  unfold integer_key. destruct (integer_of x) as [m|]; [|by split; [|intros []]].
  split; [destruct (int4 m) eqn:E; [by intros [= <-]|done]|]. by intros [[= ->] ->].
Qed.

(** The epoch [accrue] adds to, and the state in which it saves it. *)
Definition accrued_epoch (n : Z) (w : World) : Epoch * World :=
  match epoch_of n w with
  | Some e => (e, w)
  | None => (new_epoch n (now w).1, (now w).2)
  end.

Lemma run_accrue x fee parts w :
  run (accrue x fee parts) w =
  match integer_key x with
  | Some n =>
    (inr (add_fee (accrued_epoch n w).1 fee),
     push_participants n parts (save_epoch (add_fee (accrued_epoch n w).1 fee) (accrued_epoch n w).2))
  | None => (inl QueryFailedError, w)
  end.
Proof.
  unfold accrue, integer_key. destruct (integer_of x) as [n|]; [|done]. rewrite run_bind.
  destruct (int4 n) eqn:Hn.
  - rewrite run_openEpoch by done. unfold accrued_epoch. by destruct (epoch_of n w).
  - unfold openEpoch. by rewrite run_bind, run_getEpoch, Hn.
Qed.

Lemma accrued_epoch_spec n w :
  epochNumber (accrued_epoch n w).1 = n ∧
  (accrued_epoch n w).1 = match epoch_of n w with Some e => e | None => new_epoch n (next_tick (clock w)) end ∧
  ((accrued_epoch n w).2 = w ∨ (accrued_epoch n w).2 = (now w).2).
Proof.
  unfold accrued_epoch. destruct (epoch_of n w) as [e|] eqn:He; [|by auto].
  split; [by eapply epoch_of_number|by auto].
Qed.

Lemma participants_push m n parts w :
  participants_of m (push_participants n parts w) =
    if decide (m = n) then participants_of n w ++ parts else participants_of m w.
Proof.
  unfold push_participants. unfold participants_of at 1, array_of at 1.
  cbn [participation set_participation arrays generation]. case_decide as Hm.
  - subst. by rewrite lookup_insert_eq.
  - by rewrite lookup_insert_ne by (unfold array_of; congruence).
Qed.

(** The settlement of a row that stores a settlement is that settlement, as the
    log column gives it back. *)
Definition as_stored (r : FinalizeResult) : FinalizeResult :=
  let log := stored_entry <$> final_distributionLog r in
  let paid := sum_numbers (entry_amount <$> filter (λ x, entry_reason x ≠ "afc_reserve") log) in
  {| final_epochNumber := final_epochNumber r; final_distributionLog := log;
     final_operationalMargin := final_operationalMargin r; final_paid := paid;
     final_totalFees := final_totalFees r;
     final_reconciled := reconciles paid (final_operationalMargin r) (final_totalFees r) |}.

Definition no_negative_zero (x : number) : Prop := x ≠ S754_zero true.

Lemma stored_amount x :
  is_finite x = true → no_negative_zero x → json_to_num (stored_num x) = x.
Proof. unfold no_negative_zero. by destruct x as [[]|[]| |]. Qed.

Lemma sum_work_entries share ids :
  Forall (λ id, is_finite (share id) = true ∧ no_negative_zero (share id)) ids →
  ∀ margin, sum_numbers (entry_amount <$> filter (λ x, entry_reason x ≠ "afc_reserve")
    (stored_entry <$> ((λ id, work_entry id (share id)) <$> ids) ++ [margin_entry margin])) =
  sum_numbers (share <$> ids).
Proof.
  intros Hs margin. rewrite fmap_app, filter_app.
  change (stored_entry <$> [margin_entry margin]) with [stored_entry (margin_entry margin)].
  rewrite (filter_cons_False _ (stored_entry (margin_entry margin))) by auto.
  rewrite filter_nil, app_nil_r. f_equal. induction Hs as [|id ids [Hf Hz] Hids IH]; [done|].
  rewrite !fmap_cons, filter_cons_True by done. rewrite fmap_cons, IH.
  f_equal. by apply stored_amount.
Qed.

(** *** Guarantees *)

Lemma guarantee_getEpoch (R : discipline World) n : guarantee R (getEpoch n).
Proof. unfold getEpoch. guarantee_tac. Qed.

Lemma guarantee_accrue R `{!AllowsEpochs R} x fee parts : guarantee R (accrue x fee parts).
Proof.
  unfold accrue, openEpoch. pose proof (guarantee_getEpoch R). pose proof allows_save_epoch.
  pose proof allows_push_participants. guarantee_tac.
Qed.

Lemma guarantee_weigh_turn (R : discipline World) a st : guarantee R (weigh_turn a st).
Proof.
  assert (∀ p cache, guarantee R (cached_verdict p cache)) as Hc.
  { intros p cache. unfold cached_verdict. destruct (cache !! p); guarantee_tac. }
  unfold weigh_turn. apply guarantee_bind; [apply guarantee_query|]. intros [x|]; [|apply guarantee_ret].
  apply guarantee_bind; [|intros acc; apply guarantee_ret]. unfold weigh_part.
  apply guarantee_bind; [apply Hc|]. intros [[] cache]; guarantee_tac.
Qed.

Lemma guarantee_confirmedWeights (R : discipline World) n : guarantee R (confirmedWeights n).
Proof.
  unfold confirmedWeights. apply guarantee_bind; [apply guarantee_query|].
  intros [a [parts|]]; [|apply guarantee_ret]. unfold weigh_array.
  apply guarantee_bind; [apply guarantee_turns; intros st; apply guarantee_weigh_turn|]. intros r.
  apply guarantee_bind; [|intros [[? []]|[? []]]; apply guarantee_ret].
  destruct r as [st|st]; [|apply guarantee_ret]. apply guarantee_doubled. intros st'. apply guarantee_weigh_turn.
Qed.

Lemma guarantee_settle R `{!AllowsEpochs R} n e weights : guarantee R (settle n e weights).
Proof.
  pose proof allows_save_epoch. pose proof allows_forget_participants. unfold settle, payments, pay_node.
  guarantee_tac.
Qed.

Lemma guarantee_finalizeEpoch R `{!AllowsEpochs R} n : guarantee R (finalizeEpoch n).
Proof.
  pose proof (guarantee_getEpoch R). pose proof (guarantee_confirmedWeights R). pose proof (guarantee_settle R).
  unfold finalizeEpoch, requireEpoch. guarantee_tac.
Qed.

(** ** Properties *)

(** C17. Settlement: on an open epoch whose confirmed participants are registered,
    [finalizeEpoch] always succeeds. It returns the settlement of the pool over the
    confirmed weights; the epoch row becomes [finalized] with that log and margin;
    each payee has a receipt on the chain and is credited its share on the earned
    tally, in sorted order; the accrual and the settlement follow on the chain; the
    participations are forgotten; nodes, verdicts and other epochs do not move. *)
Theorem finalizeEpoch_settles n e w :
  ledger_ok w → intact (chain w) → epoch_of n w = Some e → epoch_status e = open →
  ¬ unknown_participant w (participants_of n w) →
  ∃ weights w',
    weigh w [] (participants_of n w) = inr weights ∧
    run (finalizeEpoch n) w = (inr (settlement n weights (totalFees e)), w') ∧
    settled n e weights w w' ∧ intact (chain w').
Proof.
  intros Hok Hi He Hs Hu. destruct (weigh_total w [] _ Hu) as [weights Hw].
  destruct (run_settle n e weights w Hok) as (w' & Hrun & Hset).
  - by eapply epoch_of_int4.
  - by eapply epoch_of_number.
  - by apply (weigh_keys _ _ _ _ Hw), Forall_nil.
  - exists weights, w'. rewrite (run_finalize_open n e) by done. rewrite Hw. split_and!; [done|done|done|].
    by apply (sd_chain _ _ _ _ _ Hset).
Qed.


(** C18. The pool reconciles: whenever [finalizeEpoch] settles an open epoch whose pool
    is an amount, and the payments come to nothing or to between half and twice the
    pool, payments plus margin are exactly the fees of the row, without rounding, and
    the result says so. The payments are the sum of the entries of the log, the margin
    its last entry, and the earned tally of the ledger has grown by just those
    payments. *)
Theorem settlement_reconciles n e w r w' :
  ledger_ok w → epoch_of n w = Some e → epoch_status e = open → run (finalizeEpoch n) w = (inr r, w') →
  amount (totalFees e) → amount (final_paid r) →
  final_paid r = zero ∨
    (units (totalFees e) ≤ 2 * units (final_paid r) ∧ units (final_paid r) ≤ 2 * units (totalFees e))%Z →
  (units (final_paid r) + units (final_operationalMargin r) = units (totalFees e))%Z ∧
  final_reconciled r = true ∧
  final_paid r = sum_numbers (entry_amount <$> work_entries r) ∧
  final_distributionLog r = work_entries r ++ [margin_entry (final_operationalMargin r)] ∧
  earnedRetained (tallies w') = fold_left num_add (entry_amount <$> work_entries r) (earnedRetained (tallies w)).
Proof.
  intros Hok He Hs Hrun Ht Hp Hr. destruct (finalize_open_inv n e w r w' Hok He Hs Hrun) as (weights & Hw & -> & Hset).
  destruct (settlement_fields n weights (totalFees e)) as (_ & _ & Hm & Hrec).
  destruct (split_reconciles _ _ Ht Hp Hr) as [H1 H2]. rewrite <- Hm in H1, H2. rewrite <- Hrec in H2.
  rewrite settlement_work, work_amounts. split_and!; [done|done|apply settlement_paid|apply settlement_log|].
  rewrite (sd_tallies _ _ _ _ _ Hset). apply earned_total.
Qed.

(** An epoch settles once: a second [finalizeEpoch] pays nobody, changes nothing
    and returns the same result, read back from the row (for settlements whose
    amounts survive the JSON column: finite and not the negative zero). *)
Theorem finalizeEpoch_once n w r w' :
  ledger_ok w → run (finalizeEpoch n) w = (inr r, w') →
  Forall (λ x, is_finite (entry_amount x) = true ∧ no_negative_zero (entry_amount x))
    (final_distributionLog r) →
  run (finalizeEpoch n) w' = (inr r, w').
Proof.
  intros Hok Hrun Hr. destruct (epoch_of n w) as [e|] eqn:He;
    [|rewrite run_finalize_unknown in Hrun; [done|done]].
  destruct (decide (epoch_status e = open)) as [Hs|Hs].
  - rewrite (run_finalize_open n e) in Hrun by done.
    destruct (weigh w [] (participants_of n w)) as [x|weights] eqn:Hw; [done|].
    destruct (run_settle n e weights w Hok) as (w1 & Hrun1 & Hset).
    { by eapply epoch_of_int4. }
    { by eapply epoch_of_number. }
    { by apply (weigh_keys _ _ _ _ Hw), Forall_nil. }
    rewrite Hrun1 in Hrun. injection Hrun as <- <-.
    rewrite settlement_log in Hr. apply Forall_app in Hr as [Hf Hm]. rewrite Forall_fmap in Hf.
    apply Forall_singleton in Hm as [Hmf Hmz].
    destruct (sd_epoch _ _ _ _ _ Hset) as [t Ht].
    rewrite (run_finalize_closed n _ w1 Ht) by done. f_equal. f_equal.
    unfold toResult, epoch_row, finalized_epoch. cbn [epochNumber distributionLog operationalMargin totalFees].
    destruct (settlement_fields n weights (totalFees e)) as (H1 & H2 & H3 & H4).
    pose proof (settlement_log n weights (totalFees e)) as H5.
    pose proof (settlement_paid n weights (totalFees e)) as H6.
    set (r := settlement n weights (totalFees e)) in *.
    assert (stored_entry <$> final_distributionLog r = final_distributionLog r) as Hlog.
    { rewrite H5, fmap_app. f_equal.
      - rewrite <- list_fmap_compose. apply list_fmap_ext. intros i id Hid. simpl.
        apply list_elem_of_lookup_2 in Hid. rewrite Forall_forall in Hf. destruct (Hf id Hid).
        unfold stored_entry, work_entry. cbn [entry_nodeId entry_amount entry_reason].
        by rewrite stored_amount.
      - unfold stored_entry, margin_entry. csimpl. by rewrite stored_amount. }
    rewrite (epoch_of_number _ _ _ He), Hlog.
    assert (sum_numbers (entry_amount <$> filter (λ x, entry_reason x ≠ "afc_reserve") (final_distributionLog r))
            = final_paid r) as Hpaid.
    { rewrite <- Hlog, H5, H6. by apply sum_work_entries. }
    rewrite Hpaid. destruct r as [a b c d t' f]. simpl in *. by subst.
  - rewrite (run_finalize_closed n e) in Hrun by done. injection Hrun as <- <-.
    by apply run_finalize_closed.
Qed.

(** A fee accrued into a finalized epoch is stranded: [accrue] accepts it and
    grows the pool, the epoch stays [finalized], and every later [finalizeEpoch]
    pays nobody, changes nothing and reports the old distribution against the new
    total. *)
Theorem late_accrual_stranded x n e fee parts w :
  integer_of x = Some n → epoch_of n w = Some e → epoch_status e = finalized → distributionLog e = stored_entry <$> distributionLog e →
  ∃ w' e', run (accrue x fee parts) w = (inr (add_fee e fee), w') ∧ epoch_of n w' = Some e' ∧
    epoch_status e' = finalized ∧ totalFees e' = (totalFees e + fee)%num ∧
    ∃ r, run (finalizeEpoch n) w' = (inr r, w') ∧ final_distributionLog r = distributionLog e ∧
         final_operationalMargin r = operationalMargin e ∧ final_totalFees r = (totalFees e + fee)%num.
Proof.
  intros Hx He Hs Hl. pose proof (epoch_of_int4 _ _ _ He) as Hk. pose proof (epoch_of_number _ _ _ He) as Hn.
  rewrite run_accrue, (proj2 (integer_key_spec x n)) by done. unfold accrued_epoch. rewrite He. cbn [fst snd].
  set (w' := push_participants n parts (save_epoch (add_fee e fee) w)).
  assert (epoch_of n w' = Some (epoch_row (add_fee e fee))) as He'.
  { change (epoch_of n w') with (epoch_of n (save_epoch (add_fee e fee) w)).
    rewrite epoch_of_save by (cbn; congruence). by rewrite decide_True. }
  exists w', (epoch_row (add_fee e fee)). split_and!; try done.
  exists (toResult (epoch_row (add_fee e fee))). split; [apply run_finalize_closed; [done|by simpl; rewrite Hs]|].
  split_and!; try done.
Qed.

(** A confirmed participation of an unregistered node blocks its epoch: the
    settlement throws [NotFoundException] before anything is paid, and leaves
    every row and the chain as they were, so the epoch stays open. *)
Theorem unknown_participant_blocks n e w :
  epoch_of n w = Some e → epoch_status e = open → unknown_participant w (participants_of n w) →
  ∃ id, run (finalizeEpoch n) w = (inl (NotFoundException ("Node " +:+ id +:+ " is not registered")), w).
Proof.
  intros He Hs Hu. rewrite (run_finalize_open n e) by done.
  destruct (weigh_unknown w [] _ Hu) as [id ->]. by exists id.
Qed.

(** A restart forgets the workers: participations live in memory only, so an
    epoch finalised after a restart pays no node and routes the whole pool to the
    reserve, whatever work was confirmed in it. *)
Theorem restart_pays_nobody n e w :
  epoch_of n w = Some e → epoch_status e = open → intact (chain w) →
  ∃ w' r, run (finalizeEpoch n) (restart w) = (inr r, w') ∧
    final_paid r = zero ∧ final_operationalMargin r = (totalFees e - zero)%num ∧
    final_distributionLog r = [margin_entry (totalFees e - zero)%num] ∧
    tallies w' = tallies w ∧ (∃ a f, chain w' = chain w ++ [a; f]).
Proof.
  intros He Hs Hi. assert (weigh (restart w) [] (participants_of n (restart w)) = inr []) as Hw.
  { reflexivity. }
  destruct (run_settle n e [] (restart w)) as (w' & Hrun & Hset).
  - done.
  - by eapply epoch_of_int4.
  - by eapply epoch_of_number.
  - constructor.
  - exists w', (settlement n [] (totalFees e)). rewrite (run_finalize_open n e), Hw by done.
    split; [exact Hrun|]. split_and!; try done.
    + by rewrite (sd_tallies _ _ _ _ _ Hset).
    + destruct (sd_chain _ _ _ _ _ Hset Hi) as [_ (rows & a & f & Hc & Hr & _)].
      apply Forall2_nil_inv_r in Hr as ->. by exists a, f.
Qed.

(** Accrual: [accrue] succeeds exactly when the epoch is a key of the [integer] column,
    and otherwise throws and changes nothing. When it succeeds it opens the epoch at the
    next tick when it does not exist, adds the fee to its pool and the participants to
    the end of its list, and touches no other epoch, no node, no tally and not the
    chain. *)
Theorem accrue_spec x fee parts w :
  match integer_key x with
  | None => run (accrue x fee parts) w = (inl QueryFailedError, w)
  | Some n =>
    ∃ w' e', run (accrue x fee parts) w = (inr e', w') ∧ epoch_of n w' = Some (epoch_row e') ∧
      match epoch_of n w with
      | Some e => e' = add_fee e fee
      | None => e' = add_fee (new_epoch n (next_tick (clock w))) fee
      end ∧
      participants_of n w' = participants_of n w ++ parts ∧
      (∀ m, m ≠ n → epoch_of m w' = epoch_of m w ∧ participants_of m w' = participants_of m w) ∧
      chain w' = chain w ∧ nodes w' = nodes w ∧ ledger_rows w' = ledger_rows w
  end.
Proof.
  rewrite run_accrue. destruct (integer_key x) as [n|] eqn:Hx; [|done]. apply integer_key_spec in Hx as [_ Hk].
  destruct (accrued_epoch_spec n w) as (H1 & H2 & H3). destruct (accrued_epoch n w) as [e w1]. cbn [fst snd] in *.
  assert (snapshots w1 = snapshots w ∧ nodes w1 = nodes w ∧ ledger_rows w1 = ledger_rows w ∧
    participation w1 = participation w ∧ epochs w1 = epochs w) as (F1 & F2 & F3 & F4 & F5)
    by (by destruct H3 as [-> | ->]).
  set (w' := push_participants n parts (save_epoch (add_fee e fee) w1)).
  assert (∀ m, epoch_of m w' = epoch_of m (save_epoch (add_fee e fee) w1)) as Hep by done.
  assert (∀ m, participants_of m (save_epoch (add_fee e fee) w1) = participants_of m w) as Hpa
    by (intros m; unfold participants_of, array_of; cbn; by rewrite F4).
  exists w', (add_fee e fee). split_and!; try done.
  - rewrite Hep, epoch_of_save by (cbn; congruence). by rewrite decide_True.
  - rewrite H2. by destruct (epoch_of n w).
  - unfold w'. rewrite participants_push, decide_True by done. by rewrite Hpa.
  - intros m Hm. rewrite Hep, epoch_of_save by (cbn; congruence). rewrite decide_False by (simpl; congruence).
    unfold w'. rewrite participants_push, decide_False by done. rewrite Hpa. split; [|done].
    unfold epoch_of. by rewrite F5.
  - unfold chain. cbn. by rewrite F1.
Qed.

End Commission.

#[export] Hint Extern 1 (guarantee _ (accrue _ _ _)) => apply guarantee_accrue; apply _ : guarantee.
#[export] Hint Extern 1 (guarantee _ (finalizeEpoch _)) => apply guarantee_finalizeEpoch; apply _ : guarantee.

(** ** Witnesses *)

Section Witnesses.
#[local] Existing Instance transparent_platform.

Definition work : Participation := {| part_processId := "p"; part_nodeId := "n1" |}.

(** One registered node, one verified process, one open epoch with a fee of 100
    for the node's work. *)
Definition open_world : World :=
  (run (register "n1" "validator";; accrue (of_Z 1) (of_Z 100) [work]) verified_world).2.

Definition open_epoch : Epoch := add_fee (new_epoch 1 (clock open_world)) (of_Z 100).

Lemma open_world_ok :
  ledger_ok open_world ∧ intact (chain open_world) ∧ epoch_of 1 open_world = Some open_epoch ∧
  ¬ unknown_participant open_world (participants_of 1 open_world).
Proof.
  split; [discriminate|]. split; [vm_compute; repeat split|]. split; [vm_compute; reflexivity|].
  apply (bool_decide_unpack _). vm_compute. exact I.
Qed.

Definition node_weights : list (string * number) := [("n1", of_Z 1)].

Lemma open_world_weights : weigh open_world [] (participants_of 1 open_world) = inr node_weights.
Proof. vm_compute. reflexivity. Qed.

Lemma finalizeEpoch_settles_witness :
  ∃ weights w',
    weigh open_world [] (participants_of 1 open_world) = inr weights ∧
    run (finalizeEpoch 1) open_world = (inr (settlement 1 weights (of_Z 100)), w') ∧
    settled 1 open_epoch weights open_world w' ∧ intact (chain w').
Proof.
  destruct open_world_ok as (H1 & H2 & H3 & H4).
  exact (finalizeEpoch_settles 1 open_epoch open_world H1 H2 H3 eq_refl H4).
Defined.

(** The settlement of that epoch. *)
Definition settled_world : World := (run (finalizeEpoch 1) open_world).2.

Lemma open_world_settles :
  run (finalizeEpoch 1) open_world = (inr (settlement 1 node_weights (of_Z 100)), settled_world).
Proof.
  unfold settled_world. rewrite (surjective_pairing (run (finalizeEpoch 1) open_world)) at 1.
  apply (f_equal (λ r, (r, (run (finalizeEpoch 1) open_world).2))). vm_compute. reflexivity.
Qed.


Lemma settlement_reconciles_witness :
  final_paid (settlement 1 node_weights (of_Z 100)) = of_Z 75 ∧
  final_reconciled (settlement 1 node_weights (of_Z 100)) = true.
Proof.
  split; [vm_compute; reflexivity|].
  destruct open_world_ok as (H1 & _ & H2 & _).
  apply (settlement_reconciles 1 open_epoch open_world _ settled_world H1 H2 eq_refl open_world_settles).
  - repeat split; vm_compute; discriminate.
  - repeat split; vm_compute; discriminate.
  - right. split; vm_compute; discriminate.
Defined.

Lemma finalizeEpoch_once_witness :
  run (finalizeEpoch 1) (run (finalizeEpoch 1) open_world).2 =
  (inr (settlement 1 node_weights (of_Z 100)), (run (finalizeEpoch 1) open_world).2).
Proof.
  apply (finalizeEpoch_once 1 open_world).
  - exact (proj1 open_world_ok).
  - vm_compute. reflexivity.
  - repeat constructor; vm_compute; discriminate.
Defined.

Lemma late_accrual_stranded_witness :
  ∃ w' r, run (accrue (of_Z 1) (of_Z 8) [work];; finalizeEpoch 1) (run (finalizeEpoch 1) open_world).2 = (inr r, w') ∧
    final_distributionLog r = [work_entry "n1" (of_Z 75); margin_entry (of_Z 25)] ∧
    final_totalFees r = of_Z 108.
Proof.
  set (w := (run (finalizeEpoch 1) open_world).2).
  set (e := epoch_row (finalized_epoch open_epoch [work_entry "n1" (of_Z 75); margin_entry (of_Z 25)]
              (of_Z 25) (clock w - 1))).
  destruct (late_accrual_stranded (of_Z 1) 1 e (of_Z 8) [work] w) as (w' & e' & H1 & _ & _ & _ & r & H2 & H3 & _ & H4).
  - vm_compute. reflexivity.
  - vm_compute. reflexivity.
  - reflexivity.
  - vm_compute. reflexivity.
  - exists w', r. rewrite run_bind, H1, H2. split; [reflexivity|]. split; [exact H3|].
    rewrite H4. vm_compute. reflexivity.
Defined.

Lemma unknown_participant_blocks_witness :
  ∃ id, run (finalizeEpoch 1)
      (run (accrue (of_Z 1) (of_Z 8) [{| part_processId := "p"; part_nodeId := "ghost" |}]) open_world).2 =
    (inl (NotFoundException ("Node " +:+ id +:+ " is not registered")),
     (run (accrue (of_Z 1) (of_Z 8) [{| part_processId := "p"; part_nodeId := "ghost" |}]) open_world).2).
Proof.
  apply (unknown_participant_blocks 1 (epoch_row (add_fee open_epoch (of_Z 8)))).
  - vm_compute. reflexivity.
  - reflexivity.
  - apply (bool_decide_unpack _). vm_compute. exact I.
Defined.

Lemma restart_pays_nobody_witness :
  ∃ w' r, run (finalizeEpoch 1) (restart open_world) = (inr r, w') ∧ final_paid r = zero ∧
    final_operationalMargin r = of_Z 100.
Proof.
  destruct open_world_ok as (_ & Hi & He & _).
  destruct (restart_pays_nobody 1 open_epoch open_world He eq_refl Hi) as (w' & r & H1 & H2 & H3 & _).
  exists w', r. split; [exact H1|]. split; [exact H2|]. rewrite H3. vm_compute. reflexivity.
Defined.

End Witnesses.
