(* ===== verification/Release.v ===== *)
(** * Release: the maturity gate

    [src/src/release/release.service.ts]. Broader circulation is activated once,
    when the capitalisation and the activity both exceed their targets. *)

From S2P Require Import Prelude Number NumberFacts NumberText Json Storage Effects Entities World.
From S2P Require Import NodeChain StateRecording Pot ArosCoin Emission Reserve.
From Stdlib Require Import ZArith.

Section Release.
Context {ST : Storage} {PL : Platform}.

(** ** Operations *)

Record MaturityCheck := {
  check_mature : bool;
  check_reserveIndex : number;
  check_velocity : number
}.

Record ActivateResult := {
  res_activated : bool;
  res_active : bool;
  res_reserveIndex : number;
  res_velocity : number
}.

Definition inactive_phase : ReleasePhase :=
  {| phase_id := PHASE_ID; phase_active := false; activatedAt := None;
     reserveIndexAtActivation := None; velocityAtActivation := None |}.

Definition save_phase (row : ReleasePhase) (w : World) : World := set_phases (save row (phases w)) w.

Definition phase_of (w : World) : option ReleasePhase := findOne PHASE_ID (phases w).

Definition phase : prog World ReleasePhase :=
  existing ← query phase_of;
  match existing with
  | Some row => mret row
  | None => update (save_phase inactive_phase);; mret inactive_phase
  end.

Definition velocity_at (processVolume24h supply : number) : number :=
  if num_leb supply zero then zero else (processVolume24h / supply)%num.

Definition velocity (processVolume24h : number) : prog World number :=
  circulatingSupply ← totalSupply;
  mret (velocity_at processVolume24h circulatingSupply).

Definition mature (threshold target reserveIndex velocity : number) : bool :=
  num_ltb threshold reserveIndex && num_ltb target velocity.

Definition check (threshold target processVolume24h : number) : prog World MaturityCheck :=
  idx ← reserveIndex;
  vel ← velocity processVolume24h;
  mret {| check_mature := mature threshold target idx vel; check_reserveIndex := idx; check_velocity := vel |}.

Definition activation_payload (idx vel threshold target : number) : json :=
  JObj [("reserveIndex", JNum idx); ("velocity", JNum vel); ("threshold", JNum threshold); ("target", JNum target)].

Definition activated_phase (row : ReleasePhase) (t : Z) (idx vel : number) : ReleasePhase :=
  {| phase_id := phase_id row; phase_active := true; activatedAt := Some t;
     reserveIndexAtActivation := Some idx; velocityAtActivation := Some vel |}.

Definition activate (threshold target processVolume24h : number) : prog World ActivateResult :=
  c ← check threshold target processVolume24h;
  let result activated active :=
    {| res_activated := activated; res_active := active;
       res_reserveIndex := check_reserveIndex c; res_velocity := check_velocity c |} in
  row ← phase;
  if phase_active row then mret (result false true)
  else if negb (check_mature c) then mret (result false false)
  else
    t ← act now;
    append "release.activated" (activation_payload (check_reserveIndex c) (check_velocity c) threshold target);;
    update (save_phase (activated_phase row t (check_reserveIndex c) (check_velocity c)));;
    mret (result true true).

Definition isActive : prog World bool := row ← phase; mret (phase_active row).

(** ** Abstract specification *)

Definition world_index (w : World) : number := index_of_volume (world_volume w).
Definition world_velocity (v : number) (w : World) : number := velocity_at v (supply_of (tallies w)).

(** The phase a world is in; a database without the row is inactive. *)
Definition phase_state (w : World) : ReleasePhase := default inactive_phase (phase_of w).

(** What a discipline must allow for the gate to guarantee it. *)
Class AllowsPhase (R : discipline World) : Prop := {
  allows_phase_append :: AllowsAppend R;
  allows_phase_ledger :: AllowsLedger R;
  allows_save_phase : ∀ row w, R w (save_phase row w)
}.

(** ** Facts *)

Lemma phase_of_save row w : phase_id row = PHASE_ID → phase_of (save_phase row w) = Some row.
Proof. intros Hid. unfold phase_of. rewrite <- Hid. exact (findOne_save_eq row (phases w)). Qed.

Lemma phase_of_id w row : phase_of w = Some row → phase_id row = PHASE_ID.
Proof. unfold phase_of. rewrite findOne_find. intros H. by apply lookup_key_some in H as [_ ?]. Qed.

Lemma phase_state_id w : phase_id (phase_state w) = PHASE_ID.
Proof. unfold phase_state. destruct (phase_of w) eqn:E; [by eapply phase_of_id|done]. Qed.

(** Reading the phase creates its row when there is none. *)
Definition with_phase (w : World) : World :=
  match phase_of w with Some _ => w | None => save_phase inactive_phase w end.

Lemma run_phase w : run phase w = (inr (phase_state w), with_phase w).
Proof. unfold phase, phase_state, with_phase. rewrite run_bind, run_query. by destruct (phase_of w). Qed.

Lemma phase_of_with w : phase_of (with_phase w) = Some (phase_state w).
Proof.
  unfold with_phase, phase_state. destruct (phase_of w) as [row|] eqn:E; [by rewrite E|].
  by rewrite phase_of_save.
Qed.

Lemma with_phase_frame w :
  chain (with_phase w) = chain w ∧ tallies (with_phase w) = tallies w ∧ clock (with_phase w) = clock w.
Proof. unfold with_phase. by destruct (phase_of w). Qed.

Lemma run_check th tg v w :
  ledger_ok w →
  run (check th tg v) w =
  (inr {| check_mature := mature th tg (world_index w) (world_velocity v w);
          check_reserveIndex := world_index w; check_velocity := world_velocity v w |}, ensureLedger w).
Proof.
  intros Hok. unfold check, velocity. rewrite run_bind, run_reserveIndex, run_bind, run_bind.
  unfold totalSupply. rewrite run_read_ledger by done. done.
Qed.

Lemma phase_of_ensureLedger w : phase_of (ensureLedger w) = phase_of w.
Proof. unfold phase_of. by rewrite (ol_phases _ _ (ensureLedger_only w)). Qed.

Lemma chain_ensureLedger w : chain (ensureLedger w) = chain w.
Proof. apply only_ledger_chain, ensureLedger_only. Qed.

Lemma guarantee_phase R `{!AllowsPhase R} : guarantee R phase.
Proof. unfold phase. pose proof allows_save_phase. guarantee_tac. Qed.

Lemma guarantee_check R `{!AllowsPhase R} th tg v : guarantee R (check th tg v).
Proof. unfold check, velocity. guarantee_tac. Qed.

Lemma guarantee_activate R `{!AllowsPhase R} th tg v : guarantee R (activate th tg v).
Proof.
  unfold activate. apply guarantee_bind; [by apply guarantee_check|]. intros c.
  apply guarantee_bind; [by apply guarantee_phase|]. intros row.
  pose proof allows_save_phase. guarantee_tac.
Qed.

Lemma guarantee_isActive R `{!AllowsPhase R} : guarantee R isActive.
Proof. unfold isActive. apply guarantee_bind; [by apply guarantee_phase|intros r; apply guarantee_ret]. Qed.

(** The state an activation attempt leaves. *)
Definition activated_world (th tg v : number) (w : World) : World :=
  let w1 := with_phase (ensureLedger w) in
  let (t, w2) := now w1 in
  save_phase (activated_phase (phase_state w) t (world_index w) (world_velocity v w))
    (append_tx "release.activated" (activation_payload (world_index w) (world_velocity v w) th tg) w2).2.

Lemma run_activate th tg v w :
  ledger_ok w →
  let row := phase_state w in
  let m := mature th tg (world_index w) (world_velocity v w) in
  let res a b := {| res_activated := a; res_active := b; res_reserveIndex := world_index w;
                    res_velocity := world_velocity v w |} in
  run (activate th tg v) w =
    if phase_active row then (inr (res false true), with_phase (ensureLedger w))
    else if negb m then (inr (res false false), with_phase (ensureLedger w))
    else (inr (res true true), activated_world th tg v w).
Proof.
  intros Hok. cbn zeta. unfold activate, activated_world. rewrite run_bind, run_check by done. cbn [check_mature].
  rewrite run_bind, run_phase. assert (phase_state (ensureLedger w) = phase_state w) as ->
    by (unfold phase_state; by rewrite phase_of_ensureLedger).
  destruct (phase_active (phase_state w)); [done|].
  destruct (mature _ _ _ _); [|done]. cbn [negb].
  rewrite run_bind, run_act. destruct (now _) as [t w2]. cbn [fst snd].
  by rewrite run_bind, run_append, run_bind, run_update.
Qed.

Lemma activate_chain th tg v w :
  intact (chain w) →
  ∃ s, chain (activated_world th tg v w) = chain w ++ [s] ∧ eventType s = "release.activated" ∧
       payload s = stored (activation_payload (world_index w) (world_velocity v w) th tg).
Proof.
  intros Hi. destruct (with_phase_frame (ensureLedger w)) as (Hc & _ & _). rewrite chain_ensureLedger in Hc.
  unfold activated_world. destruct (now (with_phase (ensureLedger w))) as [t w2] eqn:Hnow.
  injection Hnow as _ Hw2. assert (chain w2 = chain w) as Hc2 by (by rewrite <- Hw2).
  match goal with |- context [save_phase ?r ?x] => change (chain (save_phase r x)) with (chain x) end.
  rewrite append_chain, Hc2 by (by rewrite Hc2). by eexists.
Qed.

(** ** Properties *)

(** C28. The gate: [activate] activates exactly when the phase is inactive and both
    the reserve index exceeds its threshold and the velocity its target. Then one
    [release.activated] event with the measured metrics is on the chain and the row
    records them; otherwise the chain and the phase are as before. *)
Theorem activate_gate th tg v w :
  ledger_ok w → intact (chain w) →
  let row := phase_state w in
  let m := mature th tg (world_index w) (world_velocity v w) in
  ∃ w' r, run (activate th tg v) w = (inr r, w') ∧
    (res_activated r = true ↔ phase_active row = false ∧ m = true) ∧
    res_active r = phase_active row || m ∧
    res_reserveIndex r = world_index w ∧ res_velocity r = world_velocity v w ∧
    (if res_activated r then
       phase_state w' = activated_phase row (next_tick (clock w)) (world_index w) (world_velocity v w) ∧
       ∃ s, chain w' = chain w ++ [s] ∧ eventType s = "release.activated" ∧
            payload s = stored (activation_payload (world_index w) (world_velocity v w) th tg)
     else phase_state w' = row ∧ chain w' = chain w) ∧
    intact (chain w') ∧ tallies w' = tallies w.
Proof.
  intros Hok Hi. cbn zeta. rewrite run_activate by done.
  destruct (with_phase_frame (ensureLedger w)) as (Hc & Ht & Hk).
  rewrite chain_ensureLedger in Hc. rewrite ensureLedger_tallies in Ht by done.
  assert (phase_state (with_phase (ensureLedger w)) = phase_state w) as Hp.
  { unfold phase_state at 1. rewrite phase_of_with. unfold phase_state. by rewrite phase_of_ensureLedger. }
  destruct (phase_active (phase_state w)) eqn:Ha; [|destruct (mature _ _ _ _) eqn:Hm; cbn [negb]];
    eexists _, _; (split; [reflexivity|]); cbn [res_activated res_active res_reserveIndex res_velocity].
  - rewrite Hc. naive_solver.
  - unfold activated_world. destruct (now (with_phase (ensureLedger w))) as [t w2] eqn:Hnow.
    injection Hnow as <- Hw2. rewrite Hk, (ol_clock _ _ (ensureLedger_only w)) in *.
    assert (chain w2 = chain w) as Hc2 by (by rewrite <- Hw2).
    assert (intact (chain w2)) as Hi2 by (by rewrite Hc2).
    set (pl := activation_payload _ _ _ _). set (w3 := (append_tx "release.activated" pl w2).2).
    split_and!; try done.
    + unfold phase_state at 1. rewrite phase_of_save; [done|]. apply phase_state_id.
    + rewrite <- Hc2. change (∃ s, chain w3 = chain w2 ++ [s] ∧ eventType s = "release.activated" ∧
        payload s = stored pl). unfold w3. rewrite append_chain by done. by eexists.
    + change (intact (chain w3)). by apply append_extends.
    + change (tallies w3 = tallies w). unfold w3. rewrite tallies_append. by rewrite <- Hw2.
  - rewrite Hc. naive_solver.
Qed.

(** An empty economy stays bounded: while the derived supply is zero or negative
    and the target is not negative, no attempt activates circulation, whatever the
    volume claimed. *)
Theorem no_release_without_supply th tg v w :
  ledger_ok w → num_leb (supply_of (tallies w)) zero = true → num_ltb tg zero = false →
  ∃ w' r, run (activate th tg v) w = (inr r, w') ∧ res_activated r = false ∧ chain w' = chain w ∧
          phase_active (phase_state w') = phase_active (phase_state w).
Proof.
  intros Hok Hs Ht. assert (mature th tg (world_index w) (world_velocity v w) = false) as Hm.
  { unfold mature, world_velocity, velocity_at. rewrite Hs, Ht. apply andb_false_r. }
  rewrite run_activate by done. rewrite Hm.
  destruct (with_phase_frame (ensureLedger w)) as (Hc & _ & _). rewrite chain_ensureLedger in Hc.
  assert (phase_state (with_phase (ensureLedger w)) = phase_state w) as Hp.
  { unfold phase_state at 1. rewrite phase_of_with. unfold phase_state. by rewrite phase_of_ensureLedger. }
  destruct (phase_active (phase_state w)) eqn:Ha; eexists _, _; split_and!; try done; by rewrite Hp.
Qed.

(** The phase row is created by a read followed by a write: on a database
    without the row, a concurrent [isActive] can write its fresh inactive row over
    an activation already recorded on the chain. *)
Theorem activation_lost_to_read th tg v w :
  ledger_ok w → intact (chain w) → phase_of w = None →
  mature th tg (world_index w) (world_velocity v w) = true →
  ∃ w' s, steps ([isActive;; mret tt; activate th tg v;; mret tt], w) ([mret tt; mret tt], w') ∧
    phase_active (phase_state w') = false ∧
    chain w' = chain w ++ [s] ∧ eventType s = "release.activated".
Proof.
  intros Hok Hi Hp Hm. assert (phase_state w = inactive_phase) as Hps by (unfold phase_state; by rewrite Hp).
  assert (run (activate th tg v;; mret tt) w = (inr tt, activated_world th tg v w)) as Hrun
    by (rewrite run_bind, run_activate by done; by rewrite Hps, Hm).
  destruct (activate_chain th tg v w Hi) as (s & Hs & He & _).
  exists (save_phase inactive_phase (activated_world th tg v w)), s. split_and!; try done.
  - eapply rtc_l; [by eapply (step_act _ _ 0)|]. rewrite Hp. cbn [insert list_insert].
    etransitivity; [by eapply (run_steps 1)|].
    exact (act_steps 0 (λ w, (tt, save_phase inactive_phase w)) (λ _, mret tt)
             [Act (λ w, (tt, save_phase inactive_phase w)) (λ _, mret tt); mret tt] _ eq_refl).
  - unfold phase_state. by rewrite phase_of_save.
Qed.

End Release.

#[export] Hint Extern 1 (guarantee _ (activate _ _ _)) => apply guarantee_activate; apply _ : guarantee.
#[export] Hint Extern 1 (guarantee _ isActive) => apply guarantee_isActive; apply _ : guarantee.

(** ** Witnesses *)

Section Witnesses.
#[local] Existing Instance transparent_platform.

Lemma activate_gate_witness :
  ∃ w' r, run (activate (of_Z (-1)) (of_Z (-1)) (of_Z 5)) fresh_world = (inr r, w') ∧
    res_activated r = true ∧ intact (chain w').
Proof.
  destruct (activate_gate (of_Z (-1)) (of_Z (-1)) (of_Z 5) fresh_world) as (w' & r & H1 & H2 & _ & _ & _ & _ & H3 & _).
  - exact fresh_ledger_ok.
  - vm_compute. repeat split.
  - exists w', r. split; [exact H1|]. split; [apply H2; vm_compute; split; reflexivity|exact H3].
Defined.

Lemma no_release_without_supply_witness :
  ∃ w' r, run (activate (of_Z (-1)) (of_Z 1) (of_Z 1000)) fresh_world = (inr r, w') ∧ res_activated r = false.
Proof.
  destruct (no_release_without_supply (of_Z (-1)) (of_Z 1) (of_Z 1000) fresh_world) as (w' & r & H1 & H2 & _).
  - exact fresh_ledger_ok.
  - vm_compute. reflexivity.
  - vm_compute. reflexivity.
  - exists w', r. split; [exact H1|exact H2].
Defined.

Lemma activation_lost_to_read_witness :
  ∃ w' s, steps ([isActive;; mret tt; activate (of_Z (-1)) (of_Z (-1)) (of_Z 5);; mret tt], fresh_world)
            ([mret tt; mret tt], w') ∧
    phase_active (phase_state w') = false ∧ chain w' = [s].
Proof.
  destruct (activation_lost_to_read (of_Z (-1)) (of_Z (-1)) (of_Z 5) fresh_world) as (w' & s & H1 & H2 & H3 & _).
  - exact fresh_ledger_ok.
  - vm_compute. repeat split.
  - reflexivity.
  - vm_compute. reflexivity.
  - exists w', s. split; [exact H1|]. split; [exact H2|exact H3].
Defined.
End Witnesses.
