(* ===== verification/Columns.v ===== *)
(** * What the columns hold

    A row is written as text and read back: JSON columns through [JSON.stringify]
    and [JSON.parse], decimal columns through the text of a number and the
    transformers of the entities. The rows the services read, [snapshot_row] and
    [epoch_row], are exactly what that gives, and every event the services record
    has a payload that survives it. *)

From S2P Require Import Prelude Number NumberFacts NumberDecimal NumberText NumberTextFacts Json JsonParse Storage Entities World NodeChain StateRecording Pot ArosCoin Emission Nodes Reserve Commission Release.
From Stdlib Require Import ZArith String.

(** ** The texts of the columns *)

(** [ExecutionSnapshot.payload], [PotVerdict.reasons] and [Epoch.distributionLog]
    are [simple-json]: their column holds the serialised value. *)
Definition payload_column (s : ExecutionSnapshot) : string := stringify (payload s).
Definition reasons_column (v : PotVerdict) : string := stringify (JArr (JStr <$> reasons v)).
Definition distribution_column (e : Epoch) : string := stringify (JArr (entry_json <$> distributionLog e)).

(** The text a decimal column is given for a number. *)
Definition decimal_column (x : number) : column := ColString (num_to_string x).

(** An entry of the settlement log as the program reads it from the parsed value. *)
Definition read_entry (j : json) : option DistributionEntry :=
  match property "nodeId" j, property "amount" j, property "reason" j with
  | Some (JStr id), Some amount, Some (JStr reason) =>
    Some {| entry_nodeId := id; entry_amount := json_to_num amount; entry_reason := reason |}
  | _, _, _ => None
  end.

Definition read_log (text : string) : option (list DistributionEntry) :=
  match JSON_parse text with Some (JArr l) => mapM read_entry l | _ => None end.

(** ** Well-formed payloads *)

Definition entry_typed (e : DistributionEntry) : Prop := valid (entry_amount e) = true.

Lemma well_formed_strings l : well_formed (JArr (JStr <$> l)).
Proof. cbn [well_formed]. induction l as [|s l IH]; [constructor|]. by constructor. Qed.

Lemma well_formed_flag b : well_formed (flag b).
Proof. by destruct b. Qed.

Lemma well_formed_verdict p b l : well_formed (verdict_payload p b l).
Proof. split; [reflexivity|]. repeat constructor; [apply well_formed_flag|apply (well_formed_strings l)]. Qed.

Lemma well_formed_minted p x : valid x = true → well_formed (minted_payload p x).
Proof. intros Hx. split; [reflexivity|]. by repeat constructor. Qed.

Lemma well_formed_burned p x : valid x = true → well_formed (burned_payload p x).
Proof. intros Hx. split; [reflexivity|]. by repeat constructor. Qed.

Lemma well_formed_accrual x : valid x = true → well_formed (accrual_payload x).
Proof. intros Hx. split; [reflexivity|]. by repeat constructor. Qed.

Lemma well_formed_payment n x :
  valid (weight n) = true → valid x = true → well_formed (payment_payload n x).
Proof. intros Hn Hx. split; [reflexivity|]. by repeat constructor. Qed.

Lemma well_formed_registration n :
  valid (uptime n) = true → valid (reputation n) = true → valid (weight n) = true →
  well_formed (registration_payload n).
Proof. intros. split; [reflexivity|]. by repeat constructor. Qed.

Lemma well_formed_activation a b c d :
  valid a = true → valid b = true → valid c = true → valid d = true → well_formed (activation_payload a b c d).
Proof. intros. split; [reflexivity|]. by repeat constructor. Qed.

Lemma well_formed_entry e : entry_typed e → well_formed (entry_json e).
Proof. intros He. split; [reflexivity|]. by repeat constructor. Qed.

Lemma well_formed_log l : Forall entry_typed l → well_formed (JArr (entry_json <$> l)).
Proof.
  cbn [well_formed]. intros Hl. induction Hl as [|e l He Hl IH]; [constructor|].
  constructor; [by apply well_formed_entry|exact IH].
Qed.

Lemma well_formed_settlement r :
  valid (final_totalFees r) = true → valid (final_operationalMargin r) = true → valid (final_paid r) = true →
  Forall entry_typed (final_distributionLog r) → well_formed (settlement_payload r).
Proof.
  intros Hf Hm Hp Hl. split; [reflexivity|]. repeat constructor; try done.
  - unfold well_formed. rewrite of_Z_units. apply round_units_valid.
  - by apply well_formed_log.
Qed.

(** The properties of captured data, whatever their order and repetition. *)
Definition data_typed (o : object) : Prop := Forall (λ kv, well_formed kv.2) o.

Lemma well_formed_object o : build_object o = o → data_typed o → well_formed (JObj o).
Proof.
  intros Hb Ho. split; [done|]. clear Hb. induction Ho as [|[k v] o Hv Ho IH]; [constructor|]. by constructor.
Qed.

Lemma get_property_typed k o : data_typed o → well_formed (default JNull (get_property k o)).
Proof.
  induction 1 as [|[k' v] o Hv Ho IH]; [done|]. cbn [get_property]. by destruct (String.eqb k k').
Qed.

Lemma add_property_typed k v o : well_formed v → data_typed o → data_typed (add_property k v o).
Proof.
  intros Hv. induction 1 as [|[k' v'] o Hv' Ho IH]; cbn [add_property]; [by repeat constructor|].
  destruct (String.eqb k k'); [by constructor|].
  destruct (array_index k), (array_index k'); try destruct (_ <? _)%Z; by repeat constructor.
Qed.

Lemma sortKeys_typed o : data_typed o → well_formed (JObj (sortKeys o)).
Proof.
  intros Ho. unfold sortKeys. generalize (sort_strings (object_keys o)). intros keys.
  assert (∀ acc, enumerated acc → data_typed acc →
    let r := fold_left (λ sorted key, add_property key (default JNull (get_property key o)) sorted) keys acc in
    enumerated r ∧ data_typed r) as H.
  { induction keys as [|k keys IH]; intros acc He Ha; [done|]. apply IH; [by apply add_property_enumerated|].
    apply add_property_typed; [by apply get_property_typed|done]. }
  destruct (H []) as [He Ha]; [constructor|constructor|]. by apply well_formed_object; [apply build_object_enumerated|].
Qed.

Lemma well_formed_evidence p d v : data_typed d → well_formed (buildPayload p d v).
Proof.
  intros Hd. split; [reflexivity|]. cbn [map].
  constructor; [done|]. constructor; [exact (sortKeys_typed d Hd)|]. constructor; [by destruct v|constructor].
Qed.

(** ** What is read back *)

Lemma stored_strings_array l : stored (JArr (JStr <$> l)) = JArr (JStr <$> l).
Proof. cbn [stored]. f_equal. apply stored_strings. Qed.

Lemma read_stored_entry e : read_entry (stored (entry_json e)) = Some (stored_entry e).
Proof. unfold read_entry. by destruct (entry_amount e) eqn:E; destruct e; simpl in *; subst. Qed.

Lemma read_stored_log l : mapM read_entry (map stored (entry_json <$> l)) = Some (stored_entry <$> l).
Proof.
  apply mapM_Some_2. induction l as [|e l IH]; [constructor|]. by constructor; [apply read_stored_entry|].
Qed.

(** C16. What is written is what is read. The text of a JSON column parses to the
    value the model reads from the row: the payload of a snapshot, the reasons of a
    verdict and the settlement log of an epoch. The text of a decimal column reads
    back as the number, but for the sign of a negative zero. *)
Theorem columns_round_trip s v e x :
  well_formed (payload s) → Forall entry_typed (distributionLog e) → valid x = true →
  JSON_parse (payload_column s) = Some (payload (snapshot_row s)) ∧
  JSON_parse (reasons_column v) = Some (JArr (JStr <$> reasons v)) ∧
  read_log (distribution_column e) = Some (distributionLog (epoch_row e)) ∧
  numericDecimalTransformer_from (decimal_column x) = match x with S754_zero _ => zero | _ => x end ∧
  numericBigintTransformer_from (decimal_column x) = Some (match x with S754_zero _ => zero | _ => x end).
Proof.
  intros Hp Hl Hx. unfold payload_column, reasons_column, distribution_column, read_log, decimal_column. split_and!.
  - by rewrite JSON_parse_stringify.
  - rewrite JSON_parse_stringify by apply well_formed_strings. by rewrite stored_strings_array.
  - rewrite JSON_parse_stringify by by apply well_formed_log. apply read_stored_log.
  - by apply number_text_round_trip.
  - cbn [numericBigintTransformer_from]. by rewrite number_text_round_trip.
Qed.

Section Witnesses.

(** An event whose payload needs escapes, a fraction and nesting. *)
Definition sample_snapshot : ExecutionSnapshot :=
  {| sequenceId := 1; eventType := "stage_transition"; payload := buildPayload "p/1"
       [("b", JNum (of_decimal 1 (-1))); ("2", JStr (String (Ascii.ascii_of_nat 10) "x")); ("a", JArr [JNull; JBool true])] None;
     timestamp := 1; prevHash := EmptyString; hash := EmptyString |}.

Definition sample_epoch : Epoch :=
  {| epochNumber := 1; startTime := 1; endTime := 2; totalFees := of_Z 5;
     distributionLog := [work_entry "n1" (of_decimal 375 (-2)); margin_entry (of_decimal 125 (-2))];
     epoch_status := finalized; operationalMargin := of_decimal 125 (-2) |}.

Definition sample_verdict : PotVerdict :=
  {| verdict_processId := "p/1"; verified := false; reasons := ["participation"]; verdict_timestamp := 1;
     snapshotSequenceId := 1 |}.

Lemma columns_round_trip_witness :
  JSON_parse (payload_column sample_snapshot) = Some (payload sample_snapshot) ∧
  read_log (distribution_column sample_epoch) = Some (distributionLog sample_epoch) ∧
  numericDecimalTransformer_from (decimal_column (of_decimal 5 (-3))) = of_decimal 5 (-3).
Proof.
  destruct (columns_round_trip sample_snapshot sample_verdict sample_epoch (of_decimal 5 (-3)))
    as (H1 & _ & H2 & H3 & _).
  - vm_compute. repeat split; repeat constructor.
  - repeat constructor.
  - reflexivity.
  - split_and!; [exact H1|exact H2|exact H3].
Defined.
End Witnesses.
