(* ===== verification/AllSeeingEye.v ===== *)
(** * The All-Seeing Eye: the passive observer

    [src/src/all-seeing-eye/all-seeing-eye.service.ts]. The Eye reads the chain
    and the supply, and writes observations to its own hash-linked ledger. As for the
    chain, the transaction that writes an entry takes no lock: its statements are
    separate actions. *)

From S2P Require Import Prelude Number NumberFacts NumberText Json Storage Effects Entities World.
From S2P Require Import NodeChain ArosCoin.
From Stdlib Require Import ZArith.

Section AllSeeingEye.
Context {ST : Storage} {PL : Platform}.

(** ** Operations *)

Definition GENESIS : string := "GENESIS".

(** [eventType + layer + description + prevHash + timestamp]. *)
Definition entry_preimage (event layer description prev : string) (t : Z) : string :=
  event +:+ layer +:+ description +:+ prev +:+ string_of_Z t.

Definition entry_hash (event layer description prev : string) (t : Z) : string :=
  sha256 (entry_preimage event layer description prev t).

Definition oversight_head (rows : list OversightLogEntry) : option OversightLogEntry :=
  head (limit_rows (Some 1) (order_desc log_id rows)).

Definition head_link (h : option OversightLogEntry) : string :=
  match h with Some e => log_hash e | None => GENESIS end.

(** The entry the database stores: its id is generated by the insert. *)
Definition new_entry (id : Z) (event layer description prev : string) (t : Z) : OversightLogEntry :=
  {| log_id := id; log_eventType := event; log_layer := layer; log_description := description;
     log_hash := entry_hash event layer description prev t; log_prevHash := prev; log_timestamp := t;
     log_signature := EmptyString |}.

Definition insert_entry (event layer description prev : string) (t : Z) (w : World) : OversightLogEntry * World :=
  let e := new_entry (generatedId (log_id <$> find (oversight w))) event layer description prev t in
  (e, set_oversight (save e (oversight w)) w).

Definition log (event layer description : string) : prog World OversightLogEntry :=
  h ← query (λ w, oversight_head (find (oversight w)));
  t ← act now;
  act (insert_entry event layer description (head_link h) t).

Definition drift_description (observed : SupplyView) : string :=
  "supply drift: totalSupply=" +:+ num_to_string (view_totalSupply observed) +:+
  " retained=" +:+ num_to_string (view_retained observed).

Definition compareSupply (observed : SupplyView) : prog World bool :=
  let consistent := num_eqb (view_totalSupply observed) (view_retained observed) in
  if negb consistent then
    log "anomaly_detected" "token_management" (drift_description observed);; mret consistent
  else mret consistent.

Definition break_description (r : ReconstructResult) : string :=
  "nodechain integrity break at sequenceId=" +:+
  match brokenAt r with Some n => string_of_Z n | None => "undefined" end.

Definition verifyChain : prog World ReconstructResult :=
  r ← reconstruct;
  if negb (ok r) then log "anomaly_detected" "ledger_anchoring" (break_description r);; mret r
  else mret r.

Definition oversight_list (w : World) : list OversightLogEntry := order_asc log_id (find (oversight w)).

Definition getLog : prog World (list OversightLogEntry) := query oversight_list.

(** The loop of [verifyLog]. *)
Fixpoint replay_log (expectedPrevHash : string) (rows : list OversightLogEntry) : ReconstructResult :=
  match rows with
  | [] => {| ok := true; brokenAt := None |}
  | e :: rows' =>
    let expectedHash :=
      entry_hash (log_eventType e) (log_layer e) (log_description e) expectedPrevHash (log_timestamp e) in
    if negb (String.eqb (log_prevHash e) expectedPrevHash) || negb (String.eqb (log_hash e) expectedHash)
    then {| ok := false; brokenAt := Some (log_id e) |}
    else replay_log (log_hash e) rows'
  end.

Definition verifyLog : prog World ReconstructResult :=
  entries ← getLog; mret (replay_log GENESIS entries).

(** ** Abstract specification *)

Fixpoint log_linked (prev : string) (rows : list OversightLogEntry) : Prop :=
  match rows with
  | [] => True
  | e :: rows' =>
    log_prevHash e = prev ∧
    log_hash e = entry_hash (log_eventType e) (log_layer e) (log_description e) prev (log_timestamp e) ∧
    log_linked (log_hash e) rows'
  end.

Definition oversight_rows (w : World) : list OversightLogEntry := find (oversight w).

Definition log_intact (rows : list OversightLogEntry) : Prop := column_sorted log_id rows ∧ log_linked GENESIS rows.

(** The oversight ledger stays intact and only grows at its end. *)
Definition oversight_extends (w w' : World) : Prop :=
  log_intact (oversight_rows w) →
  log_intact (oversight_rows w') ∧ oversight_rows w `prefix_of` oversight_rows w'.

#[global] Instance oversight_extends_preorder : PreOrder oversight_extends.
Proof.
  split; [by intros w Hw|]. intros w1 w2 w3 H12 H23 H1.
  destruct (H12 H1) as [H2 P12], (H23 H2) as [H3 P23]. split; [done|by trans (oversight_rows w2)].
Qed.

(** Everything the Eye may not write: all tables but its own, and the memory of
    the other services. Only its ledger and the shared clock may move. *)
Record eye_only (w w' : World) : Prop := {
  eo_clock : (clock w ≤ clock w')%Z; eo_snapshots : snapshots w' = snapshots w;
  eo_verdicts : verdicts w' = verdicts w; eo_ledger_rows : ledger_rows w' = ledger_rows w;
  eo_epochs : epochs w' = epochs w; eo_nodes : nodes w' = nodes w; eo_phases : phases w' = phases w;
  eo_captured : captured w' = captured w; eo_participation : participation w' = participation w;
  eo_ledger_ready : ledger_ready w' = ledger_ready w
}.

#[global] Instance eye_only_preorder : PreOrder eye_only.
Proof. split; [intros w; by split|]. intros w1 w2 w3 [] []. split; [lia|congruence..]. Qed.

(** [log] when nothing runs between its statements. *)
Definition log_tx (event layer description : string) (w : World) : OversightLogEntry * World :=
  let prev := head_link (oversight_head (find (oversight w))) in
  let (t, w) := now w in insert_entry event layer description prev t w.

(** An entry that carries the hash of its own texts, link and tick. *)
Definition log_sealed (e : OversightLogEntry) : Prop :=
  log_hash e = entry_hash (log_eventType e) (log_layer e) (log_description e) (log_prevHash e) (log_timestamp e).

(** What is left of an intact ledger when logs interleave: nothing is lost or changed,
    ids stay distinct, every entry is sealed. The links may fork. *)
Record log_grows (w w' : World) : Prop := {
  lg_kept : oversight_rows w ⊆ oversight_rows w';
  lg_ids : NoDup (log_id <$> oversight_rows w) → NoDup (log_id <$> oversight_rows w');
  lg_sealed : Forall log_sealed (oversight_rows w) → Forall log_sealed (oversight_rows w')
}.

Definition log_sound (rows : list OversightLogEntry) : Prop :=
  NoDup (log_id <$> rows) ∧ Forall log_sealed rows.

#[global] Instance log_grows_preorder : PreOrder log_grows.
Proof. split; [by intros w; split|]. intros w1 w2 w3 [] []. split; [by etransitivity|auto|auto]. Qed.

(** What a discipline must allow for the Eye to guarantee it. *)
Class AllowsLog (R : discipline World) : Prop := {
  allows_log : ∀ event layer description, guarantee R (log event layer description)
}.

(** ** Facts *)

Lemma oversight_head_last rows : column_sorted log_id rows → oversight_head rows = last rows.
Proof. apply order_desc_head. Qed.

Definition head_prev (rows : list OversightLogEntry) : string := head_link (last rows).

(** The entry [log] adds to an intact ledger. *)
Definition logged (rows : list OversightLogEntry) (event layer description : string) (t : Z)
  : OversightLogEntry :=
  {| log_id := generatedId (log_id <$> rows); log_eventType := event; log_layer := layer;
     log_description := description;
     log_hash := entry_hash event layer description (head_prev rows) t;
     log_prevHash := head_prev rows; log_timestamp := t; log_signature := EmptyString |}.

Lemma log_linked_app prev rows1 rows2 :
  log_linked prev (rows1 ++ rows2) ↔
  log_linked prev rows1 ∧ log_linked (match last rows1 with Some e => log_hash e | None => prev end) rows2.
Proof.
  revert prev. induction rows1 as [|e rows1 IH]; intros prev; simpl; [tauto|].
  rewrite IH. destruct rows1 as [|e' rows1]; simpl; [tauto|].
  destruct (last (e' :: rows1)) eqn:E; [tauto|]. by apply last_None in E.
Qed.

Lemma replay_log_linked prev rows : ok (replay_log prev rows) = true ↔ log_linked prev rows.
Proof.
  revert prev. induction rows as [|e rows IH]; intros prev; simpl; [done|].
  destruct (String.eqb_spec (log_prevHash e) prev) as [Hp|Hp]; simpl; [|naive_solver].
  destruct (String.eqb_spec (log_hash e)
    (entry_hash (log_eventType e) (log_layer e) (log_description e) prev (log_timestamp e)))
    as [Hh|Hh]; simpl; [|naive_solver].
  rewrite IH. naive_solver.
Qed.

Lemma generated_above (rows : list OversightLogEntry) :
  Forall (λ x, log_id x < generatedId (log_id <$> rows))%Z rows.
Proof. apply Forall_forall. intros x Hx. apply generatedId_fresh. by apply list_elem_of_fmap_2. Qed.

(** An insert adds its entry at the end of the table. *)
Lemma insert_rows event layer description prev t w :
  oversight_rows (insert_entry event layer description prev t w).2 =
  oversight_rows w ++ [(insert_entry event layer description prev t w).1].
Proof.
  unfold insert_entry, oversight_rows at 1. cbn [fst snd oversight set_oversight]. rewrite find_save.
  apply upsert_fresh. intros Hin. apply list_elem_of_fmap in Hin as (x & Hx & Hin).
  pose proof (generated_above (oversight_rows w)) as Hg. rewrite Forall_forall in Hg.
  specialize (Hg x Hin). change (primaryKey x) with (log_id x) in Hx. simpl in Hx.
  change (find (oversight w)) with (oversight_rows w) in Hx. lia.
Qed.

Lemma log_tx_spec event layer description w :
  log_intact (oversight_rows w) →
  let e := logged (oversight_rows w) event layer description (next_tick (clock w)) in
  (log_tx event layer description w).1 = e ∧
  oversight_rows (log_tx event layer description w).2 = oversight_rows w ++ [e].
Proof.
  intros [Hs Hl]. split; [|unfold log_tx, now; rewrite insert_rows];
    unfold log_tx, now, insert_entry, logged, head_prev; cbn [fst snd oversight set_clock];
    by rewrite oversight_head_last by exact Hs.
Qed.

Lemma log_intact_snoc rows event layer description t :
  log_intact rows → log_intact (rows ++ [logged rows event layer description t]).
Proof.
  intros [Hs Hl]. split; [apply column_sorted_snoc; [done|apply generated_above]|].
  apply log_linked_app. split; [done|]. split_and!; [|done|done]. simpl. unfold head_prev, head_link.
  by destruct (last rows).
Qed.

Lemma log_extends event layer description w : oversight_extends w (log_tx event layer description w).2.
Proof.
  intros Hw. destruct (log_tx_spec event layer description w Hw) as [_ ->].
  split; [by apply log_intact_snoc|by apply prefix_app_r].
Qed.

Lemma run_log event layer description w :
  run (log event layer description) w =
  (inr (log_tx event layer description w).1, (log_tx event layer description w).2).
Proof. reflexivity. Qed.

Lemma insert_log_grows event layer description prev t w :
  log_grows w (insert_entry event layer description prev t w).2.
Proof.
  split; rewrite insert_rows.
  - intros e He. apply elem_of_app. by left.
  - intros Hn. rewrite fmap_app. apply NoDup_app. split_and!; [done| |apply NoDup_singleton].
    intros x Hx ->%list_elem_of_singleton. apply list_elem_of_fmap in Hx as (e & Hx & He).
    pose proof (generated_above (oversight_rows w)) as Hg. rewrite Forall_forall in Hg. specialize (Hg e He).
    cbn in Hx. change (find (oversight w)) with (oversight_rows w) in Hx. lia.
  - intros Hs. apply Forall_app. split; [done|]. by repeat constructor.
Qed.

Lemma insert_eye_only event layer description prev t w :
  eye_only w (insert_entry event layer description prev t w).2.
Proof. by split. Qed.

Lemma now_eye_only w : eye_only w (now w).2.
Proof. split; try done. simpl. apply next_tick_le. Qed.

(** *** What [log] guarantees *)

Lemma stops_log event layer description w w' :
  stops_at (log event layer description) w w' →
  w' = w ∨ w' = (now w).2 ∨ w' = (log_tx event layer description w).2.
Proof. intros [->|[->|[->|[->|[]]]]]; auto. Qed.

Lemma alone_log R `{!PreOrder R} event layer description :
  (∀ w, R w (now w).2) → (∀ w, R w (log_tx event layer description w).2) →
  guarantee (alone R) (log event layer description).
Proof. intros Hn Ha w w' [->|[->| ->]]%stops_log; [reflexivity|apply Hn|apply Ha]. Qed.

Lemma stepwise_log R `{!PreOrder R} event layer description :
  (∀ w, R w (now w).2) → (∀ prev t w, R w (insert_entry event layer description prev t w).2) →
  guarantee (stepwise R) (log event layer description).
Proof.
  intros Hn Hs. unfold log. apply guarantee_bind; [apply guarantee_query|]. intros h.
  apply guarantee_bind; [by apply guarantee_act|]. intros t. apply guarantee_act. apply Hs.
Qed.

#[global] Instance eye_only_log : AllowsLog (stepwise eye_only).
Proof. split. intros. apply stepwise_log; [apply now_eye_only|apply insert_eye_only]. Qed.

#[global] Instance log_grows_log : AllowsLog (stepwise log_grows).
Proof. split. intros. apply stepwise_log; [by intros w; split|apply insert_log_grows]. Qed.

#[global] Instance oversight_extends_log : AllowsLog (alone oversight_extends).
Proof. split. intros. apply alone_log; [by intros w Hw|apply log_extends]. Qed.

Lemma guarantee_log R `{!AllowsLog R} event layer description : guarantee R (log event layer description).
Proof. apply allows_log. Qed.

Lemma guarantee_compareSupply R `{!AllowsLog R} observed : guarantee R (compareSupply observed).
Proof. pose proof (guarantee_log R). unfold compareSupply. guarantee_tac. Qed.

Lemma guarantee_verifyChain R `{!AllowsLog R} : guarantee R verifyChain.
Proof. pose proof (guarantee_log R). unfold verifyChain. guarantee_tac. Qed.

Lemma guarantee_verifyLog (R : discipline World) : guarantee R verifyLog.
Proof. unfold verifyLog, getLog. guarantee_tac. Qed.

(** The programs of the Eye, as a service: what its callers can run. *)
Inductive eye_request :=
| EyeLog (event layer description : string)
| EyeCompareSupply (observed : SupplyView)
| EyeVerifyChain
| EyeVerifyLog
| EyeGetLog.

Definition eye_program (q : eye_request) : prog World () :=
  match q with
  | EyeLog event layer description => log event layer description;; mret tt
  | EyeCompareSupply observed => compareSupply observed;; mret tt
  | EyeVerifyChain => verifyChain;; mret tt
  | EyeVerifyLog => verifyLog;; mret tt
  | EyeGetLog => getLog;; mret tt
  end.

Lemma guarantee_eye R `{!AllowsLog R} q : guarantee R (eye_program q).
Proof.
  destruct q; unfold eye_program; (apply guarantee_bind; [|intros ?; apply guarantee_ret]).
  - by apply guarantee_log.
  - by apply guarantee_compareSupply.
  - by apply guarantee_verifyChain.
  - apply guarantee_verifyLog.
  - apply guarantee_query.
Qed.

Lemma replay_log_intact prev rows :
  log_linked prev rows → replay_log prev rows = {| ok := true; brokenAt := None |}.
Proof.
  revert prev. induction rows as [|e rows IH]; intros prev; simpl; [done|].
  intros (Hp & Hh & Hl). rewrite <- Hh, <- Hp, !String.eqb_refl. simpl. auto.
Qed.

Lemma run_verifyLog_intact w :
  log_intact (oversight_rows w) → run verifyLog w = (inr {| ok := true; brokenAt := None |}, w).
Proof.
  intros [Hs Hl].
  change (run verifyLog w) with (inr (A := exn) (replay_log GENESIS (oversight_list w)), w).
  unfold oversight_list. fold (oversight_rows w).
  rewrite order_asc_sorted by done. do 2 f_equal. by apply replay_log_intact.
Qed.

Lemma replay_log_broken prev rows e :
  log_linked prev rows →
  ¬ log_linked (match last rows with Some e' => log_hash e' | None => prev end) [e] →
  replay_log prev (rows ++ [e]) = {| ok := false; brokenAt := Some (log_id e) |}.
Proof.
  revert prev. induction rows as [|e' rows IH]; intros prev; simpl.
  - intros _ He. destruct (String.eqb_spec (log_prevHash e) prev) as [Hp|]; simpl; [|done].
    destruct (String.eqb_spec (log_hash e) (entry_hash (log_eventType e) (log_layer e) (log_description e) prev
      (log_timestamp e))) as [Hh|]; simpl; [|done]. by destruct He.
  - intros (Hp & Hh & Hl) He. rewrite <- Hh, <- Hp, !String.eqb_refl. simpl.
    apply IH; [done|]. destruct rows as [|x rows]; [done|]. simpl in *.
    destruct (last (x :: rows)) eqn:E; [done|]. by apply last_None in E.
Qed.

Lemma order_asc_edit (edit : OversightLogEntry → OversightLogEntry) rows :
  (∀ e, log_id (edit e) = log_id e) →
  order_asc log_id (edit <$> rows) = edit <$> order_asc log_id rows.
Proof.
  intros He. unfold order_asc. induction rows as [|e rows IH]; [done|]. rewrite fmap_cons. simpl. rewrite IH.
  generalize (sort_by (λ x y, log_id x <=? log_id y)%Z rows). intros l.
  induction l as [|x l IHl]; [done|]. rewrite fmap_cons. simpl. rewrite !He.
  case_match_goal; [done|]. by rewrite IHl, <- fmap_cons.
Qed.

Lemma entry_hash_concat e1 l1 d1 e2 l2 d2 prev t :
  e1 +:+ l1 +:+ d1 = e2 +:+ l2 +:+ d2 → entry_hash e1 l1 d1 prev t = entry_hash e2 l2 d2 prev t.
Proof.
  intros H. unfold entry_hash, entry_preimage. f_equal.
  rewrite !(string_app_assoc l1), !(string_app_assoc e1), !(string_app_assoc l2), !(string_app_assoc e2).
  rewrite !string_app_assoc in H. rewrite !string_app_assoc. by rewrite H.
Qed.

Lemma replay_log_edit (edit : OversightLogEntry → OversightLogEntry) prev rows :
  (∀ e, log_id (edit e) = log_id e ∧ log_hash (edit e) = log_hash e ∧ log_prevHash (edit e) = log_prevHash e ∧
        log_timestamp (edit e) = log_timestamp e ∧
        log_eventType (edit e) +:+ log_layer (edit e) +:+ log_description (edit e) =
        log_eventType e +:+ log_layer e +:+ log_description e) →
  replay_log prev (edit <$> rows) = replay_log prev rows.
Proof.
  intros He. revert prev. induction rows as [|e rows IH]; intros prev; [done|]. rewrite fmap_cons. simpl.
  destruct (He e) as (-> & -> & -> & -> & Hc). rewrite (entry_hash_concat _ _ _ _ _ _ _ _ Hc).
  case_match_goal; [done|apply IH].
Qed.

(** ** Properties *)

(** C29. The Eye is passive: whatever requests are served, and however their actions
    interleave, nothing but the oversight ledger and the clock moves, and in that ledger
    no entry is lost or changed, ids stay distinct and every entry carries the hash of
    its texts and link. Served one after another, wherever they are stopped, they leave
    an intact ledger intact, grown only at its end. *)
Theorem eye_passive (qs : list eye_request) w w' :
  (∀ ps, steps (eye_program <$> qs, w) (ps, w') → eye_only w w' ∧ log_grows w w') ∧
  (stops_at (for_each eye_program qs) w w' → eye_only w w' ∧ oversight_extends w w').
Proof.
  split.
  - intros ps Hs. split.
    + apply (guarantee_steps eye_only _ _) in Hs; [exact Hs|].
      apply Forall_fmap, Forall_true. intros q. apply guarantee_eye. apply _.
    + apply (guarantee_steps log_grows _ _) in Hs; [exact Hs|].
      apply Forall_fmap, Forall_true. intros q. apply guarantee_eye. apply _.
  - intros Hs. split.
    + apply (stepwise_alone eye_only (for_each eye_program qs)); [|exact Hs].
      apply guarantee_for_each. intros q. apply guarantee_eye. apply _.
    + enough (guarantee (alone oversight_extends) (for_each eye_program qs)) as H by exact (H w w' Hs).
      apply guarantee_for_each. intros q. apply guarantee_eye. apply _.
Qed.

(** C30. What the ledger loses when two logs interleave: both can read one head, and then
    their entries name one predecessor. From then on [verifyLog] reports the ledger as
    tampered with, at the second entry, although nothing was. *)
Theorem interleaved_logs_fork e1 l1 d1 e2 l2 d2 w :
  log_intact (oversight_rows w) →
  entry_hash e1 l1 d1 (head_prev (oversight_rows w)) (next_tick (clock w)) ≠ head_prev (oversight_rows w) →
  ∃ x y w', run_schedule [0; 1; 0; 1; 0; 1] ([log e1 l1 d1; log e2 l2 d2], w) = ([mret x; mret y], w') ∧
    log_prevHash x = log_prevHash y ∧ oversight_rows w' = oversight_rows w ++ [x; y] ∧
    run verifyLog w' = (inr {| ok := false; brokenAt := Some (log_id y) |}, w').
Proof.
  intros [Hs Hl] Hne. set (prev := head_prev (oversight_rows w)) in *.
  set (w1 := set_clock (next_tick (next_tick (clock w))) w).
  set (p1 := insert_entry e1 l1 d1 prev (next_tick (clock w)) w1).
  set (p2 := insert_entry e2 l2 d2 prev (next_tick (next_tick (clock w))) p1.2).
  assert (oversight_rows p2.2 = oversight_rows w ++ [p1.1; p2.1]) as Hr.
  { unfold p2. rewrite insert_rows. fold p2. unfold p1. rewrite insert_rows. by rewrite <- app_assoc. }
  exists p1.1, p2.1, p2.2. split_and!; [|done|exact Hr|].
  - assert (head_link (oversight_head (find (oversight w))) = prev) as <-.
    { change (find (oversight w)) with (oversight_rows w). by rewrite oversight_head_last. }
    reflexivity.
  - change (run verifyLog p2.2) with (inr (A := exn) (replay_log GENESIS (oversight_list p2.2)), p2.2).
    assert (column_sorted log_id (oversight_rows p2.2)) as Hsort.
    { unfold p2. rewrite insert_rows. apply column_sorted_snoc; [|apply generated_above].
      unfold p1. rewrite insert_rows. apply column_sorted_snoc; [exact Hs|apply generated_above]. }
    unfold oversight_list. fold (oversight_rows p2.2). rewrite order_asc_sorted, Hr by done. do 2 f_equal.
    change ([p1.1; p2.1]) with ([p1.1] ++ [p2.1]). rewrite app_assoc. apply replay_log_broken.
    + apply log_linked_app. split; [done|]. split_and!; [|done|done].
      change (prev = match last (oversight_rows w) with Some e => log_hash e | None => GENESIS end).
      unfold prev, head_prev, head_link. by destruct (last (oversight_rows w)).
    + rewrite last_snoc. intros (Hp & _). by apply Hne.
Qed.

(** The Eye reports drift exactly: [compareSupply] answers [true] exactly when
    the two figures are equal numbers; when they are, nothing is written, and
    otherwise one [anomaly_detected] entry naming both figures is added. *)
Theorem compareSupply_reports observed w :
  log_intact (oversight_rows w) →
  ∃ w', run (compareSupply observed) w =
          (inr (num_eqb (view_totalSupply observed) (view_retained observed)), w') ∧
    (if num_eqb (view_totalSupply observed) (view_retained observed) then w' = w
     else ∃ e, oversight_rows w' = oversight_rows w ++ [e] ∧ log_eventType e = "anomaly_detected" ∧
               log_layer e = "token_management" ∧ log_description e = drift_description observed).
Proof.
  intros Hw. unfold compareSupply. destruct (num_eqb _ _); cbn [negb]; [by exists w|].
  rewrite run_bind, run_log, run_ret. eexists. split; [done|].
  destruct (log_tx_spec "anomaly_detected" "token_management" (drift_description observed) w Hw) as [_ ->].
  by eexists.
Qed.

(** The Eye reports a broken chain exactly: [verifyChain] returns the answer of
    [reconstruct]; it writes nothing when the chain replays, and otherwise adds
    one anomaly that names the position of the break. *)
Theorem verifyChain_reports w :
  log_intact (oversight_rows w) →
  ∃ r w', run reconstruct w = (inr r, w) ∧ run verifyChain w = (inr r, w') ∧
    (if ok r then w' = w
     else ∃ e, oversight_rows w' = oversight_rows w ++ [e] ∧ log_eventType e = "anomaly_detected" ∧
               log_layer e = "ledger_anchoring" ∧ log_description e = break_description r) ∧
    chain w' = chain w.
Proof.
  intros Hw. set (r := replay EmptyString (order_asc sequenceId (chain w))).
  exists r. unfold verifyChain. rewrite run_bind, run_reconstruct. fold r.
  destruct (ok r) eqn:Hok; cbn [negb]; [by exists w|].
  rewrite run_bind, run_log, run_ret. eexists. split_and!; try done.
  destruct (log_tx_spec "anomaly_detected" "ledger_anchoring" (break_description r) w Hw) as [_ ->].
  by eexists.
Qed.

(** The self-audit: [verifyLog] is read-only, answers [ok] exactly when every
    entry links to its predecessor and carries its hash, and an entry written by
    [log] on an intact ledger keeps it so. *)
Theorem verifyLog_decides w :
  ∃ r, run verifyLog w = (inr r, w) ∧ (ok r = true ↔ log_linked GENESIS (oversight_list w)) ∧
    (log_intact (oversight_rows w) → ∀ event layer description,
       ∃ w' e, run (log event layer description) w = (inr e, w') ∧
         oversight_rows w' = oversight_rows w ++ [e] ∧
         run verifyLog w' = (inr {| ok := true; brokenAt := None |}, w')).
Proof.
  eexists. split; [reflexivity|]. split; [apply replay_log_linked|]. intros Hw event layer description.
  exists (log_tx event layer description w).2, (log_tx event layer description w).1.
  destruct (log_tx_spec event layer description w Hw) as [He Hr]. rewrite He.
  split_and!; [by rewrite run_log, He|done|].
  destruct (log_extends event layer description w Hw) as [[Hs Hl] _].
  by apply run_verifyLog_intact.
Qed.

(** What the oversight hash does not separate: the three texts of an entry are
    hashed by concatenation, so moving characters across their boundaries in a
    stored entry changes no answer of [verifyLog]. *)
Theorem oversight_boundaries_unprotected w w' (edit : OversightLogEntry → OversightLogEntry) :
  (∀ e, log_id (edit e) = log_id e ∧ log_hash (edit e) = log_hash e ∧ log_prevHash (edit e) = log_prevHash e ∧
        log_timestamp (edit e) = log_timestamp e ∧
        log_eventType (edit e) +:+ log_layer (edit e) +:+ log_description (edit e) =
        log_eventType e +:+ log_layer e +:+ log_description e) →
  oversight_rows w' = edit <$> oversight_rows w →
  (run verifyLog w').1 = (run verifyLog w).1.
Proof.
  intros He Hw. unfold verifyLog, getLog. rewrite !run_bind, !run_query, !run_ret. cbn [fst]. f_equal.
  unfold oversight_list. fold (oversight_rows w) (oversight_rows w'). rewrite Hw, order_asc_edit by naive_solver.
  by apply replay_log_edit.
Qed.

End AllSeeingEye.

#[export] Hint Extern 1 (guarantee _ (log _ _ _)) => apply guarantee_log; apply _ : guarantee.
#[export] Hint Extern 1 (guarantee _ (compareSupply _)) => apply guarantee_compareSupply; apply _ : guarantee.
#[export] Hint Extern 1 (guarantee _ verifyChain) => apply guarantee_verifyChain; apply _ : guarantee.

(** ** Witnesses *)

Section Witnesses.
#[local] Existing Instance transparent_platform.

Lemma fresh_log_intact : log_intact (oversight_rows fresh_world).
Proof. split; [constructor|exact I]. Qed.

Definition drift : SupplyView := {| view_totalSupply := of_Z 2; view_retained := of_Z 1 |}.

(** Two entries written by interleaved requests, and what verifying them says. *)
Definition watched : list (prog World ()) * World :=
  run_schedule [0; 1; 1; 0; 0; 1; 1; 0] (eye_program <$> [EyeCompareSupply drift; EyeVerifyChain], tampered_events).

Lemma eye_passive_witness :
  eye_only tampered_events watched.2 ∧ length (oversight_rows watched.2) = 2 ∧
  Forall log_sealed (oversight_rows watched.2).
Proof.
  destruct (eye_passive [EyeCompareSupply drift; EyeVerifyChain] tampered_events watched.2) as [H _].
  destruct (H watched.1) as [H1 H2].
  - rewrite <- surjective_pairing. unfold watched. apply run_schedule_steps.
  - split; [exact H1|]. split; [vm_compute; reflexivity|]. apply (lg_sealed _ _ H2). constructor.
Defined.

Lemma interleaved_logs_fork_witness :
  ∃ x y w', run_schedule [0; 1; 0; 1; 0; 1]
      ([log "initiation" "processing" "p"; log "initiation" "processing" "q"], fresh_world) = ([mret x; mret y], w') ∧
    log_prevHash x = log_prevHash y ∧ oversight_rows w' = [x; y] ∧
    run verifyLog w' = (inr {| ok := false; brokenAt := Some (log_id y) |}, w').
Proof.
  apply (interleaved_logs_fork "initiation" "processing" "p" "initiation" "processing" "q" fresh_world fresh_log_intact).
  vm_compute. discriminate.
Defined.

Lemma compareSupply_reports_witness :
  ∃ w' e, run (compareSupply drift) fresh_world = (inr false, w') ∧ oversight_rows w' = [e] ∧
          log_description e = "supply drift: totalSupply=2 retained=1".
Proof.
  destruct (compareSupply_reports drift fresh_world fresh_log_intact) as (w' & H1 & e & H2 & _ & _ & H3).
  exists w', e. split; [exact H1|]. split; [exact H2|]. rewrite H3. vm_compute. reflexivity.
Defined.

Lemma verifyChain_reports_witness :
  ∃ w' e, run verifyChain tampered_events = (inr {| ok := false; brokenAt := Some 2%Z |}, w') ∧
          oversight_rows w' = [e] ∧ log_description e = "nodechain integrity break at sequenceId=2".
Proof.
  destruct (verifyChain_reports tampered_events) as (r & w' & H1 & H2 & H3 & _); [split; [constructor|exact I]|].
  assert (r = {| ok := false; brokenAt := Some 2%Z |}) as Hr.
  { assert (run reconstruct tampered_events = (inr {| ok := false; brokenAt := Some 2%Z |}, tampered_events)) as E
      by (vm_compute; reflexivity). rewrite E in H1. congruence. }
  subst r. destruct H3 as (e & H3 & _ & _ & H4). exists w', e.
  split; [exact H2|]. split; [exact H3|]. rewrite H4. reflexivity.
Defined.

Lemma verifyLog_decides_witness :
  ∃ w' e, run (log "heartbeat" "supervisory" "alive") fresh_world = (inr e, w') ∧
          run verifyLog w' = (inr {| ok := true; brokenAt := None |}, w').
Proof.
  destruct (verifyLog_decides fresh_world) as (r & _ & _ & H).
  destruct (H fresh_log_intact "heartbeat" "supervisory" "alive") as (w' & e & H1 & _ & H2).
  exists w', e. split; [exact H1|exact H2].
Defined.

(** Move the layer of an entry into its event type. *)
Definition shift_layer (e : OversightLogEntry) : OversightLogEntry :=
  {| log_id := log_id e; log_eventType := log_eventType e +:+ log_layer e; log_layer := EmptyString;
     log_description := log_description e; log_hash := log_hash e; log_prevHash := log_prevHash e;
     log_timestamp := log_timestamp e; log_signature := log_signature e |}.

Lemma oversight_boundaries_unprotected_witness :
  let w := (run (log "heartbeat" "supervisory" "alive") fresh_world).2 in
  (run verifyLog (set_oversight (ST := list_storage) (shift_layer <$> oversight_rows w) w)).1 =
  inr {| ok := true; brokenAt := None |}.
Proof.
  cbn zeta. rewrite (oversight_boundaries_unprotected
    (run (log "heartbeat" "supervisory" "alive") fresh_world).2 _ shift_layer).
  - vm_compute. reflexivity.
  - intros e. repeat split. simpl. rewrite <- string_app_assoc. reflexivity.
  - reflexivity.
Defined.
End Witnesses.
