(* ===== verification/Orchestrator.v ===== *)
(** * Orchestrator: the process lifecycle

    [src/src/orchestrator/orchestrator.service.ts]. One request drives a process
    through recording, verification, emission and fee accrual; others settle an
    epoch, read a process or read the metrics. *)

From S2P Require Import Prelude Number NumberFacts NumberText Json Storage Effects Entities World.
From S2P Require Import NodeChain StateRecording Pot ArosCoin Emission Nodes Reserve Commission Release.
From S2P Require Import AllSeeingEye.
From Stdlib Require Import ZArith.

Section Orchestrator.
Context {ST : Storage} {PL : Platform}.

(** ** Data *)

Definition DEFAULT_NODES : list (string * string) :=
  [("node-1", "validator"); ("node-2", "router"); ("node-3", "recorder")].

Definition DEFAULT_EPOCH : Z := 1.
Definition RELEASE_THRESHOLD : number := of_decimal 5 (-1).
Definition RELEASE_VELOCITY_TARGET : number := of_decimal 1 (-1).

Definition releaseThresholds : number * number := (RELEASE_THRESHOLD, RELEASE_VELOCITY_TARGET).

(** The validated body of a run, [RunProcessDto]. *)
Record RunProcessInput := {
  in_processId : string;
  in_amount : number;
  in_type : string;
  in_admissible : bool;
  in_nodeIds : option (list string);
  in_epoch : option number
}.

Inductive Reason := inadmissible | unverified.

Record RunProcessResult := {
  out_processId : string;
  out_verified : bool;
  out_reason : option Reason;
  out_minted : number;
  out_fee : number;
  out_supplyAfter : number;
  out_reserveIndex : number;
  out_assignedNodes : list string;
  out_events : list string
}.

Record MetricsSnapshot := {
  met_totalSupply : number;
  met_earnedRetained : number;
  met_reserveIndex : number;
  met_verifiedProcessCount : nat;
  met_currentEpoch : Z;
  met_epochPool : number;
  met_nodeChainLength : nat;
  met_releaseActive : bool
}.

(** ** [runProcess], step by step *)

Definition observe (event layer description : string) : prog World () :=
  log event layer description;; mret tt.

Definition note (processId event : string) (data : object) : prog World () :=
  capture processId event data None;; mret tt.

Definition active_ids (registered : list NodeEntity) : list string :=
  node_id <$> filter (λ n, node_status n = active) registered.

Definition register_roster : prog World () :=
  for_each (λ '(id, type), register id type;; mret tt) DEFAULT_NODES.

Definition resolveAssignedNodes (explicit : option (list string)) : prog World (list string) :=
  match explicit with
  | Some (id :: ids) => mret (id :: ids)
  | _ =>
    registered ← nodes_list;
    if (length registered =? 0)%nat then
      register_roster;;
      registered ← nodes_list;
      mret (active_ids registered)
    else mret (active_ids registered)
  end.

(** Step 1: the process enters the record and the Eye witnesses it. *)
Definition initiate (i : RunProcessInput) : prog World () :=
  note (in_processId i) "initiation" [("amount", JNum (in_amount i))];;
  observe "initiation" "processing"
    ("process " +:+ in_processId i +:+ " initiated (amount " +:+ num_to_string (in_amount i) +:+ ")").

(** [terminate]: the result of a run that produced nothing. *)
Definition terminate (processId : string) (reason : Reason) (assigned events : list string)
  : prog World RunProcessResult :=
  idx ← reserveIndex;
  supply ← totalSupply;
  mret {| out_processId := processId; out_verified := false; out_reason := Some reason;
          out_minted := zero; out_fee := zero; out_supplyAfter := supply; out_reserveIndex := idx;
          out_assignedNodes := assigned; out_events := events |}.

(** Step 3: assignment. *)
Definition assign (i : RunProcessInput) : prog World (list string) :=
  assigned ← resolveAssignedNodes (in_nodeIds i);
  note (in_processId i) "task_assignment" [("nodes", JArr (JStr <$> assigned))];;
  observe "task_assignment" "processing"
    ("assigned to " +:+ string_of_Z (Z.of_nat (length assigned)) +:+ " nodes");;
  mret assigned.

(** Step 4: execution, with the work each node performed. *)
Definition execute (i : RunProcessInput) (assigned : list string) : prog World () :=
  note (in_processId i) "stage_transition" [("stage", JStr "execute")];;
  note (in_processId i) "execution_complete" [];;
  for_each (λ id, recordExecution id true;; mret tt) assigned.

Definition flag_text (b : bool) : string := if b then "1" else "0".

(** Step 5: the verdict, recorded and witnessed. *)
Definition judge (i : RunProcessInput) : prog World VerifyResult :=
  verdict ← verify (in_processId i);
  note (in_processId i) "pot_verdict" [("verified", flag (result_verified verdict))];;
  observe "pot_verdict" "processing"
    ("process " +:+ in_processId i +:+ " verified=" +:+ flag_text (result_verified verdict));;
  mret verdict.

(** The unverified branch. *)
Definition reject (i : RunProcessInput) (assigned events : list string) : prog World RunProcessResult :=
  note (in_processId i) "final_status" [("status", JStr "rejected")];;
  idx ← reserveIndex;
  supply ← totalSupply;
  view ← supplyView;
  compareSupply view;;
  mret {| out_processId := in_processId i; out_verified := false; out_reason := Some unverified;
          out_minted := zero; out_fee := zero; out_supplyAfter := supply; out_reserveIndex := idx;
          out_assignedNodes := assigned; out_events := events ++ ["final_status"] |}.

Definition participations (processId : string) (assigned : list string) : list Participation :=
  (λ id, {| part_processId := processId; part_nodeId := id |}) <$> assigned.

Definition default_fee (amount : number) : number := computeFee amount zero.

(** Steps 6 and 7: mint, accrue the fee, burn. *)
Definition produce (i : RunProcessInput) (epoch : number) (assigned : list string) : prog World number :=
  minted ← mint (in_processId i) (in_amount i);
  note (in_processId i) "emission" [("minted", JNum minted)];;
  observe "mint" "token_management" ("minted " +:+ num_to_string minted +:+ " for " +:+ in_processId i);;
  accrue epoch (default_fee (in_amount i)) (participations (in_processId i) assigned);;
  burned ← burn (in_processId i) minted;
  observe "burn" "token_management" ("burned " +:+ num_to_string burned +:+ " for " +:+ in_processId i);;
  mret minted.

(** Steps 8 and 9: the derived figures and the final record. *)
Definition conclude (i : RunProcessInput) (minted : number) (assigned events : list string)
  : prog World RunProcessResult :=
  idx ← reserveIndex;
  note (in_processId i) "final_status" [("status", JStr "done")];;
  observe "final_status" "ledger_anchoring" ("process " +:+ in_processId i +:+ " finalized");;
  view ← supplyView;
  compareSupply view;;
  supply ← totalSupply;
  mret {| out_processId := in_processId i; out_verified := true; out_reason := None;
          out_minted := minted; out_fee := default_fee (in_amount i); out_supplyAfter := supply;
          out_reserveIndex := idx; out_assignedNodes := assigned;
          out_events := events ++ ["final_status"] |}.

Definition judged_events : list string :=
  ["initiation"; "task_assignment"; "stage_transition"; "execution_complete"; "pot.verified"; "pot_verdict"].

Definition produced_events : list string := judged_events ++ ["emission.minted"; "emission"; "emission.burned"].

Definition runProcess (i : RunProcessInput) : prog World RunProcessResult :=
  let epoch := default (of_Z DEFAULT_EPOCH) (in_epoch i) in
  initiate i;;
  if negb (in_admissible i) then
    observe "anomaly_detected" "processing"
      ("process " +:+ in_processId i +:+ " inadmissible — rejected");;
    terminate (in_processId i) inadmissible [] ["initiation"]
  else
    assigned ← assign i;
    execute i assigned;;
    verdict ← judge i;
    if negb (result_verified verdict) then reject i assigned judged_events
    else
      minted ← produce i epoch assigned;
      conclude i minted assigned produced_events.

(** ** The other requests *)

Definition bool_text (b : bool) : string := if b then "true" else "false".

Definition settlement_description (epoch : Z) (r : FinalizeResult) : string :=
  "epoch " +:+ string_of_Z epoch +:+ ": paid " +:+ num_to_string (final_paid r) +:+ ", margin " +:+
  num_to_string (final_operationalMargin r) +:+ ", reconciled=" +:+ bool_text (final_reconciled r).

Definition orchestrator_finalizeEpoch (epoch : Z) : prog World FinalizeResult :=
  result ← finalizeEpoch epoch;
  observe "commission_distribution" "token_management" (settlement_description epoch result);;
  view ← supplyView;
  compareSupply view;;
  mret result.

Record ProcessEvent := { pe_eventType : string; pe_sequenceId : Z; pe_timestamp : Z }.

Record ProcessView := {
  pv_processId : string;
  pv_verdict : option (bool * list string);
  pv_events : list ProcessEvent
}.

Definition of_process (processId : string) (s : ExecutionSnapshot) : bool :=
  match property "processId" (payload s) with Some (JStr p) => String.eqb p processId | _ => false end.

Definition process_event (s : ExecutionSnapshot) : ProcessEvent :=
  {| pe_eventType := eventType s; pe_sequenceId := sequenceId s; pe_timestamp := timestamp s |}.

Definition getProcess (processId : string) : prog World ProcessView :=
  verdict ← getVerdict processId;
  history ← chain_list None None;
  mret {| pv_processId := processId;
          pv_verdict := (λ v, (verified v, reasons v)) <$> verdict;
          pv_events := process_event <$> filter (λ s, of_process processId s = true) history |}.

(** The seven reads are issued together; they touch disjoint rows, apart from the
    ledger row, whose creation they share, and are run here one after another. A read
    that fails does not stop the others, so the failure of the epoch's query is raised
    at the end. *)
Definition metrics (epoch : Z) : prog World MetricsSnapshot :=
  supply ← totalSupply;
  earned ← retained;
  idx ← reserveIndex;
  verdicts ← verdict_list;
  epochRow ← attempt (getEpoch epoch);
  history ← chain_list None None;
  releaseActive ← isActive;
  match epochRow with
  | inl e => Throw e
  | inr epochRow =>
    mret {| met_totalSupply := supply; met_earnedRetained := earned; met_reserveIndex := idx;
            met_verifiedProcessCount := length (filter (λ v, verified v = true) verdicts);
            met_currentEpoch := epoch;
            met_epochPool := match epochRow with Some e => totalFees e | None => zero end;
            met_nodeChainLength := length history; met_releaseActive := releaseActive |}
  end.

(** ** Abstract specification *)

(** The epoch a run accrues to: the key of the [integer] column its number is, if any. *)
Definition run_epoch (i : RunProcessInput) : option Z :=
  integer_key (default (of_Z DEFAULT_EPOCH) (in_epoch i)).

(** The event types of the chain, in order. *)
Definition events (w : World) : list string := eventType <$> chain w.

(** Events that leave the confirmed volume alone. *)
Definition mute (e : string) : Prop := e ≠ CONFIRMED_VOLUME_EVENT ∧ e ≠ COMMISSION_EPOCH_EVENT.

Ltac mutes := solve [repeat first [apply Forall_nil_2 | apply Forall_cons_2; [by split|]]].

(** What every step of a run that is not a verdict, a mint, a burn or an accrual
    does: it may add events, tick, write to the oversight ledger, update counters
    of registered nodes and mark captured events; it moves no value, no verdict
    and no pool. *)
Record quiet (evs : list string) (w w' : World) : Prop := {
  q_chain : intact (chain w) → intact (chain w') ∧ events w' = events w ++ evs;
  q_ledger : ledger_ok w → ledger_ok w' ∧ tallies w' = tallies w;
  q_verdicts : verdicts w' = verdicts w;
  q_epochs : epochs w' = epochs w;
  q_participation : participation w' = participation w;
  q_captured : captured_grows w w';
  q_registered : ∀ id, node_of id w ≠ None → node_of id w' ≠ None;
  q_nodes : nodes_ok w → nodes_ok w';
  q_volume : intact (chain w) → Forall mute evs → process_volume (chain w') = process_volume (chain w)
}.

(** ** Facts *)

Lemma quiet_refl w : quiet [] w w.
Proof.
  split; try done. intros Hi. split; [done|]. by rewrite app_nil_r.
Qed.

Lemma quiet_trans e1 e2 w w1 w2 : quiet e1 w w1 → quiet e2 w1 w2 → quiet (e1 ++ e2) w w2.
Proof.
  intros Q1 Q2. pose proof Q1 as [A1 B1 C1 D1 E1 F1 G1 H1]. pose proof Q2 as [A2 B2 C2 D2 E2 F2 G2 H2].
  split; try congruence.
  - intros Hi. destruct (A1 Hi) as [Hi1 He1], (A2 Hi1) as [Hi2 He2]. split; [done|].
    by rewrite He2, He1, app_assoc.
  - intros Hl. destruct (B1 Hl) as [Hl1 Ht1], (B2 Hl1) as [Hl2 Ht2]. split; [done|congruence].
  - by transitivity w1.
  - auto.
  - auto.
  - intros Hi [Hm1 Hm2]%Forall_app. rewrite (q_volume _ _ _ Q2), (q_volume _ _ _ Q1); try done. by apply A1.
Qed.

Lemma quiet_cons e evs w w1 w2 : quiet [e] w w1 → quiet evs w1 w2 → quiet (e :: evs) w w2.
Proof. apply (quiet_trans [e]). Qed.

Lemma quiet_append e pl w : quiet [e] w (append_tx e pl w).2.
Proof.
  split; try done.
  - intros Hi. split; [by apply append_extends|]. unfold events. rewrite append_chain by done.
    by rewrite fmap_app.
  - apply append_captured.
  - intros Hi [[H1 H2] _]%Forall_cons. by rewrite append_chain, process_volume_snoc, contribution_other by done.
Qed.

Lemma quiet_remember p e w : quiet [] w (remember p e w).
Proof.
  split; try done; [|apply remember_captured].
  intros Hi. split; [done|]. by rewrite app_nil_r.
Qed.

Lemma quiet_log event layer description w : quiet [] w (log_tx event layer description w).2.
Proof.
  split; try done; [|intros p e He; exact He]. intros Hi. split; [exact Hi|]. by rewrite app_nil_r.
Qed.

Lemma quiet_ensureLedger w : quiet [] w (ensureLedger w).
Proof.
  destruct (ensureLedger_only w) as [H1 H2 H3 H4 H5 H6 H7 H8 H9].
  split; try done.
  - intros Hi. unfold events. rewrite chain_ensureLedger. split; [done|]. by rewrite app_nil_r.
  - intros Hl. split; [by apply ensureLedger_ok|by apply ensureLedger_tallies].
  - intros p. unfold capturedEvents. by rewrite H8.
  - intros id. unfold node_of. by rewrite H5.
  - unfold nodes_ok. by rewrite H5.
  - by rewrite chain_ensureLedger.
Qed.

Lemma quiet_save_node n w : node_ok n → quiet [] w (save_node n w).
Proof.
  intros Hn. split; try done.
  - intros Hi. split; [done|]. by rewrite app_nil_r.
  - intros p e He. exact He.
  - intros id Hid. rewrite node_of_save. by case_decide.
  - intros Hw. by apply nodes_ok_save.
Qed.

(** Running a step quietly: it succeeds, with those events. *)
Definition quietly {A} (evs : list string) (p : prog World A) (w : World) (Q : A → World → Prop) : Prop :=
  ∃ a w', run p w = (inr a, w') ∧ quiet evs w w' ∧ Q a w'.

Lemma quietly_bind {A B} e1 e2 (p : prog World A) (k : A → prog World B) w Q Q' :
  quietly e1 p w Q → (∀ a w', quiet e1 w w' → Q a w' → quietly e2 (k a) w' Q') →
  quietly (e1 ++ e2) (p ≫= k) w Q'.
Proof.
  intros (a & w1 & Hrun & Hq & HQ) Hk. destruct (Hk a w1 Hq HQ) as (b & w2 & Hrun2 & Hq2 & HQ2).
  exists b, w2. rewrite run_bind, Hrun. split_and!; [done|by eapply quiet_trans|done].
Qed.

Lemma quietly_ret {A} (a : A) w (Q : A → World → Prop) : Q a w → quietly [] (mret a) w Q.
Proof. intros HQ. exists a, w. split_and!; [done|apply quiet_refl|done]. Qed.

Lemma quietly_note p e d w :
  quietly [e] (note p e d) w (λ _ w', e ∈ capturedEvents p w').
Proof.
  eexists _, _. unfold note. rewrite run_bind, run_capture, run_ret. split_and!; [reflexivity| |].
  - apply (quiet_trans [e] [] _ _ _ (quiet_append _ _ _) (quiet_remember _ _ _)).
  - rewrite capturedEvents_remember, decide_True by done. set_solver.
Qed.

Lemma quietly_observe event layer description w :
  quietly [] (observe event layer description) w (λ _ _, True).
Proof.
  eexists _, _. unfold observe. rewrite run_bind, run_log, run_ret.
  split_and!; [reflexivity|apply quiet_log|done].
Qed.

Lemma quietly_ledger_read {A} (f : ArosCoinLedger → A) w :
  ledger_ok w → quietly [] (row ← ledger; mret (f row)) w (λ a _, a = f (tallies w)).
Proof.
  intros Hok. eexists _, _. rewrite run_read_ledger by done.
  split_and!; [reflexivity|apply quiet_ensureLedger|done].
Qed.

Lemma quietly_compareSupply view w :
  quietly [] (compareSupply view) w (λ b _, b = num_eqb (view_totalSupply view) (view_retained view)).
Proof.
  unfold compareSupply. destruct (num_eqb _ _); cbn [negb]; [by apply quietly_ret|].
  apply (quietly_bind [] [] _ _ _ (λ _ _, True)).
  - eexists _, _. rewrite run_log. split_and!; [reflexivity|apply quiet_log|done].
  - intros e w' _ _. by apply quietly_ret.
Qed.

Lemma quietly_reserveIndex w : quietly [] reserveIndex w (λ v _, v = world_index w).
Proof. exists (world_index w), w. split_and!; [exact (run_reserveIndex w)|apply quiet_refl|done]. Qed.

(** *** Assignment *)

Definition known (w : World) (ids : list string) : Prop := Forall (λ id, node_of id w ≠ None) ids.

Lemma known_quiet evs ids w w' : quiet evs w w' → known w ids → known w' ids.
Proof. intros [_ _ _ _ _ _ Hr _] Hk. eapply Forall_impl; [exact Hk|]. auto. Qed.

Lemma active_ids_known w : known w (active_ids (find (nodes w))).
Proof.
  apply Forall_forall. intros id Hid. unfold active_ids in Hid.
  apply list_elem_of_fmap in Hid as (n & -> & Hn). apply list_elem_of_filter in Hn as [_ Hn].
  unfold node_of. rewrite findOne_find. intros Hl. apply lookup_key_none in Hl. destruct Hl.
  by apply (list_elem_of_fmap_2 node_id).
Qed.

Lemma quietly_register id type w :
  quietly ["node.registered"] (register id type;; mret tt) w (λ _ _, True).
Proof.
  eexists _, _. unfold register. rewrite !run_bind, run_update, run_bind, run_append, run_ret, run_ret.
  split_and!; [reflexivity| |done].
  apply (quiet_trans [] ["node.registered"] _ _ _ (quiet_save_node _ _ (new_node_ok _ _)) (quiet_append _ _ _)).
Qed.

Lemma quietly_for_each {A} (evs : list string) (f : A → prog World ()) (I : World → Prop) l w :
  (∀ x w, I w → x ∈ l → quietly evs (f x) w (λ _ w', I w')) → I w →
  quietly (concat (replicate (length l) evs)) (for_each f l) w (λ _ w', I w').
Proof.
  revert w. induction l as [|x l IH]; intros w Hf Hw; [by apply quietly_ret|]. cbn [for_each].
  apply (quietly_bind evs _ _ _ _ (λ _ w', I w')); [apply Hf; [done|left]|].
  intros _ w' _ Hw'. apply IH; [|done]. intros y w2 Hw2 Hy. apply Hf; [done|by right].
Qed.

Lemma quietly_register_roster w :
  quietly ["node.registered"; "node.registered"; "node.registered"] register_roster w (λ _ _, True).
Proof.
  apply (quietly_for_each ["node.registered"] _ (λ _, True) DEFAULT_NODES); [|done].
  intros [id type] w' _ _. apply quietly_register.
Qed.

(** The explicit nodes of a request are registered. *)
Definition assignable (w : World) (ids : option (list string)) : Prop :=
  match ids with Some ids => known w ids | None => True end.

(** The roster a request brings in on an empty registry. *)
Definition roster_events (w : World) (ids : option (list string)) : list string :=
  match ids with
  | Some (_ :: _) => []
  | _ => if (length (find (nodes w)) =? 0)%nat
         then ["node.registered"; "node.registered"; "node.registered"] else []
  end.

Lemma quietly_resolve ids w :
  assignable w ids →
  quietly (roster_events w ids) (resolveAssignedNodes ids) w (λ assigned w',
    known w' assigned ∧ match ids with Some (id :: ids) => assigned = id :: ids | _ => True end).
Proof.
  assert (quietly (if (length (find (nodes w)) =? 0)%nat
         then ["node.registered"; "node.registered"; "node.registered"] else [])
    (registered ← nodes_list;
     if (length registered =? 0)%nat then
       register_roster;; registered ← nodes_list; mret (active_ids registered)
     else mret (active_ids registered)) w (λ assigned w', known w' assigned ∧ True)) as Hdefault.
  { apply (quietly_bind [] _ _ _ _ (λ l w', l = find (nodes w) ∧ w' = w)).
    - eexists _, _. unfold nodes_list. rewrite run_query. split_and!; [reflexivity|apply quiet_refl|done..].
    - intros l w' _ [-> ->]. destruct (length (find (nodes w)) =? 0)%nat.
      + apply (quietly_bind ["node.registered"; "node.registered"; "node.registered"] [] _ _ _ (λ _ _, True));
          [apply quietly_register_roster|]. intros _ w1 _ _.
        eexists _, _. unfold nodes_list. rewrite run_bind, run_query, run_ret.
        split_and!; [reflexivity|apply quiet_refl|apply active_ids_known|done].
      + apply quietly_ret. split; [apply active_ids_known|done]. }
  intros Ha. destruct ids as [[|id ids]|]; [exact Hdefault| |exact Hdefault].
  apply quietly_ret. done.
Qed.

(** *** The quiet steps of a run *)

Lemma quietly_initiate i w :
  quietly ["initiation"] (initiate i) w (λ _ w', "initiation" ∈ capturedEvents (in_processId i) w').
Proof.
  unfold initiate.
  apply (quietly_bind ["initiation"] [] _ _ _ (λ _ w', "initiation" ∈ capturedEvents (in_processId i) w'));
    [apply quietly_note|]. intros _ w1 _ Hw1.
  destruct (quietly_observe "initiation" "processing" ("process " +:+ in_processId i +:+ " initiated (amount " +:+
    num_to_string (in_amount i) +:+ ")") w1) as (a & w2 & Hrun & Hq & _).
  exists a, w2. split_and!; [done|done|]. by apply Hq.
Qed.

Lemma quietly_assign i w :
  assignable w (in_nodeIds i) →
  quietly (roster_events w (in_nodeIds i) ++ ["task_assignment"]) (assign i) w (λ assigned w',
    known w' assigned ∧ "task_assignment" ∈ capturedEvents (in_processId i) w' ∧
    match in_nodeIds i with Some (id :: ids) => assigned = id :: ids | _ => True end).
Proof.
  intros Ha. unfold assign. eapply quietly_bind; [by apply quietly_resolve|].
  intros assigned w1 _ [Hk Hi]. cbn beta in *.
  apply (quietly_bind ["task_assignment"] [] _ _ _
    (λ _ w', "task_assignment" ∈ capturedEvents (in_processId i) w' ∧ known w' assigned)).
  - destruct (quietly_note (in_processId i) "task_assignment" [("nodes", JArr (JStr <$> assigned))] w1)
      as (a & w2 & Hrun & Hq & Hc). exists a, w2. split_and!; [done..|]. by eapply known_quiet.
  - intros _ w2 _ [Hc Hk2]. apply (quietly_bind [] [] _ _ _ (λ _ w', quiet [] w2 w')).
    + destruct (quietly_observe "task_assignment" "processing"
        ("assigned to " +:+ string_of_Z (Z.of_nat (length assigned)) +:+ " nodes") w2) as (a & w3 & Hrun & Hq & _).
      by exists a, w3.
    + intros _ w3 _ Hq. apply quietly_ret. split_and!; [by eapply known_quiet|by apply Hq|done].
Qed.

Lemma quietly_recordExecution id w :
  nodes_ok w → node_of id w ≠ None → quietly [] (recordExecution id true;; mret tt) w (λ _ w', True).
Proof.
  intros Hw Hn. destruct (node_of id w) as [n|] eqn:E; [|done]. eexists _, _.
  rewrite run_bind, run_recordExecution, E, run_ret. split_and!; [reflexivity| |done].
  apply quiet_save_node, executed_node_ok. by eapply node_of_ok.
Qed.

Lemma concat_replicate_nil {A} n : concat (replicate n ([] : list A)) = [].
Proof. by induction n. Qed.

Lemma quietly_execute i assigned w :
  nodes_ok w → known w assigned →
  quietly ["stage_transition"; "execution_complete"] (execute i assigned) w (λ _ w',
    "stage_transition" ∈ capturedEvents (in_processId i) w' ∧
    "execution_complete" ∈ capturedEvents (in_processId i) w').
Proof.
  intros Hw Hk. unfold execute.
  apply (quietly_bind ["stage_transition"] ["execution_complete"] _ _ _
    (λ _ w', "stage_transition" ∈ capturedEvents (in_processId i) w')); [apply quietly_note|].
  intros _ w1 Hq1 H1. apply (quietly_bind ["execution_complete"] [] _ _ _
    (λ _ w', "execution_complete" ∈ capturedEvents (in_processId i) w')); [apply quietly_note|].
  intros _ w2 Hq2 H2.
  destruct (quietly_for_each [] (λ id, recordExecution id true;; mret tt)
    (λ w', nodes_ok w' ∧ known w' assigned) assigned w2) as (a & w3 & Hrun & Hq & _).
  - intros id w' [Hok Hk'] Hid. assert (node_of id w' ≠ None) as Hn
      by (unfold known in Hk'; rewrite Forall_forall in Hk'; auto).
    destruct (quietly_recordExecution id w' Hok Hn) as (a & w3 & Hrun & Hq & _).
    exists a, w3. split_and!; [done..|by apply Hq|by eapply known_quiet].
  - split; [by apply Hq2, Hq1|]. by eapply known_quiet, known_quiet.
  - rewrite concat_replicate_nil in Hq. exists a, w3. split_and!; [done..| |].
    + apply (q_captured _ _ _ Hq), (q_captured _ _ _ Hq2), H1.
    + apply (q_captured _ _ _ Hq), H2.
Qed.

(** *** The verdict *)

(** What a verdict changes: at most one event, and the row of its process. *)
Record judged (p : string) (v : PotVerdict) (w w' : World) : Prop := {
  j_verdict : verdict_of p w' = Some v;
  j_deserved : match verdict_of p w with
               | Some v0 => v = v0 | None => verified v = true ↔ all_required (capturedEvents p w) end;
  j_chain : intact (chain w') ∧
    events w' = events w ++ (if verdict_of p w is Some _ then [] else ["pot.verified"]);
  j_ledger : ledger_ok w → ledger_ok w';
  j_tallies : tallies w' = tallies w;
  j_epochs : epochs w' = epochs w;
  j_participation : participation w' = participation w;
  j_nodes : nodes w' = nodes w;
  j_captured : captured w' = captured w;
  j_others : ∀ q, q ≠ p → verdict_of q w' = verdict_of q w;
  j_volume : process_volume (chain w') = process_volume (chain w)
}.

Lemma run_verify_judged p w :
  intact (chain w) →
  ∃ v w', run (verify p) w = (inr (verdict_result v), w') ∧ judged p v w w'.
Proof.
  intros Hi. destruct (verdict_of p w) as [v|] eqn:Hv.
  - exists v, w. split; [by apply run_verify_existing|].
    split; try done; rewrite Hv; [done|]. split; [done|]. by rewrite app_nil_r.
  - destruct (run_verify_new p w Hv) as (v & Hrun & Hv').
    rewrite order_asc_numbered, replay_ok_eq in Hrun, Hv' by apply Hi. cbn [ok] in Hrun, Hv'.
    destruct (verify_world_appends p w true Hi) as (Hc & Hvo & Hq & _).
    exists v, (verify_world p true w). split; [done|].
    split; try done; try rewrite Hv.
    + rewrite Hvo in Hv'. injection Hv' as <-. cbn [new_verdict verified].
      rewrite every_criterion_deserved. unfold deserved. tauto.
    + rewrite Hc. split; [by apply intact_snoc|]. unfold events. by rewrite Hc, fmap_app.
    + by rewrite Hc, process_volume_snoc, contribution_other.
Qed.

(** *** Production *)

(** A number as it comes back from the [payload] column. *)
Definition stored_amount (x : number) : number := json_to_num (stored_num x).

Lemma minted_property p x : number_property "minted" (stored (minted_payload p x)) = stored_amount x.
Proof. by destruct x as [[]|[]| |]. Qed.

(** What minting, accruing and burning changes. *)
Record produced (i : RunProcessInput) (epoch : Z) (assigned : list string) (w w' : World) : Prop := {
  p_chain : intact (chain w) → intact (chain w') ∧
    events w' = events w ++ ["emission.minted"; "emission"; "emission.burned"];
  p_ledger : ledger_ok w';
  p_tallies : tallies w' = cycled (tallies w) (in_amount i);
  p_verdicts : ∀ q, verdict_of q w' = verdict_of q w;
  p_pool : ∃ e, epoch_of epoch w' = Some (epoch_row (add_fee e (default_fee (in_amount i)))) ∧
    match epoch_of epoch w with Some e0 => e = e0 | None => totalFees e = zero ∧ epoch_status e = open end;
  p_participants : participants_of epoch w' =
    participants_of epoch w ++ participations (in_processId i) assigned;
  p_epochs : ∀ m, m ≠ epoch → epoch_of m w' = epoch_of m w ∧ participants_of m w' = participants_of m w;
  p_registered : ∀ id, node_of id w' = node_of id w;
  p_nodes : nodes w' = nodes w;
  p_volume : intact (chain w) → is_finite (stored_amount (in_amount i)) = true →
    process_volume (chain w') = (process_volume (chain w) + stored_amount (in_amount i))%num
}.

Lemma run_accrue_frame x n fee parts w :
  integer_key x = Some n →
  ∃ e w', run (accrue x fee parts) w = (inr (add_fee e fee), w') ∧
    chain w' = chain w ∧ ledger_rows w' = ledger_rows w ∧ ledger_ready w' = ledger_ready w ∧
    nodes w' = nodes w ∧ verdicts w' = verdicts w ∧ captured w' = captured w ∧
    epoch_of n w' = Some (epoch_row (add_fee e fee)) ∧
    match epoch_of n w with Some e0 => e = e0 | None => totalFees e = zero ∧ epoch_status e = open end ∧
    participants_of n w' = participants_of n w ++ parts ∧
    (∀ m, m ≠ n → epoch_of m w' = epoch_of m w ∧ participants_of m w' = participants_of m w).
Proof.
  intros Hx. rewrite run_accrue, Hx. apply integer_key_spec in Hx as [_ Hk].
  destruct (accrued_epoch_spec n w) as (Hn & Hm & Hw). destruct (accrued_epoch n w) as [e w1]. cbn [fst snd] in *.
  exists e, (push_participants n parts (save_epoch (add_fee e fee) w1)). split; [done|].
  assert (∀ m, epoch_of m (save_epoch (add_fee e fee) w1) =
     if decide (n = m) then Some (epoch_row (add_fee e fee)) else epoch_of m w) as Hep.
  { intros m. rewrite epoch_of_save by (cbn; congruence). cbn [epochNumber add_fee]. rewrite Hn.
    case_decide; [done|]. by destruct Hw as [->| ->]. }
  assert (∀ m, participants_of m (save_epoch (add_fee e fee) w1) = participants_of m w) as Hpa
    by (destruct Hw as [->| ->]; done).
  split_and!; try (by destruct Hw as [->| ->]); try done.
  - change (epoch_of n (save_epoch (add_fee e fee) w1) = Some (epoch_row (add_fee e fee))).
    rewrite Hep. by rewrite decide_True.
  - rewrite Hm. by destruct (epoch_of n w).
  - rewrite participants_push, decide_True by done. by rewrite Hpa.
  - intros m Hm'. change (epoch_of m (push_participants n parts (save_epoch (add_fee e fee) w1)))
      with (epoch_of m (save_epoch (add_fee e fee) w1)).
    rewrite Hep, participants_push, !decide_False by congruence. by rewrite Hpa.
Qed.

Lemma events_eq w w' : chain w' = chain w → events w' = events w.
Proof. unfold events. by intros ->. Qed.

Lemma after_write_frame f w :
  ledger_ok w → ledger_id (f (tallies w)) = LEDGER_ID →
  ledger_ok (after_write f w) ∧ tallies (after_write f w) = f (tallies w) ∧ only_ledger w (after_write f w).
Proof. intros Hok Hid. destruct (after_write_spec f w Hok Hid) as (? & ? & ?). done. Qed.

(** A ledger write followed by its event. *)
Lemma write_then_append f e pl w :
  ledger_ok w → ledger_id (f (tallies w)) = LEDGER_ID →
  let w' := (append_tx e pl (after_write f w)).2 in
  ledger_ok w' ∧ tallies w' = f (tallies w) ∧
  (intact (chain w) → intact (chain w') ∧ events w' = events w ++ [e]) ∧
  verdicts w' = verdicts w ∧ epochs w' = epochs w ∧ participation w' = participation w ∧
  nodes w' = nodes w ∧ captured w' = captured w.
Proof.
  intros Hok Hid. cbn zeta. destruct (after_write_frame f w Hok Hid) as (Hl & Ht & Ho).
  pose proof (only_ledger_chain _ _ Ho) as Hc. destruct Ho as [_ _ O3 O4 O5 _ _ O8 O9].
  split_and!; try done. intros Hi. rewrite <- Hc in Hi. split; [by apply append_extends|].
  unfold events. rewrite append_chain, Hc, fmap_app by done. done.
Qed.

Lemma run_assoc {A B C} (p : prog World A) (k : A → prog World B) (k' : B → prog World C) w :
  run ((p ≫= k) ≫= k') w = run (p ≫= λ a, k a ≫= k') w.
Proof. rewrite !run_bind. destruct (run p w) as [[e|a] w']; [done|]. by rewrite run_bind. Qed.

(** The mint of a run, recorded and witnessed. *)
Definition mint_noted (i : RunProcessInput) : prog World number :=
  minted ← mint (in_processId i) (in_amount i);
  note (in_processId i) "emission" [("minted", JNum minted)];;
  observe "mint" "token_management" ("minted " +:+ num_to_string minted +:+ " for " +:+ in_processId i);;
  mret minted.

Lemma run_mint_noted i w :
  ledger_ok w → confirmed (verdict_of (in_processId i) w) = true →
  ∃ w', run (mint_noted i) w = (inr (in_amount i), w') ∧
    quiet ["emission"] (minted_world (in_processId i) (in_amount i) w) w' ∧
    nodes w' = nodes (minted_world (in_processId i) (in_amount i) w).
Proof.
  intros Hok Hv. unfold mint_noted. rewrite run_bind, run_mint, Hv by done.
  set (w1 := minted_world (in_processId i) (in_amount i) w).
  destruct (quietly_note (in_processId i) "emission" [("minted", JNum (in_amount i))] w1) as (a2 & w2 & R2 & Q2 & _).
  rewrite run_bind, R2.
  destruct (quietly_observe "mint" "token_management"
    ("minted " +:+ num_to_string (in_amount i) +:+ " for " +:+ in_processId i) w2) as (a3 & w3 & R3 & Q3 & _).
  rewrite run_bind, R3, run_ret. exists w3. split; [done|]. split; [apply (quiet_trans _ _ _ _ _ Q2 Q3)|].
  clear -R2 R3. unfold note in R2. rewrite run_bind, run_capture, run_ret in R2. injection R2 as _ <-.
  unfold observe in R3. rewrite run_bind, run_log, run_ret in R3. by injection R3 as _ <-.
Qed.

Lemma produce_noted i x assigned w :
  run (produce i x assigned) w =
  run (minted ← mint_noted i;
       accrue x (default_fee (in_amount i)) (participations (in_processId i) assigned);;
       burned ← burn (in_processId i) minted;
       observe "burn" "token_management" ("burned " +:+ num_to_string burned +:+ " for " +:+ in_processId i);;
       mret minted) w.
Proof.
  unfold produce, mint_noted. rewrite run_assoc, !run_bind.
  destruct (run (mint (in_processId i) (in_amount i)) w) as [[e|m] w1]; [done|].
  rewrite run_assoc, !run_bind. destruct (run (note _ _ _) w1) as [[e|u] w2]; [done|].
  rewrite run_assoc, !run_bind. by destruct (run (observe _ _ _) w2) as [[e|u'] w3].
Qed.

(** An epoch that is no key makes production stop after the mint. *)
Lemma run_produce_unkeyed i x assigned w :
  integer_key x = None → ledger_ok w → confirmed (verdict_of (in_processId i) w) = true →
  ∃ w', run (produce i x assigned) w = (inl QueryFailedError, w') ∧
    quiet ["emission"] (minted_world (in_processId i) (in_amount i) w) w'.
Proof.
  intros Hx Hok Hv. destruct (run_mint_noted i w Hok Hv) as (w1 & R1 & Q1 & _).
  exists w1. split; [|done]. by rewrite produce_noted, run_bind, R1, run_bind, run_accrue, Hx.
Qed.

Lemma run_produce i x epoch assigned w :
  integer_key x = Some epoch → ledger_ok w → confirmed (verdict_of (in_processId i) w) = true →
  ∃ w', run (produce i x assigned) w = (inr (in_amount i), w') ∧ produced i epoch assigned w w'.
Proof.
  intros Hkey Hok Hv. destruct (run_mint_noted i w Hok Hv) as (w3 & R13 & Q13 & N3).
  rewrite produce_noted, run_bind, R13. clear R13. set (p := in_processId i) in *. set (x0 := in_amount i) in *.
  destruct (write_then_append (λ r, add_minted r x0) "emission.minted" (minted_payload p x0) w Hok)
    as (L1 & T1 & C1 & V1 & E1 & P1 & N1 & _); [apply tallies_id|].
  fold (minted_world p x0 w) in *. set (w1 := minted_world p x0 w) in *.
  pose proof Q13 as [QC QL QV QE QP _ _ _ QVv].
  destruct (QL L1) as [L3 T3].
  destruct (run_accrue_frame x epoch (default_fee x0) (participations p assigned) w3 Hkey)
    as (e & w4 & R4 & A1 & A2 & A3 & A4 & A5 & A6 & A7 & A8 & A9 & A10).
  rewrite run_bind, R4. assert (ledger_ok w4) as L4 by (by apply (ledger_ok_keep w3)).
  assert (tallies w4 = tallies w3) as T4 by (unfold tallies; by rewrite A2).
  rewrite run_bind, run_burn by done.
  destruct (write_then_append (λ r, add_burned r x0) "emission.burned" (burned_payload p x0) w4 L4)
    as (L5 & T5 & C5 & V5 & E5 & P5 & N5 & _); [apply tallies_id|].
  fold (burned_world p x0 w4) in *. set (w5 := burned_world p x0 w4) in *.
  destruct (quietly_observe "burn" "token_management"
    ("burned " +:+ num_to_string x0 +:+ " for " +:+ p) w5) as (a6 & w6 & R6 & Q6 & _).
  rewrite run_bind, R6, run_ret. exists w6. split; [done|].
  destruct Q6 as [QC6 QL6 QV6 QE6 QP6 _ _ _ QV6v]. destruct (QL6 L5) as [L6 T6].
  assert (nodes w6 = nodes w5) as N6.
  { clear -R6. unfold observe in R6. rewrite run_bind, run_log, run_ret in R6. by injection R6 as _ <-. }
  assert (∀ m, epoch_of m w6 = epoch_of m w4) as E6 by (intros m; apply epoch_of_eq; congruence).
  assert (∀ m, participants_of m w6 = participants_of m w4) as P6
    by (intros m; apply participants_eq; congruence).
  assert (∀ m, epoch_of m w3 = epoch_of m w) as E3 by (intros m; apply epoch_of_eq; congruence).
  assert (∀ m, participants_of m w3 = participants_of m w) as P3
    by (intros m; apply participants_eq; congruence).
  split.
  - intros Hi. destruct (C1 Hi) as [I1 H1], (QC I1) as [I3 H3].
    assert (intact (chain w4)) as I4 by (by rewrite A1). destruct (C5 I4) as [I5 H5], (QC6 I5) as [I6 H6].
    split; [done|]. rewrite H6, H5, (events_eq _ _ A1), H3, H1, app_nil_r, <- !app_assoc. done.
  - done.
  - unfold cycled. by rewrite T6, T5, T4, T3, T1.
  - intros q. unfold verdict_of. congruence.
  - exists e. rewrite E6, A7. split; [done|]. by rewrite E3 in A8.
  - by rewrite P6, A9, P3.
  - intros m Hm. destruct (A10 m Hm) as [H1 H2]. by rewrite E6, P6, H1, H2, E3, P3.
  - intros id. unfold node_of. congruence.
  - congruence.
  - intros Hi Hx. destruct (C1 Hi) as [I1 H1], (QC I1) as [I3 H3].
    assert (intact (chain w4)) as I4 by (by rewrite A1). destruct (C5 I4) as [I5 H5].
    destruct (minted_world_spec p x0 w Hok) as (_ & _ & _ & _ & M).
    destruct (M Hi) as (_ & s & Hs & Es & Ps). fold w1 in Hs.
    destruct (burned_world_spec p x0 w4 L4) as (_ & _ & _ & _ & B).
    destruct (B I4) as (_ & s' & Hs' & Es' & Ps'). fold w5 in Hs'.
    rewrite QV6v, Hs', process_volume_snoc, contribution_other, A1, QVv by first [done | mutes | by rewrite Es'].
    by rewrite Hs, process_volume_snoc, (contribution_minted _ (stored_amount x0)) by (done || by rewrite Ps, minted_property).
Qed.

(** *** The ends of a run *)

Lemma quietly_supplyView w :
  ledger_ok w → quietly [] supplyView w (λ v w', ledger_ok w' ∧ tallies w' = tallies w ∧
    view_totalSupply v = supply_of (tallies w) ∧ view_retained v = earnedRetained (tallies w)).
Proof.
  intros Hok. destruct (quietly_ledger_read (λ row, {| view_totalSupply := supply_of row;
    view_retained := earnedRetained row |}) w Hok) as (a & w' & Hrun & Hq & ->).
  exists {| view_totalSupply := supply_of (tallies w); view_retained := earnedRetained (tallies w) |}, w'.
  split_and!; [done|done|by apply Hq..|done|done].
Qed.

Definition concluded (i : RunProcessInput) (minted : number) (assigned evs : list string) (w : World)
  : RunProcessResult :=
  {| out_processId := in_processId i; out_verified := true; out_reason := None; out_minted := minted;
     out_fee := default_fee (in_amount i); out_supplyAfter := supply_of (tallies w);
     out_reserveIndex := world_index w; out_assignedNodes := assigned; out_events := evs ++ ["final_status"] |}.

Lemma quietly_conclude i minted assigned evs w :
  ledger_ok w →
  quietly ["final_status"] (conclude i minted assigned evs) w (λ r _, r = concluded i minted assigned evs w).
Proof.
  intros Hok. unfold conclude.
  apply (quietly_bind [] ["final_status"] _ _ _ (λ v w', v = world_index w ∧ tallies w' = tallies w ∧ ledger_ok w')).
  { exists (world_index w), w. split_and!; [exact (run_reserveIndex w)|apply quiet_refl|done..]. }
  intros idx w1 _ (-> & T1 & L1).
  eapply (quietly_bind ["final_status"] []); [apply quietly_note|]. intros _ w2 Q2 _.
  destruct (q_ledger _ _ _ Q2 L1) as [L2 T2].
  eapply (quietly_bind [] []); [apply quietly_observe|]. intros _ w3 Q3 _.
  destruct (q_ledger _ _ _ Q3 L2) as [L3 T3].
  eapply (quietly_bind [] []); [by apply quietly_supplyView|]. intros view w4 _ (L4 & T4 & _ & _).
  eapply (quietly_bind [] []); [apply quietly_compareSupply|]. intros b w5 Q5 _.
  destruct (q_ledger _ _ _ Q5 L4) as [L5 T5].
  eapply (quietly_bind [] []); [by apply (quietly_ledger_read supply_of)|]. intros supply w6 _ ->.
  apply quietly_ret. unfold concluded. do 2 f_equal. congruence.
Qed.

Definition rejected (i : RunProcessInput) (assigned evs : list string) (w : World) : RunProcessResult :=
  {| out_processId := in_processId i; out_verified := false; out_reason := Some unverified;
     out_minted := zero; out_fee := zero; out_supplyAfter := supply_of (tallies w);
     out_reserveIndex := world_index w; out_assignedNodes := assigned; out_events := evs ++ ["final_status"] |}.

Lemma quietly_reject i assigned evs w :
  ledger_ok w → quietly ["final_status"] (reject i assigned evs) w
    (λ r _, out_verified r = false ∧ out_reason r = Some unverified ∧ out_minted r = zero ∧ out_fee r = zero ∧
            out_supplyAfter r = supply_of (tallies w)).
Proof.
  intros Hok. unfold reject.
  eapply (quietly_bind ["final_status"] []); [apply quietly_note|]. intros _ w1 Q1 _.
  destruct (q_ledger _ _ _ Q1 Hok) as [L1 T1].
  apply (quietly_bind [] [] _ _ _ (λ v w', tallies w' = tallies w1 ∧ ledger_ok w')).
  { exists (world_index w1), w1. split_and!; [exact (run_reserveIndex w1)|apply quiet_refl|done..]. }
  intros idx w2 _ (T2 & L2).
  eapply (quietly_bind [] []); [by apply (quietly_ledger_read supply_of)|]. intros supply w3 Q3 ->.
  destruct (q_ledger _ _ _ Q3 L2) as [L3 T3].
  eapply (quietly_bind [] []); [by apply quietly_supplyView|]. intros view w4 _ (L4 & T4 & _ & _).
  eapply (quietly_bind [] []); [apply quietly_compareSupply|]. intros b w5 Q5 _.
  apply quietly_ret. simpl. split_and!; try done. congruence.
Qed.

Lemma quietly_terminate p reason assigned evs w :
  ledger_ok w → quietly [] (terminate p reason assigned evs) w
    (λ r _, r = {| out_processId := p; out_verified := false; out_reason := Some reason; out_minted := zero;
                   out_fee := zero; out_supplyAfter := supply_of (tallies w); out_reserveIndex := world_index w;
                   out_assignedNodes := assigned; out_events := evs |}).
Proof.
  intros Hok. unfold terminate.
  apply (quietly_bind [] [] _ _ _ (λ v w', v = world_index w ∧ w' = w)).
  { exists (world_index w), w. split_and!; [exact (run_reserveIndex w)|apply quiet_refl|done..]. }
  intros idx w2 _ (-> & ->).
  eapply (quietly_bind [] []); [by apply (quietly_ledger_read supply_of)|]. intros supply w3 Q3 ->.
  by apply quietly_ret.
Qed.

(** *** The run up to the verdict *)

Definition prelude_events (w : World) (i : RunProcessInput) : list string :=
  ["initiation"] ++ roster_events w (in_nodeIds i) ++
  ["task_assignment"; "stage_transition"; "execution_complete"].

Lemma prelude_mute w i : Forall mute (prelude_events w i).
Proof.
  unfold prelude_events, roster_events. destruct (in_nodeIds i) as [[|id ids]|]; cbn [app];
    [case_match_goal; cbn [app]; mutes|mutes|case_match_goal; cbn [app]; mutes].
Qed.

(** Steps 1, 3 and 4. *)
Definition execution (i : RunProcessInput) : prog World (list string) :=
  initiate i;; assigned ← assign i; execute i assigned;; mret assigned.

Lemma quietly_execution i w :
  nodes_ok w → assignable w (in_nodeIds i) →
  quietly (prelude_events w i) (execution i) w (λ assigned w',
    all_required (capturedEvents (in_processId i) w') ∧ known w' assigned ∧
    match in_nodeIds i with Some (id :: ids) => assigned = id :: ids | _ => True end).
Proof.
  intros Hn Ha. unfold execution, prelude_events.
  apply (quietly_bind _ _ _ _ _ (λ _ w', "initiation" ∈ capturedEvents (in_processId i) w' ∧
    roster_events w' (in_nodeIds i) = roster_events w (in_nodeIds i))).
  { destruct (quietly_initiate i w) as (a & w1 & Hrun & Hq & Hc). exists a, w1. split_and!; [done..|].
    assert (nodes w1 = nodes w) as Hns.
    { clear -Hrun. unfold initiate, note, observe in Hrun.
      rewrite !run_bind, run_capture, run_ret, run_bind, run_log, run_ret in Hrun. by injection Hrun as _ <-. }
    unfold roster_events. by rewrite Hns. }
  intros _ w1 Q1 [H1 Hr]. rewrite <- Hr.
  change (roster_events w1 (in_nodeIds i) ++ ["task_assignment"; "stage_transition"; "execution_complete"]) with
    (roster_events w1 (in_nodeIds i) ++ ["task_assignment"] ++ ["stage_transition"; "execution_complete"]).
  rewrite app_assoc.
  eapply quietly_bind; [apply quietly_assign|].
  { unfold assignable in *. destruct (in_nodeIds i); [by eapply known_quiet|done]. }
  intros assigned w2 Q2 (K2 & H2 & Hi). cbn beta in *.
  rewrite <- (app_nil_r ["stage_transition"; "execution_complete"]).
  eapply quietly_bind; [apply quietly_execute; [by apply Q2, Q1|done]|].
  intros _ w3 Q3 [H3 H4]. apply quietly_ret. split_and!; [|by eapply known_quiet|done].
  unfold all_required, REQUIRED_BEFORE_VERDICT. rewrite !Forall_cons, Forall_nil. split_and!; try done.
  - apply (q_captured _ _ _ Q3), (q_captured _ _ _ Q2), H1.
  - apply (q_captured _ _ _ Q3), H2.
Qed.

(** The rest of an admissible run. *)
Definition after_execution (i : RunProcessInput) (assigned : list string) : prog World RunProcessResult :=
  verdict ← judge i;
  if negb (result_verified verdict) then reject i assigned judged_events
  else
    minted ← produce i (default (of_Z DEFAULT_EPOCH) (in_epoch i)) assigned;
    conclude i minted assigned produced_events.

Lemma run_runProcess i w :
  in_admissible i = true → run (runProcess i) w = run (assigned ← execution i; after_execution i assigned) w.
Proof.
  intros Ha. unfold runProcess, execution. rewrite Ha. cbn [negb]. rewrite run_assoc, !run_bind.
  destruct (run (initiate i) w) as [[e|a] w1]; [done|]. rewrite run_assoc, !run_bind.
  destruct (run (assign i) w1) as [[e|assigned] w2]; [done|]. rewrite run_assoc, !run_bind.
  by destruct (run (execute i assigned) w2) as [[e|u] w3].
Qed.

(** Where a run stands after its verdict: the value and the pools untouched. *)
Record at_verdict (i : RunProcessInput) (v : PotVerdict) (w w' : World) : Prop := {
  av_verdict : verdict_of (in_processId i) w' = Some v;
  av_deserved : match verdict_of (in_processId i) w with Some v0 => v = v0 | None => verified v = true end;
  av_chain : intact (chain w') ∧ events w' = events w ++ prelude_events w i ++
    (if verdict_of (in_processId i) w is Some _ then [] else ["pot.verified"]) ++ ["pot_verdict"];
  av_ledger : ledger_ok w' ∧ tallies w' = tallies w;
  av_epochs : epochs w' = epochs w;
  av_participation : participation w' = participation w;
  av_others : ∀ q, q ≠ in_processId i → verdict_of q w' = verdict_of q w;
  av_volume : process_volume (chain w') = process_volume (chain w);
  av_nodes : nodes_ok w'
}.

Lemma run_judge i w :
  intact (chain w) → ledger_ok w →
  ∃ v w', run (judge i) w = (inr (verdict_result v), w') ∧
    ∃ w1, judged (in_processId i) v w w1 ∧ quiet ["pot_verdict"] w1 w'.
Proof.
  intros Hi Hok. destruct (run_verify_judged (in_processId i) w Hi) as (v & w1 & Hrun & Hj).
  unfold judge. rewrite run_bind, Hrun.
  destruct (quietly_note (in_processId i) "pot_verdict"
    [("verified", flag (result_verified (verdict_result v)))] w1) as (a2 & w2 & R2 & Q2 & _).
  rewrite run_bind, R2.
  destruct (quietly_observe "pot_verdict" "processing" ("process " +:+ in_processId i +:+ " verified=" +:+
    flag_text (result_verified (verdict_result v))) w2) as (a3 & w3 & R3 & Q3 & _).
  rewrite run_bind, R3, run_ret. exists v, w3. split; [done|]. exists w1. split; [done|].
  apply (quiet_trans ["pot_verdict"] [] _ _ _ Q2 Q3).
Qed.

Lemma run_to_verdict i w :
  in_admissible i = true → intact (chain w) → ledger_ok w → nodes_ok w → assignable w (in_nodeIds i) →
  ∃ assigned v w',
    run (runProcess i) w =
      run (if negb (verified v) then reject i assigned judged_events
           else minted ← produce i (default (of_Z DEFAULT_EPOCH) (in_epoch i)) assigned;
                conclude i minted assigned produced_events) w' ∧
    at_verdict i v w w' ∧
    match in_nodeIds i with Some (id :: ids) => assigned = id :: ids | _ => True end.
Proof.
  intros Ha Hi Hok Hn Has. rewrite run_runProcess by done.
  destruct (quietly_execution i w Hn Has) as (assigned & w1 & R1 & Q1 & Hreq & _ & Hids).
  destruct Q1 as [QC QL QV QE QP _ _ QN QV']. destruct (QC Hi) as [I1 E1]. destruct (QL Hok) as [L1 T1].
  destruct (run_judge i w1 I1 L1) as (v & w3 & R3 & w2 & [J1 J2 [I2 E2] J4 J5 J6 J7 J8 J9 J10 J11] & [PC PLd PV PE PP _ _ PN PV']).
  destruct (PC I2) as [I3 E3]. destruct (PLd (J4 L1)) as [L3 T3].
  assert (∀ q, verdict_of q w1 = verdict_of q w) as V1 by (intros q; unfold verdict_of; congruence).
  assert (∀ q, verdict_of q w3 = verdict_of q w2) as V3 by (intros q; unfold verdict_of; congruence).
  exists assigned, v, w3. split; [|split; [|done]].
  - unfold after_execution. by rewrite run_bind, R1, run_bind, R3.
  - rewrite V1 in *. split.
    + by rewrite V3.
    + destruct (verdict_of (in_processId i) w); [done|]. by apply J2.
    + split; [done|]. rewrite E3, E2, E1, <- !app_assoc. done.
    + split; [done|congruence].
    + congruence.
    + congruence.
    + intros q Hq. by rewrite V3, J10, V1.
    + rewrite PV', J11, QV' by first [done | mutes | apply prelude_mute]. done.
    + apply PN. unfold nodes_ok. rewrite J8. by apply QN.
Qed.

(** The events of a run that produces value, after its verdict. *)
Definition value_events : list string :=
  ["emission.minted"; "emission"; "emission.burned"; "final_status"].

(** What a productive run leaves. *)
Record ran_verified (i : RunProcessInput) (n : Z) (assigned : list string) (w w' : World) : Prop := {
  rv_chain : intact (chain w') ∧ events w' = events w ++ prelude_events w i ++
    (if verdict_of (in_processId i) w is Some _ then [] else ["pot.verified"]) ++ ["pot_verdict"] ++ value_events;
  rv_ledger : ledger_ok w';
  rv_tallies : tallies w' = cycled (tallies w) (in_amount i);
  rv_verdict : ∃ v, verdict_of (in_processId i) w' = Some v ∧ verified v = true ∧
    match verdict_of (in_processId i) w with Some v0 => v = v0 | None => True end;
  rv_others : ∀ q, q ≠ in_processId i → verdict_of q w' = verdict_of q w;
  rv_pool : ∃ e, epoch_of n w' = Some (epoch_row (add_fee e (default_fee (in_amount i)))) ∧
    match epoch_of n w with Some e0 => e = e0 | None => totalFees e = zero ∧ epoch_status e = open end;
  rv_participants : participants_of n w' = participants_of n w ++ participations (in_processId i) assigned;
  rv_volume : is_finite (stored_amount (in_amount i)) = true →
    process_volume (chain w') = (process_volume (chain w) + stored_amount (in_amount i))%num;
  rv_nodes : nodes_ok w'
}.

Lemma run_produces i n w :
  in_admissible i = true → run_epoch i = Some n → intact (chain w) → ledger_ok w → nodes_ok w → assignable w (in_nodeIds i) →
  (∀ v, verdict_of (in_processId i) w = Some v → verified v = true) →
  ∃ r w' assigned, run (runProcess i) w = (inr r, w') ∧
    out_verified r = true ∧ out_reason r = None ∧ out_minted r = in_amount i ∧
    out_fee r = default_fee (in_amount i) ∧ out_supplyAfter r = supply_of (tallies w') ∧
    out_assignedNodes r = assigned ∧ out_events r = produced_events ++ ["final_status"] ∧
    ran_verified i n assigned w w' ∧
    match in_nodeIds i with Some (id :: ids) => assigned = id :: ids | _ => True end ∧
    out_processId r = in_processId i.
Proof.
  intros Ha Hep Hi Hok Hn Has Hv.
  destruct (run_to_verdict i w Ha Hi Hok Hn Has) as (assigned & v & w1 & -> & [V1 V2 [I1 E1] [L1 T1] P1 Q1 O1 AV AN] & Hids).
  assert (verified v = true) as Hver by (destruct (verdict_of (in_processId i) w); [subst; auto|done]).
  rewrite Hver. cbn [negb].
  destruct (run_produce i (default (of_Z DEFAULT_EPOCH) (in_epoch i)) n assigned w1 Hep L1) as (w2 & R2 & [C2 L2 T2 V3 F2 A2 G2 N2 N2' P2]).
  { by rewrite V1. }
  destruct (C2 I1) as [I2 E2]. rewrite run_bind, R2.
  destruct (quietly_conclude i (in_amount i) assigned produced_events w2 L2) as (r & w3 & R3 & [QC QL QV QE QP _ _ QN QV'] & ->).
  destruct (QC I2) as [I3 E3]. destruct (QL L2) as [L3 T3].
  eexists _, w3, assigned. split; [exact R3|]. unfold concluded. cbn. split_and!; try done; [congruence|].
  assert (∀ m, epoch_of m w3 = epoch_of m w2) as EE by (intros m; apply epoch_of_eq; congruence).
  assert (∀ m, participants_of m w3 = participants_of m w2) as PP by (intros m; apply participants_eq; congruence).
  assert (∀ m, epoch_of m w1 = epoch_of m w) as EE1 by (intros m; apply epoch_of_eq; congruence).
  assert (∀ m, participants_of m w1 = participants_of m w) as PP1 by (intros m; apply participants_eq; congruence).
  split.
  - split; [done|]. rewrite E3, E2, E1, <- !app_assoc. done.
  - done.
  - congruence.
  - exists v. split_and!; [unfold verdict_of in *; rewrite QV; by rewrite V3|done|].
    by destruct (verdict_of (in_processId i) w).
  - intros q Hq. transitivity (verdict_of q w2); [unfold verdict_of; congruence|]. rewrite V3. by apply O1.
  - destruct F2 as (e & He & Hm). exists e. rewrite EE, He. split; [done|]. by rewrite EE1 in Hm.
  - by rewrite PP, A2, PP1.
  - intros Hx. by rewrite QV', P2, AV by (done || mutes).
  - apply QN. unfold nodes_ok. by rewrite N2'.
Qed.

(** *** Whatever the outcome *)

(** A process that is not admissible enters the record and nothing else. *)
Lemma quietly_inadmissible i w :
  in_admissible i = false → ledger_ok w →
  quietly ["initiation"] (runProcess i) w (λ r _,
    out_processId r = in_processId i ∧ out_verified r = false ∧ out_reason r = Some inadmissible ∧
    out_supplyAfter r = supply_of (tallies w)).
Proof.
  intros Ha Hok. unfold runProcess. rewrite Ha. cbn [negb].
  destruct (quietly_initiate i w) as (a & w1 & R1 & Q1 & _).
  destruct (quietly_observe "anomaly_detected" "processing"
    ("process " +:+ in_processId i +:+ " inadmissible — rejected") w1) as (a2 & w2 & R2 & Q2 & _).
  destruct (q_ledger _ _ _ (quiet_trans _ _ _ _ _ Q1 Q2) Hok) as [L2 T2].
  destruct (quietly_terminate (in_processId i) inadmissible [] ["initiation"] w2 L2) as (r & w3 & R3 & Q3 & ->).
  eexists _, w3. rewrite run_bind, R1, run_bind, R2. split; [exact R3|]. split.
  - apply (quiet_trans _ [] _ _ _ Q1 (quiet_trans [] [] _ _ _ Q2 Q3)).
  - cbn. by rewrite T2.
Qed.

(** A relation all the steps outside production respect, even when they throw. *)
Definition value_kept (w w' : World) : Prop :=
  ledger_ok w → ledger_ok w' ∧ tallies w' = tallies w.

#[global] Instance value_kept_preorder : PreOrder value_kept.
Proof.
  split; [by intros w Hw|]. intros w1 w2 w3 H12 H23 H1. destruct (H12 H1) as [H2 T2], (H23 H2) as [H3 T3].
  split; [done|congruence].
Qed.

Lemma quiet_value_kept evs w w' : quiet evs w w' → value_kept w w'.
Proof. intros []. done. Qed.

#[global] Instance value_kept_append : AllowsAppend (stepwise value_kept).
Proof. split; [|by intros w Hw]. intros e p. by apply stepwise_append; [intros w Hw|intros t w Hw]. Qed.

#[global] Instance value_kept_recording : AllowsRecording (stepwise value_kept).
Proof. split; [apply _|]. intros. eapply quiet_value_kept, quiet_remember. Qed.

#[global] Instance value_kept_log : AllowsLog (stepwise value_kept).
Proof. split. intros a b c. by apply stepwise_log; [intros w Hw|intros x t w Hw]. Qed.

#[global] Instance value_kept_nodes : AllowsNodes (stepwise value_kept).
Proof. split. by intros n w Hw. Qed.

#[global] Instance value_kept_verdict : AllowsVerdict (stepwise value_kept).
Proof. split; [apply _|by intros n w Hw]. Qed.

Lemma guarantee_note R `{!AllowsRecording R} p e d : guarantee R (note p e d).
Proof. unfold note. guarantee_tac. Qed.

Lemma guarantee_observe R `{!AllowsLog R} event layer description : guarantee R (observe event layer description).
Proof. unfold observe. guarantee_tac. Qed.

Lemma guarantee_resolve R `{!AllowsAppend R, !AllowsNodes R} ids : guarantee R (resolveAssignedNodes ids).
Proof.
  assert (guarantee R register_roster) as Hr.
  { apply guarantee_for_each. intros [id type]. guarantee_tac. }
  unfold resolveAssignedNodes, nodes_list. destruct ids as [[|id ids]|]; guarantee_tac.
Qed.

Lemma guarantee_execution R `{!AllowsRecording R, !AllowsNodes R, !AllowsLog R} i : guarantee R (execution i).
Proof.
  pose proof (guarantee_note R). pose proof (guarantee_observe R). pose proof (guarantee_resolve R).
  unfold execution, initiate, assign, execute. guarantee_tac.
Qed.

Lemma run_verify_value p w :
  ∃ v w', run (verify p) w = (inr (verdict_result v), w') ∧ verdict_of p w' = Some v ∧ value_kept w w'.
Proof.
  destruct (verdict_of p w) as [v|] eqn:Hv.
  - exists v, w. split; [by apply run_verify_existing|]. split; [done|]. by intros Hw.
  - destruct (run_verify_new p w Hv) as (v & Hrun & Hv'). eexists v, _. split; [exact Hrun|]. split; [done|].
    pose proof (guarantee_run (stepwise value_kept) (verify p) w) as Hg. rewrite Hrun in Hg. apply Hg.
    apply guarantee_verify. apply _.
Qed.

(** The value a run moves, whatever its outcome. *)
Definition value_outcome (i : RunProcessInput) (w : World) (r : exn + RunProcessResult) (w' : World) : Prop :=
  ledger_ok w' ∧
  match r with
  | inr out =>
    if out_verified out then
      in_admissible i = true ∧ is_Some (run_epoch i) ∧ tallies w' = cycled (tallies w) (in_amount i) ∧
      ∃ v, verdict_of (in_processId i) w' = Some v ∧ verified v = true
    else tallies w' = tallies w ∧ out_minted out = zero ∧ out_fee out = zero
  | inl e => tallies w' = tallies w ∨
      (e = QueryFailedError ∧ run_epoch i = None ∧ in_admissible i = true ∧
       tallies w' = add_minted (tallies w) (in_amount i) ∧
       ∃ v, verdict_of (in_processId i) w' = Some v ∧ verified v = true)
  end.

Lemma run_after_execution i assigned w :
  ledger_ok w → in_admissible i = true →
  value_outcome i w (run (after_execution i assigned) w).1 (run (after_execution i assigned) w).2.
Proof.
  intros Hok Ha. unfold after_execution, judge.
  destruct (run_verify_value (in_processId i) w) as (v & w1 & R1 & V1 & K1). destruct (K1 Hok) as [L1 T1].
  rewrite run_assoc, run_bind, R1.
  destruct (quietly_note (in_processId i) "pot_verdict"
    [("verified", flag (result_verified (verdict_result v)))] w1) as (a2 & w2 & R2 & Q2 & _).
  rewrite run_assoc, run_bind, R2.
  destruct (quietly_observe "pot_verdict" "processing" ("process " +:+ in_processId i +:+ " verified=" +:+
    flag_text (result_verified (verdict_result v))) w2) as (a3 & w3 & R3 & Q3 & _).
  rewrite run_assoc, run_bind, R3, run_bind, run_ret.
  pose proof (quiet_trans _ _ _ _ _ Q2 Q3) as Q13. destruct (q_ledger _ _ _ Q13 L1) as [L3 T3].
  assert (verdict_of (in_processId i) w3 = Some v) as V3 by (unfold verdict_of in *; by rewrite (q_verdicts _ _ _ Q13)).
  cbn [verdict_result result_verified]. destruct (verified v) eqn:Hver; cbn [negb].
  - destruct (run_epoch i) as [n|] eqn:He.
    + destruct (run_produce i _ n assigned w3 He L3) as (w4 & R4 & [_ L4 T4 V4 _ _ _ _]).
      { by rewrite V3. }
      rewrite run_bind, R4.
      destruct (quietly_conclude i (in_amount i) assigned produced_events w4 L4) as (r & w5 & R5 & Q5 & ->).
      rewrite R5. destruct (q_ledger _ _ _ Q5 L4) as [L5 T5]. split; [done|]. cbn.
      split_and!; [done|by rewrite He|congruence|].
      exists v. split; [|done]. unfold verdict_of in *. rewrite (q_verdicts _ _ _ Q5). by rewrite V4.
    + destruct (run_produce_unkeyed i _ assigned w3 He L3) as (w4 & R4 & Q4).
      { by rewrite V3. }
      rewrite run_bind, R4. destruct (minted_world_spec (in_processId i) (in_amount i) w3 L3) as (L & T & Hvs & _).
      destruct (q_ledger _ _ _ Q4 L) as [L4 T4]. split; [done|]. right. cbn [fst snd].
      split_and!; [done..|congruence|]. exists v. split; [|done].
      unfold verdict_of in *. rewrite (q_verdicts _ _ _ Q4). congruence.
  - destruct (quietly_reject i assigned judged_events w3 L3) as (r & w5 & R5 & Q5 & H1 & H2 & H3 & H4 & H5).
    rewrite R5. destruct (q_ledger _ _ _ Q5 L3) as [L5 T5]. split; [done|]. cbn [fst snd]. rewrite H1.
    split_and!; [congruence|done|done].
Qed.

Lemma run_value_outcome i w :
  ledger_ok w → value_outcome i w (run (runProcess i) w).1 (run (runProcess i) w).2.
Proof.
  intros Hok. destruct (in_admissible i) eqn:Ha.
  - rewrite run_runProcess by done.
    pose proof (guarantee_run (stepwise value_kept) (execution i) w (guarantee_execution _ i)) as Hg.
    rewrite run_bind. destruct (run (execution i) w) as [[e|assigned] w1]; cbn [snd] in Hg.
    + destruct (Hg Hok) as [L T]. split; [done|]. by left.
    + destruct (Hg Hok) as [L T]. destruct (run_after_execution i assigned w1 L Ha) as [L' H]. split; [done|].
      by rewrite <- T.
  - unfold runProcess. rewrite Ha. cbn [negb].
    destruct (quietly_initiate i w) as (a & w1 & R1 & Q1 & _). rewrite run_bind, R1.
    destruct (quietly_observe "anomaly_detected" "processing"
      ("process " +:+ in_processId i +:+ " inadmissible — rejected") w1) as (a2 & w2 & R2 & Q2 & _).
    rewrite run_bind, R2. pose proof (quiet_trans _ _ _ _ _ Q1 Q2) as Q12.
    destruct (q_ledger _ _ _ Q12 Hok) as [L2 T2].
    destruct (quietly_terminate (in_processId i) inadmissible [] ["initiation"] w2 L2) as (r & w3 & R3 & Q3 & ->).
    rewrite R3. destruct (q_ledger _ _ _ Q3 L2) as [L3 T3]. split; [done|]. cbn. split_and!; [congruence|done|done].
Qed.

(** *** Reads *)

Definition metrics_of (epoch : Z) (w : World) : MetricsSnapshot :=
  {| met_totalSupply := supply_of (tallies w); met_earnedRetained := earnedRetained (tallies w);
     met_reserveIndex := world_index w;
     met_verifiedProcessCount := length (filter (λ v, verified v = true) (find (verdicts w)));
     met_currentEpoch := epoch;
     met_epochPool := match epoch_of epoch w with Some e => totalFees e | None => zero end;
     met_nodeChainLength := length (chain w); met_releaseActive := phase_active (phase_state w) |}.

Lemma length_order_asc {R} (column : R → Z) rows : length (order_asc column rows) = length rows.
Proof. apply Permutation_length, sort_by_perm. Qed.

Lemma ensureLedger_twice w : ledger_ok w → ensureLedger (ensureLedger w) = ensureLedger w.
Proof.
  intros Hok. unfold ensureLedger at 1.
  assert (ledger_ready (ensureLedger w) = true) as Hr; [|by rewrite Hr].
  unfold ensureLedger. destruct (ledger_ready w) eqn:E; [done|]. by destruct (findOne LEDGER_ID (ledger_rows w)).
Qed.

Lemma run_metrics epoch w :
  ledger_ok w →
  run (metrics epoch) w =
  (if int4 epoch then inr (metrics_of epoch w) else inl QueryFailedError, with_phase (ensureLedger w)).
Proof.
  intros Hok. unfold metrics, totalSupply, retained. rewrite run_bind, run_read_ledger by done.
  rewrite run_bind, run_read_ledger by (by apply ensureLedger_ok).
  rewrite ensureLedger_tallies, ensureLedger_twice by done.
  destruct (ensureLedger_only w) as [H1 H2 H3 H4 H5 H6 H7 H8 H9].
  rewrite run_bind, (run_reserveIndex (ensureLedger w)). unfold verdict_list, chain_list, isActive.
  rewrite run_bind, run_query, run_bind, run_attempt, run_getEpoch.
  assert (∀ (r r' : exn + option Epoch) (w' : World), (if int4 epoch then (r, w') else (r', w')) =
    ((if int4 epoch then r else r'), w')) as -> by (by destruct (int4 epoch)). cbn [fst snd].
  rewrite run_bind, run_query, run_bind, run_bind, run_phase, run_ret.
  destruct (int4 epoch) eqn:Hk; [|done]. rewrite run_ret.
  unfold metrics_of, world_index, world_volume, list_snapshots, limit_rows, offset_rows.
  rewrite length_order_asc. change (find (snapshots (ensureLedger w))) with (chain (ensureLedger w)).
  rewrite chain_ensureLedger, H3, (epoch_of_eq _ _ _ H4).
  unfold phase_state. rewrite phase_of_ensureLedger. reflexivity.
Qed.

Lemma run_getProcess p w :
  run (getProcess p) w =
  (inr {| pv_processId := p; pv_verdict := (λ v, (verified v, reasons v)) <$> verdict_of p w;
          pv_events := process_event <$>
            filter (λ s, of_process p s = true) (order_asc sequenceId (chain w)) |}, w).
Proof. reflexivity. Qed.

(** *** Guarantees of the requests *)

Lemma guarantee_runProcess R
  `{!AllowsRecording R, !AllowsNodes R, !AllowsLog R, !AllowsVerdict R, !AllowsEpochs R} i :
  guarantee R (runProcess i).
Proof.
  pose proof (guarantee_note R). pose proof (guarantee_observe R). pose proof (guarantee_resolve R).
  unfold runProcess, initiate, assign, execute, judge, reject, produce, conclude, terminate. guarantee_tac.
Qed.

Lemma guarantee_orchestrator_finalizeEpoch R `{!AllowsEpochs R, !AllowsLog R} n :
  guarantee R (orchestrator_finalizeEpoch n).
Proof. pose proof (guarantee_observe R). unfold orchestrator_finalizeEpoch. guarantee_tac. Qed.

Lemma guarantee_getProcess (R : discipline World) p : guarantee R (getProcess p).
Proof. unfold getProcess, chain_list. guarantee_tac. Qed.

Lemma guarantee_metrics R `{!AllowsPhase R} n : guarantee R (metrics n).
Proof.
  assert (guarantee R (attempt (getEpoch n))) as He.
  { unfold getEpoch. destruct (int4 n); [|apply guarantee_ret].
    change (guarantee R (o ← query (epoch_of n); mret (inr (A := exn) o))). guarantee_tac. }
  unfold metrics, verdict_list, chain_list. guarantee_tac.
Qed.

(** ** Properties *)

(** C10. The lifecycle: an admissible process without a verdict, run by registered
    nodes on an intact chain, completes and is verified when its epoch is a key of the
    [integer] column. The whole amount is minted and burned, the fee is in the epoch's
    pool with one participation per assigned node, the positive verdict is recorded,
    and the chain has grown by exactly the events of the lifecycle, in their order. *)
Theorem runProcess_produces i n w :
  in_admissible i = true → run_epoch i = Some n →
  intact (chain w) → ledger_ok w → nodes_ok w → assignable w (in_nodeIds i) →
  verdict_of (in_processId i) w = None →
  ∃ r w' assigned, run (runProcess i) w = (inr r, w') ∧
    out_verified r = true ∧ out_minted r = in_amount i ∧ out_fee r = default_fee (in_amount i) ∧
    out_supplyAfter r = supply_of (tallies w') ∧ out_assignedNodes r = assigned ∧
    intact (chain w') ∧
    events w' = events w ++ ["initiation"] ++ roster_events w (in_nodeIds i) ++
      ["task_assignment"; "stage_transition"; "execution_complete"; "pot.verified"; "pot_verdict";
       "emission.minted"; "emission"; "emission.burned"; "final_status"] ∧
    tallies w' = cycled (tallies w) (in_amount i) ∧
    (∃ v, verdict_of (in_processId i) w' = Some v ∧ verified v = true) ∧
    (∃ e, epoch_of n w' = Some (epoch_row (add_fee e (default_fee (in_amount i)))) ∧
          match epoch_of n w with
          | Some e0 => e = e0 | None => totalFees e = zero ∧ epoch_status e = open end) ∧
    participants_of n w' = participants_of n w ++ participations (in_processId i) assigned.
Proof.
  intros Ha He Hi Hok Hn Has Hv. destruct (run_produces i n w Ha He Hi Hok Hn Has) as
    (r & w' & assigned & Hrun & H1 & _ & H3 & H4 & H5 & H6 & _ & [[Ic Ec] L T V O F P] & _).
  { rewrite Hv. done. }
  exists r, w', assigned. rewrite Hv in Ec. destruct V as (v & Hv' & Hver & _). split_and!; try done.
  - rewrite Ec. unfold prelude_events. by rewrite <- !app_assoc.
  - by exists v.
Qed.

(** C2. No value outside the gate: whatever the state, the request and the outcome,
    exceptions included, a run leaves the tallies as they were, unless the process is
    admissible and its recorded verdict positive. Then, when its epoch is a key of the
    [integer] column, the run returns a verified result and the tallies have moved by
    one symmetric cycle of the amount. When it is not, the run throws where the fee
    should accrue: the amount has been minted, and the burn that should follow is never
    reached. *)
Theorem value_behind_the_gate i w r w' :
  ledger_ok w → run (runProcess i) w = (r, w') →
  (tallies w' = tallies w ∧ ∀ out, r = inr out → out_verified out = false) ∨
  (in_admissible i = true ∧ (∃ v, verdict_of (in_processId i) w' = Some v ∧ verified v = true) ∧
   match run_epoch i with
   | Some _ => (∃ out, r = inr out ∧ out_verified out = true) ∧
       tallies w' = add_burned (add_minted (tallies w) (in_amount i)) (in_amount i)
   | None => r = inl QueryFailedError ∧ tallies w' = add_minted (tallies w) (in_amount i)
   end).
Proof.
  intros Hok Hrun. pose proof (run_value_outcome i w Hok) as [_ H]. rewrite Hrun in H. cbn [fst snd] in H.
  destruct r as [e|out].
  - destruct H as [H|(-> & -> & Ha & Ht & Hv)]; [by left; split|by right].
  - destruct (out_verified out) eqn:Ho.
    + right. destruct H as (Ha & [n ->] & Ht & Hv). split_and!; [done..| |done]. by exists out.
    + left. split; [apply H|]. by intros ? [= <-].
Qed.

(** C11. A run can mint without burning: the epoch of a request is any number, the column
    that keys the epochs a 32-bit integer, and the mint comes before the accrual that
    finds this out. An admissible process whose epoch is out of range, or fractional,
    leaves its amount on the tally of mints and the event of the mint on the chain,
    with no burn, no fee and no participation, and answers with an error. *)
Theorem unkeyed_epoch_mints i w :
  in_admissible i = true → run_epoch i = None →
  intact (chain w) → ledger_ok w → nodes_ok w → assignable w (in_nodeIds i) →
  verdict_of (in_processId i) w = None →
  ∃ w', run (runProcess i) w = (inl QueryFailedError, w') ∧
    tallies w' = add_minted (tallies w) (in_amount i) ∧ intact (chain w') ∧
    events w' = events w ++ prelude_events w i ++ ["pot.verified"; "pot_verdict"; "emission.minted"; "emission"] ∧
    epochs w' = epochs w ∧ participation w' = participation w.
Proof.
  intros Ha He Hi Hok Hn Has Hv.
  destruct (run_to_verdict i w Ha Hi Hok Hn Has) as (assigned & v & w1 & -> & [V1 V2 [I1 E1] [L1 T1] P1 Q1 O1 AV AN] & _).
  rewrite Hv in V2, E1. rewrite V2. cbn [negb].
  destruct (run_produce_unkeyed i _ assigned w1 He L1) as (w2 & R2 & Q2); [by rewrite V1|].
  rewrite run_bind, R2. exists w2. split; [done|].
  destruct (write_then_append (λ r, add_minted r (in_amount i)) "emission.minted"
    (minted_payload (in_processId i) (in_amount i)) w1 L1) as (L & T & C & _ & E & P & _); [apply tallies_id|].
  fold (minted_world (in_processId i) (in_amount i) w1) in *.
  destruct (q_ledger _ _ _ Q2 L) as [_ T2]. destruct (C I1) as [I E']. destruct (q_chain _ _ _ Q2 I) as [I2 E2].
  split_and!; [congruence|done| |rewrite (q_epochs _ _ _ Q2); congruence|rewrite (q_participation _ _ _ Q2); congruence].
  rewrite E2, E', E1, <- !app_assoc. done.
Qed.

(** C38. A process can be paid for twice: a process that already has its positive
    verdict can be run again. The verdict is not issued again, but the amount is
    minted and burned again and a second fee and second participations enter the
    pool. *)
Theorem rerun_mints_again i n v w :
  in_admissible i = true → run_epoch i = Some n →
  intact (chain w) → ledger_ok w → nodes_ok w → assignable w (in_nodeIds i) →
  verdict_of (in_processId i) w = Some v → verified v = true →
  ∃ r w' assigned, run (runProcess i) w = (inr r, w') ∧ out_verified r = true ∧ out_minted r = in_amount i ∧
    verdict_of (in_processId i) w' = Some v ∧
    tallies w' = cycled (tallies w) (in_amount i) ∧
    participants_of n w' = participants_of n w ++ participations (in_processId i) assigned ∧
    events w' = events w ++ ["initiation"] ++ roster_events w (in_nodeIds i) ++
      ["task_assignment"; "stage_transition"; "execution_complete"; "pot_verdict";
       "emission.minted"; "emission"; "emission.burned"; "final_status"] ∧
    "pot.verified" ∈ out_events r.
Proof.
  intros Ha He Hi Hok Hn Has Hv Hver.
  destruct (run_produces i n w Ha He Hi Hok Hn Has) as
    (r & w' & assigned & Hrun & H1 & _ & H3 & H4 & H5 & H6 & H7 & [[Ic Ec] L T V O F P] & _).
  { rewrite Hv. by intros ? [= <-]. }
  exists r, w', assigned. rewrite Hv in Ec, V. destruct V as (v' & Hv' & _ & ->). split_and!; try done.
  - rewrite Ec. unfold prelude_events. by rewrite <- !app_assoc.
  - rewrite H7. apply (bool_decide_unpack _). by vm_compute.
Qed.

(** Settling through the orchestrator settles the epoch: it returns exactly
    what the settlement returns, leaves the settlement's chain, epochs and
    tallies, and only adds observations to the oversight ledger. *)
Theorem orchestrator_settles epoch r w w1 :
  run (finalizeEpoch epoch) w = (inr r, w1) → ledger_ok w1 →
  ∃ w', run (orchestrator_finalizeEpoch epoch) w = (inr r, w') ∧ chain w' = chain w1 ∧
        epochs w' = epochs w1 ∧ tallies w' = tallies w1 ∧ verdicts w' = verdicts w1 ∧ nodes w' = nodes w1.
Proof.
  intros Hrun Hok. unfold orchestrator_finalizeEpoch, observe. rewrite run_bind, Hrun.
  rewrite run_bind, run_bind, run_log, run_ret. cbn [snd].
  set (w2 := (log_tx _ _ _ w1).2). assert (ledger_ok w2) as L2 by exact Hok.
  unfold supplyView. rewrite run_bind, run_read_ledger by done.
  assert (tallies (ensureLedger w2) = tallies w2) as T by (by apply ensureLedger_tallies).
  pose proof (chain_ensureLedger w2) as Hc. destruct (ensureLedger_only w2) as [_ _ H3 H4 H5 _ _ _ _].
  set (view := {| view_totalSupply := _; view_retained := _ |}).
  rewrite run_bind. unfold compareSupply.
  destruct (num_eqb _ _); cbn [negb]; [rewrite run_ret|rewrite run_bind, run_log, run_ret];
    eexists; (split; [reflexivity|]); split_and!; done.
Qed.

(** Reading a process changes nothing: [getProcess] returns the recorded verdict
    and, in chain order, exactly the snapshots whose payload names the process. *)
Theorem getProcess_reads p w :
  intact (chain w) →
  ∃ view, run (getProcess p) w = (inr view, w) ∧ pv_processId view = p ∧
    pv_verdict view = (λ v, (verified v, reasons v)) <$> verdict_of p w ∧
    pv_events view = process_event <$> filter (λ s, of_process p s = true) (chain w).
Proof.
  intros [Hn _]. eexists. split; [apply run_getProcess|]. by rewrite order_asc_numbered.
Qed.

(** The metrics are the derived figures of the state, when the epoch is a key of the
    [integer] column. Reading them is not free of writes, even when it fails: on a
    database without them it creates the zeroed ledger row and the inactive phase row,
    and nothing else. *)
Theorem metrics_spec epoch w :
  ledger_ok w →
  ∃ w', run (metrics epoch) w =
      (if int4 epoch then inr (metrics_of epoch w) else inl QueryFailedError, w') ∧
    findOne LEDGER_ID (ledger_rows w') = Some (tallies w) ∧ phase_of w' = Some (phase_state w) ∧
    chain w' = chain w ∧ verdicts w' = verdicts w ∧ epochs w' = epochs w ∧ nodes w' = nodes w ∧
    oversight w' = oversight w ∧ clock w' = clock w.
Proof.
  intros Hok. exists (with_phase (ensureLedger w)). rewrite run_metrics by done.
  destruct (ensureLedger_only w) as [H1 H2 H3 H4 H5 H6 H7 H8 H9].
  assert (∀ w0, ledger_rows (with_phase w0) = ledger_rows w0 ∧ verdicts (with_phase w0) = verdicts w0 ∧
    epochs (with_phase w0) = epochs w0 ∧ nodes (with_phase w0) = nodes w0 ∧
    oversight (with_phase w0) = oversight w0) as Hf by (intros w0; unfold with_phase; by destruct (phase_of w0)).
  destruct (Hf (ensureLedger w)) as (F1 & F2 & F3 & F4 & F5).
  destruct (with_phase_frame (ensureLedger w)) as (C1 & C2 & C3).
  split_and!; try congruence.
  - rewrite F1. by apply ensureLedger_row.
  - rewrite phase_of_with. unfold phase_state. by rewrite phase_of_ensureLedger.
  - rewrite C1. apply chain_ensureLedger.
Qed.

End Orchestrator.

#[export] Hint Extern 1 (guarantee _ (runProcess _)) => apply guarantee_runProcess; apply _ : guarantee.
#[export] Hint Extern 1 (guarantee _ (orchestrator_finalizeEpoch _)) =>
  apply guarantee_orchestrator_finalizeEpoch; apply _ : guarantee.
#[export] Hint Extern 1 (guarantee _ (metrics _)) => apply guarantee_metrics; apply _ : guarantee.
#[export] Hint Extern 1 (guarantee _ (getProcess _)) => apply guarantee_getProcess; apply _ : guarantee.

(** ** Witnesses *)

Section Witnesses.
#[local] Existing Instance transparent_platform.

Definition request : RunProcessInput :=
  {| in_processId := "p"; in_amount := of_Z 100; in_type := "transfer"; in_admissible := true;
     in_nodeIds := None; in_epoch := None |}.

(** A fresh system, after one run, and after its settlement. *)
Definition ran_world : World := (run (runProcess request) fresh_world).2.

Lemma fresh_world_ok : intact (chain fresh_world) ∧ ledger_ok fresh_world ∧ nodes_ok fresh_world.
Proof. split; [repeat split|]. split; [discriminate|constructor]. Qed.

Lemma ran_world_ok : intact (chain ran_world) ∧ ledger_ok ran_world ∧ nodes_ok ran_world.
Proof.
  split; [vm_compute; repeat split|]. split; [vm_compute; discriminate|].
  unfold nodes_ok. assert (find (nodes ran_world) =
    (λ '(id, type), executed_node (new_node id type) true) <$> DEFAULT_NODES) as -> by (vm_compute; reflexivity).
  repeat constructor; apply executed_node_ok, new_node_ok.
Qed.

Lemma runProcess_produces_witness :
  ∃ r w', run (runProcess request) fresh_world = (inr r, w') ∧ out_verified r = true ∧
    length (events w') = 13 ∧ tallies w' = cycled zero_ledger (of_Z 100).
Proof.
  destruct fresh_world_ok as (H1 & H2 & H3).
  destruct (runProcess_produces request 1 fresh_world eq_refl eq_refl H1 H2 H3 I eq_refl)
    as (r & w' & assigned & E1 & E2 & _ & _ & _ & _ & _ & E3 & E4 & _).
  exists r, w'. split; [exact E1|]. split; [exact E2|]. split; [rewrite E3; vm_compute; reflexivity|exact E4].
Defined.

Lemma value_behind_the_gate_witness :
  ∃ r w', run (runProcess {| in_processId := "q"; in_amount := of_Z 5; in_type := "transfer";
      in_admissible := false; in_nodeIds := None; in_epoch := None |}) fresh_world = (inr r, w') ∧
    out_verified r = false ∧ tallies w' = zero_ledger.
Proof.
  set (i := {| in_processId := "q"; in_amount := of_Z 5; in_type := "transfer";
      in_admissible := false; in_nodeIds := None; in_epoch := None |}).
  destruct (run (runProcess i) fresh_world) as [r w'] eqn:E.
  assert ((run (runProcess i) fresh_world).1 = r) as Hr by (rewrite E; reflexivity).
  vm_compute in Hr. subst r. eexists _, w'. split; [reflexivity|]. split; [reflexivity|].
  destruct (value_behind_the_gate i fresh_world _ w' (proj1 (proj2 fresh_world_ok)) E)
    as [[H _]|[H _]]; [exact H|discriminate].
Defined.

(** The same request for an epoch the column cannot hold. *)
Definition late_request : RunProcessInput :=
  {| in_processId := "p"; in_amount := of_Z 100; in_type := "transfer"; in_admissible := true;
     in_nodeIds := None; in_epoch := Some (of_Z 3000000000) |}.

Lemma unkeyed_epoch_mints_witness :
  ∃ w', run (runProcess late_request) fresh_world = (inl QueryFailedError, w') ∧
    processMinted (tallies w') = of_Z 100 ∧ processBurned (tallies w') = zero.
Proof.
  destruct fresh_world_ok as (H1 & H2 & H3).
  destruct (unkeyed_epoch_mints late_request fresh_world eq_refl eq_refl H1 H2 H3 Logic.I eq_refl) as (w' & E1 & E2 & _).
  exists w'. split; [exact E1|]. rewrite E2. vm_compute. split; reflexivity.
Defined.

Lemma rerun_mints_again_witness :
  ∃ r w', run (runProcess request) ran_world = (inr r, w') ∧
    processMinted (tallies w') = of_Z 200 ∧ "pot.verified" ∈ out_events r.
Proof.
  destruct ran_world_ok as (H1 & H2 & H3).
  destruct (rerun_mints_again request 1
    {| verdict_processId := "p"; verified := true; reasons := [];
       verdict_timestamp := 1700000000011; snapshotSequenceId := 8 |} ran_world eq_refl eq_refl H1 H2 H3 I)
    as (r & w' & assigned & E1 & _ & _ & _ & E2 & _ & _ & E3).
  - vm_compute. reflexivity.
  - reflexivity.
  - exists r, w'. split; [exact E1|]. split; [rewrite E2; vm_compute; reflexivity|exact E3].
Defined.

Lemma orchestrator_settles_witness :
  ∃ w' r, run (orchestrator_finalizeEpoch 1) ran_world = (inr r, w') ∧
    chain w' = chain (run (finalizeEpoch 1) ran_world).2 ∧ final_reconciled r = true.
Proof.
  destruct (run (finalizeEpoch 1) ran_world) as [[e|r] w1] eqn:E.
  - assert (match (run (finalizeEpoch 1) ran_world).1 with inl _ => false | inr _ => true end = true) as H
      by (vm_compute; reflexivity). rewrite E in H. discriminate.
  - destruct (orchestrator_settles 1 r ran_world w1 E) as (w' & H1 & H2 & _).
    + assert (ledger_ok (run (finalizeEpoch 1) ran_world).2) as H by (vm_compute; discriminate).
      rewrite E in H. exact H.
    + exists w', r. split; [exact H1|]. split; [exact H2|].
      assert (match (run (finalizeEpoch 1) ran_world).1 with inl _ => false | inr x => final_reconciled x end = true)
        as H by (vm_compute; reflexivity). rewrite E in H. exact H.
Defined.

Lemma getProcess_reads_witness :
  ∃ view, run (getProcess "p") ran_world = (inr view, ran_world) ∧ length (pv_events view) = 10.
Proof.
  destruct (getProcess_reads "p" ran_world (proj1 ran_world_ok)) as (view & H1 & _ & _ & H2).
  exists view. split; [exact H1|]. rewrite H2. vm_compute. reflexivity.
Defined.

Lemma metrics_spec_witness :
  ∃ w', run (metrics 1) fresh_world = (inr (metrics_of 1 fresh_world), w') ∧
    findOne LEDGER_ID (ledger_rows w') = Some zero_ledger.
Proof.
  destruct (metrics_spec 1 fresh_world (proj1 (proj2 fresh_world_ok))) as (w' & H1 & H2 & _).
  exists w'. split; [exact H1|exact H2].
Defined.
End Witnesses.
