(* ===== verification/System.v ===== *)
(** * The system: all services over one state

    Requests of every service, served one after another or interleaved action by
    action. Some invariants hold of every interleaving; what only holds of requests
    served one at a time, and how interleavings break it, is stated separately. *)

From S2P Require Import Prelude Number NumberFacts NumberText Json Storage Effects Entities World.
From S2P Require Import NodeChain StateRecording Pot ArosCoin Emission Nodes Reserve Commission Release.
From S2P Require Import AllSeeingEye Orchestrator.
From Stdlib Require Import ZArith.

Section System.
Context {ST : Storage} {PL : Platform}.

(** ** Requests *)

(** The operations of the services that change state or read it through several
    actions: the HTTP routes first, then the calls the services offer each other. *)
Inductive Request :=
| RunProcess (i : RunProcessInput)
| FinalizeEpoch (epoch : Z)
| GetProcess (processId : string)
| Metrics (epoch : Z)
| Append (event : string) (p : json)
| Capture (processId event : string) (data : object) (validatorId : option string)
| Verify (processId : string)
| Emit (processId : string) (amount : number)
| RegisterNode (id type : string)
| RecordExecution (id : string) (success : bool)
| ReceivePayment (id : string) (amount : number)
| Accrue (epoch : number) (fee : number) (participants : list Participation)
| SettleEpoch (epoch : Z)
| AfcAccrual (amount : number)
| Activate (threshold target volume : number)
| IsActive
| Eye (q : eye_request).

Definition program (q : Request) : prog World () :=
  match q with
  | RunProcess i => runProcess i;; mret tt
  | FinalizeEpoch n => orchestrator_finalizeEpoch n;; mret tt
  | GetProcess p => getProcess p;; mret tt
  | Metrics n => metrics n;; mret tt
  | Append e p => append e p;; mret tt
  | Capture p e d v => capture p e d v;; mret tt
  | Verify p => verify p;; mret tt
  | Emit p x => emit p x;; mret tt
  | RegisterNode id type => register id type;; mret tt
  | RecordExecution id b => recordExecution id b;; mret tt
  | ReceivePayment id x => receivePayment id x
  | Accrue x fee parts => accrue x fee parts;; mret tt
  | SettleEpoch n => finalizeEpoch n;; mret tt
  | AfcAccrual x => addAfcAccrual x
  | Activate a b c => activate a b c;; mret tt
  | IsActive => isActive;; mret tt
  | Eye q => eye_program q
  end.

(** Serve requests one at a time; a request that throws leaves what it wrote. *)
Definition serve (w : World) (q : Request) : World := (run (program q) w).2.
Definition serve_all (qs : list Request) (w : World) : World := fold_left serve qs w.

(** ** The interface between a discipline and all the services *)

Class AllowsAll (R : discipline World) : Prop := {
  allows_all_recording :: AllowsRecording R;
  allows_all_verdict :: AllowsVerdict R;
  allows_all_epochs :: AllowsEpochs R;
  allows_all_nodes :: AllowsNodes R;
  allows_all_phase :: AllowsPhase R;
  allows_all_log :: AllowsLog R
}.

(** It is enough to say what each write means for a relation that only looks at some
    columns: the writes that do not touch them keep it. *)
Section Intro.
Context (R : discipline World).
Hypothesis (Rnow : ∀ w, R w (now w).2) (Rremember : ∀ p e w, R w (remember p e w))
  (Rverdict : ∀ v w, R w (record_verdict v w)) (Rensure : ∀ w, R w (ensureLedger w))
  (Rledger : ∀ row w, R w (save_ledger row w)) (Repoch : ∀ e w, R w (save_epoch e w))
  (Rpush : ∀ n parts w, R w (push_participants n parts w)) (Rforget : ∀ n w, R w (forget_participants n w))
  (Rnode : ∀ n w, R w (save_node n w)) (Rphase : ∀ row w, R w (save_phase row w)).

Lemma allows_all_intro :
  (∀ e p, guarantee R (append e p)) → (∀ a b c, guarantee R (log a b c)) → AllowsAll R.
Proof. intros Ha Hl. repeat (split; try done). Qed.
End Intro.

Lemma guarantee_program R `{!AllowsAll R} q : guarantee R (program q).
Proof.
  destruct q; unfold program; try (apply guarantee_bind; [|intros ?; apply guarantee_ret]); try guarantee_tac.
  apply guarantee_eye. apply _.
Qed.

(** Every interleaving of requests moves along a relation every action respects, *)
Lemma interleaved R `{!PreOrder R, !AllowsAll (stepwise R)} (qs : list Request) w ps w' :
  steps (program <$> qs, w) (ps, w') → R w w'.
Proof.
  intros Hs. apply (guarantee_steps R _ _) in Hs; [exact Hs|].
  apply Forall_fmap, Forall_true. intros q. by apply guarantee_program.
Qed.

(** and keeps an invariant the requests keep in company; *)
Lemma interleaved_shared I G `{!PreOrder G, !AllowsAll (shared I G)} (qs : list Request) w ps w' :
  steps (program <$> qs, w) (ps, w') → I w → I w' ∧ G w w'.
Proof.
  intros Hs Hw. apply (shared_steps I G _ _) in Hs; [exact Hs| |exact Hw].
  apply Forall_fmap, Forall_true. intros q. by apply (guarantee_program (shared I G)).
Qed.

(** requests served one at a time move along a relation they respect alone, and so
    does one more request that is stopped halfway. *)
Lemma served_alone R `{!PreOrder R, !AllowsAll (alone R)} (qs : list Request) w : R w (serve_all qs w).
Proof.
  revert w. induction qs as [|q qs IH]; intros w; [reflexivity|]. etransitivity; [|apply IH].
  apply (guarantee_run (alone R)), guarantee_program. apply _.
Qed.

Lemma stopped_alone R `{!PreOrder R, !AllowsAll (alone R)} (qs : list Request) q w ps w' :
  steps ([program q], serve_all qs w) (ps, w') → R w w'.
Proof.
  intros Hs%steps_alone. transitivity (serve_all qs w); [exact (served_alone R qs w)|].
  exact (guarantee_program (alone R) q _ _ Hs).
Qed.

(** ** The relations every write respects *)

Lemma captured_eq p w w' : captured w' = captured w → capturedEvents p w' = capturedEvents p w.
Proof. unfold capturedEvents. by intros ->. Qed.

Lemma snapshots_chain w w' : snapshots w' = snapshots w → chain_extends w w'.
Proof. intros H. unfold chain_extends, chain. rewrite H. done. Qed.

#[global] Instance chain_extends_all : AllowsAll (alone chain_extends).
Proof.
  apply allows_all_intro; try (intros; by apply snapshots_chain).
  - intros w. apply snapshots_chain. apply (ol_snapshots _ _ (ensureLedger_only w)).
  - intros e p. apply allows_append.
  - intros a b c. apply alone_log; intros w; by apply snapshots_chain.
Qed.

Lemma ticks_frame w w' : snapshots w' = snapshots w → clock w' = clock w → preserves_ticks w w'.
Proof. intros H1 H2. unfold preserves_ticks, ticks_ordered, chain. rewrite H1, H2. done. Qed.

Lemma ticks_clock w w' :
  snapshots w' = snapshots w → clock w' = next_tick (clock w) → preserves_ticks w w'.
Proof.
  intros H1 H2. pose proof (now_ticks w) as H. unfold preserves_ticks, ticks_ordered, chain, now in *.
  cbn in H. by rewrite H1, H2.
Qed.

#[global] Instance preserves_ticks_all : AllowsAll (alone preserves_ticks).
Proof.
  apply allows_all_intro; try (intros; by apply ticks_frame).
  - apply now_ticks.
  - intros w. destruct (ensureLedger_only w). by apply ticks_frame.
  - intros e p. apply allows_append.
  - intros a b c. apply alone_log; intros w; by apply ticks_clock.
Qed.

Lemma sound_frame w w' :
  snapshots w' = snapshots w → (clock w ≤ clock w')%Z → moves chain_sound chain_grows w w'.
Proof.
  intros H1 H2 [A B C]. unfold chain_grows, chain in *. split; [|by rewrite H1].
  split; unfold chain; rewrite H1; [done|done|]. eapply Forall_impl; [exact C|]. simpl. lia.
Qed.

#[global] Instance chain_sound_all : AllowsAll (shared chain_sound chain_grows).
Proof.
  apply allows_all_intro; try (intros; by apply sound_frame).
  - exact chain_sound_now.
  - intros w. destruct (ensureLedger_only w). apply sound_frame; [done|]. lia.
  - intros e p. apply allows_append.
  - intros a b c. unfold log. apply guarantee_bind; [apply guarantee_query|]. intros h.
    apply guarantee_bind; [apply guarantee_act; exact chain_sound_now|]. intros t.
    apply guarantee_act. intros w. by apply sound_frame.
Qed.

Lemma captured_frame w w' : captured w' = captured w → captured_grows w w'.
Proof. intros H p. by rewrite (captured_eq p w w' H). Qed.

#[global] Instance captured_grows_all : AllowsAll (stepwise captured_grows).
Proof.
  apply allows_all_intro; try (intros; by apply captured_frame).
  - apply remember_captured.
  - intros w. apply captured_frame. apply (ol_captured _ _ (ensureLedger_only w)).
  - intros e p. apply stepwise_append; intros; by apply captured_frame.
  - intros a b c. apply stepwise_log; intros; by apply captured_frame.
Qed.

Lemma oversight_frame w w' : oversight w' = oversight w → oversight_extends w w'.
Proof. intros H. unfold oversight_extends, oversight_rows. rewrite H. done. Qed.

#[global] Instance oversight_extends_all : AllowsAll (alone oversight_extends).
Proof.
  apply allows_all_intro; try (intros; by apply oversight_frame).
  - intros w. apply oversight_frame. apply (ol_oversight _ _ (ensureLedger_only w)).
  - intros e p. apply alone_append; intros w; by apply oversight_frame.
  - intros a b c. apply allows_log.
Qed.

Lemma log_frame w w' : oversight w' = oversight w → log_grows w w'.
Proof. intros H. split; unfold oversight_rows; by rewrite H. Qed.

#[global] Instance log_grows_all : AllowsAll (stepwise log_grows).
Proof.
  apply allows_all_intro; try (intros; by apply log_frame).
  - intros w. apply log_frame. apply (ol_oversight _ _ (ensureLedger_only w)).
  - intros e p. apply stepwise_append; intros; by apply log_frame.
  - intros a b c. apply allows_log.
Qed.

Lemma ledger_row_some row (t : repo ArosCoinLedger) :
  findOne LEDGER_ID t ≠ None → findOne LEDGER_ID (save row t) ≠ None.
Proof.
  intros H. destruct (decide (ledger_id row = LEDGER_ID)) as [<-|Hne].
  - pose proof (findOne_save_eq row t) as Hs. change (primaryKey row) with (ledger_id row) in Hs. by rewrite Hs.
  - by rewrite findOne_save_ne.
Qed.

#[global] Instance keeps_ledger_ok_all : AllowsAll (stepwise keeps_ledger_ok).
Proof.
  apply allows_all_intro; try (intros; by apply ledger_ok_keep).
  - apply ensureLedger_ok.
  - intros row w Hok Hr. apply ledger_row_some, Hok, Hr.
  - intros e p. apply stepwise_append; intros; by apply ledger_ok_keep.
  - intros a b c. apply stepwise_log; intros; by apply ledger_ok_keep.
Qed.

(** ** The registry *)

(** Writes that are not to the registry keep it; the registry's own writes keep
    the scores well formed. *)
Definition same_nodes (w w' : World) : Prop := nodes w' = nodes w.

#[global] Instance same_nodes_preorder : PreOrder same_nodes.
Proof. split; [done|]. intros w1 w2 w3 H12 H23. unfold same_nodes in *. congruence. Qed.

#[global] Instance same_nodes_append : AllowsAppend (stepwise same_nodes).
Proof. split; [|done]. intros e p. by apply stepwise_append. Qed.
#[global] Instance same_nodes_recording : AllowsRecording (stepwise same_nodes).
Proof. split; [apply _|done]. Qed.
#[global] Instance same_nodes_verdict : AllowsVerdict (stepwise same_nodes).
Proof. split; [apply _|done]. Qed.
#[global] Instance same_nodes_ledger : AllowsLedger (stepwise same_nodes).
Proof. split; [|done]. intros w. apply (ol_nodes _ _ (ensureLedger_only w)). Qed.
#[global] Instance same_nodes_epochs : AllowsEpochs (stepwise same_nodes).
Proof. split; try apply _; done. Qed.
#[global] Instance same_nodes_phase : AllowsPhase (stepwise same_nodes).
Proof. split; try apply _; done. Qed.
#[global] Instance same_nodes_log : AllowsLog (stepwise same_nodes).
Proof. split. intros a b c. by apply stepwise_log. Qed.

Lemma same_nodes_maintains {A} (p : prog World A) :
  guarantee (stepwise same_nodes) p → maintains nodes_ok (λ _, True) p.
Proof. apply guarantee_maintains. intros w w' H. unfold nodes_ok. by rewrite H. Qed.

Lemma maintains_then {A B} (p : prog World A) (k : A → prog World B) :
  maintains nodes_ok (λ _, True) p → (∀ a, maintains nodes_ok (λ _, True) (k a)) →
  maintains nodes_ok (λ _, True) (p ≫= k).
Proof. intros Hp Hk. eapply maintains_bind; eauto. Qed.

Lemma maintains_register id type : maintains nodes_ok (λ _, True) (register id type).
Proof.
  unfold register. apply maintains_then.
  - apply maintains_update. intros w Hw. by apply nodes_ok_save; [apply new_node_ok|].
  - intros _. apply same_nodes_maintains. guarantee_tac.
Qed.

Lemma maintains_execution_of id b : maintains nodes_ok (λ _, True) (recordExecution id b).
Proof. apply maintains_recordExecution; [done|]. intros n w. apply nodes_ok_save. Qed.

Lemma maintains_resolve ids : maintains nodes_ok (λ _, True) (resolveAssignedNodes ids).
Proof.
  assert (maintains nodes_ok (λ _, True) register_roster) as Hr.
  { apply maintains_for_each. intros [id type]. apply maintains_then; [apply maintains_register|done]. }
  assert (maintains nodes_ok (λ _, True) (registered ← nodes_list;
    if (length registered =? 0)%nat then register_roster;; registered ← nodes_list; mret (active_ids registered)
    else mret (active_ids registered))) as Hd.
  { apply maintains_then; [apply same_nodes_maintains; unfold nodes_list; guarantee_tac|]. intros l.
    destruct (_ =? _)%nat; [|done]. apply maintains_then; [done|]. intros _.
    apply same_nodes_maintains. unfold nodes_list. guarantee_tac. }
  destruct ids as [[|id ids]|]; [exact Hd|done|exact Hd].
Qed.

Lemma maintains_runProcess i : maintains nodes_ok (λ _, True) (runProcess i).
Proof.
  pose proof (guarantee_note (stepwise same_nodes)). pose proof (guarantee_observe (stepwise same_nodes)).
  unfold runProcess, initiate, assign, execute, judge, reject, produce, conclude, terminate.
  apply maintains_then; [apply same_nodes_maintains; guarantee_tac|]. intros _.
  destruct (negb (in_admissible i)); [apply same_nodes_maintains; guarantee_tac|].
  apply maintains_then.
  { apply maintains_then; [apply maintains_resolve|]. intros assigned. apply same_nodes_maintains. guarantee_tac. }
  intros assigned. apply maintains_then.
  { apply maintains_then; [apply same_nodes_maintains; guarantee_tac|]. intros _.
    apply maintains_then; [apply same_nodes_maintains; guarantee_tac|]. intros _.
    apply maintains_for_each. intros id. apply maintains_then; [apply maintains_execution_of|done]. }
  intros _. apply same_nodes_maintains. guarantee_tac.
Qed.

Lemma maintains_program q : maintains nodes_ok (λ _, True) (program q).
Proof.
  destruct q; unfold program; try (apply maintains_then; [|intros ?; done]);
    try (apply same_nodes_maintains; guarantee_tac; done).
  - apply maintains_runProcess.
  - apply maintains_register.
  - apply maintains_execution_of.
  - apply same_nodes_maintains, guarantee_eye. apply _.
Qed.

(** ** Value, when requests are served one at a time *)

(** The process part is symmetric: the two tallies are the same double. *)
Definition symmetric (w : World) : Prop := processMinted (tallies w) = processBurned (tallies w).

Definition books_ok (w : World) : Prop := ledger_ok w ∧ symmetric w.

Lemma value_kept_books w w' : value_kept w w' → books_ok w → books_ok w'.
Proof. intros Hk [Hl Hs]. destruct (Hk Hl) as [Hl' Ht]. split; [done|]. unfold symmetric. by rewrite Ht. Qed.

Lemma guarantee_books {A} (p : prog World A) w : guarantee (stepwise value_kept) p → books_ok w → books_ok (run p w).2.
Proof. intros Hg. apply value_kept_books. by apply (guarantee_run (stepwise value_kept)). Qed.

Lemma run_then {A} (p : prog World A) w : (run (p;; mret tt) w).2 = (run p w).2.
Proof. rewrite run_bind. by destruct (run p w) as [[e|a] w']. Qed.

Lemma earned_fold (share : string → number) ids row :
  processMinted (fold_left (λ r id, add_earned r (share id)) ids row) = processMinted row ∧
  processBurned (fold_left (λ r id, add_earned r (share id)) ids row) = processBurned row.
Proof. revert row. induction ids as [|id ids IH]; intros row; [done|]. apply (IH (add_earned row (share id))). Qed.

Lemma books_finalize n w : books_ok w → books_ok (run (finalizeEpoch n) w).2.
Proof.
  intros [Hl Hs]. destruct (epoch_of n w) as [e|] eqn:He; [|by rewrite run_finalize_unknown].
  destruct (decide (epoch_status e = open)) as [Ho|Ho]; [|by rewrite (run_finalize_closed n e)].
  rewrite (run_finalize_open n e) by done.
  destruct (weigh w [] (participants_of n w)) as [x|weights] eqn:Hw; [done|].
  destruct (run_settle n e weights w Hl) as (w' & -> & [L _ T _ _ _ _ _]).
  - by eapply epoch_of_int4.
  - by eapply epoch_of_number.
  - by apply (weigh_keys _ _ _ _ Hw), Forall_nil.
  - split; [done|]. cbn [snd]. unfold symmetric. rewrite T.
    by destruct (earned_fold (epoch_share weights (totalFees e)) (payees weights) (tallies w)) as [-> ->].
Qed.

Lemma books_orchestrator_finalize n w : books_ok w → books_ok (run (orchestrator_finalizeEpoch n) w).2.
Proof.
  intros Hb. pose proof (books_finalize n w Hb) as Hf. unfold orchestrator_finalizeEpoch.
  rewrite run_bind. destruct (run (finalizeEpoch n) w) as [[e|r] w1]; [done|]. cbn [snd] in Hf.
  destruct (quietly_observe "commission_distribution" "token_management" (settlement_description n r) w1)
    as (a & w2 & R2 & Q2 & _). rewrite run_bind, R2.
  destruct (q_ledger _ _ _ Q2 (proj1 Hf)) as [L2 T2].
  destruct (quietly_supplyView w2 L2) as (v & w3 & R3 & Q3 & _). rewrite run_bind, R3.
  destruct (quietly_compareSupply v w3) as (b & w4 & R4 & Q4 & _). rewrite run_bind, R4, run_ret. cbn [snd].
  apply (value_kept_books w1); [|done]. eapply quiet_value_kept.
  apply (quiet_trans _ _ _ _ _ Q2 (quiet_trans _ _ _ _ _ Q3 Q4)).
Qed.

(** The runs whose epoch is a key of the [integer] column. *)
Definition keyed (q : Request) : Prop := match q with RunProcess i => is_Some (run_epoch i) | _ => True end.

Lemma books_runProcess i w : is_Some (run_epoch i) → books_ok w → books_ok (run (runProcess i) w).2.
Proof.
  intros [n Hn] [Hl Hs]. destruct (run_value_outcome i w Hl) as [Hl' Ho]. split; [done|].
  unfold symmetric in *. destruct (run (runProcess i) w) as [[e|out] w']; cbn [fst snd] in *.
  - destruct Ho as [->|(_ & H & _)]; [done|congruence].
  - destruct (out_verified out); [|by destruct Ho as [-> _]].
    destruct Ho as (_ & _ & -> & _). simpl. by rewrite Hs.
Qed.

Lemma books_emit p x w : books_ok w → books_ok (run (emit p x) w).2.
Proof.
  intros [Hl Hs]. rewrite run_emit by done. destruct (emitted_world_spec p x w Hl) as (L & T & _).
  split; [done|]. unfold symmetric in *. cbn [snd]. rewrite T. destruct (confirmed _); [|done]. simpl. by rewrite Hs.
Qed.

Lemma books_accrue x fee parts w : books_ok w → books_ok (run (accrue x fee parts) w).2.
Proof.
  intros Hb. destruct (integer_key x) as [n|] eqn:Hx; [|by rewrite run_accrue, Hx].
  destruct Hb as [Hl Hs]. destruct (run_accrue_frame x n fee parts w Hx) as (e & w' & -> & _ & H1 & H2 & _).
  split; [by apply (ledger_ok_keep w)|]. unfold symmetric, tallies in *. cbn [snd]. by rewrite H1.
Qed.

Lemma books_ensure w : books_ok w → books_ok (with_phase (ensureLedger w)).
Proof.
  intros [Hl Hs]. assert (books_ok (ensureLedger w)) as [H1 H2].
  { split; [by apply ensureLedger_ok|]. unfold symmetric. by rewrite ensureLedger_tallies. }
  unfold with_phase. by destruct (phase_of (ensureLedger w)).
Qed.

Lemma books_activate a b c w : books_ok w → books_ok (run (activate a b c) w).2.
Proof.
  intros Hb. rewrite run_activate by apply Hb.
  destruct (phase_active _); [by apply books_ensure|]. destruct (negb _); [by apply books_ensure|].
  pose proof (books_ensure w Hb) as [H1 H2]. split; [exact H1|exact H2].
Qed.

Lemma books_isActive w : books_ok w → books_ok (run isActive w).2.
Proof.
  intros Hb. unfold isActive. rewrite run_bind, run_phase. cbn [snd].
  rewrite run_ret. unfold with_phase. by destruct (phase_of w).
Qed.

(** Every request, whatever its outcome, keeps the books, a run of an epoch that is no
    key apart. *)
Lemma serve_books q w : keyed q → books_ok w → books_ok (serve w q).
Proof.
  intros Hk Hb. unfold serve. destruct q; unfold program; rewrite ?run_then;
    try (apply guarantee_books; [solve [guarantee_tac]|done]).
  - by apply books_runProcess.
  - by apply books_orchestrator_finalize.
  - rewrite run_metrics by apply Hb. by apply books_ensure.
  - by apply books_emit.
  - by apply books_accrue.
  - by apply books_finalize.
  - by apply books_activate.
  - by apply books_isActive.
  - apply guarantee_books; [|done]. apply guarantee_eye. apply _.
Qed.

Lemma serve_all_books qs w : Forall keyed qs → books_ok w → books_ok (serve_all qs w).
Proof.
  intros Hk. revert w. induction Hk as [|q qs Hq _ IH]; intros w Hw; [done|]. apply IH. by apply serve_books.
Qed.

Lemma served_ledger_ok qs w : ledger_ok w → ledger_ok (serve_all qs w).
Proof.
  revert w. induction qs as [|q qs IH]; intros w Hw; [done|]. apply IH.
  apply (guarantee_run (stepwise keeps_ledger_ok) (program q) w); [|done]. apply guarantee_program. apply _.
Qed.

(** The empty database satisfies every invariant. *)
Record sound_start (w : World) : Prop := {
  ss_intact : intact (chain w); ss_chain : chain_sound w; ss_log : log_intact (oversight_rows w);
  ss_entries : log_sound (oversight_rows w); ss_books : books_ok w; ss_nodes : nodes_ok w
}.

Lemma fresh_sound : sound_start fresh_world.
Proof.
  assert (chain fresh_world = []) as Hc by (unfold chain; apply find_empty).
  assert (oversight_rows fresh_world = []) as Ho by (unfold oversight_rows; apply find_empty).
  assert (tallies fresh_world = zero_ledger) as Ht by (unfold tallies; cbn; by rewrite findOne_find, find_empty).
  split.
  - rewrite Hc. by repeat split.
  - split; rewrite Hc; by repeat constructor.
  - rewrite Ho. by repeat constructor.
  - rewrite Ho. by repeat constructor.
  - split; [by intros|]. unfold symmetric. by rewrite Ht.
  - unfold nodes_ok. cbn. rewrite find_empty. constructor.
Qed.

(** ** Interleavings that requests served one at a time cannot produce *)

(** [finalizeEpoch] up to the point where the weights are known. *)
Definition weighing (n : Z) : prog World (Epoch * list (string * number)) :=
  e ← requireEpoch n; weights ← confirmedWeights n; mret (e, weights).

Lemma run_weighing n e weights w :
  epoch_of n w = Some e → weigh w [] (participants_of n w) = inr weights →
  run (weighing n) w = (inr (e, weights), w).
Proof.
  intros He Hw. unfold weighing. by rewrite run_bind, run_requireEpoch, He, run_bind, run_confirmedWeights, Hw.
Qed.

Lemma settled_known n e weights w w' ids :
  settled n e weights w w' → Forall (λ id, node_of id w ≠ None) ids → Forall (λ id, node_of id w' ≠ None) ids.
Proof.
  intros Hs Hids. eapply Forall_impl; [exact Hids|]. intros id. unfold node_of.
  by rewrite (st_nodes _ _ (sd_settles _ _ _ _ _ Hs)).
Qed.

(** The earned tally after one settlement. *)
Definition earn_all (weights : list (string * number)) (total : number) (row : ArosCoinLedger) : ArosCoinLedger :=
  fold_left (λ r id, add_earned r (epoch_share weights total id)) (payees weights) row.

Lemma finalize_race n e weights w :
  ledger_ok w → epoch_of n w = Some e → epoch_status e = open →
  weigh w [] (participants_of n w) = inr weights →
  ∃ w1 w2, settled n e weights w w1 ∧ settled n e weights w1 w2 ∧
    steps ([finalizeEpoch n;; mret tt; finalizeEpoch n;; mret tt], w) ([mret tt; mret tt], w2).
Proof.
  intros Hok He Hs Hw.
  assert (Forall (λ id, node_of id w ≠ None) weights.*1) as Hk by (by apply (weigh_keys _ _ _ _ Hw), Forall_nil).
  pose proof (epoch_of_number _ _ _ He) as Hn.
  pose proof (epoch_of_int4 _ _ _ He) as Hi.
  destruct (run_settle n e weights w Hok Hi Hn Hk) as (w1 & R1 & S1).
  destruct (run_settle n e weights w1 (sd_ledger _ _ _ _ _ S1) Hi Hn (settled_known _ _ _ _ _ _ S1 Hk))
    as (w2 & R2 & S2).
  exists w1, w2. split_and!; [done..|].
  (* the first task reads the open epoch and its weights *)
  etransitivity.
  { apply (run_prefix_steps 0 (requireEpoch n) (λ e, (if decide (epoch_status e = open) then
       weights ← confirmedWeights n; settle n e weights else mret (toResult e));; mret tt) _ _ e w).
    - exact (f_equal Some (prog_bind_assoc _ _ _)).
    - by rewrite run_requireEpoch, He. }
  cbn [insert list_insert]. rewrite decide_True by done.
  etransitivity.
  { apply (run_prefix_steps 0 (confirmedWeights n) (λ weights, settle n e weights;; mret tt) _ _ weights w).
    - exact (f_equal Some (prog_bind_assoc _ _ _)).
    - by rewrite run_confirmedWeights, Hw. }
  cbn [insert list_insert].
  (* the second task settles the epoch from beginning to end *)
  etransitivity.
  { apply (run_steps 1 (finalizeEpoch n;; mret tt) _ _ tt w1); [done|].
    by rewrite run_bind, (run_finalize_open n e w He Hs), Hw, R1. }
  cbn [insert list_insert].
  (* the first task settles it again *)
  refine (run_steps 0 (settle n e weights;; mret tt) [settle n e weights;; mret tt; mret tt] w1 tt w2 eq_refl _).
  by rewrite run_bind, R2.
Qed.

(** [verify] after the look-up of an existing verdict. *)
Definition verify_new (p : string) : prog World VerifyResult :=
  captured ← query (capturedEvents p); r ← reconstruct; issue_verdict p captured (ok r).

Lemma run_verify_new_intact p w :
  intact (chain w) → ∃ v, run (verify_new p) w = (inr (verdict_result v), verify_world p true w) ∧
    verdict_of p (verify_world p true w) = Some v.
Proof.
  intros Hi. unfold verify_new, issue_verdict, verify_world.
  rewrite run_bind, run_query, run_bind, (run_reconstruct_intact w Hi). cbn [ok].
  rewrite run_bind, run_append. destruct (append_tx _ _ w) as [s w1].
  rewrite run_bind, run_act. cbn [fst snd]. destruct (now w1) as [t w2]. cbn [fst snd].
  rewrite run_bind, run_update, run_ret. eexists. split; [reflexivity|].
  by rewrite find_record_verdict, decide_True.
Qed.

Lemma verify_race p w :
  intact (chain w) → verdict_of p w = None →
  steps ([verify p;; mret tt; verify p;; mret tt], w)
        ([mret tt; mret tt], verify_world p true (verify_world p true w)).
Proof.
  intros Hi Hv. destruct (verify_world_appends p w true Hi) as (Hc & _ & _ & _).
  assert (intact (chain (verify_world p true w))) as Hi1 by (rewrite Hc; by apply intact_snoc).
  destruct (run_verify_new_intact p (verify_world p true w) Hi1) as (v & Hrun & _).
  destruct (run_verify_new p w Hv) as (v1 & Hrun1 & _).
  rewrite order_asc_numbered, replay_ok_eq in Hrun1 by apply Hi. cbn [ok] in Hrun1.
  etransitivity.
  { apply (run_prefix_steps 0 (getVerdict p) (λ x, (match x with Some v => mret (verdict_result v)
       | None => verify_new p end);; mret tt) _ _ None w).
    - exact (f_equal Some (prog_bind_assoc _ _ _)).
    - by rewrite run_getVerdict, Hv. }
  cbn [insert list_insert]. etransitivity.
  { apply (run_steps 1 (verify p;; mret tt) _ _ tt (verify_world p true w)); [done|].
    by rewrite run_bind, Hrun1. }
  cbn [insert list_insert].
  refine (run_steps 0 (verify_new p;; mret tt) [verify_new p;; mret tt; mret tt] _ tt _ eq_refl _).
  by rewrite run_bind, Hrun.
Qed.

(** ** Properties *)

(** C4. The record under concurrency. However the actions of any requests interleave,
    and even if some throw: positions stay 1, 2, 3, ... and are never given up, every
    snapshot carries the hash of its own payload, link and position and is stamped in
    the past, captured evidence never shrinks, no oversight entry is lost or changed,
    its ids stay distinct and its entries carry their hashes, the ledger row exists once
    created, and the registry's scores stay well formed. And when requests are served
    one at a time, the last one stopped wherever it is: an intact chain stays intact and
    only grows at its end, its ticks stay in order, and an intact oversight ledger stays
    intact and only grows at its end. *)
Theorem invariants_under_interleaving (qs : list Request) w w' :
  (∀ ps, steps (program <$> qs, w) (ps, w') →
     (chain_sound w → chain_sound w' ∧ length (chain w) ≤ length (chain w')) ∧
     (∀ p, capturedEvents p w ⊆ capturedEvents p w') ∧
     log_grows w w' ∧ (ledger_ok w → ledger_ok w') ∧ (nodes_ok w → nodes_ok w')) ∧
  (∀ q ps, steps ([program q], serve_all qs w) (ps, w') →
     (intact (chain w) → intact (chain w') ∧ chain w `prefix_of` chain w') ∧
     (intact (chain w) → ticks_ordered w → ticks_ordered w') ∧
     (log_intact (oversight_rows w) →
        log_intact (oversight_rows w') ∧ oversight_rows w `prefix_of` oversight_rows w')).
Proof.
  split.
  - intros ps Hs. split_and!.
    + intros Hw. by destruct (interleaved_shared chain_sound chain_grows qs w ps w' Hs Hw) as [H [_ Hl]].
    + exact (interleaved captured_grows qs w ps w' Hs).
    + exact (interleaved log_grows qs w ps w' Hs).
    + exact (interleaved keeps_ledger_ok qs w ps w' Hs).
    + intros Hn. apply (maintains_steps nodes_ok (λ _, True) _ _) in Hs; [apply Hs| |done].
      apply Forall_fmap, Forall_true. apply maintains_program.
  - intros q ps Hs. split_and!.
    + exact (stopped_alone chain_extends qs q w ps w' Hs).
    + intros Hi Ht. by apply (stopped_alone preserves_ticks qs q w ps w' Hs).
    + exact (stopped_alone oversight_extends qs q w ps w' Hs).
Qed.

(** C1. Supply is conserved when requests are served one at a time and the runs among
    them name epochs the [integer] column can hold: after any sequence of requests,
    whatever their outcomes, what was minted equals what was burned, as doubles. So
    while the tallies are finite the process part nets to zero, the derived total
    supply equals the retained earnings, and the Eye finds no drift and writes nothing.
    A run of any other epoch either leaves the tallies alone or throws, having minted
    its amount without burning it. *)
Theorem supply_conserved (qs : list Request) w :
  ledger_ok w → processMinted (tallies w) = processBurned (tallies w) →
  let w' := serve_all qs w in
  (Forall keyed qs →
     processMinted (tallies w') = processBurned (tallies w') ∧
     (is_finite (processMinted (tallies w')) = true → is_nan (earnedRetained (tallies w')) = false →
      run processNet w' = (inr zero, ensureLedger w') ∧
      num_eqb (supply_of (tallies w')) (earnedRetained (tallies w')) = true ∧
      run (view ← supplyView; compareSupply view) w' = (inr true, ensureLedger w'))) ∧
  (∀ i, ¬ keyed (RunProcess i) →
     tallies (serve w' (RunProcess i)) = tallies w' ∨
     tallies (serve w' (RunProcess i)) = add_minted (tallies w') (in_amount i) ∧
     (run (runProcess i) w').1 = inl QueryFailedError).
Proof.
  intros Hl Hs. cbn zeta. split.
  - intros Hk. destruct (serve_all_books qs w Hk (conj Hl Hs)) as [Hl' Hs']. split; [exact Hs'|].
    intros Hf Hn. assert (closed (tallies (serve_all qs w))) as Hc by (split_and!; [done|exact Hs'|done]).
    pose proof (supply_of_closed _ Hc) as Heq. split_and!.
    + unfold processNet. rewrite run_read_ledger by done. rewrite <- Hs'. by rewrite num_sub_diag.
    + done.
    + unfold supplyView. rewrite run_bind, run_read_ledger by done.
      unfold compareSupply. cbn [view_totalSupply view_retained]. by rewrite Heq.
  - intros i Hk. assert (ledger_ok (serve_all qs w)) as Hl' by (by apply served_ledger_ok).
    destruct (run_value_outcome i _ Hl') as [_ Ho]. unfold serve, program. rewrite run_then.
    destruct (run (runProcess i) (serve_all qs w)) as [[e|out] w']; cbn [fst snd] in *.
    + destruct Ho as [->|(-> & _ & _ & -> & _)]; [by left|by right].
    + destruct (out_verified out); [|left; apply Ho]. by destruct Ho as (_ & H & _).
Qed.

(** C37. An epoch can be paid twice: the status is read before the payments and
    written after them, with no transaction. Two concurrent [finalizeEpoch] calls
    can both succeed, and every payee is then credited twice from one pool. *)
Theorem concurrent_settlement_pays_twice n e weights w :
  ledger_ok w → epoch_of n w = Some e → epoch_status e = open →
  weigh w [] (participants_of n w) = inr weights →
  ∃ w', steps ([finalizeEpoch n;; mret tt; finalizeEpoch n;; mret tt], w) ([mret tt; mret tt], w') ∧
    tallies w' = earn_all weights (totalFees e) (earn_all weights (totalFees e) (tallies w)).
Proof.
  intros Hok He Hs Hw. destruct (finalize_race n e weights w Hok He Hs Hw) as (w1 & w2 & S1 & S2 & Hst).
  exists w2. split; [exact Hst|]. by rewrite (sd_tallies _ _ _ _ _ S2), (sd_tallies _ _ _ _ _ S1).
Qed.

(** A verdict can be issued twice: two concurrent [verify] calls for one process
    can both find no verdict; the chain then carries two [pot.verified] events for
    it and the row points to the second. *)
Theorem concurrent_verdict_issued_twice p w :
  intact (chain w) → verdict_of p w = None →
  ∃ w' v, steps ([verify p;; mret tt; verify p;; mret tt], w) ([mret tt; mret tt], w') ∧
    events w' = events w ++ ["pot.verified"; "pot.verified"] ∧ verdict_of p w' = Some v ∧
    snapshotSequenceId v = (Z.of_nat (length (chain w)) + 2)%Z.
Proof.
  intros Hi Hv. set (w1 := verify_world p true w).
  destruct (verify_world_appends p w true Hi) as (Hc & _ & _ & _). fold w1 in Hc.
  assert (intact (chain w1)) as Hi1 by (rewrite Hc; by apply intact_snoc).
  destruct (verify_world_appends p w1 true Hi1) as (Hc1 & Hv1 & _ & _).
  eexists _, _. split; [exact (verify_race p w Hi Hv)|]. fold w1. split; [|split; [exact Hv1|]].
  - unfold events. rewrite Hc1, Hc, !fmap_app, <- app_assoc. done.
  - cbn [snapshotSequenceId new_verdict]. rewrite Hc, length_app. simpl. lia.
Qed.

End System.

(** ** Witnesses *)

Section Witnesses.
#[local] Existing Instance transparent_platform.

(** A run, a verdict and a reading, their first actions in turn. *)
Definition mixed : list Request := [RunProcess request; Verify "q"; Metrics 1].
Definition round_robin : list nat := concat (replicate 60 [0; 1; 2]).
Definition mixed_pool : list (prog World ()) * World := run_schedule round_robin (program <$> mixed, fresh_world).

Lemma invariants_under_interleaving_witness :
  (chain_sound mixed_pool.2 ∧ length (chain mixed_pool.2) = 10) ∧
  (let w := serve_all (take 1 mixed) fresh_world in
   let c := run_schedule (replicate 4 0) ([program (Verify "q")], w) in
   intact (chain c.2) ∧ ticks_ordered c.2 ∧ length (chain c.2) = 13).
Proof.
  assert (ticks_ordered fresh_world) as Ht by (split; [vm_compute; discriminate|split; constructor]).
  split.
  - destruct (invariants_under_interleaving mixed fresh_world mixed_pool.2) as [H _].
    destruct (H mixed_pool.1) as [H1 _].
    + rewrite <- surjective_pairing. unfold mixed_pool. apply run_schedule_steps.
    + destruct H1 as [H1 _]; [repeat split; constructor|]. split; [exact H1|vm_compute; reflexivity].
  - cbn zeta. set (w := serve_all (take 1 mixed) fresh_world).
    set (c := run_schedule (replicate 4 0) ([program (Verify "q")], w)).
    destruct (invariants_under_interleaving (take 1 mixed) fresh_world c.2) as [_ H].
    destruct (H (Verify "q") c.1) as (H1 & H2 & _).
    + rewrite <- surjective_pairing. unfold c. apply run_schedule_steps.
    + split; [apply H1; repeat split|]. split; [|vm_compute; reflexivity]. apply H2; [repeat split|exact Ht].
Defined.

(** A run, its settlement, a rejected run and a reading. *)
Definition history : list Request :=
  [RunProcess request; FinalizeEpoch 1;
   RunProcess {| in_processId := "q"; in_amount := of_Z 5; in_type := "transfer"; in_admissible := false;
                 in_nodeIds := None; in_epoch := None |};
   Metrics 1].

Lemma supply_conserved_witness :
  run processNet (serve_all history fresh_world) =
  (inr zero, ensureLedger (serve_all history fresh_world)).
Proof.
  destruct (supply_conserved history fresh_world fresh_ledger_ok eq_refl) as [H _].
  destruct H as [_ H]; [repeat constructor; vm_compute; eexists; reflexivity|].
  apply H; vm_compute; reflexivity.
Defined.

Lemma concurrent_settlement_pays_twice_witness :
  ∃ w', steps ([finalizeEpoch 1;; mret tt; finalizeEpoch 1;; mret tt], open_world) ([mret tt; mret tt], w') ∧
    earnedRetained (tallies w') = of_Z 150.
Proof.
  destruct open_world_ok as (H1 & _ & H2 & _).
  destruct (concurrent_settlement_pays_twice 1 open_epoch node_weights open_world H1 H2 eq_refl open_world_weights)
    as (w' & H3 & H4).
  exists w'. split; [exact H3|]. rewrite H4. vm_compute. reflexivity.
Defined.

Lemma concurrent_verdict_issued_twice_witness :
  ∃ w' v, steps ([verify "p";; mret tt; verify "p";; mret tt], executed) ([mret tt; mret tt], w') ∧
    verdict_of "p" w' = Some v ∧ snapshotSequenceId v = 6%Z.
Proof.
  destruct (concurrent_verdict_issued_twice "p" executed) as (w' & v & H1 & _ & H2 & H3).
  - vm_compute. repeat split.
  - reflexivity.
  - exists w', v. split; [exact H1|]. split; [exact H2|]. rewrite H3. vm_compute. reflexivity.
Defined.
End Witnesses.
