(* ===== verification/Typing.v ===== *)
(** * The database is typed

    Whatever requests are served, in whatever interleaving and with whatever outcome,
    every row of every table stays one the services can rely on: payloads are values of
    the language that read back as they were written, snapshots carry their hashes,
    verdicts are positive exactly without reasons, epochs are keyed by the column's
    integers and account for their margin once finalized, scores are what the counts
    say, and an active release phase keeps what opened it. *)

From Stdlib Require Import ZArith Ascii String.
From S2P Require Import Prelude Number NumberFacts NumberDecimal NumberText NumberTextFacts Json JsonParse Storage Effects Entities World NodeChain StateRecording Pot ArosCoin Emission Nodes Reserve Commission Release Columns AllSeeingEye Orchestrator System.

Section Typing.
Context {ST : Storage} {PL : Platform}.

(** [Math.log10] returns a number. *)
Context (log10_valid : ∀ x, valid x = true → valid (log10 x) = true).

(** ** Typed rows *)

(** A payload is a value of the language, and one that a JSON column can hold; the hash
    is that of the payload, link and position. *)
Definition snapshot_typed (s : ExecutionSnapshot) : Prop :=
  well_formed (payload s) ∧ stored (payload s) = payload s ∧ sealed s.

(** A verdict names what is missing exactly when it is negative. *)
Definition verdict_typed (v : PotVerdict) : Prop := verified v = true ↔ reasons v = [].

Definition ledger_typed (row : ArosCoinLedger) : Prop :=
  valid (processMinted row) = true ∧ valid (processBurned row) = true ∧ valid (earnedRetained row) = true.

(** What an epoch says of its settlement: nothing while it is open; once finalized, its
    distribution ends with the margin, as the column keeps it. *)
Definition accounted (e : Epoch) : Prop :=
  match epoch_status e with
  | open => distributionLog e = [] ∧ operationalMargin e = zero
  | _ => ∃ paid, distributionLog e = paid ++ [stored_entry (margin_entry (operationalMargin e))] ∧
      Forall (λ x, entry_reason x = REASON_WORK) paid
  end.

(** The numbers of an epoch, and a key the [integer] column can hold. *)
Definition epoch_numbers (e : Epoch) : Prop :=
  int4 (epochNumber e) = true ∧ valid (totalFees e) = true ∧ valid (operationalMargin e) = true ∧
  Forall entry_typed (distributionLog e).

Definition epoch_typed (e : Epoch) : Prop := epoch_numbers e ∧ accounted (epoch_row e).

(** Scores are doubles, and those the counts and the uptime give. *)
Definition node_typed (n : NodeEntity) : Prop :=
  (valid (uptime n) = true ∧ valid (weight n) = true ∧ valid (reputation n) = true) ∧ node_ok n.

Definition option_typed (x : option number) : Prop := ∀ y, x = Some y → valid y = true.

(** An active phase keeps when and on what it opened. *)
Definition phase_typed (row : ReleasePhase) : Prop :=
  (option_typed (reserveIndexAtActivation row) ∧ option_typed (velocityAtActivation row)) ∧
  if phase_active row then is_Some (activatedAt row) ∧ is_Some (reserveIndexAtActivation row) ∧ is_Some (velocityAtActivation row)
  else activatedAt row = None.

Record typed (w : World) : Prop := {
  ty_chain : Forall snapshot_typed (chain w);
  ty_verdicts : Forall verdict_typed (find (verdicts w));
  ty_ledger : Forall ledger_typed (find (ledger_rows w));
  ty_epochs : Forall epoch_typed (find (epochs w));
  ty_nodes : Forall node_typed (find (nodes w));
  ty_phases : Forall phase_typed (find (phases w))
}.

(** A request whose numbers and data are values of the language, as a parsed body's are. *)
Definition request_typed (q : Request) : Prop :=
  match q with
  | RunProcess i => valid (in_amount i) = true
  | Append _ p => well_formed p
  | Capture _ _ d _ => data_typed d
  | Emit _ x | ReceivePayment _ x | Accrue _ x _ | AfcAccrual x => valid x = true
  | Activate a b c => valid a = true ∧ valid b = true ∧ valid c = true
  | _ => True
  end.

(** ** Values *)

Lemma of_Z_valid n : valid (of_Z n) = true.
Proof. rewrite of_Z_units. apply round_units_valid. Qed.

Lemma parse_unsigned_valid s : valid (parse_unsigned s) = true.
Proof.
  unfold parse_unsigned. destruct (String.eqb s "Infinity"); [done|].
  destruct (take_digits 10 0 0 s) as [[v c1] rest].
  destruct (match rest with String "." t => take_digits 10 v 0 t | _ => (v, 0%Z, rest) end) as [[v' c2] rest'].
  destruct (_ =? _)%Z; [done|]. destruct (parse_exponent rest'); [apply of_decimal_valid|done].
Qed.

Lemma string_to_num_valid s : valid (string_to_num s) = true.
Proof.
  assert (∀ b t, valid (parse_radix b t) = true) as Hr.
  { intros b t. unfold parse_radix. destruct (take_digits b 0 0 t) as [[v c] [|]]; [|done].
    destruct (_ =? _)%Z; [done|apply of_Z_valid]. }
  unfold string_to_num. generalize (trim_right (trim_left s)). intros t.
  repeat case_match_goal; try apply parse_unsigned_valid; try apply Hr; try done.
  rewrite valid_opp. apply parse_unsigned_valid.
Qed.

Lemma json_to_num_valid j : well_formed j → valid (json_to_num j) = true.
Proof.
  destruct j; cbn [json_to_num well_formed]; intros Hw; try done; try apply string_to_num_valid.
  by destruct b.
Qed.

Lemma property_typed k j v : well_formed j → property k j = Some v → well_formed v.
Proof.
  destruct j as [| | | | |o]; try done. intros [_ Ho]%well_formed_members Hp. cbn [property] in Hp.
  pose proof (get_property_typed k o Ho) as H. by rewrite Hp in H.
Qed.

Lemma number_property_valid k j : well_formed j → valid (number_property k j) = true.
Proof.
  intros Hj. unfold number_property. destruct (property k j) as [v|] eqn:E; [|done].
  apply (property_typed _ _ _ Hj) in E. destruct v; try done; by apply json_to_num_valid.
Qed.

Lemma stored_num_typed x : valid x = true → well_formed (stored_num x).
Proof. by destruct x as [|[]| |]. Qed.

Lemma stored_typed j : well_formed j → well_formed (stored j).
Proof.
  induction j as [| |x| |l IH|o IH] using json_nested_ind; try done.
  - apply stored_num_typed.
  - intros Hl%well_formed_elements. cbn [stored well_formed].
    induction IH as [|j l Hj IH' IHl]; [constructor|]. inversion Hl; subst. constructor; auto.
  - intros [Hb Ho]%well_formed_members. apply well_formed_object; [by rewrite build_object_map, Hb|].
    clear Hb. unfold data_typed. induction IH as [|[k j] o Hj IH' IHo]; [constructor|]. inversion Ho; subst.
    constructor; auto.
Qed.

Lemma num_ops_valid x y : valid x = true → valid y = true →
  valid (x + y)%num = true ∧ valid (x - y)%num = true ∧ valid (x * y)%num = true ∧ valid (x / y)%num = true.
Proof. intros. split_and!; [by apply num_add_valid|by apply num_sub_valid|by apply num_mul_valid|by apply num_div_valid]. Qed.

(** ** Writes *)

Lemma typed_store h e p t w :
  well_formed p → typed w → typed (store_snapshot (next_snapshot h e p t) w).
Proof.
  intros Hp []. split; try done. unfold chain, store_snapshot. cbn [snapshots set_snapshots].
  apply Forall_save; [|done]. split_and!; [exact (stored_typed p Hp)|apply stored_idempotent|apply next_snapshot_sealed].
Qed.

Lemma typed_clock x w : typed w → typed (set_clock x w).
Proof. intros []. by split. Qed.

Lemma typed_save_verdict v w : verdict_typed v → typed w → typed (record_verdict v w).
Proof. intros Hv []. split; try done. by apply Forall_save. Qed.

Lemma typed_save_ledger row w : ledger_typed row → typed w → typed (save_ledger row w).
Proof. intros Hr []. split; try done. by apply Forall_save. Qed.

Lemma typed_ensureLedger w : typed w → typed (ensureLedger w).
Proof.
  intros Hw. unfold ensureLedger. destruct (ledger_ready w); [done|].
  assert (typed (match findOne LEDGER_ID (ledger_rows w) with Some _ => w | None => save_ledger zero_ledger w end)) as [].
  { destruct (findOne _ _); [done|]. by apply typed_save_ledger. }
  by split.
Qed.

Lemma stored_entry_idempotent x : stored_entry (stored_entry x) = stored_entry x.
Proof. unfold stored_entry. cbn. f_equal. by destruct (entry_amount x) as [|[]| |]. Qed.

Lemma stored_entry_typed x : entry_typed x → entry_typed (stored_entry x).
Proof. unfold entry_typed. cbn [stored_entry entry_amount]. by destruct (entry_amount x) as [|[]| |]. Qed.

Lemma epoch_row_idempotent e : epoch_row (epoch_row e) = epoch_row e.
Proof.
  unfold epoch_row. cbn. f_equal. rewrite <- list_fmap_compose. apply list_fmap_ext. intros _ x _. apply stored_entry_idempotent.
Qed.

Lemma epoch_row_typed e : epoch_typed e → epoch_typed (epoch_row e).
Proof.
  intros [(H0 & H1 & H2 & H3) H4]. split; [split_and!; try done|by rewrite epoch_row_idempotent].
  cbn [epoch_row distributionLog]. apply Forall_fmap. eapply Forall_impl; [exact H3|]. exact stored_entry_typed.
Qed.

Lemma typed_save_epoch e w : epoch_typed e → typed w → typed (save_epoch e w).
Proof. intros He []. split; try done. apply Forall_save; [by apply epoch_row_typed|done]. Qed.

Lemma typed_save_node n w : node_typed n → typed w → typed (save_node n w).
Proof. intros Hn []. split; try done. by apply Forall_save. Qed.

Lemma typed_save_phase row w : phase_typed row → typed w → typed (save_phase row w).
Proof. intros Hr []. split; try done. by apply Forall_save. Qed.

(** The actions that touch no number. *)
Definition same_tables (w w' : World) : Prop :=
  snapshots w' = snapshots w ∧ verdicts w' = verdicts w ∧ ledger_rows w' = ledger_rows w ∧
  epochs w' = epochs w ∧ nodes w' = nodes w ∧ phases w' = phases w.

Instance same_tables_preorder : PreOrder same_tables.
Proof. split; [by intros w|]. intros w1 w2 w3 (?&?&?&?&?&?) (?&?&?&?&?&?). split_and!; congruence. Qed.

Instance same_tables_log : AllowsLog (stepwise same_tables).
Proof. split. intros a b c. by apply stepwise_log. Qed.

Lemma same_tables_typed w w' : same_tables w w' → typed w → typed w'.
Proof. intros (H1 & H2 & H3 & H4 & H5 & H6) []. split; unfold chain in *; congruence. Qed.

Lemma untouched {A} (p : prog World A) : guarantee (stepwise same_tables) p → maintains typed (λ _, True) p.
Proof. apply guarantee_maintains. apply same_tables_typed. Qed.

(** ** Programs *)

Abbreviation keeps p := (maintains typed (λ _, True) p).

Lemma keeps_bind {A B} (Q : A → Prop) (Q' : B → Prop) (p : prog World A) (k : A → prog World B) :
  maintains typed Q p → (∀ a, Q a → maintains typed Q' (k a)) → maintains typed Q' (p ≫= k).
Proof. apply maintains_bind. Qed.

Lemma keeps_then {A B} (Q' : B → Prop) (p : prog World A) (k : A → prog World B) :
  keeps p → (∀ a, maintains typed Q' (k a)) → maintains typed Q' (p ≫= k).
Proof. intros. eapply maintains_bind; eauto. Qed.

Lemma keeps_append e p : well_formed p → keeps (append e p).
Proof.
  intros Hp. unfold append. apply keeps_then; [by apply maintains_query|]. intros h.
  apply keeps_then; [apply maintains_act; intros w Hw; split; [by apply typed_clock|done]|]. intros t.
  apply keeps_then; [apply maintains_update; intros w; by apply typed_store|done].
Qed.

Lemma keeps_now : keeps (act now).
Proof. apply maintains_act. intros w []. split; [by split|done]. Qed.

Lemma keeps_log a b c : keeps (log a b c).
Proof. apply untouched, guarantee_log. apply _. Qed.

Lemma keeps_observe a b c : keeps (observe a b c).
Proof. unfold observe. apply keeps_then; [apply keeps_log|done]. Qed.

Lemma keeps_capture p e d v : data_typed d → keeps (capture p e d v).
Proof.
  intros Hd. unfold capture. apply keeps_then; [by apply keeps_append, well_formed_evidence|]. intros s.
  apply keeps_then; [|done]. apply maintains_update. intros w []. by split.
Qed.

Lemma keeps_note p e d : data_typed d → keeps (note p e d).
Proof. intros Hd. unfold note. apply keeps_then; [by apply keeps_capture|done]. Qed.

Lemma keeps_query {B} (f : World → B) : keeps (query f).
Proof. by apply maintains_query. Qed.

Lemma keeps_ledger : maintains typed ledger_typed ledger.
Proof.
  unfold ledger. apply keeps_then; [apply maintains_update, typed_ensureLedger|]. intros _.
  eapply (keeps_bind (λ o, ∀ row, o = Some row → ledger_typed row)).
  - apply maintains_query. intros w Hw row. apply Forall_findOne, (ty_ledger w Hw).
  - intros [row|] Hrow; [exact (Hrow row eq_refl)|done].
Qed.

Lemma keeps_tally (f : ArosCoinLedger → ArosCoinLedger) :
  (∀ row, ledger_typed row → ledger_typed (f row)) → keeps (row ← ledger; update (save_ledger (f row))).
Proof.
  intros Hf. eapply keeps_bind; [exact keeps_ledger|]. intros row Hrow. apply maintains_update.
  intros w Hw. apply typed_save_ledger; [by apply Hf|done].
Qed.

Lemma keeps_recordMint x : valid x = true → keeps (recordMint x).
Proof. intros Hx. apply keeps_tally. intros row (H1 & H2 & H3). split_and!; try done. by apply num_ops_valid. Qed.

Lemma keeps_recordBurn x : valid x = true → keeps (recordBurn x).
Proof. intros Hx. apply keeps_tally. intros row (H1 & H2 & H3). split_and!; try done. by apply num_ops_valid. Qed.

Lemma keeps_recordEarned x : valid x = true → keeps (recordEarned x).
Proof. intros Hx. apply keeps_tally. intros row (H1 & H2 & H3). split_and!; try done. by apply num_ops_valid. Qed.

Lemma supply_valid row : ledger_typed row → valid (supply_of row) = true.
Proof. intros (H1 & H2 & H3). unfold supply_of. apply num_add_valid; [by apply num_sub_valid|done]. Qed.

Abbreviation gives p := (maintains typed (λ x, valid x = true) p).

Lemma gives_totalSupply : gives totalSupply.
Proof. unfold totalSupply. eapply keeps_bind; [exact keeps_ledger|]. intros row Hrow. exact (supply_valid row Hrow). Qed.

Lemma keeps_supplyView : keeps supplyView.
Proof. unfold supplyView. eapply keeps_bind; [exact keeps_ledger|done]. Qed.

Lemma keeps_compareSupply v : keeps (compareSupply v).
Proof. apply untouched, guarantee_compareSupply. apply _. Qed.

(** *** Reserve *)

Lemma process_volume_valid rows : Forall snapshot_typed rows → valid (process_volume rows) = true.
Proof.
  unfold process_volume. assert (valid zero = true) as Hz by done. revert Hz. generalize zero.
  intros acc Ha Hr. revert acc Ha. induction Hr as [|s rows Hs Hr IH]; intros acc Ha; [done|]. apply IH.
  unfold volume_step. cbn zeta. pose proof (λ k, number_property_valid k _ (proj1 Hs)) as Hk.
  repeat case_match_goal; try done; by apply num_add_valid.
Qed.

Lemma gives_totalProcessVolume : gives totalProcessVolume.
Proof.
  unfold totalProcessVolume. eapply (keeps_bind (Forall snapshot_typed)).
  - apply maintains_query. intros w Hw. unfold list_snapshots. cbn [limit_rows offset_rows].
    unfold order_asc. rewrite sort_by_perm. apply (ty_chain w Hw).
  - intros rows Hr. exact (process_volume_valid rows Hr).
Qed.

Lemma gives_reserveIndex : gives reserveIndex.
Proof.
  unfold reserveIndex. eapply keeps_bind; [exact gives_totalProcessVolume|]. intros v Hv.
  apply log10_valid. apply num_add_valid; [apply of_Z_valid|done].
Qed.

Lemma keeps_addAfcAccrual x : valid x = true → keeps (addAfcAccrual x).
Proof. intros Hx. unfold addAfcAccrual. apply keeps_then; [by apply keeps_append, well_formed_accrual|done]. Qed.

(** *** Nodes *)

Lemma keeps_register id type : keeps (register id type).
Proof.
  unfold register. apply keeps_then; [apply maintains_update; intros w; apply typed_save_node; split; [done|apply new_node_ok]|]. intros _.
  apply keeps_then; [by apply keeps_append, well_formed_registration|done].
Qed.

Lemma keeps_requireNode id : maintains typed node_typed (requireNode id).
Proof.
  unfold requireNode. eapply (keeps_bind (λ o, ∀ n, o = Some n → node_typed n)).
  - apply maintains_query. intros w Hw n. apply Forall_findOne, (ty_nodes w Hw).
  - intros [n|] Hn; [exact (Hn n eq_refl)|done].
Qed.

Lemma executed_typed n b : node_typed n → node_typed (executed_node n b).
Proof.
  intros [(H1 & H2 & H3) Hn].
  assert (valid (reputation (executed_node n b)) = true) as Hr.
  { cbn [executed_node reputation]. unfold computeReputation. destruct (_ =? _)%Z; [apply of_Z_valid|].
    apply num_mul_valid; [apply num_div_valid; apply of_Z_valid|done]. }
  split; [split_and!; [done|by apply num_mul_valid|done]|by apply executed_node_ok].
Qed.

Lemma keeps_recordExecution id b : keeps (recordExecution id b).
Proof.
  unfold recordExecution. eapply keeps_bind; [apply keeps_requireNode|]. intros n Hn.
  apply keeps_then; [|done]. apply maintains_update. intros w. by apply typed_save_node, executed_typed.
Qed.

Lemma gives_currentWeight id : gives (currentWeight id).
Proof. unfold currentWeight. eapply keeps_bind; [apply keeps_requireNode|]. by intros n [(_ & Hw & _) _]. Qed.

Lemma keeps_receivePayment id x : valid x = true → keeps (receivePayment id x).
Proof.
  intros Hx. unfold receivePayment. eapply keeps_bind; [apply keeps_requireNode|]. intros n [(_ & Hw & _) _].
  apply keeps_then; [by apply keeps_append, well_formed_payment|done].
Qed.

(** *** Commission *)

Lemma keeps_getEpoch n :
  maintains typed (λ o, int4 n = true ∧ ∀ e, o = Some e → epoch_typed e) (getEpoch n).
Proof.
  unfold getEpoch. destruct (int4 n) eqn:Hn; [|done]. apply maintains_query. intros w Hw. split; [done|].
  intros e. unfold epoch_of. rewrite Hn. apply Forall_findOne, (ty_epochs w Hw).
Qed.

Lemma add_fee_typed e fee : valid fee = true → epoch_typed e → epoch_typed (add_fee e fee).
Proof. intros Hf [(H0 & H1 & H2 & H3) H4]. split; [split_and!; try done; by apply num_add_valid|exact H4]. Qed.

Lemma keeps_accrue x fee parts : valid fee = true → keeps (accrue x fee parts).
Proof.
  intros Hf. unfold accrue. destruct (integer_of x) as [n|]; [|done]. eapply (keeps_bind epoch_typed).
  - unfold openEpoch. eapply keeps_bind; [apply keeps_getEpoch|]. intros [e|] [Hn He]; [exact (He e eq_refl)|].
    apply keeps_then; [apply keeps_now|]. intros t. split; [by split_and!|done].
  - intros e He. apply keeps_then; [|intros _; apply keeps_then; [|done]].
    + apply maintains_update. intros w. by apply typed_save_epoch, add_fee_typed.
    + apply maintains_update. intros w. apply same_tables_typed. by split_and!.
Qed.

Definition weights_typed (l : list (string * number)) : Prop := Forall (λ x, valid x.2 = true) l.

Lemma weight_get_typed id l : weights_typed l → option_typed (weight_get id l).
Proof.
  induction 1 as [|[id' v] l Hv Hl IH]; [done|]. cbn [weight_get]. case_decide; [|done]. by intros y [= <-].
Qed.

Lemma add_weight_typed id v l : valid v = true → weights_typed l → weights_typed (add_weight id v l).
Proof.
  intros Hv Hl. unfold add_weight.
  assert (valid (default zero (weight_get id l) + v)%num = true) as Hsum.
  { apply num_add_valid; [|done]. pose proof (weight_get_typed id l Hl) as H.
    destruct (weight_get id l) as [x|]; [exact (H x eq_refl)|done]. }
  revert Hsum. generalize (default zero (weight_get id l) + v)%num. intros x Hx.
  induction Hl as [|[id' v'] l Hv' Hl IH]; cbn [weight_set]; [by repeat constructor|]. case_decide; by constructor.
Qed.

Lemma keeps_weigh_part acc x :
  weights_typed acc.1 → maintains typed (λ acc, weights_typed acc.1) (weigh_part acc x).
Proof.
  destruct acc as [l cache]. intros Hl. unfold weigh_part. apply keeps_then.
  - unfold cached_verdict. destruct (_ !! _); [done|]. apply keeps_then; [apply keeps_query|done].
  - intros [ok cache']. destruct ok; [|done].
    eapply keeps_bind; [apply gives_currentWeight|]. intros wt Hwt. by apply add_weight_typed.
Qed.

Lemma keeps_confirmedWeights n : maintains typed weights_typed (confirmedWeights n).
Proof.
  unfold confirmedWeights. apply keeps_then; [apply keeps_query|]. intros [a [parts|]]; [|constructor].
  set (Q := λ st : nat * (list (string * number) * gmap string bool), weights_typed st.2.1).
  assert (∀ st, Q st → maintains typed (λ r, match r with inl b | inr b => Q b end) (weigh_turn a st)) as Hturn.
  { intros st Hst. unfold weigh_turn. apply keeps_then; [apply keeps_query|]. intros [x|]; [|exact Hst].
    eapply keeps_bind; [by apply keeps_weigh_part|done]. }
  unfold weigh_array. eapply (keeps_bind (λ r, match r with inl b | inr b => Q b end)); [apply (maintains_turns typed Q); [exact Hturn|constructor]|].
  intros r Hr. eapply (keeps_bind (λ r, match r with inl b | inr b => Q b end)).
  - destruct r as [st|st]; [by apply (maintains_doubled typed Q)|exact Hr].
  - by intros [[i [l cache]]|[i [l cache]]].
Qed.

Lemma sum_numbers_valid l : Forall (λ x, valid x = true) l → valid (sum_numbers l) = true.
Proof.
  unfold sum_numbers. assert (valid zero = true) as Hz by done. revert Hz. generalize zero.
  intros acc Ha Hl. revert acc Ha. induction Hl as [|x l Hx Hl IH]; intros acc Ha; [done|]. apply IH. by apply num_add_valid.
Qed.

Lemma node_share_valid l total tw id :
  weights_typed l → valid total = true → valid tw = true → valid (node_share l total tw id) = true.
Proof.
  intros Hl Ht Htw. unfold node_share, distributable. apply num_div_valid; [|done].
  apply num_mul_valid; [|apply num_mul_valid; [done|apply num_sub_valid; [apply of_Z_valid|apply of_decimal_valid]]].
  pose proof (weight_get_typed id l Hl) as H. destruct (weight_get id l) as [x|]; [exact (H x eq_refl)|done].
Qed.

Definition paid_typed (acc : number * list DistributionEntry) : Prop :=
  valid acc.1 = true ∧ Forall entry_typed acc.2 ∧ Forall (λ x, entry_reason x = REASON_WORK) acc.2.

Lemma keeps_payments l total : weights_typed l → valid total = true → maintains typed paid_typed (payments l total).
Proof.
  intros Hl Ht. unfold payments. cbn zeta. assert (valid (sum_numbers l.*2) = true) as Htw.
  { apply sum_numbers_valid. by apply Forall_fmap. }
  destruct (num_ltb _ _); [|by repeat constructor]. apply maintains_fold_each; [|by repeat constructor].
  intros [paid log] id (Hp & Hlog & Hr). unfold pay_node. cbn [fst snd] in *.
  pose proof (node_share_valid l total _ id Hl Ht Htw) as Hs.
  apply keeps_then; [by apply keeps_receivePayment|]. intros _.
  apply keeps_then; [by apply keeps_recordEarned|]. intros _.
  split_and!; [by apply num_add_valid| |]; apply Forall_app; (split; [done|]); by repeat constructor.
Qed.

Lemma finalized_typed e log m t :
  int4 (epochNumber e) = true → valid (totalFees e) = true → valid m = true →
  Forall entry_typed (log ++ [margin_entry m]) → Forall (λ x, entry_reason x = REASON_WORK) log →
  epoch_typed (finalized_epoch e (log ++ [margin_entry m]) m t).
Proof.
  intros H0 H1 H2 H3 H4. split; [by split_and!|]. exists (stored_entry <$> log).
  split; [exact (fmap_app stored_entry log [margin_entry m])|]. by apply Forall_fmap.
Qed.

Lemma keeps_finalizeEpoch n : keeps (finalizeEpoch n).
Proof.
  unfold finalizeEpoch. eapply (keeps_bind epoch_typed).
  - unfold requireEpoch. eapply keeps_bind; [apply keeps_getEpoch|]. intros [e|] [_ He]; [exact (He e eq_refl)|done].
  - intros e [(H0 & H1 & H2 & H3) _]. case_decide; [|done].
    eapply keeps_bind; [apply keeps_confirmedWeights|]. intros l Hl. unfold settle. cbn zeta.
    eapply keeps_bind; [by apply keeps_payments|]. intros [paid log] (Hp & Hlog & Hwork). cbn [fst snd] in *.
    assert (valid (totalFees e - paid)%num = true) as Hm by by apply num_sub_valid.
    assert (Forall entry_typed (log ++ [margin_entry (totalFees e - paid)%num])) as Hlog'.
    { apply Forall_app. split; [done|]. by repeat constructor. }
    apply keeps_then; [by apply keeps_addAfcAccrual|]. intros _.
    apply keeps_then; [apply keeps_now|]. intros t.
    apply keeps_then; [apply maintains_update; intros w; by apply typed_save_epoch, finalized_typed|]. intros _.
    apply keeps_then; [by apply keeps_append, well_formed_settlement|]. intros _.
    apply keeps_then; [|done]. apply maintains_update. intros w. apply same_tables_typed. by split_and!.
Qed.

(** *** Release *)

Lemma keeps_phase : maintains typed phase_typed phase.
Proof.
  unfold phase. eapply (keeps_bind (λ o, ∀ row, o = Some row → phase_typed row)).
  - apply maintains_query. intros w Hw row. apply Forall_findOne, (ty_phases w Hw).
  - intros [row|] Hrow; [exact (Hrow row eq_refl)|].
    apply keeps_then; [|done]. apply maintains_update. intros w. by apply typed_save_phase.
Qed.

Lemma keeps_activate a b c : valid a = true → valid b = true → valid c = true → keeps (activate a b c).
Proof.
  intros Ha Hb Hc. unfold activate.
  eapply (keeps_bind (λ m, valid (check_reserveIndex m) = true ∧ valid (check_velocity m) = true)).
  - unfold Release.check. eapply keeps_bind; [apply gives_reserveIndex|]. intros idx Hidx.
    eapply (keeps_bind (λ x, valid x = true)); [|by intros vel Hvel].
    unfold velocity. eapply keeps_bind; [apply gives_totalSupply|]. intros s Hs.
    unfold velocity_at. destruct (num_leb s zero); [done|]. by apply num_div_valid.
  - intros m [H1 H2]. eapply keeps_bind; [apply keeps_phase|]. intros row Hrow.
    destruct (phase_active row); [done|]. destruct (negb (check_mature m)); [done|].
    apply keeps_then; [apply keeps_now|]. intros t.
    apply keeps_then; [by apply keeps_append, well_formed_activation|]. intros _.
    apply keeps_then; [|done]. apply maintains_update. intros w. apply typed_save_phase.
    split; [by split; intros y [= <-]|]. split_and!; by eexists.
Qed.

(** *** Verdicts and emission *)

Lemma keeps_verify p : keeps (verify p).
Proof.
  unfold verify. apply keeps_then; [apply keeps_query|]. intros [v|]; [done|].
  apply keeps_then; [apply keeps_query|]. intros have.
  apply keeps_then; [apply untouched, guarantee_reconstruct; apply _|]. intros r.
  unfold issue_verdict. cbn zeta. apply keeps_then; [by apply keeps_append, well_formed_verdict|]. intros s.
  apply keeps_then; [apply keeps_now|]. intros t. apply keeps_then; [|done].
  apply maintains_update. intros w. apply typed_save_verdict.
  unfold verdict_typed. cbn [verified reasons]. by rewrite every_criterion_deserved, failureReasons_nil.
Qed.

Lemma gives_mint p x : valid x = true → gives (mint p x).
Proof.
  intros Hx. unfold mint. apply keeps_then; [apply keeps_query|]. intros v. destruct (confirmed v); [|done].
  apply keeps_then; [by apply keeps_recordMint|]. intros _.
  apply keeps_then; [by apply keeps_append, well_formed_minted|done].
Qed.

Lemma gives_burn p x : valid x = true → gives (burn p x).
Proof.
  intros Hx. unfold burn. apply keeps_then; [by apply keeps_recordBurn|]. intros _.
  apply keeps_then; [by apply keeps_append, well_formed_burned|done].
Qed.

Lemma keeps_emit p x : valid x = true → keeps (emit p x).
Proof.
  intros Hx. unfold emit. apply keeps_then; [apply keeps_query|]. intros v. destruct (confirmed v); [|done].
  eapply keeps_bind; [by apply gives_mint|]. intros m Hm. eapply keeps_bind; [by apply gives_burn|done].
Qed.

(** *** The lifecycle *)

Lemma data_num k x : valid x = true → data_typed [(k, JNum x)].
Proof. intros Hx. by repeat constructor. Qed.

Lemma keeps_resolve ids : keeps (resolveAssignedNodes ids).
Proof.
  assert (keeps (registered ← nodes_list;
    if (length registered =? 0)%nat then register_roster;; registered ← nodes_list; mret (active_ids registered)
    else mret (active_ids registered))) as Hr.
  { apply keeps_then; [apply keeps_query|]. intros l. destruct (_ =? _)%nat; [|done].
    apply keeps_then; [|intros _; apply keeps_then; [apply keeps_query|done]].
    apply maintains_for_each. intros [id type]. apply keeps_then; [apply keeps_register|done]. }
  destruct ids as [[|id ids]|]; [exact Hr|done|exact Hr].
Qed.

Lemma default_fee_valid x : valid x = true → valid (default_fee x) = true.
Proof.
  intros Hx. unfold default_fee, computeFee. cbn zeta. apply num_mul_valid.
  - apply num_mul_valid; [done|apply of_decimal_valid].
  - apply num_add_valid; [apply of_Z_valid|done].
Qed.

Lemma keeps_produce i n assigned : valid (in_amount i) = true → gives (produce i n assigned).
Proof.
  intros Hi. unfold produce. eapply keeps_bind; [by apply gives_mint|]. intros m Hm.
  apply keeps_then; [by apply keeps_note, data_num|]. intros _.
  apply keeps_then; [apply keeps_observe|]. intros _.
  apply keeps_then; [by apply keeps_accrue, default_fee_valid|]. intros _.
  eapply keeps_bind; [by apply gives_burn|]. intros b _.
  apply keeps_then; [apply keeps_observe|done].
Qed.

Lemma keeps_conclude i m assigned evs : keeps (conclude i m assigned evs).
Proof.
  unfold conclude. eapply keeps_bind; [apply gives_reserveIndex|]. intros idx _.
  apply keeps_then; [apply keeps_note; by repeat constructor|]. intros _.
  apply keeps_then; [apply keeps_observe|]. intros _.
  apply keeps_then; [apply keeps_supplyView|]. intros v.
  apply keeps_then; [apply keeps_compareSupply|]. intros _.
  eapply keeps_bind; [apply gives_totalSupply|done].
Qed.

Lemma keeps_reject i assigned evs : keeps (reject i assigned evs).
Proof.
  unfold reject. apply keeps_then; [apply keeps_note; by repeat constructor|]. intros _.
  eapply keeps_bind; [apply gives_reserveIndex|]. intros idx _.
  eapply keeps_bind; [apply gives_totalSupply|]. intros s _.
  apply keeps_then; [apply keeps_supplyView|]. intros v.
  apply keeps_then; [apply keeps_compareSupply|done].
Qed.

Lemma keeps_execute i assigned : keeps (execute i assigned).
Proof.
  unfold execute. apply keeps_then; [apply keeps_note; by repeat constructor|]. intros _.
  apply keeps_then; [apply keeps_note; constructor|]. intros _.
  apply maintains_for_each. intros id. apply keeps_then; [apply keeps_recordExecution|done].
Qed.

Lemma keeps_assign i : keeps (assign i).
Proof.
  unfold assign. apply keeps_then; [apply keeps_resolve|]. intros assigned.
  apply keeps_then; [|intros _; apply keeps_then; [apply keeps_observe|done]].
  apply keeps_note. constructor; [apply (well_formed_strings assigned)|constructor].
Qed.

Lemma keeps_judge i : keeps (judge i).
Proof.
  unfold judge. apply keeps_then; [apply keeps_verify|]. intros v.
  apply keeps_then; [apply keeps_note; constructor; [apply well_formed_flag|constructor]|]. intros _.
  apply keeps_then; [apply keeps_observe|done].
Qed.

Lemma keeps_runProcess i : valid (in_amount i) = true → keeps (runProcess i).
Proof.
  intros Hi. unfold runProcess. cbn zeta. apply keeps_then.
  { unfold initiate. apply keeps_then; [by apply keeps_note, data_num|intros _; apply keeps_observe]. }
  intros _. destruct (negb (in_admissible i)).
  - apply keeps_then; [apply keeps_observe|]. intros _. unfold terminate.
    eapply keeps_bind; [apply gives_reserveIndex|]. intros idx _.
    eapply keeps_bind; [apply gives_totalSupply|done].
  - apply keeps_then; [apply keeps_assign|]. intros assigned.
    apply keeps_then; [apply keeps_execute|]. intros _.
    apply keeps_then; [apply keeps_judge|]. intros v.
    destruct (negb (result_verified v)); [apply keeps_reject|].
    eapply keeps_bind; [by apply keeps_produce|]. intros m _. apply keeps_conclude.
Qed.

Lemma keeps_metrics n : keeps (metrics n).
Proof.
  unfold metrics. eapply keeps_bind; [apply gives_totalSupply|]. intros s _.
  apply keeps_then; [unfold retained; eapply keeps_bind; [apply keeps_ledger|done]|]. intros e.
  eapply keeps_bind; [apply gives_reserveIndex|]. intros idx _.
  apply keeps_then; [apply keeps_query|]. intros vs.
  apply keeps_then; [unfold getEpoch; destruct (int4 n); [by intros w Hw; split|done]|]. intros ep.
  apply keeps_then; [apply keeps_query|]. intros h.
  apply keeps_then; [|by destruct ep]. unfold isActive. eapply keeps_bind; [apply keeps_phase|done].
Qed.

Lemma keeps_program q : request_typed q → keeps (program q).
Proof.
  destruct q; unfold program; cbn [request_typed]; intros Hq;
    try (apply keeps_then; [|done]).
  - by apply keeps_runProcess.
  - unfold orchestrator_finalizeEpoch. apply keeps_then; [apply keeps_finalizeEpoch|]. intros r.
    apply keeps_then; [apply keeps_observe|]. intros _.
    apply keeps_then; [apply keeps_supplyView|]. intros v.
    apply keeps_then; [apply keeps_compareSupply|done].
  - unfold getProcess. apply keeps_then; [apply keeps_query|]. intros v.
    apply keeps_then; [apply keeps_query|done].
  - apply keeps_metrics.
  - by apply keeps_append.
  - by apply keeps_capture.
  - apply keeps_verify.
  - by apply keeps_emit.
  - apply keeps_register.
  - apply keeps_recordExecution.
  - by apply keeps_receivePayment.
  - by apply keeps_accrue.
  - apply keeps_finalizeEpoch.
  - by apply keeps_addAfcAccrual.
  - destruct Hq as (? & ? & ?). by apply keeps_activate.
  - unfold isActive. eapply keeps_bind; [apply keeps_phase|done].
  - apply untouched, guarantee_eye. apply _.
Qed.

(** ** Properties *)

(** C8. The database keeps its types under every interleaving, whatever the requests'
    outcomes: from a typed database, requests with typed bodies leave one. Every number
    is a well-formed double (infinite or not-a-number when the arithmetic overflowed);
    every snapshot carries the hash of its payload, link and position, and the text of
    its payload column parses to exactly the payload the services go on to read; every
    verdict is positive exactly when it names no reason; every epoch is keyed by an
    integer of the column, has no distribution while it is open, and once finalized a
    distribution of work entries that ends with its margin; every node's scores are
    those its counts and uptime give; and an active release phase keeps the time and the
    metrics it opened on. *)
Theorem database_typed (qs : list Request) w ps w' :
  Forall request_typed qs → typed w → steps (program <$> qs, w) (ps, w') →
  typed w' ∧
  Forall (λ s, JSON_parse (payload_column s) = Some (payload s)) (chain w').
Proof.
  intros Hqs Hw Hs.
  apply (maintains_steps typed (λ _, True) _ _) in Hs as [_ Hw']; [| |done].
  - split; [exact Hw'|]. eapply Forall_impl; [exact (ty_chain w' Hw')|]. intros s (Hs & Heq & _).
    unfold payload_column. by rewrite JSON_parse_stringify, Heq.
  - apply Forall_fmap. eapply Forall_impl; [exact Hqs|]. intros q Hq. by apply keeps_program.
Qed.

Lemma typed_fresh : typed fresh_world.
Proof. split; unfold chain; cbn [snapshots verdicts ledger_rows epochs nodes phases fresh_world]; rewrite find_empty; constructor. Qed.

End Typing.

Section Witnesses.
#[local] Existing Instance transparent_platform.

Lemma database_typed_witness :
  typed mixed_pool.2 ∧ length (chain mixed_pool.2) = 10 ∧
  Forall (λ s, JSON_parse (payload_column s) = Some (payload s)) (chain mixed_pool.2).
Proof.
  destruct (database_typed (PL := transparent_platform) (ST := list_storage)) with (qs := mixed) (w := fresh_world)
    (ps := mixed_pool.1) (w' := mixed_pool.2) as [H1 H2].
  - intros x _. reflexivity.
  - repeat constructor.
  - apply typed_fresh.
  - rewrite <- surjective_pairing. unfold mixed_pool. apply run_schedule_steps.
  - split; [exact H1|]. split; [vm_compute; reflexivity|exact H2].
Defined.
End Witnesses.
