(* ===== verification/Liveness.v ===== *)
(** * Value keeps flowing

    No request wedges the system for the next: where requests served one at a time
    stop, and wherever an interleaving is stopped whose chain still replays, a new
    process still goes through, with or without a restart. And what a stop between a
    mint and its burn leaves. *)

From S2P Require Import Prelude Number Json Storage Effects Entities World NodeChain StateRecording Pot ArosCoin Emission Nodes Reserve Commission Release AllSeeingEye Orchestrator System.
From Stdlib Require Import ZArith.

Section Liveness.
Context {ST : Storage} {PL : Platform}.

Lemma maintained_nodes (qs : list Request) w ps w' :
  steps (program <$> qs, w) (ps, w') → nodes_ok w → nodes_ok w'.
Proof.
  intros Hs Hn. apply (maintains_steps nodes_ok (λ _, True) _ _) in Hs; [apply Hs| |done].
  apply Forall_fmap, Forall_true. apply maintains_program.
Qed.

Lemma served_nodes_ok qs w : nodes_ok w → nodes_ok (serve_all qs w).
Proof.
  revert w. induction qs as [|q qs IH]; intros w Hn; [done|]. apply IH.
  destruct (maintains_run nodes_ok (λ _, True) (program q) w (maintains_program q) Hn) as [H _]. exact H.
Qed.

(** What the running process and the database can be when the next request arrives:
    requests interleaved in any way, as long as the chain still replays; or requests
    served one after the other, a last one stopped at any of its actions. *)
Inductive reachable : World → Prop :=
| reachable_interleaved qs ps w :
    steps (program <$> qs, fresh_world) (ps, w) →
    run reconstruct w = (inr {| ok := true; brokenAt := None |}, w) → reachable w
| reachable_served qs q ps w :
    steps ([program q], serve_all qs fresh_world) (ps, w) → reachable w.

Lemma reachable_sound w : reachable w → intact (chain w) ∧ ledger_ok w ∧ nodes_ok w.
Proof.
  pose proof fresh_sound as H0. intros [qs ps w' Hs Hr|qs q ps w' Hs].
  - split_and!.
    + destruct (interleaved_shared chain_sound chain_grows qs fresh_world ps w' Hs (ss_chain _ H0)) as [[Hn _ _] _].
      split; [done|]. apply replay_linked. rewrite run_reconstruct in Hr. injection Hr as Hr.
      by rewrite <- (order_asc_numbered _ Hn), Hr.
    + apply (interleaved keeps_ledger_ok qs fresh_world ps w' Hs), H0.
    + apply (maintained_nodes qs fresh_world ps w' Hs), H0.
  - split_and!.
    + apply (stopped_alone chain_extends qs q fresh_world ps w' Hs), H0.
    + apply (interleaved keeps_ledger_ok [q] _ ps w' Hs). apply served_ledger_ok, H0.
    + apply (maintained_nodes [q] _ ps w' Hs). apply served_nodes_ok, H0.
Qed.

(** C9. Whatever was served before and wherever it was stopped, with the process
    restarted or not: an admissible process that names an epoch the column can hold and
    no unregistered node, and has no verdict yet, runs to completion. Its verdict is
    positive, one cycle of its amount is minted and burned, its fee is due to the epoch,
    and the chain still replays. No request can wedge the system for the next. *)
Theorem fresh_process_completes w0 w i n :
  reachable w0 → w = w0 ∨ w = restart w0 →
  in_admissible i = true → run_epoch i = Some n → assignable w (in_nodeIds i) →
  verdict_of (in_processId i) w = None →
  ∃ r w', run (runProcess i) w = (inr r, w') ∧
    out_verified r = true ∧ out_minted r = in_amount i ∧ out_fee r = default_fee (in_amount i) ∧
    tallies w' = cycled (tallies w) (in_amount i) ∧
    (∃ v, verdict_of (in_processId i) w' = Some v ∧ verified v = true) ∧
    run reconstruct w' = (inr {| ok := true; brokenAt := None |}, w').
Proof.
  intros Hr Hw Ha He Has Hv.
  assert (intact (chain w) ∧ ledger_ok w ∧ nodes_ok w) as (Hi & Hl & Hn).
  { destruct (reachable_sound w0 Hr) as (Hi & Hl & Hn). by destruct Hw as [-> | ->]. }
  destruct (run_produces i n w Ha He Hi Hl Hn Has) as (r & w' & assigned & Hrun & H1 & _ & H3 & H4 & _ & _ & _ & Hran & _).
  { by rewrite Hv. }
  exists r, w'. destruct (rv_chain _ _ _ _ _ Hran) as [Hi' _]. destruct (rv_verdict _ _ _ _ _ Hran) as (v & Hv' & Hver & _).
  split_and!; [done..|apply (rv_tallies _ _ _ _ _ Hran)|by exists v|].
  by apply run_reconstruct_intact.
Qed.

(** ** What a crash leaves *)

(** A mint can outlive its burn: the two are separate writes, and nothing at the
    next start looks for a cycle that was cut. If the process stops in between, the
    database keeps the mint and its event without their counterparts, while the chain
    still replays; and whenever the extra amount is visible in the supply, the Eye's
    check fails from then on and logs the drift, but nothing repairs it. *)
Theorem crash_leaves_mint p amount w :
  ledger_ok w → intact (chain w) → log_intact (oversight_rows w) → confirmed (verdict_of p w) = true →
  ∃ k w1, steps ([emit p amount;; mret tt], w) ([k], w1) ∧ ¬ ended k ∧
    tallies w1 = add_minted (tallies w) amount ∧ events w1 = events w ++ ["emission.minted"] ∧
    run reconstruct (restart w1) = (inr {| ok := true; brokenAt := None |}, restart w1) ∧
    (num_eqb (supply_of (tallies w1)) (earnedRetained (tallies w1)) = false →
     ∃ w', run (view ← supplyView; compareSupply view) (restart w1) = (inr false, w') ∧
       tallies w' = tallies w1 ∧ length (oversight_rows w') = S (length (oversight_rows w))).
Proof.
  intros Hok Hi Hl Hc. set (w1 := minted_world p amount w).
  assert (run (mint p amount) w = (inr amount, w1)) as Hrun by (by rewrite run_mint, Hc).
  destruct (minted_world_spec p amount w Hok) as (Hok1 & Ht & _ & _ & Hch). fold w1 in Hok1, Ht, Hch.
  destruct (Hch Hi) as (Hi1 & s & Hs & He & _).
  assert (oversight_rows w1 = oversight_rows w) as Ho.
  { destruct (after_write_spec (λ r, add_minted r amount) w Hok) as (_ & _ & Hl'); [apply tallies_id|].
    change (oversight_rows w1) with (oversight_rows (after_write (λ r, add_minted r amount) w)).
    unfold oversight_rows. by rewrite (ol_oversight _ _ Hl'). }
  assert (ledger_ok (restart w1)) as Hok2 by done.
  set (rest := λ minted, (burned ← burn p minted;
    mret {| authorized := true; minted := minted; burned := burned; emit_processId := p |}) ≫= λ _, mret tt).
  eexists (rest amount), w1. split_and!; [|  |exact Ht| |by apply run_reconstruct_intact|].
  - etransitivity.
    { apply (run_prefix_steps 0 (getVerdict p) (λ verdict, (if confirmed verdict then
        minted ← mint p amount; burned ← burn p minted;
        mret {| authorized := true; minted := minted; burned := burned; emit_processId := p |}
      else mret {| authorized := false; minted := zero; burned := zero; emit_processId := p |}) ≫= λ _, mret tt) _ _
               (verdict_of p w) w); [exact (f_equal Some (prog_bind_assoc _ _ _))|apply run_getVerdict]. }
    rewrite Hc. cbn [insert list_insert].
    refine (run_prefix_steps 0 (mint p amount) rest _ _ amount w1 _ Hrun).
    exact (f_equal Some (prog_bind_assoc _ _ _)).
  - intros H. exact H.
  - unfold events. rewrite Hs, fmap_app. cbn. by rewrite He.
  - intros Hd. unfold supplyView. rewrite run_bind, run_read_ledger by done.
    change (tallies (restart w1)) with (tallies w1). unfold compareSupply.
    cbn [view_totalSupply view_retained]. rewrite Hd. cbn [negb]. rewrite run_bind, run_log, run_ret.
    set (w2 := ensureLedger (restart w1)).
    assert (oversight_rows w2 = oversight_rows w) as Ho2.
    { unfold oversight_rows, w2. rewrite (ol_oversight _ _ (ensureLedger_only _)). exact Ho. }
    eexists. split; [reflexivity|]. split; [exact (ensureLedger_tallies (restart w1) Hok2)|].
    destruct (log_tx_spec "anomaly_detected" "token_management" (drift_description
      {| view_totalSupply := supply_of (tallies w1); view_retained := earnedRetained (tallies w1) |}) w2) as [_ ->].
    { by rewrite Ho2. }
    rewrite Ho2, length_app. cbn. lia.
Qed.
End Liveness.

(** ** Witnesses *)

Section Witnesses.
#[local] Existing Instance transparent_platform.

(** A process nothing before it saw, run where a run was stopped between its mint and
    its burn and the process restarted, and where two requests are half-done. *)
Definition newcomer : RunProcessInput :=
  {| in_processId := "fresh"; in_amount := of_Z 40; in_type := "transfer"; in_admissible := true;
     in_nodeIds := None; in_epoch := None |}.

Definition cut : list (prog World ()) * World :=
  run_schedule (replicate 60 0) ([program (RunProcess request)], serve_all [Metrics 1] fresh_world).

Definition half_done : list (prog World ()) * World :=
  run_schedule (replicate 9 0 ++ [1; 1]) (program <$> mixed, fresh_world).

Lemma fresh_process_completes_witness :
  (∃ r w', run (runProcess newcomer) (restart cut.2) = (inr r, w') ∧ out_minted r = of_Z 40) ∧
  (∃ r w', run (runProcess newcomer) half_done.2 = (inr r, w') ∧ out_minted r = of_Z 40).
Proof.
  split.
  - destruct (fresh_process_completes cut.2 (restart cut.2) newcomer 1) as (r & w' & H1 & _ & H3 & _).
    + apply (reachable_served [Metrics 1] (RunProcess request) cut.1).
      rewrite <- surjective_pairing. unfold cut. apply run_schedule_steps.
    + by right.
    + reflexivity.
    + reflexivity.
    + vm_compute. exact I.
    + vm_compute. reflexivity.
    + exists r, w'. by split.
  - destruct (fresh_process_completes half_done.2 half_done.2 newcomer 1) as (r & w' & H1 & _ & H3 & _).
    + apply (reachable_interleaved mixed half_done.1).
      * rewrite <- surjective_pairing. unfold half_done. apply run_schedule_steps.
      * vm_compute. reflexivity.
    + by left.
    + reflexivity.
    + reflexivity.
    + vm_compute. exact I.
    + vm_compute. reflexivity.
    + exists r, w'. by split.
Defined.

Lemma crash_leaves_mint_witness :
  ∃ k w1, steps ([emit "p" (of_Z 7);; mret tt], ran_world) ([k], w1) ∧ ¬ ended k ∧
    processMinted (tallies w1) = of_Z 107 ∧ processBurned (tallies w1) = of_Z 100 ∧
    (run (view ← supplyView; compareSupply view) (restart w1)).1 = inr false.
Proof.
  destruct ran_world_ok as (H1 & H2 & _).
  destruct (crash_leaves_mint "p" (of_Z 7) ran_world H2 H1) as (k & w1 & Hs & He & Ht & _ & _ & Hd).
  - vm_compute. repeat split; repeat constructor.
  - vm_compute. reflexivity.
  - exists k, w1. rewrite Ht in Hd. destruct Hd as (w' & Hr & _); [vm_compute; reflexivity|].
    rewrite Ht, Hr. split_and!; try done; vm_compute; reflexivity.
Defined.
End Witnesses.
