(* ===== verification/Api.v ===== *)
(** * The HTTP surface

    [src/src/orchestrator/orchestrator.controller.ts], [metrics.controller.ts]
    and the input classes of [orchestrator/dto], [nodechain/dto] and [nodes/dto].
    The decorators and pipes are third-party code: [ClassValidator] and
    [ParseIntPipe] are parameters with their documented behaviour. *)

From S2P Require Import Prelude Number NumberFacts NumberText Json Storage Effects Entities World.
From S2P Require Import NodeChain StateRecording Pot ArosCoin Emission Nodes Reserve Commission Release.
From S2P Require Import AllSeeingEye Orchestrator.
From Stdlib Require Import ZArith.

(** ** What the libraries promise *)

(** The decorators of class-validator the input classes use, on the JSON value of
    a property. *)
Class ClassValidator := {
  IsString : json → bool;
  IsNumber : json → bool;
  IsPositive : json → bool;
  IsBoolean : json → bool;
  IsArray : json → bool;
  ArrayNotEmpty : json → bool;
  IsObject : json → bool;
  IsNotEmpty : json → bool;
  MaxLength : nat → json → bool;
  IsString_spec : ∀ v, IsString v = true ↔ ∃ s, v = JStr s;
  IsNumber_spec : ∀ v, IsNumber v = true ↔ ∃ n, v = JNum n ∧ is_finite n = true;
  IsPositive_spec : ∀ n, IsPositive (JNum n) = num_ltb zero n;
  IsBoolean_spec : ∀ v, IsBoolean v = true ↔ ∃ b, v = JBool b;
  IsArray_spec : ∀ v, IsArray v = true ↔ ∃ l, v = JArr l;
  ArrayNotEmpty_spec : ∀ l, ArrayNotEmpty (JArr l) = true ↔ l ≠ [];
  IsObject_spec : ∀ v, IsObject v = true ↔ ∃ o, v = JObj o;
  IsNotEmpty_spec : ∀ s, IsNotEmpty (JStr s) = true ↔ s ≠ EmptyString
}.

(** The decorators, written out. *)
#[global, refine] Instance plain_validator : ClassValidator := {|
  IsString v := match v with JStr _ => true | _ => false end;
  IsNumber v := match v with JNum n => is_finite n | _ => false end;
  IsPositive v := match v with JNum n => num_ltb zero n | _ => false end;
  IsBoolean v := match v with JBool _ => true | _ => false end;
  IsArray v := match v with JArr _ => true | _ => false end;
  ArrayNotEmpty v := match v with JArr (_ :: _) => true | _ => false end;
  IsObject v := match v with JObj _ => true | _ => false end;
  IsNotEmpty v := match v with JStr EmptyString | JNull => false | _ => true end;
  MaxLength n v := match v with JStr s => (String.length s <=? n)%nat | _ => false end
|}.
Proof.
  - intros []; naive_solver.
  - intros []; naive_solver.
  - done.
  - intros []; naive_solver.
  - intros []; naive_solver.
  - intros []; naive_solver.
  - intros []; naive_solver.
  - intros []; naive_solver.
Defined.

Section Api.
Context {ST : Storage} {PL : Platform} {CV : ClassValidator}.

(** ** The input classes *)

(** A property of the body; an absent one fails every decorator. *)
Definition required (check : json → bool) (k : string) (body : object) : bool :=
  match get_property k body with Some v => check v | None => false end.

(** [@IsOptional()]: absent and [null] skip the other decorators. *)
Definition optional (check : json → bool) (k : string) (body : object) : bool :=
  match get_property k body with None | Some JNull => true | Some v => check v end.

(** [whitelist] with [forbidNonWhitelisted]: no property without a decorator. *)
Definition only_known (known : list string) (body : object) : bool :=
  forallb (λ k, bool_decide (k ∈ known)) (object_keys body).

(** [@IsString({ each: true })]. *)
Definition IsString_each (v : json) : bool :=
  match v with JArr l => forallb IsString l | _ => false end.

Definition RunProcessDto_valid (body : object) : bool :=
  only_known ["processId"; "amount"; "type"; "admissible"; "nodeIds"; "epoch"] body &&
  required IsString "processId" body &&
  required (λ v, IsNumber v && IsPositive v) "amount" body &&
  required IsString "type" body &&
  required IsBoolean "admissible" body &&
  optional (λ v, IsArray v && ArrayNotEmpty v && IsString_each v) "nodeIds" body &&
  optional IsNumber "epoch" body.

Definition AppendEventDto_valid (body : object) : bool :=
  only_known ["eventType"; "payload"] body &&
  required (λ v, IsString v && IsNotEmpty v && MaxLength 128 v) "eventType" body &&
  required IsObject "payload" body.

Definition RegisterNodeDto_valid (body : object) : bool :=
  only_known ["id"; "type"] body &&
  required (λ v, IsString v && IsNotEmpty v && MaxLength 128 v) "id" body &&
  required (λ v, IsString v && IsNotEmpty v && MaxLength 64 v) "type" body.

Record RunProcessDto := {
  dto_processId : string;
  dto_amount : number;
  dto_type : string;
  dto_admissible : bool;
  dto_nodeIds : option (list string);
  dto_epoch : option number
}.

Definition text_of (v : option json) : string := match v with Some (JStr s) => s | _ => EmptyString end.
Definition number_of (v : option json) : number := match v with Some (JNum n) => n | _ => nan end.
Definition flag_of (v : option json) : bool := match v with Some (JBool b) => b | _ => false end.
Definition texts_of (v : option json) : option (list string) :=
  match v with Some (JArr l) => Some ((λ v, text_of (Some v)) <$> l) | _ => None end.
Definition optional_number (v : option json) : option number :=
  match v with Some (JNum n) => Some n | _ => None end.

(** The instance the pipe hands to the controller. *)
Definition RunProcessDto_of (body : object) : RunProcessDto := {|
  dto_processId := text_of (get_property "processId" body);
  dto_amount := number_of (get_property "amount" body);
  dto_type := text_of (get_property "type" body);
  dto_admissible := flag_of (get_property "admissible" body);
  dto_nodeIds := texts_of (get_property "nodeIds" body);
  dto_epoch := optional_number (get_property "epoch" body)
|}.

(** ** The controllers *)

(** What a route answers: a refusal, or the run of a handler. *)
Inductive Answer (A : Type) :=
| BadRequest
| Served (handler : prog World A).
Arguments BadRequest {A}.
Arguments Served {A} _.

Definition input_of (dto : RunProcessDto) : RunProcessInput :=
  {| in_processId := dto_processId dto; in_amount := dto_amount dto; in_type := dto_type dto;
     in_admissible := dto_admissible dto; in_nodeIds := dto_nodeIds dto; in_epoch := dto_epoch dto |}.

(** [POST /processes]. *)
Definition post_processes (body : object) : Answer RunProcessResult :=
  if RunProcessDto_valid body then Served (runProcess (input_of (RunProcessDto_of body))) else BadRequest.

(** [GET /processes/:id]. *)
Definition get_processes (id : string) : prog World ProcessView := getProcess id.

(** [ParseIntPipe]: the integer a parameter spells, or a rejection. *)
Definition pipe := string → option Z.

(** [GET /metrics?epoch=], with [DefaultValuePipe(1)]. *)
Definition get_metrics (ParseIntPipe : pipe) (epoch : option string) : Answer MetricsSnapshot :=
  match epoch with
  | None => Served (metrics 1)
  | Some s => match ParseIntPipe s with Some n => Served (metrics n) | None => BadRequest end
  end.

(** [POST /epochs/:epoch/finalize]. *)
Definition post_finalize (ParseIntPipe : pipe) (epoch : string) : Answer FinalizeResult :=
  match ParseIntPipe epoch with Some n => Served (orchestrator_finalizeEpoch n) | None => BadRequest end.

(** ** Facts *)

Lemma required_spec check k body :
  required check k body = true ↔ ∃ v, get_property k body = Some v ∧ check v = true.
Proof. unfold required. destruct (get_property k body); naive_solver. Qed.

Lemma optional_spec check k body :
  optional check k body = true →
  get_property k body = None ∨ get_property k body = Some JNull ∨
  ∃ v, get_property k body = Some v ∧ check v = true.
Proof. unfold optional. destruct (get_property k body) as [[]|]; naive_solver. Qed.

Lemma only_known_spec known body k v :
  only_known known body = true → (k, v) ∈ body → k ∈ known.
Proof.
  unfold only_known. intros H Hin. apply (bool_decide_unpack _).
  apply Is_true_true_2. revert H. rewrite forallb_forall. intros H. apply H.
  apply list_elem_of_In, list_elem_of_fmap. by exists (k, v).
Qed.

Lemma IsString_each_spec l :
  IsString_each (JArr l) = true → ∃ ss, l = JStr <$> ss.
Proof.
  cbn. induction l as [|v l IH]; [by exists []|]. cbn. intros [Hv Hl]%andb_true_iff.
  apply IsString_spec in Hv as [s ->]. destruct (IH Hl) as [ss ->]. by exists (s :: ss).
Qed.

Lemma texts_of_spec v l : v = JArr (JStr <$> l) → texts_of (Some v) = Some l.
Proof. intros ->. cbn. f_equal. rewrite <- list_fmap_compose. induction l; [done|]. cbn. by f_equal. Qed.

(** The process a body describes. *)
Record describes (body : object) (i : RunProcessInput) : Prop := {
  de_id : get_property "processId" body = Some (JStr (in_processId i));
  de_type : get_property "type" body = Some (JStr (in_type i));
  de_amount : get_property "amount" body = Some (JNum (in_amount i));
  de_positive : is_finite (in_amount i) = true ∧ num_ltb zero (in_amount i) = true;
  de_admissible : get_property "admissible" body = Some (JBool (in_admissible i));
  de_nodes : match in_nodeIds i with
    | Some ids => ids ≠ [] ∧ get_property "nodeIds" body = Some (JArr (JStr <$> ids))
    | None => get_property "nodeIds" body = None ∨ get_property "nodeIds" body = Some JNull
    end;
  de_epoch : match in_epoch i with
    | Some x => is_finite x = true ∧ get_property "epoch" body = Some (JNum x)
    | None => get_property "epoch" body = None ∨ get_property "epoch" body = Some JNull
    end;
  de_known : ∀ k v, (k, v) ∈ body → k ∈ ["processId"; "amount"; "type"; "admissible"; "nodeIds"; "epoch"]
}.

Lemma valid_describes body :
  RunProcessDto_valid body = true → describes body (input_of (RunProcessDto_of body)).
Proof.
  unfold RunProcessDto_valid. rewrite !andb_true_iff, !required_spec.
  intros ((((((Hk & v1 & G1 & H1) & v2 & G2 & H2) & v3 & G3 & H3) & v4 & G4 & H4) & H5) & H6).
  apply IsString_spec in H1 as [s1 ->], H3 as [s3 ->]. apply IsBoolean_spec in H4 as [b4 ->].
  apply andb_true_iff in H2 as [H2 H2']. apply IsNumber_spec in H2 as (n & -> & Hn). rewrite IsPositive_spec in H2'.
  split; cbn; rewrite ?G1, ?G2, ?G3, ?G4; try done; [| |intros k v; by apply only_known_spec].
  - apply optional_spec in H5 as [->|[->|(v & -> & H)]]; [by left|by right|].
    rewrite !andb_true_iff in H. destruct H as [[Ha Hb] Hc]. apply IsArray_spec in Ha as [l ->].
    apply ArrayNotEmpty_spec in Hb. apply IsString_each_spec in Hc as [ss ->].
    rewrite (texts_of_spec _ ss) by done. split; [|done]. by intros ->.
  - apply optional_spec in H6 as [->|[->|(v & -> & H)]]; [by left|by right|].
    by apply IsNumber_spec in H as (x & -> & Hx).
Qed.

(** A body that is described is valid: the class refuses nothing else. *)
Lemma describes_valid body i :
  describes body i → RunProcessDto_valid body = true ∧ input_of (RunProcessDto_of body) = i.
Proof.
  intros [G1 G3 G2 [Hf Hp] G4 G5 G6 Hk].
  assert (∀ check k, get_property k body = None ∨ get_property k body = Some JNull → optional check k body = true) as Hopt
    by (intros check k H; unfold optional; by destruct H as [-> | ->]).
  assert (∀ check k v, get_property k body = Some v → check v = true → optional check k body = true) as Hsome.
  { intros check k v H Hc. unfold optional. rewrite H. by destruct v. }
  assert (∀ ids : list string, forallb IsString (JStr <$> ids) = true) as Hstr.
  { intros ids. apply forallb_forall. intros v Hv. apply list_elem_of_In, list_elem_of_fmap in Hv as (t & -> & _).
    apply IsString_spec. by exists t. }
  split.
  - unfold RunProcessDto_valid. rewrite !andb_true_iff. split_and!.
    + unfold only_known. apply forallb_forall. intros k Hin. apply list_elem_of_In, list_elem_of_fmap in Hin as ([k' v] & -> & Hin).
      apply bool_decide_eq_true_2. by eapply Hk.
    + apply required_spec. eexists. split; [exact G1|]. apply IsString_spec. eauto.
    + apply required_spec. eexists. split; [exact G2|]. apply andb_true_iff. split; [apply IsNumber_spec; eauto|].
      by rewrite IsPositive_spec.
    + apply required_spec. eexists. split; [exact G3|]. apply IsString_spec. eauto.
    + apply required_spec. eexists. split; [exact G4|]. apply IsBoolean_spec. eauto.
    + destruct (in_nodeIds i) as [ids|]; [|by apply Hopt]. destruct G5 as [Hne G5]. eapply Hsome; [exact G5|].
      rewrite !andb_true_iff. split_and!; [apply IsArray_spec; eauto| |apply Hstr].
      apply ArrayNotEmpty_spec. by destruct ids.
    + destruct (in_epoch i) as [x|]; [|by apply Hopt]. destruct G6 as [Hx G6]. eapply Hsome; [exact G6|].
      apply IsNumber_spec. eauto.
  - destruct i as [p x t a ids e]. simpl in G1, G2, G3, G4, G5, G6.
    assert (texts_of (get_property "nodeIds" body) = ids) as Hids.
    { destruct ids as [ids|]; [destruct G5 as [_ ->]; by apply texts_of_spec|by destruct G5 as [-> | ->]]. }
    assert (optional_number (get_property "epoch" body) = e) as He.
    { destruct e as [e|]; [by destruct G6 as [_ ->]|by destruct G6 as [-> | ->]]. }
    unfold input_of, RunProcessDto_of. rewrite G1, G2, G3, G4, Hids, He. cbn [dto_processId dto_amount dto_type dto_admissible dto_nodeIds dto_epoch text_of number_of flag_of]. reflexivity.
Qed.

(** ** Properties *)

(** C32. What reaches the lifecycle over HTTP: [POST /processes] runs it exactly on
    bodies that have no property beyond those of the input class, whose process id and
    type are strings, whose amount is a number, finite and positive, whose flag is a
    boolean, whose node list, when there is one, is a non-empty list of strings, and
    whose epoch, when there is one, is a finite number; and it runs it on just those
    values. Every other body is refused before any state is read. *)
Theorem accepted_body body :
  match post_processes body with
  | BadRequest => RunProcessDto_valid body = false ∧ ∀ i, ¬ describes body i
  | Served p => ∃ i, p = runProcess i ∧ describes body i
  end.
Proof.
  unfold post_processes. destruct (RunProcessDto_valid body) eqn:Hv.
  - eexists. split; [done|]. by apply valid_describes.
  - split; [done|]. intros i Hd. destruct (describes_valid body i Hd). congruence.
Qed.
End Api.

Arguments BadRequest {ST A}.
Arguments Served {ST A} _.

(** ** An epoch the input class lets through *)

Section Witnesses.
#[local] Existing Instance transparent_platform.

(** [@IsNumber()] admits epochs that no row of [epochs] can have: a fraction, and a
    number past the 32 bits of the column. *)
Definition body_of_epoch (x : number) : object :=
  [("processId", JStr "p"); ("amount", JNum (of_Z 5)); ("type", JStr "transfer");
   ("admissible", JBool true); ("epoch", JNum x)].

Lemma unkeyed_epoch_accepted :
  Forall (λ x, ∃ i, post_processes (body_of_epoch x) = Served (runProcess i) ∧ run_epoch i = None)
    [of_decimal 15 (-1); of_Z 3000000000].
Proof.
  repeat constructor; unfold post_processes;
    (replace (RunProcessDto_valid _) with true by (vm_compute; reflexivity));
    eexists; (split; [reflexivity|vm_compute; reflexivity]).
Qed.
End Witnesses.
