(* ===== verification/Reference.v ===== *)
(** * The reference core

    [src/reference/ast-core/src/]. The port the services say they mirror: one
    process, no storage, every component a class with private fields. Its calls
    run to completion, so a method is a function of the whole state [Core]; the
    one method that throws, [Emission.mint], returns the exception. *)

From S2P Require Import Prelude Number NumberFacts NumberText Json Effects World.
From Stdlib Require Import ZArith.

Section Reference.
Context {PL : Platform}.

(** ** Data ([types.ts]) *)

Inductive NodeType := validator | router | recorder.

Record ProcessRequest := {
  req_id : string;
  req_amount : number;
  req_type : string;
  req_admissible : bool
}.

Inductive SnapshotStatus := created | confirmed | finalized.

Record ExecutionSnapshot := {
  snap_sequenceId : Z;
  snap_hash : string;
  snap_prevHash : string;
  snap_validatorId : option string;
  snap_status : SnapshotStatus;
  snap_timestamp : Z;
  snap_eventType : string;
  snap_processId : string;
  snap_data : object
}.

Inductive NodeStatus := active | penalized | disconnected.

#[global] Instance node_status_eq_dec : EqDecision NodeStatus.
Proof. solve_decision. Defined.

Record NodeEntity := {
  ref_id : string;
  ref_type : NodeType;
  ref_uptime : number;
  ref_successes : Z;
  ref_total : Z;
  ref_status : NodeStatus;
  ref_reputation : number;
  ref_weight : number;
  ref_earned : number
}.

Record PoTVerdict := {
  pot_processId : string;
  pot_verified : bool;
  pot_criteriaResult : list (string * bool);
  pot_linkedSnapshot : Z;
  pot_timestamp : Z
}.

Record SupplySnapshot := {
  supply_minted : number;
  supply_burned : number;
  supply_earned : number;
  supply_timestamp : Z
}.

Inductive SignalType := warning | alert | ping | scope_violation.

Record IntegritySignal := { signal_type : SignalType; signal_payload : object; signal_timestamp : Z }.

Record OversightLogEntry := {
  entry_eventType : string;
  entry_layer : string;
  entry_description : string;
  entry_hash : string;
  entry_prevHash : string;
  entry_timestamp : Z
}.

(** ** State: the private fields of the components, and the clock of [util.ts] *)

Record Coin := { core_minted : number; core_burned : number; core_earned : number }.

Record Core := {
  tick : Z;
  ref_snapshots : list ExecutionSnapshot;
  ref_captured : gmap string (gset string);
  ref_verdicts : gmap string PoTVerdict;
  coin : Coin;
  pool : number;
  contributions : list (string * number);
  volume : number;
  released : bool;
  registry : list NodeEntity;
  oversightLedger : list OversightLogEntry;
  signals : list IntegritySignal
}.

Definition set_tick (x : Z) (c : Core) : Core :=
  {| tick := x; ref_snapshots := ref_snapshots c; ref_captured := ref_captured c;
     ref_verdicts := ref_verdicts c; coin := coin c; pool := pool c; contributions := contributions c;
     volume := volume c; released := released c; registry := registry c;
     oversightLedger := oversightLedger c; signals := signals c |}.
Definition push_snapshot (s : ExecutionSnapshot) (c : Core) : Core :=
  {| tick := tick c; ref_snapshots := ref_snapshots c ++ [s]; ref_captured := ref_captured c;
     ref_verdicts := ref_verdicts c; coin := coin c; pool := pool c; contributions := contributions c;
     volume := volume c; released := released c; registry := registry c;
     oversightLedger := oversightLedger c; signals := signals c |}.
Definition set_ref_captured (x : gmap string (gset string)) (c : Core) : Core :=
  {| tick := tick c; ref_snapshots := ref_snapshots c; ref_captured := x;
     ref_verdicts := ref_verdicts c; coin := coin c; pool := pool c; contributions := contributions c;
     volume := volume c; released := released c; registry := registry c;
     oversightLedger := oversightLedger c; signals := signals c |}.
Definition set_ref_verdicts (x : gmap string PoTVerdict) (c : Core) : Core :=
  {| tick := tick c; ref_snapshots := ref_snapshots c; ref_captured := ref_captured c;
     ref_verdicts := x; coin := coin c; pool := pool c; contributions := contributions c;
     volume := volume c; released := released c; registry := registry c;
     oversightLedger := oversightLedger c; signals := signals c |}.
Definition set_coin (x : Coin) (c : Core) : Core :=
  {| tick := tick c; ref_snapshots := ref_snapshots c; ref_captured := ref_captured c;
     ref_verdicts := ref_verdicts c; coin := x; pool := pool c; contributions := contributions c;
     volume := volume c; released := released c; registry := registry c;
     oversightLedger := oversightLedger c; signals := signals c |}.
Definition set_commission (x : number) (l : list (string * number)) (c : Core) : Core :=
  {| tick := tick c; ref_snapshots := ref_snapshots c; ref_captured := ref_captured c;
     ref_verdicts := ref_verdicts c; coin := coin c; pool := x; contributions := l;
     volume := volume c; released := released c; registry := registry c;
     oversightLedger := oversightLedger c; signals := signals c |}.
Definition set_volume (x : number) (c : Core) : Core :=
  {| tick := tick c; ref_snapshots := ref_snapshots c; ref_captured := ref_captured c;
     ref_verdicts := ref_verdicts c; coin := coin c; pool := pool c; contributions := contributions c;
     volume := x; released := released c; registry := registry c;
     oversightLedger := oversightLedger c; signals := signals c |}.
Definition set_released (x : bool) (c : Core) : Core :=
  {| tick := tick c; ref_snapshots := ref_snapshots c; ref_captured := ref_captured c;
     ref_verdicts := ref_verdicts c; coin := coin c; pool := pool c; contributions := contributions c;
     volume := volume c; released := x; registry := registry c;
     oversightLedger := oversightLedger c; signals := signals c |}.
Definition set_registry (x : list NodeEntity) (c : Core) : Core :=
  {| tick := tick c; ref_snapshots := ref_snapshots c; ref_captured := ref_captured c;
     ref_verdicts := ref_verdicts c; coin := coin c; pool := pool c; contributions := contributions c;
     volume := volume c; released := released c; registry := x;
     oversightLedger := oversightLedger c; signals := signals c |}.
Definition set_eye (x : list OversightLogEntry) (l : list IntegritySignal) (c : Core) : Core :=
  {| tick := tick c; ref_snapshots := ref_snapshots c; ref_captured := ref_captured c;
     ref_verdicts := ref_verdicts c; coin := coin c; pool := pool c; contributions := contributions c;
     volume := volume c; released := released c; registry := registry c;
     oversightLedger := x; signals := l |}.

(** [util.now]: the tick handed out is the tick of the state that follows. *)
Definition advance_clock (c : Core) : Core := set_tick (next_tick (tick c)) c.

(** ** [nodechain.ts] *)

Definition GENESIS : string := "GENESIS".

Definition body (sequenceId : Z) (eventType processId : string) (data : object) : json :=
  JObj [("sequenceId", JNum (of_Z sequenceId)); ("eventType", JStr eventType);
        ("processId", JStr processId); ("data", JObj data)].

Definition snapshot_hash (sequenceId : Z) (eventType processId : string) (data : object) (prevHash : string)
  : string :=
  sha256 (stringify (body sequenceId eventType processId data) +:+ prevHash +:+ string_of_Z sequenceId).

Definition previous_hash (h : option ExecutionSnapshot) : string :=
  match h with None => GENESIS | Some s => snap_hash s end.

Definition recordState (eventType processId : string) (data : object) (validatorId : option string) (c : Core)
  : Core :=
  let sequenceId := Z.of_nat (length (ref_snapshots c)) in
  let prevHash := previous_hash (last (ref_snapshots c)) in
  let c := advance_clock c in
  push_snapshot {|
    snap_sequenceId := sequenceId;
    snap_hash := snapshot_hash sequenceId eventType processId data prevHash;
    snap_prevHash := prevHash; snap_validatorId := validatorId; snap_status := confirmed;
    snap_timestamp := tick c; snap_eventType := eventType; snap_processId := processId; snap_data := data |} c.

Definition height (c : Core) : Z := Z.of_nat (length (ref_snapshots c)).

Definition expected_hash (s : ExecutionSnapshot) (prevHash : string) : string :=
  snapshot_hash (snap_sequenceId s) (snap_eventType s) (snap_processId s) (snap_data s) prevHash.

(** The loop of [reconstruct] from index [i]: the first index that breaks. *)
Fixpoint broken_from (i : Z) (prevHash : string) (rows : list ExecutionSnapshot) : option Z :=
  match rows with
  | [] => None
  | s :: rows =>
    if negb (String.eqb (snap_prevHash s) prevHash) || negb (String.eqb (snap_hash s) (expected_hash s prevHash))
    then Some i
    else broken_from (i + 1) (snap_hash s) rows
  end.

Record Audit := { audit_ok : bool; audit_brokenAt : option Z }.

Definition reconstruct (c : Core) : Audit :=
  match broken_from 0 GENESIS (ref_snapshots c) with
  | None => {| audit_ok := true; audit_brokenAt := None |}
  | Some i => {| audit_ok := false; audit_brokenAt := Some i |}
  end.

(** ** [stateRecording.ts] *)

Definition REQUIRED_BEFORE_VERDICT : list string :=
  ["initiation"; "task_assignment"; "stage_transition"; "execution_complete"].

Definition capturedEvents (processId : string) (c : Core) : gset string := default ∅ (ref_captured c !! processId).

Definition capture (processId eventType : string) (data : object) (c : Core) : Core :=
  let c := recordState eventType processId data None c in
  set_ref_captured (<[processId := {[eventType]} ∪ capturedEvents processId c]> (ref_captured c)) c.

Record Completeness := { core_complete : bool; core_missing : list string }.

Definition checkCompleteness (processId : string) (c : Core) : Completeness :=
  let have := capturedEvents processId c in
  let missing := filter (λ e, e ∉ have) REQUIRED_BEFORE_VERDICT in
  {| core_complete := (length missing =? 0)%nat; core_missing := missing |}.

(** ** [pot.ts] *)

Definition has (events : gset string) (event : string) : bool := bool_decide (event ∈ events).

Definition criteriaResult (p : ProcessRequest) (captured : gset string) (chainOk : bool) : list (string * bool) :=
  [("admissible_context", req_admissible p);
   ("full_stage_sequence", forallb (has captured) ["initiation"; "task_assignment"; "stage_transition"]);
   ("states_recorded_in_nodechain", chainOk && (0 <? size captured)%nat);
   ("completion_per_rules", has captured "execution_complete")].

(** [Object.values(criteriaResult).every(Boolean)]. *)
Definition all_met (r : list (string * bool)) : bool := forallb snd r.

Definition verify (p : ProcessRequest) (captured : gset string) (chainOk : bool) (linkedSnapshot : Z) (c : Core)
  : PoTVerdict * Core :=
  match ref_verdicts c !! req_id p with
  | Some existing => (existing, c)
  | None =>
    let r := criteriaResult p captured chainOk in
    let c := advance_clock c in
    let verdict := {| pot_processId := req_id p; pot_verified := all_met r; pot_criteriaResult := r;
                      pot_linkedSnapshot := linkedSnapshot; pot_timestamp := tick c |} in
    (verdict, set_ref_verdicts (<[req_id p := verdict]> (ref_verdicts c)) c)
  end.

Definition authorizeEmission (processId : string) (c : Core) : bool :=
  match ref_verdicts c !! processId with Some v => pot_verified v | None => false end.

(** ** [aroscoin.ts] *)

Definition base : number := of_Z 1.

Definition recordMint (amount : number) (c : Core) : Core :=
  set_coin {| core_minted := (core_minted (coin c) + amount)%num; core_burned := core_burned (coin c);
              core_earned := core_earned (coin c) |} c.
Definition recordBurn (amount : number) (c : Core) : Core :=
  set_coin {| core_minted := core_minted (coin c); core_burned := (core_burned (coin c) + amount)%num;
              core_earned := core_earned (coin c) |} c.
Definition recordEarned (amount : number) (c : Core) : Core :=
  set_coin {| core_minted := core_minted (coin c); core_burned := core_burned (coin c);
              core_earned := (core_earned (coin c) + amount)%num |} c.

Definition processNet (c : Core) : number := (core_minted (coin c) - core_burned (coin c))%num.
Definition totalSupply (c : Core) : number := (processNet c + core_earned (coin c))%num.
Definition retained (c : Core) : number := core_earned (coin c).
Definition internalPrice (index : number) : number := (base * index)%num.

Definition snapshot (c : Core) : SupplySnapshot * Core :=
  let c := advance_clock c in
  ({| supply_minted := core_minted (coin c); supply_burned := core_burned (coin c);
      supply_earned := core_earned (coin c); supply_timestamp := tick c |}, c).

(** ** [emission.ts] *)

Definition refused (processId : string) : exn :=
  JsError ("14.1 violation: mint refused for " +:+ processId +:+ " — no PoT confirmation").

Definition mint (processId : string) (amount : number) (authorized : bool) (c : Core)
  : (exn + number) * Core :=
  if negb authorized then (inl (refused processId), c) else (inr amount, recordMint amount c).

Definition burn (amount : number) (c : Core) : number * Core := (amount, recordBurn amount c).

(** ** [nodes.ts] *)

Definition default_uptime : number := of_decimal 99 (-2).

Fixpoint registry_get (id : string) (l : list NodeEntity) : option NodeEntity :=
  match l with
  | [] => None
  | n :: l => if String.eqb (ref_id n) id then Some n else registry_get id l
  end.

(** [Map.set]: an existing key keeps its place in the iteration order. *)
Fixpoint registry_set (n : NodeEntity) (l : list NodeEntity) : list NodeEntity :=
  match l with
  | [] => [n]
  | m :: l => if String.eqb (ref_id m) (ref_id n) then n :: l else m :: registry_set n l
  end.

Definition register (id : string) (type : NodeType) (uptime : number) (c : Core) : Core :=
  set_registry (registry_set {| ref_id := id; ref_type := type; ref_uptime := uptime; ref_successes := 0;
    ref_total := 0; ref_status := active; ref_reputation := zero; ref_weight := zero; ref_earned := zero |}
    (registry c)) c.

(** The node after one more unit of work. *)
Definition worked (success : bool) (n : NodeEntity) : NodeEntity :=
  let total := (ref_total n + 1)%Z in
  let successes := if success then (ref_successes n + 1)%Z else ref_successes n in
  let reputation := (of_Z successes / of_Z total * ref_uptime n)%num in
  {| ref_id := ref_id n; ref_type := ref_type n; ref_uptime := ref_uptime n; ref_successes := successes;
     ref_total := total; ref_status := ref_status n; ref_reputation := reputation;
     ref_weight := (reputation * of_Z total)%num; ref_earned := ref_earned n |}.

Definition halved (n : NodeEntity) : NodeEntity :=
  {| ref_id := ref_id n; ref_type := ref_type n; ref_uptime := ref_uptime n; ref_successes := ref_successes n;
     ref_total := ref_total n; ref_status := penalized;
     ref_reputation := (ref_reputation n * of_decimal 5 (-1))%num;
     ref_weight := (ref_weight n * of_decimal 5 (-1))%num; ref_earned := ref_earned n |}.

(** The registered node is the object the registry holds: writing to it is
    writing to the registry. *)
Definition modify_node (id : string) (f : NodeEntity → NodeEntity) (c : Core) : Core :=
  match registry_get id (registry c) with
  | Some n => set_registry (registry_set (f n) (registry c)) c
  | None => c
  end.

Definition recordWork (id : string) (success : bool) : Core → Core := modify_node id (worked success).
Definition penalize (id : string) : Core → Core := modify_node id halved.

(** ** [commission.ts] *)

Definition feeRate : number := of_decimal 5 (-3).
Definition marginRate : number := of_decimal 25 (-2).

Definition computeFee (amount overloadRate : number) : number :=
  let fee := (amount * feeRate)%num in (fee * (of_Z 1 + overloadRate))%num.

Definition accrue (processId : string) (fee : number) (c : Core) : Core :=
  set_commission (pool c + fee)%num (contributions c ++ [(processId, fee)]) c.

Record Distribution := {
  distributionLog : list (string * number);
  margin : number;
  paid : number;
  total_pool : number;
  reconciled : bool
}.

(** [x || 1] on a number. *)
Definition or_one (x : number) : number := if num_eqb x zero || is_nan x then of_Z 1 else x.

Definition total_weight (l : list NodeEntity) : number :=
  or_one (fold_left (λ s n, (s + ref_weight n)%num) l zero).

Definition paymentToNode (distributable totalWeight : number) (n : NodeEntity) : number :=
  (ref_weight n * distributable / totalWeight)%num.

Definition earning (payment : number) (n : NodeEntity) : NodeEntity :=
  {| ref_id := ref_id n; ref_type := ref_type n; ref_uptime := ref_uptime n; ref_successes := ref_successes n;
     ref_total := ref_total n; ref_status := ref_status n; ref_reputation := ref_reputation n;
     ref_weight := ref_weight n; ref_earned := (ref_earned n + payment)%num |}.

(** One turn of the payment loop: the sum paid so far and the log. *)
Definition pay_one (share : NodeEntity → number) (acc : (number * list (string * number)) * Core) (n : NodeEntity)
  : (number * list (string * number)) * Core :=
  let '((paid, log), c) := acc in
  let payment := share n in
  (((paid + payment)%num, log ++ [(ref_id n, payment)]),
   recordEarned payment (modify_node (ref_id n) (earning payment) c)).

Definition finalize_commission (nodes : list NodeEntity) (c : Core) : Distribution * Core :=
  let distributable := (pool c * (of_Z 1 - marginRate))%num in
  let margin := (pool c * marginRate)%num in
  let totalWeight := total_weight nodes in
  let '((paid, log), c') := fold_left (pay_one (paymentToNode distributable totalWeight)) nodes ((zero, []), c) in
  ({| distributionLog := log; margin := margin; paid := paid; total_pool := pool c;
      reconciled := num_ltb (num_abs ((paid + margin) - pool c)) (of_decimal 1 (-9)) |},
   set_commission zero (contributions c') c').

(** ** [reserve.ts] and [release.ts] *)

Definition addConfirmedVolume (amount : number) (c : Core) : Core := set_volume (volume c + amount)%num c.
Definition reserveIndex (c : Core) : number := log10 (of_Z 1 + volume c)%num.

Definition threshold : number := of_Z 3.
Definition target : number := of_decimal 1 (-1).

Record ReleaseCheck := { mature : bool; release_active : bool }.

Definition check (index velocity : number) (c : Core) : ReleaseCheck * Core :=
  let m := num_ltb threshold index && num_ltb target velocity in
  let c := if m then set_released true c else c in
  ({| mature := m; release_active := released c |}, c).

(** ** [allSeeingEye.ts] *)

Definition eye_hash (layer eventType description prevHash : string) (ts : Z) : string :=
  sha256 (layer +:+ eventType +:+ description +:+ prevHash +:+ string_of_Z ts).

Definition eye_head (l : list OversightLogEntry) : string :=
  match last l with Some e => entry_hash e | None => GENESIS end.

Definition observe (layer eventType description : string) (c : Core) : Core :=
  let prevHash := eye_head (oversightLedger c) in
  let c := advance_clock c in
  set_eye (oversightLedger c ++ [{| entry_eventType := eventType; entry_layer := layer;
      entry_description := description; entry_hash := eye_hash layer eventType description prevHash (tick c);
      entry_prevHash := prevHash; entry_timestamp := tick c |}]) (signals c) c.

Definition signal_name (t : SignalType) : string :=
  match t with
  | warning => "warning" | alert => "alert" | ping => "ping" | scope_violation => "scope_violation"
  end.

Definition emit (type : SignalType) (payload : object) (c : Core) : Core :=
  let c := advance_clock c in
  let c := set_eye (oversightLedger c)
    (signals c ++ [{| signal_type := type; signal_payload := payload; signal_timestamp := tick c |}]) c in
  observe "supervisory" "integrity_signal" (signal_name type +:+ ":" +:+ stringify (JObj payload)) c.

Definition anomaly (pattern desc : string) : object := [("pattern", JStr pattern); ("desc", JStr desc)].

Definition compareSupply (s : SupplySnapshot) (c : Core) : Core :=
  let c := if num_ltb (supply_minted s) (supply_burned s)
           then emit alert (anomaly "TOK-202" "supply drift: burned > minted") c else c in
  if num_ltb (supply_earned s) zero then emit alert (anomaly "TOK-203" "negative earned") c else c.

Definition compare_now (c : Core) : Core := let '(s, c) := snapshot c in compareSupply s c.

(** ** [orchestrator.ts] *)

Inductive Reason := inadmissible | unverified.

Inductive RunResult :=
| Stopped (processId : string) (reason : Reason)
| Completed (processId : string) (minted fee : number).

Definition initial_core (t : Z) : Core :=
  register "node-3" recorder default_uptime (register "node-2" router default_uptime
    (register "node-1" validator default_uptime
      {| tick := t; ref_snapshots := []; ref_captured := ∅; ref_verdicts := ∅;
         coin := {| core_minted := zero; core_burned := zero; core_earned := zero |};
         pool := zero; contributions := []; volume := zero; released := false; registry := [];
         oversightLedger := []; signals := [] |})).

Definition process_text (id rest : string) : string := "process " +:+ id +:+ rest.

Definition bool_text (b : bool) : string := if b then "true" else "false".

(** Initiation. *)
Definition initiate (req : ProcessRequest) (c : Core) : Core :=
  observe "processing" "initiation"
    (process_text (req_id req) (" initiated (amount " +:+ num_to_string (req_amount req) +:+ ")"))
    (capture (req_id req) "initiation" [("amount", JNum (req_amount req))] c).

(** Assignment and execution, up to the verdict. *)
Definition execute (req : ProcessRequest) (c : Core) : Core :=
  let assigned := ref_id <$> filter (λ n, ref_status n = active) (registry c) in
  let c := capture (req_id req) "task_assignment" [("nodes", JArr (JStr <$> assigned))] c in
  let c := observe "processing" "task_assignment"
    ("assigned to " +:+ string_of_Z (Z.of_nat (length assigned)) +:+ " nodes") c in
  let c := capture (req_id req) "stage_transition" [("stage", JStr "execute")] c in
  let c := capture (req_id req) "execution_complete" [] c in
  fold_left (λ c id, recordWork id true c) assigned c.

Definition judge (req : ProcessRequest) (c : Core) : PoTVerdict * Core :=
  let chainOk := audit_ok (reconstruct c) in
  let '(verdict, c) := verify req (capturedEvents (req_id req) c) chainOk (height c - 1) c in
  let c := capture (req_id req) "pot_verdict" [("verified", JBool (pot_verified verdict))] c in
  (verdict, observe "processing" "pot_verdict"
    (process_text (req_id req) (" verified=" +:+ bool_text (pot_verified verdict))) c).

Definition produce (req : ProcessRequest) (c : Core) : (exn + RunResult) * Core :=
  let id := req_id req in
  let '(r, c) := mint id (req_amount req) (authorizeEmission id c) c in
  match r with
  | inl e => (inl e, c)
  | inr minted =>
    let c := capture id "emission" [("minted", JNum minted)] c in
    let c := observe "token_management" "mint" ("minted " +:+ num_to_string minted +:+ " for " +:+ id) c in
    let fee := computeFee (req_amount req) zero in
    let c := accrue id fee c in
    let c := addConfirmedVolume (req_amount req) c in
    let '(_, c) := burn minted c in
    let c := capture id "emission_burn" [("burned", JNum minted)] c in
    let c := observe "token_management" "burn" ("burned " +:+ num_to_string minted +:+ " for " +:+ id) c in
    let c := capture id "final_status" [("status", JStr "done")] c in
    let c := observe "ledger_anchoring" "final_status" (process_text id " finalized") c in
    (inr (Completed id minted fee), compare_now c)
  end.

Definition runProcess (req : ProcessRequest) (c : Core) : (exn + RunResult) * Core :=
  let c := initiate req c in
  if negb (req_admissible req) then
    (inr (Stopped (req_id req) inadmissible),
     observe "processing" "anomaly_detected" (process_text (req_id req) " inadmissible — rejected") c)
  else
    let '(verdict, c) := judge req (execute req c) in
    if negb (pot_verified verdict) then (inr (Stopped (req_id req) unverified), c)
    else produce req c.

Definition finalizeEpoch (c : Core) : Distribution * Core :=
  let '(res, c) := finalize_commission (registry c) c in
  let c := observe "token_management" "commission_distribution"
    ("epoch: paid " +:+ to_fixed 4 (paid res) +:+ ", margin " +:+ to_fixed 4 (margin res) +:+
     ", reconciled=" +:+ bool_text (reconciled res)) c in
  (res, compare_now c).

Record CoreMetrics := {
  met_reserveIndex : number;
  met_velocity : number;
  met_internalPrice : number;
  met_supply : number;
  met_retained : number;
  met_release : ReleaseCheck
}.

Definition metrics (c : Core) : CoreMetrics * Core :=
  let index := reserveIndex c in
  let velocity := if num_ltb zero (retained c) then (volume c / retained c)%num else zero in
  let '(release, c') := check index velocity c in
  ({| met_reserveIndex := index; met_velocity := velocity; met_internalPrice := internalPrice index;
      met_supply := totalSupply c; met_retained := retained c; met_release := release |}, c').

(** ** Abstract specification *)

(** A chain that replays from genesis. *)
Fixpoint chained (prev : string) (rows : list ExecutionSnapshot) : Prop :=
  match rows with
  | [] => True
  | s :: rows => snap_prevHash s = prev ∧ snap_hash s = expected_hash s prev ∧ chained (snap_hash s) rows
  end.

(** Steps that move no value and issue no verdict: the chain may grow, the Eye
    may write, the registry may be updated. *)
Record neutral (c c' : Core) : Prop := {
  nt_chain : chained GENESIS (ref_snapshots c) → chained GENESIS (ref_snapshots c');
  nt_coin : coin c' = coin c;
  nt_pool : pool c' = pool c;
  nt_volume : volume c' = volume c;
  nt_verdicts : ref_verdicts c' = ref_verdicts c;
  nt_captured : ∀ p, capturedEvents p c ⊆ capturedEvents p c'
}.

#[global] Instance neutral_preorder : PreOrder neutral.
Proof.
  split; [by split|]. intros c1 c2 c3 [A1 B1 C1 D1 E1 F1] [A2 B2 C2 D2 E2 F2].
  split; try congruence; [auto|]. intros p. by transitivity (capturedEvents p c2).
Qed.

(** The states the core runs in: an intact chain, a symmetric process part, and
    no negative verdict. *)
Record good (c : Core) : Prop := {
  good_chain : chained GENESIS (ref_snapshots c);
  good_symmetric : core_minted (coin c) = core_burned (coin c);
  good_verdicts : ∀ p v, ref_verdicts c !! p = Some v → pot_verified v = true
}.

(** The calls a client can make. *)
Inductive Call := Run (req : ProcessRequest) | Finalize | ReadMetrics.

Definition serve_call (c : Core) (q : Call) : Core :=
  match q with
  | Run req => (runProcess req c).2
  | Finalize => (finalizeEpoch c).2
  | ReadMetrics => (metrics c).2
  end.

(** The verdict every criterion of which is met. *)
Definition settled_coin (k : Coin) (amount : number) : Coin :=
  {| core_minted := (core_minted k + amount)%num; core_burned := (core_burned k + amount)%num;
     core_earned := core_earned k |}.

(** ** Facts *)

(** *** The chain *)

Lemma broken_from_chained i prev rows : broken_from i prev rows = None ↔ chained prev rows.
Proof.
  revert i prev. induction rows as [|s rows IH]; intros i prev; [done|]. cbn [broken_from chained].
  destruct (String.eqb_spec (snap_prevHash s) prev), (String.eqb_spec (snap_hash s) (expected_hash s prev));
    cbn [negb orb]; rewrite ?IH; naive_solver.
Qed.

Lemma reconstruct_chained c : audit_ok (reconstruct c) = true ↔ chained GENESIS (ref_snapshots c).
Proof.
  rewrite <- (broken_from_chained 0). unfold reconstruct.
  by destruct (broken_from _ _ _).
Qed.

Lemma previous_hash_snoc rows s : previous_hash (last (rows ++ [s])) = snap_hash s.
Proof. by rewrite last_snoc. Qed.

Lemma chained_app prev rows rows' :
  chained prev (rows ++ rows') ↔
  chained prev rows ∧ chained (match last rows with Some s => snap_hash s | None => prev end) rows'.
Proof.
  revert prev. induction rows as [|s rows IH]; intros prev; [naive_solver|]. cbn [app chained]. rewrite IH.
  destruct rows as [|s' rows]; [naive_solver|]. change (last (s :: s' :: rows)) with (last (s' :: rows)).
  assert (is_Some (last (s' :: rows))) as [x ->] by (by apply last_is_Some). naive_solver.
Qed.

Lemma neutral_recordState e p d v c : neutral c (recordState e p d v c).
Proof.
  split; try done. cbn. intros Hc. apply chained_app. split; [done|]. by destruct (last (ref_snapshots c)).
Qed.

Lemma neutral_captured (x : gmap string (gset string)) c :
  (∀ p, capturedEvents p c ⊆ default ∅ (x !! p)) → neutral c (set_ref_captured x c).
Proof. by split. Qed.

Lemma neutral_capture p e d c : neutral c (capture p e d c).
Proof.
  etransitivity; [apply (neutral_recordState e p d None)|]. apply neutral_captured. intros q.
  destruct (decide (p = q)) as [->|]; [rewrite lookup_insert_eq|by rewrite lookup_insert_ne].
  simpl. set_solver.
Qed.

Lemma capture_records p e d c : e ∈ capturedEvents p (capture p e d c).
Proof. unfold capturedEvents at 1. cbn. rewrite lookup_insert_eq. set_solver. Qed.

Lemma neutral_observe layer e d c : neutral c (observe layer e d c).
Proof. by split. Qed.

Lemma neutral_registry l c : neutral c (set_registry l c).
Proof. by split. Qed.

Lemma neutral_recordWork id b c : neutral c (recordWork id b c).
Proof. unfold recordWork, modify_node. by destruct (registry_get id (registry c)). Qed.

Lemma neutral_work ids c : neutral c (fold_left (λ c id, recordWork id true c) ids c).
Proof.
  revert c. induction ids as [|id ids IH]; intros c; [done|]. cbn. etransitivity; [apply neutral_recordWork|apply IH].
Qed.

Lemma neutral_emit type payload c : neutral c (emit type payload c).
Proof. by split. Qed.

Lemma neutral_compare_now c : neutral c (compare_now c).
Proof.
  unfold compare_now, snapshot, compareSupply. cbn zeta.
  transitivity (advance_clock c); [by split|].
  repeat case_match_goal; try reflexivity; try apply neutral_emit.
  etransitivity; apply neutral_emit.
Qed.

Lemma registry_compare_now c : registry (compare_now c) = registry c.
Proof. unfold compare_now, snapshot, compareSupply. cbn zeta. by repeat case_match_goal. Qed.

(** *** A run, step by step *)

Lemma neutral_initiate req c : neutral c (initiate req c).
Proof. unfold initiate. etransitivity; [apply neutral_capture|apply neutral_observe]. Qed.

Lemma initiate_records req c : "initiation" ∈ capturedEvents (req_id req) (initiate req c).
Proof. apply (nt_captured _ _ (neutral_observe _ _ _ _)), capture_records. Qed.

Lemma execute_spec req c :
  neutral c (execute req c) ∧
  ∀ e, e ∈ ["task_assignment"; "stage_transition"; "execution_complete"] →
    e ∈ capturedEvents (req_id req) (execute req c).
Proof.
  unfold execute. cbn zeta. set (ids := ref_id <$> filter _ _). set (id := req_id req).
  set (c1 := capture id "task_assignment" _ c). set (c2 := observe _ _ _ c1).
  set (c3 := capture id "stage_transition" _ c2). set (c4 := capture id "execution_complete" _ c3).
  assert (neutral c3 c4) as N4 by apply neutral_capture. assert (neutral c2 c3) as N3 by apply neutral_capture.
  assert (neutral c1 c2) as N2 by apply neutral_observe. assert (neutral c c1) as N1 by apply neutral_capture.
  pose proof (neutral_work ids c4) as N5.
  assert (neutral c1 (fold_left (λ c id, recordWork id true c) ids c4)) as N15.
  { etransitivity; [exact N2|]. etransitivity; [exact N3|]. by etransitivity. }
  split; [by etransitivity|].
  intros e He. rewrite !elem_of_cons, elem_of_nil in He. destruct He as [->|[->|[->|[]]]].
  - apply (nt_captured _ _ N15), capture_records.
  - apply (nt_captured _ _ N5), (nt_captured _ _ N4), capture_records.
  - apply (nt_captured _ _ N5), capture_records.
Qed.

(** With every required event captured, the criteria are the admission and the
    state of the chain. *)
Lemma all_met_captured req captured chainOk :
  Forall (λ e, e ∈ captured) REQUIRED_BEFORE_VERDICT →
  all_met (criteriaResult req captured chainOk) = req_admissible req && chainOk.
Proof.
  unfold REQUIRED_BEFORE_VERDICT. rewrite !Forall_cons. intros (H1 & H2 & H3 & H4 & _).
  unfold all_met, criteriaResult, has. cbn [forallb snd]. rewrite !bool_decide_true by done.
  assert ((0 <? size captured)%nat = true) as ->.
  { apply Nat.ltb_lt. destruct (size captured) eqn:E; [|lia]. apply size_empty_inv in E. set_solver. }
  by destruct (req_admissible req), chainOk.
Qed.

Lemma judge_spec req c :
  good c → req_admissible req = true →
  Forall (λ e, e ∈ capturedEvents (req_id req) c) REQUIRED_BEFORE_VERDICT →
  ∃ v c', judge req c = (v, c') ∧ pot_verified v = true ∧ good c' ∧
    ref_verdicts c' !! req_id req = Some v ∧
    match ref_verdicts c !! req_id req with Some v0 => v = v0 | None => True end ∧
    coin c' = coin c ∧ pool c' = pool c ∧ volume c' = volume c ∧
    (∀ q, q ≠ req_id req → ref_verdicts c' !! q = ref_verdicts c !! q).
Proof.
  intros [Gc Gs Gv] Ha Hreq. unfold judge. cbn zeta. rewrite (proj2 (reconstruct_chained c) Gc).
  assert (∃ v c1, verify req (capturedEvents (req_id req) c) true (height c - 1) c = (v, c1) ∧
    pot_verified v = true ∧ ref_snapshots c1 = ref_snapshots c ∧ coin c1 = coin c ∧ pool c1 = pool c ∧
    volume c1 = volume c ∧ ref_verdicts c1 !! req_id req = Some v ∧
    match ref_verdicts c !! req_id req with Some v0 => v = v0 | None => True end ∧
    (∀ q, q ≠ req_id req → ref_verdicts c1 !! q = ref_verdicts c !! q)) as
    (v & c1 & -> & Hv & S1 & C1 & P1 & V1 & L1 & M1 & O1).
  { unfold verify. destruct (ref_verdicts c !! req_id req) as [v|] eqn:E; [by eauto 20|].
    rewrite all_met_captured, Ha by done. eexists _, _. split; [reflexivity|]. cbn [set_ref_verdicts ref_verdicts].
    split_and!; try done; [by rewrite lookup_insert_eq|]. intros q Hq. by rewrite lookup_insert_ne. }
  set (c2 := observe _ _ _ _). assert (neutral c1 c2) as [N1 N2 N3 N4 N5 _].
  { etransitivity; [apply neutral_capture|apply neutral_observe]. }
  exists v, c2. split_and!; try done; try congruence.
  - split.
    + apply N1. by rewrite S1.
    + by rewrite N2, C1.
    + intros p v' Hp. rewrite N5 in Hp. destruct (decide (p = req_id req)) as [->|Hne].
      * rewrite L1 in Hp. by injection Hp as <-.
      * rewrite O1 in Hp by done. eauto.
Qed.

Lemma produce_spec req c :
  good c → authorizeEmission (req_id req) c = true →
  ∃ c', produce req c = (inr (Completed (req_id req) (req_amount req) (computeFee (req_amount req) zero)), c') ∧
    good c' ∧ coin c' = settled_coin (coin c) (req_amount req) ∧
    pool c' = (pool c + computeFee (req_amount req) zero)%num ∧
    volume c' = (volume c + req_amount req)%num ∧ ref_verdicts c' = ref_verdicts c.
Proof.
  intros [Gc Gs Gv] Hv. unfold produce. cbn zeta. rewrite Hv. cbn [mint negb burn].
  set (id := req_id req). set (x := req_amount req). set (fee := computeFee x zero).
  set (c1 := recordMint x c). set (c2 := capture id "emission" _ c1). set (c3 := observe _ "mint" _ c2).
  set (c4 := recordBurn x (addConfirmedVolume x (accrue id fee c3))).
  set (c5 := capture id "emission_burn" _ c4). set (c6 := observe _ "burn" _ c5).
  set (c7 := capture id "final_status" _ c6). set (c8 := observe _ "final_status" _ c7).
  assert (neutral c1 c3) as [A1 A2 A3 A4 A5 _].
  { etransitivity; [apply neutral_capture|apply neutral_observe]. }
  assert (neutral c4 (compare_now c8)) as [B1 B2 B3 B4 B5 _].
  { etransitivity; [|apply neutral_compare_now]. etransitivity; [|apply neutral_observe].
    etransitivity; [|apply neutral_capture]. etransitivity; [apply neutral_capture|apply neutral_observe]. }
  assert (coin c4 = settled_coin (coin c) x) as K4.
  { transitivity {| core_minted := core_minted (coin c3); core_burned := (core_burned (coin c3) + x)%num;
      core_earned := core_earned (coin c3) |}; [reflexivity|]. by rewrite A2. }
  assert (ref_verdicts c4 = ref_verdicts c) as V4 by exact A5.
  exists (compare_now c8). split_and!; [done| | | | |congruence].
  - split.
    + apply B1. change (chained GENESIS (ref_snapshots c3)). by apply A1.
    + rewrite B2, K4. cbn. by rewrite Gs.
    + rewrite B5, V4. done.
  - congruence.
  - rewrite B3. change (pool c4) with (pool c3 + fee)%num. by rewrite A3.
  - rewrite B4. change (volume c4) with (volume c3 + x)%num. by rewrite A4.
Qed.

Lemma good_neutral c c' : neutral c c' → good c → good c'.
Proof. intros [A B C D E F] [G1 G2 G3]. split; [auto|by rewrite B|by rewrite E]. Qed.

(** The effect of a run on the value the core holds. *)
Lemma run_spec req c :
  good c →
  ∃ r c', runProcess req c = (inr r, c') ∧ good c' ∧
    (∀ q, q ≠ req_id req → ref_verdicts c' !! q = ref_verdicts c !! q) ∧
    if req_admissible req then
      r = Completed (req_id req) (req_amount req) (computeFee (req_amount req) zero) ∧
      coin c' = settled_coin (coin c) (req_amount req) ∧
      pool c' = (pool c + computeFee (req_amount req) zero)%num ∧
      volume c' = (volume c + req_amount req)%num ∧
      ∃ v, ref_verdicts c' !! req_id req = Some v ∧ pot_verified v = true ∧
        match ref_verdicts c !! req_id req with Some v0 => v = v0 | None => True end
    else
      r = Stopped (req_id req) inadmissible ∧ coin c' = coin c ∧ pool c' = pool c ∧ volume c' = volume c ∧
      ref_verdicts c' = ref_verdicts c.
Proof.
  intros Hg. unfold runProcess. cbn zeta. pose proof (neutral_initiate req c) as Ni.
  pose proof (good_neutral _ _ Ni Hg) as Hg1. destruct (req_admissible req) eqn:Ha; cbn [negb].
  - destruct (execute_spec req (initiate req c)) as [Ne He]. set (c2 := execute req (initiate req c)) in *.
    destruct (judge_spec req c2 (good_neutral _ _ Ne Hg1) Ha) as
      (v & c3 & -> & Hv & Hg3 & L3 & M3 & C3 & P3 & V3 & O3).
    { unfold REQUIRED_BEFORE_VERDICT. rewrite !Forall_cons.
      split_and!; try done; try (apply He; set_solver). apply (nt_captured _ _ Ne), initiate_records. }
    rewrite Hv. cbn [negb].
    destruct (produce_spec req c3 Hg3) as (c4 & -> & Hg4 & C4 & P4 & V4 & R4).
    { unfold authorizeEmission. by rewrite L3. }
    destruct Ni as [_ I2 I3 I4 I5 _], Ne as [_ E2 E3 E4 E5 _].
    eexists _, c4. split_and!; try done; try congruence.
    + intros q Hq. rewrite R4, O3 by done. congruence.
    + exists v. rewrite R4. split_and!; [done..|]. by rewrite E5, I5 in M3.
  - pose proof (neutral_observe "processing" "anomaly_detected"
      (process_text (req_id req) " inadmissible — rejected") (initiate req c)) as No.
    eexists _, _. split; [reflexivity|]. split; [by eapply good_neutral|].
    destruct Ni as [_ I2 I3 I4 I5 _], No as [_ E2 E3 E4 E5 _]. split_and!; try congruence.
Qed.

(** *** Settlement *)

Definition core_share (c : Core) : NodeEntity → number :=
  paymentToNode (pool c * (of_Z 1 - marginRate))%num (total_weight (registry c)).

Definition sum_from (x : number) (l : list number) : number := fold_left num_add l x.

Lemma registry_get_here n done rest :
  ref_id n ∉ ref_id <$> done → registry_get (ref_id n) (done ++ n :: rest) = Some n.
Proof.
  induction done as [|m done IH]; cbn; [by rewrite String.eqb_refl|].
  intros [Hm Hd]%not_elem_of_cons. rewrite (proj2 (String.eqb_neq _ _)) by congruence. auto.
Qed.

Lemma registry_set_here n n' done rest :
  ref_id n' = ref_id n → ref_id n ∉ ref_id <$> done → registry_set n' (done ++ n :: rest) = done ++ n' :: rest.
Proof.
  intros Hid. induction done as [|m done IH]; cbn; [by rewrite Hid, String.eqb_refl|].
  intros [Hm Hd]%not_elem_of_cons. rewrite (proj2 (String.eqb_neq _ _)) by congruence. by rewrite IH.
Qed.

(** What the payment loop changes besides the nodes. *)
Record payments_made (share : NodeEntity → number) (l : list NodeEntity) (c c' : Core) : Prop := {
  pm_snapshots : ref_snapshots c' = ref_snapshots c;
  pm_verdicts : ref_verdicts c' = ref_verdicts c;
  pm_minted : core_minted (coin c') = core_minted (coin c);
  pm_burned : core_burned (coin c') = core_burned (coin c);
  pm_earned : core_earned (coin c') = sum_from (core_earned (coin c)) (share <$> l);
  pm_volume : volume c' = volume c;
  pm_registry : ∀ done, registry c = done ++ l → NoDup (ref_id <$> registry c) →
    registry c' = done ++ ((λ n, earning (share n) n) <$> l)
}.

Lemma modify_node_frame id f c :
  ref_snapshots (modify_node id f c) = ref_snapshots c ∧ ref_verdicts (modify_node id f c) = ref_verdicts c ∧
  coin (modify_node id f c) = coin c ∧ volume (modify_node id f c) = volume c.
Proof. unfold modify_node. by destruct (registry_get id (registry c)). Qed.

Lemma pay_fold share l p log c :
  let r := fold_left (pay_one share) l ((p, log), c) in
  r.1.1 = sum_from p (share <$> l) ∧ r.1.2 = log ++ ((λ n, (ref_id n, share n)) <$> l) ∧
  payments_made share l c r.2.
Proof.
  revert p log c. induction l as [|n l IH]; intros p log c; cbn zeta.
  - split_and!; [done|by rewrite app_nil_r|]. by split.
  - cbn [fold_left]. unfold pay_one at 2 4 6.
    set (c1 := recordEarned (share n) (modify_node (ref_id n) (earning (share n)) c)).
    destruct (IH (p + share n)%num (log ++ [(ref_id n, share n)]) c1) as (H1 & H2 & [A B C D E F G]).
    destruct (modify_node_frame (ref_id n) (earning (share n)) c) as (M1 & M2 & M3 & M4).
    split_and!; [by rewrite H1|by rewrite H2, <- app_assoc|].
    split.
    + rewrite A. exact M1.
    + rewrite B. exact M2.
    + rewrite C. cbn. by rewrite M3.
    + rewrite D. cbn. by rewrite M3.
    + rewrite E. cbn. by rewrite M3.
    + rewrite F. exact M4.
    + intros done Hr Hnd. assert (ref_id n ∉ ref_id <$> done) as Hn.
      { rewrite Hr, fmap_app, NoDup_app in Hnd. destruct Hnd as (_ & Hd & _). intros Hin.
        apply (Hd _ Hin). left. }
      assert (registry c1 = done ++ earning (share n) n :: l) as Hr1.
      { change (registry c1) with (registry (modify_node (ref_id n) (earning (share n)) c)).
        unfold modify_node. rewrite Hr, registry_get_here by done. cbn. by apply registry_set_here. }
      rewrite (G (done ++ [earning (share n) n])), <- app_assoc; [done|by rewrite Hr1, <- app_assoc|].
      rewrite Hr in Hnd. rewrite Hr1. rewrite fmap_app in *. exact Hnd.
Qed.

Lemma good_finalize c : good c → good (finalizeEpoch c).2.
Proof.
  intros [G1 G2 G3]. unfold finalizeEpoch, finalize_commission. cbn zeta.
  pose proof (pay_fold (core_share c) (registry c) zero [] c) as (_ & _ & [A B C D _ _ _]). cbn zeta in *.
  fold (core_share c). destruct (fold_left _ (registry c) _) as [[p log] c1]. cbn [fst snd] in *.
  eapply good_neutral; [apply neutral_compare_now|]. eapply good_neutral; [apply neutral_observe|].
  split; [change (chained GENESIS (ref_snapshots c1)); by rewrite A| |
    change (∀ p v, ref_verdicts c1 !! p = Some v → pot_verified v = true); by rewrite B].
  change (core_minted (coin c1) = core_burned (coin c1)). congruence.
Qed.

Lemma good_metrics c : good c → good (metrics c).2.
Proof. intros [G1 G2 G3]. unfold metrics, check. cbn zeta. by destruct (num_ltb _ _ && num_ltb _ _); split. Qed.

Lemma good_serve c q : good c → good (serve_call c q).
Proof.
  intros Hg. destruct q as [req| |]; [|by apply good_finalize|by apply good_metrics].
  destruct (run_spec req c Hg) as (r & c' & Hrun & Hg' & _). cbn. by rewrite Hrun.
Qed.

Lemma good_initial t : good (initial_core t).
Proof. split; [done|done|]. intros p v. cbn. by rewrite lookup_empty. Qed.

Lemma good_reachable qs c : good c → good (fold_left serve_call qs c).
Proof. revert c. induction qs as [|q qs IH]; intros c Hg; [done|]. by apply IH, good_serve. Qed.

(** *** The text a snapshot is hashed over *)

Lemma body_text seq e p d :
  stringify (body seq e p d) =
  "{" +:+ quoted "sequenceId" +:+ ":" +:+ stringify_num (of_Z seq) +:+ "," +:+ quoted "eventType" +:+ ":" +:+
  quoted e +:+ "," +:+ quoted "processId" +:+ ":" +:+ quoted p +:+ "," +:+ quoted "data" +:+ ":" +:+
  stringify (JObj d) +:+ "}".
Proof. unfold body. cbn [stringify map concat_comma]. rewrite <- ?string_app_assoc. reflexivity. Qed.

Lemma string_app_inj_r s t1 t2 : s +:+ t1 = s +:+ t2 → t1 = t2.
Proof. induction s as [|a s IH]; [done|]. cbn. intros H. injection H as H. auto. Qed.

Lemma body_text_inj seq e p d e' p' d' :
  stringify (body seq e p d) = stringify (body seq e' p' d') →
  e = e' ∧ p = p' ∧ stringify (JObj d) = stringify (JObj d').
Proof.
  rewrite !body_text. intros H. do 7 apply string_app_inj_r in H.
  apply quoted_prefix_free in H as [-> H]. do 3 apply string_app_inj_r in H.
  apply quoted_prefix_free in H as [-> H]. do 3 apply string_app_inj_r in H.
  by apply string_app_inj_l in H.
Qed.

Lemma snapshot_hash_inj seq e p d e' p' d' prev :
  snapshot_hash seq e p d prev = snapshot_hash seq e' p' d' prev →
  (e = e' ∧ p = p' ∧ stringify (JObj d) = stringify (JObj d')) ∨ collision.
Proof.
  unfold snapshot_hash. intros H. match type of H with sha256 ?a = sha256 ?b => destruct (decide (a = b)) as [E|E] end;
    [|right; do 2 eexists; eauto].
  left. apply string_app_inj_l in E. by apply body_text_inj in E.
Qed.

Lemma broken_from_app i prev rows rows' :
  chained prev rows →
  broken_from i prev (rows ++ rows') =
  broken_from (i + Z.of_nat (length rows)) (match last rows with Some s => snap_hash s | None => prev end) rows'.
Proof.
  revert i prev. induction rows as [|s rows IH]; intros i prev.
  - intros _. cbn. by rewrite Z.add_0_r.
  - intros (Hp & Hh & Hc). cbn [app broken_from]. rewrite Hp, Hh, !String.eqb_refl. cbn [negb orb].
    rewrite <- Hh, IH by done. replace (i + 1 + Z.of_nat (length rows))%Z with (i + Z.of_nat (length (s :: rows)))%Z
      by (cbn; lia).
    f_equal. destruct rows as [|s' rows]; [done|].
    change (last (s :: s' :: rows)) with (last (s' :: rows)).
    by assert (is_Some (last (s' :: rows))) as [x ->] by (by apply last_is_Some).
Qed.

(** ** Properties *)

(** C26. The reference core is safe in every state a client can reach: whatever
    processes were run and epochs settled, the chain replays from genesis, as
    much process value was burned as minted, no negative verdict exists, and the
    next run completes: an admitted process mints its amount, pays the fee into
    the pool, adds to the volume and leaves earnings alone; any other is stopped
    and moves nothing. *)
Theorem core_safe_and_live t qs req :
  let c := fold_left serve_call qs (initial_core t) in
  audit_ok (reconstruct c) = true ∧ core_minted (coin c) = core_burned (coin c) ∧
  (∀ p v, ref_verdicts c !! p = Some v → pot_verified v = true) ∧
  ∃ c', runProcess req c =
    (inr (if req_admissible req
          then Completed (req_id req) (req_amount req) (computeFee (req_amount req) zero)
          else Stopped (req_id req) inadmissible), c') ∧
    coin c' = (if req_admissible req then settled_coin (coin c) (req_amount req) else coin c) ∧
    pool c' = (if req_admissible req then (pool c + computeFee (req_amount req) zero)%num else pool c) ∧
    volume c' = (if req_admissible req then (volume c + req_amount req)%num else volume c).
Proof.
  cbn zeta. set (c := fold_left serve_call qs (initial_core t)).
  pose proof (good_reachable qs _ (good_initial t)) as Hg. fold c in Hg.
  destruct (run_spec req c Hg) as (r & c' & Hrun & _ & _ & Hr).
  split_and!; [by apply reconstruct_chained, good_chain|by apply good_symmetric|by apply good_verdicts|].
  exists c'. rewrite Hrun. destruct (req_admissible req).
  - destruct Hr as (-> & H1 & H2 & H3 & _). done.
  - destruct Hr as (-> & H1 & H2 & H3 & _). done.
Qed.

(** Settlement in the reference core: every registered node, in registration
    order, is logged and credited with its weight's share of three quarters of
    the pool; the sum paid and the coin's earnings are the sums of those
    payments, the pool is emptied, and the process part is untouched. *)
Theorem core_settlement c :
  NoDup (ref_id <$> registry c) →
  let share := paymentToNode (pool c * (of_Z 1 - marginRate))%num (total_weight (registry c)) in
  ∃ res c', finalizeEpoch c = (res, c') ∧
    distributionLog res = (λ n, (ref_id n, share n)) <$> registry c ∧
    paid res = fold_left num_add (share <$> registry c) zero ∧
    margin res = (pool c * marginRate)%num ∧ total_pool res = pool c ∧ pool c' = zero ∧
    core_earned (coin c') = fold_left num_add (share <$> registry c) (core_earned (coin c)) ∧
    registry c' = (λ n, earning (share n) n) <$> registry c ∧
    processNet c' = processNet c ∧ volume c' = volume c.
Proof.
  intros Hnd. cbn zeta. fold (core_share c). unfold finalizeEpoch, finalize_commission. cbn zeta.
  pose proof (pay_fold (core_share c) (registry c) zero [] c) as (H1 & H2 & [A B C D E F G]). cbn zeta in *.
  fold (core_share c). destruct (fold_left _ (registry c) _) as [[p log] c1]. cbn [fst snd] in *.
  eexists _, _. split; [reflexivity|]. cbn [distributionLog paid margin total_pool].
  set (c2 := set_commission zero (contributions c1) c1). set (c3 := observe _ _ _ c2).
  assert (neutral c2 (compare_now c3)) as [_ N2 N3 N4 _ _].
  { etransitivity; [apply neutral_observe|apply neutral_compare_now]. }
  assert (coin c2 = coin c1) as K by done.
  split_and!; [by rewrite H2|exact H1|done|done|exact N3| | | |].
  - rewrite N2, K. exact E.
  - rewrite registry_compare_now. by apply (G []).
  - unfold processNet. rewrite N2, K. congruence.
  - rewrite N4. exact F.
Qed.

(** In the reference core the hash covers the event: on a chain that replays,
    replacing a snapshot by one with another event type, another process or
    other serialised data, hashes and position kept, is located by
    [reconstruct] at its index, unless SHA-256 collides. *)
Theorem core_relabel_detected c c' done s rest e p d :
  audit_ok (reconstruct c) = true → ref_snapshots c = done ++ s :: rest →
  (e ≠ snap_eventType s ∨ p ≠ snap_processId s ∨ stringify (JObj d) ≠ stringify (JObj (snap_data s))) →
  ref_snapshots c' = done ++ {| snap_sequenceId := snap_sequenceId s; snap_hash := snap_hash s;
    snap_prevHash := snap_prevHash s; snap_validatorId := snap_validatorId s; snap_status := snap_status s;
    snap_timestamp := snap_timestamp s; snap_eventType := e; snap_processId := p; snap_data := d |} :: rest →
  reconstruct c' = {| audit_ok := false; audit_brokenAt := Some (Z.of_nat (length done)) |} ∨ collision.
Proof.
  intros Hok Hc Hdiff Hc'. apply reconstruct_chained in Hok. rewrite Hc in Hok.
  apply chained_app in Hok as (Hd & Hp & Hh & _). set (prev := match last done with Some _ => _ | None => _ end) in *.
  unfold reconstruct. rewrite Hc', broken_from_app by done. fold prev. cbn [broken_from snap_prevHash snap_hash].
  rewrite Hp, String.eqb_refl, Hh. cbn [negb orb]. unfold expected_hash.
  cbn [snap_sequenceId snap_eventType snap_processId snap_data].
  destruct (String.eqb_spec (snapshot_hash (snap_sequenceId s) (snap_eventType s) (snap_processId s) (snap_data s) prev)
    (snapshot_hash (snap_sequenceId s) e p d prev)) as [E|E]; cbn [negb]; [|by left].
  apply snapshot_hash_inj in E as [(E1 & E2 & E3)|E]; [|by right].
  destruct Hdiff as [H|[H|H]]; congruence.
Qed.

End Reference.

(** ** Witnesses *)

Section Witnesses.
#[local] Existing Instance transparent_platform.

Definition ref_request : ProcessRequest :=
  {| req_id := "p"; req_amount := of_Z 1000; req_type := "transfer"; req_admissible := true |}.

Definition core_ran : Core := (runProcess ref_request (initial_core clock_start)).2.

Lemma core_settlement_witness :
  ∃ res c', finalizeEpoch core_ran = (res, c') ∧ pool c' = zero ∧ length (distributionLog res) = 3.
Proof.
  destruct (core_settlement core_ran) as (res & c' & H1 & H2 & _ & _ & _ & H3 & _).
  - apply (bool_decide_unpack _). vm_compute. exact I.
  - exists res, c'. split; [exact H1|]. split; [exact H3|]. rewrite H2. vm_compute. reflexivity.
Defined.

Lemma core_relabel_detected_witness :
  let s := {| snap_sequenceId := 0; snap_hash := snapshot_hash 0 "initiation" "p" [] GENESIS;
    snap_prevHash := GENESIS; snap_validatorId := None; snap_status := confirmed; snap_timestamp := 1;
    snap_eventType := "initiation"; snap_processId := "p"; snap_data := [] |} in
  let s' := {| snap_sequenceId := 0; snap_hash := snapshot_hash 0 "initiation" "p" [] GENESIS;
    snap_prevHash := GENESIS; snap_validatorId := None; snap_status := confirmed; snap_timestamp := 1;
    snap_eventType := "final_status"; snap_processId := "p"; snap_data := [] |} in
  reconstruct (push_snapshot s' (initial_core 0)) = {| audit_ok := false; audit_brokenAt := Some 0%Z |} ∨ collision.
Proof.
  intros s s'.
  refine (core_relabel_detected (push_snapshot s (initial_core 0)) (push_snapshot s' (initial_core 0))
    [] s [] "final_status" "p" [] _ _ _ _).
  - vm_compute. reflexivity.
  - reflexivity.
  - left. discriminate.
  - reflexivity.
Defined.
End Witnesses.
