(* ===== verification/Simulation.v ===== *)
(** * The services implement the reference core

    The services of [src/src/] say they mirror the reference port of
    [src/reference/ast-core/]. The relation [mirrors] says what they share: the
    tallies, the confirmed volume, the pool of the default epoch and the verdicts.
    Running one process on each side preserves it and gives one outcome; settling
    an epoch does not. *)

From S2P Require Import Prelude Number NumberFacts NumberText Json Storage Effects Entities World.
From S2P Require Import NodeChain StateRecording Pot ArosCoin Emission Nodes Reserve Commission Release.
From S2P Require Import AllSeeingEye Orchestrator System Reference.
From Stdlib Require Import ZArith.

Section Simulation.
Context {ST : Storage} {PL : Platform}.

(** ** Requests and outcomes on the two sides *)

(** The body of the HTTP request that asks for a reference request. *)
Definition service_input (req : ProcessRequest) : RunProcessInput :=
  {| in_processId := req_id req; in_amount := req_amount req; in_type := req_type req;
     in_admissible := req_admissible req; in_nodeIds := None; in_epoch := None |}.

Definition same_reason (a : Orchestrator.Reason) (b : Reference.Reason) : Prop :=
  match a, b with
  | Orchestrator.inadmissible, Reference.inadmissible | Orchestrator.unverified, Reference.unverified => True
  | _, _ => False
  end.

Definition same_outcome (r : RunProcessResult) (q : RunResult) : Prop :=
  match q with
  | Completed p minted fee =>
    out_processId r = p ∧ out_verified r = true ∧ out_reason r = None ∧ out_minted r = minted ∧ out_fee r = fee
  | Stopped p reason =>
    out_processId r = p ∧ out_verified r = false ∧ ∃ reason', out_reason r = Some reason' ∧ same_reason reason' reason
  end.

Definition same_answer (r : exn + RunProcessResult) (q : exn + RunResult) : Prop :=
  match r, q with inr r, inr q => same_outcome r q | _, _ => False end.

(** The validated body has a positive finite amount. *)
Definition positive_amount (req : ProcessRequest) : Prop :=
  is_finite (req_amount req) = true ∧ num_ltb zero (req_amount req) = true.

(** What the service concludes from the evidence: an inadmissible process is
    stopped before the criteria are evaluated. *)
Definition service_conclusion (req : ProcessRequest) (have : gset string) (chainOk : bool) : bool :=
  req_admissible req && every_criterion (criteria have chainOk).

(** ** The relation *)

Record mirrors (w : World) (c : Core) : Prop := {
  mi_chain : intact (chain w);
  mi_ledger : ledger_ok w;
  mi_nodes : nodes_ok w;
  mi_core : good c;
  mi_tallies : processMinted (tallies w) = core_minted (coin c) ∧
    processBurned (tallies w) = core_burned (coin c) ∧ earnedRetained (tallies w) = core_earned (coin c);
  mi_volume : process_volume (chain w) = volume c;
  mi_pool : match epoch_of DEFAULT_EPOCH w with Some e => totalFees e | None => zero end = pool c;
  mi_verdicts : ∀ p, verified <$> verdict_of p w = pot_verified <$> ref_verdicts c !! p
}.

(** ** Facts *)

Lemma stored_amount_positive x : is_finite x = true → num_ltb zero x = true → stored_amount x = x.
Proof. destruct x as [[]|[]| |]; done. Qed.

Lemma mirrors_supply w c : mirrors w c → supply_of (tallies w) = totalSupply c.
Proof.
  intros H. destruct (mi_tallies _ _ H) as (H1 & H2 & H3). unfold supply_of, Reference.totalSupply, Reference.processNet.
  by rewrite H1, H2, H3.
Qed.

Lemma mirrors_index w c : mirrors w c → world_index w = Reference.reserveIndex c.
Proof.
  intros H. unfold world_index. rewrite world_volume_intact by apply H. unfold index_of_volume, Reference.reserveIndex.
  by rewrite (mi_volume _ _ H).
Qed.

Lemma mirrors_verified w c p v :
  mirrors w c → verdict_of p w = Some v → verified v = true.
Proof.
  intros H Hv. pose proof (mi_verdicts _ _ H p) as E. rewrite Hv in E. cbn in E.
  destruct (ref_verdicts c !! p) as [v'|] eqn:Hc; [|done]. cbn in E. injection E as ->.
  eapply good_verdicts; [apply H|done].
Qed.

(** An inadmissible process changes nothing the relation sees. *)
Lemma mirrors_quiet evs w w' c c' :
  mirrors w c → quiet evs w w' → Forall mute evs → good c' →
  coin c' = coin c → pool c' = pool c → volume c' = volume c → ref_verdicts c' = ref_verdicts c →
  mirrors w' c'.
Proof.
  intros [A B C D E F G H] Q Hm Hg H1 H2 H3 H4. destruct (q_ledger _ _ _ Q B) as [L T].
  split; [by apply Q|done|by apply Q|done| | | |].
  - by rewrite T, H1.
  - by rewrite (q_volume _ _ _ Q A Hm), H3.
  - unfold epoch_of in *. by rewrite (q_epochs _ _ _ Q), H2.
  - intros p. unfold verdict_of in *. by rewrite (q_verdicts _ _ _ Q), H4.
Qed.

Lemma mirrors_step req w c :
  mirrors w c → positive_amount req →
  ∃ r q w' c', run (Orchestrator.runProcess (service_input req)) w = (inr r, w') ∧
    Reference.runProcess req c = (inr q, c') ∧ same_outcome r q ∧ mirrors w' c'.
Proof.
  intros Hm [Hf Hp]. destruct (run_spec req c (mi_core _ _ Hm)) as (q & c' & Hrun & Hg & Ho & Hc).
  destruct (req_admissible req) eqn:Ha.
  - destruct Hc as (-> & K & P & V & v' & Hv' & Hvt & Hvm).
    destruct (run_produces (service_input req) DEFAULT_EPOCH w Ha eq_refl (mi_chain _ _ Hm) (mi_ledger _ _ Hm) (mi_nodes _ _ Hm) I) as
      (r & w' & assigned & Hr & R1 & R2 & R3 & R4 & _ & _ & _ & [X1 X2 X3 X4 X5 X6 X7 X8 X9] & _ & R5).
    { intros v. by apply mirrors_verified with (c := c). }
    exists r, (Completed (req_id req) (req_amount req) (Reference.computeFee (req_amount req) zero)), w', c'.
    split_and!; [done..|]. destruct (mi_tallies _ _ Hm) as (T1 & T2 & T3). cbn [service_input in_amount in_processId in_epoch default] in *.
    rewrite stored_amount_positive in X8 by done.
    split; [apply X1|done|done|done| | | |].
    + rewrite X3, K. cbn. by rewrite T1, T2, T3.
    + rewrite X8, V by done. by rewrite (mi_volume _ _ Hm).
    + destruct X6 as (e & -> & He). cbn [epoch_row add_fee totalFees]. rewrite P, <- (mi_pool _ _ Hm).
      change (default_fee (req_amount req)) with (Reference.computeFee (req_amount req) zero). f_equal.
      by destruct (epoch_of DEFAULT_EPOCH w) as [e0|]; [rewrite He|destruct He as [-> _]].
    + intros p. destruct (decide (p = req_id req)) as [->|Hne].
      * destruct X4 as (v & -> & Hvv & _). rewrite Hv'. cbn. by rewrite Hvv, Hvt.
      * rewrite X5, Ho by done. apply (mi_verdicts _ _ Hm).
  - destruct Hc as (-> & K & P & V & Hv).
    destruct (quietly_inadmissible (service_input req) w Ha (mi_ledger _ _ Hm)) as (r & w' & Hr & Q & R1 & R2 & R3 & _).
    eexists r, _, w', c'. split_and!; [done..| |].
    + cbn. split_and!; [done..|]. by exists Orchestrator.inadmissible.
    + apply (mirrors_quiet _ _ _ c c' Hm Q); try done. by apply Forall_singleton.
Qed.

(** ** Histories *)

(** The answers to a list of requests served in order, and the state they leave. *)
Fixpoint service_history (reqs : list ProcessRequest) (w : World) : list (exn + RunProcessResult) * World :=
  match reqs with
  | [] => ([], w)
  | req :: reqs =>
    let '(r, w) := run (Orchestrator.runProcess (service_input req)) w in
    let '(rs, w) := service_history reqs w in (r :: rs, w)
  end.

Fixpoint core_history (reqs : list ProcessRequest) (c : Core) : list (exn + RunResult) * Core :=
  match reqs with
  | [] => ([], c)
  | req :: reqs =>
    let '(r, c) := Reference.runProcess req c in
    let '(rs, c) := core_history reqs c in (r :: rs, c)
  end.

Lemma mirrors_history reqs w c :
  mirrors w c → Forall positive_amount reqs →
  Forall2 same_answer (service_history reqs w).1 (core_history reqs c).1 ∧
  mirrors (service_history reqs w).2 (core_history reqs c).2.
Proof.
  intros Hm Hr. revert w c Hm. induction Hr as [|req reqs Hp _ IH]; intros w c Hm; [by split; [constructor|]|].
  destruct (mirrors_step req w c Hm Hp) as (r & q & w' & c' & H1 & H2 & Ho & Hm').
  cbn [service_history core_history]. rewrite H1, H2. destruct (IH w' c' Hm') as [H3 H4].
  destruct (service_history reqs w') as [rs w''], (core_history reqs c') as [qs c'']. cbn [fst snd] in *.
  split; [|done]. by constructor.
Qed.

Lemma mirrors_initial t : mirrors fresh_world (initial_core t).
Proof.
  assert (∀ R, find (@empty_repo ST R) = []) as He by (intros R; apply find_empty).
  assert (∀ R K `{Entity R K} k, findOne (K := K) k (@empty_repo ST R) = None) as Ho.
  { intros. by rewrite findOne_find, He. }
  split; unfold chain, nodes_ok, ledger_ok, tallies, epoch_of, verdict_of, fresh_world;
    cbn [snapshots nodes ledger_rows epochs verdicts]; rewrite ?He, ?Ho; try done.
  - intros p. rewrite Ho. cbn. by rewrite lookup_empty.
Qed.

(** ** Properties *)

(** C3. The services implement the reference core on process runs. Serve any list
    of requests with positive finite amounts, admissible or not, repeated or not,
    from an empty database and from a new core: every answer agrees, in process,
    verdict, reason, minted amount and fee, and no run throws; afterwards the two
    sides hold the same supply, the same reserve index, the same pool for the
    default epoch and the same verdicts. *)
Theorem services_implement_core reqs t :
  Forall positive_amount reqs →
  let (answers, w) := service_history reqs fresh_world in
  let (expected, c) := core_history reqs (initial_core t) in
  Forall2 same_answer answers expected ∧
  supply_of (tallies w) = Reference.totalSupply c ∧ world_index w = Reference.reserveIndex c ∧
  match epoch_of DEFAULT_EPOCH w with Some e => totalFees e | None => zero end = pool c ∧
  (∀ p, verified <$> verdict_of p w = pot_verified <$> ref_verdicts c !! p).
Proof.
  intros Hr. destruct (mirrors_history reqs fresh_world (initial_core t) (mirrors_initial t) Hr) as [H1 H2].
  destruct (service_history reqs fresh_world) as [answers w], (core_history reqs (initial_core t)) as [expected c].
  cbn [fst snd] in *. split_and!; [done|by apply mirrors_supply|by apply mirrors_index|apply H2|apply H2].
Qed.

(** The criteria of the two sides agree: on one set of captured events and one
    state of the chain, the reference core's verdict is the service's verdict and
    the admission of the process. *)
Theorem criteria_agree req have chainOk :
  all_met (criteriaResult req have chainOk) = service_conclusion req have chainOk.
Proof.
  unfold service_conclusion, all_met, criteriaResult, every_criterion, criteria, Pot.has, Reference.has.
  cbn [forallb snd id admissible_context full_stage_sequence states_recorded_in_nodechain completion_per_rules].
  destruct (req_admissible req), (bool_decide ("initiation" ∈ have)), (bool_decide ("task_assignment" ∈ have)),
    (bool_decide ("stage_transition" ∈ have)), chainOk, (0 <? size have)%nat,
    (bool_decide ("execution_complete" ∈ have)); reflexivity.
Qed.
End Simulation.

(** ** Witnesses, and where the two sides part *)

Section Witnesses.
#[local] Existing Instance transparent_platform.

Definition refused_request : ProcessRequest :=
  {| req_id := "q"; req_amount := of_Z 5; req_type := "transfer"; req_admissible := false |}.

Definition trading_day : list ProcessRequest := [ref_request; refused_request; ref_request].

Lemma services_implement_core_witness :
  length (service_history trading_day fresh_world).1 = 3 ∧
  Forall2 same_answer (service_history trading_day fresh_world).1
    (core_history trading_day (initial_core clock_start)).1.
Proof.
  pose proof (services_implement_core trading_day clock_start) as H.
  assert (Forall positive_amount trading_day) as Hp by (repeat constructor).
  specialize (H Hp). clear Hp.
  destruct (service_history trading_day fresh_world) as [answers w] eqn:E.
  destruct (core_history trading_day (initial_core clock_start)) as [expected c].
  destruct H as [H _]. split; [|exact H]. change answers with (answers, w).1. rewrite <- E. vm_compute. reflexivity.
Defined.
(** Settling parts the two sides: the services count the operational margin of the
    settled epoch into the confirmed volume, the reference core does not. *)
Lemma settlement_parts_the_volumes :
  let w := (service_history [ref_request] fresh_world).2 in
  let c := (core_history [ref_request] (initial_core clock_start)).2 in
  process_volume (chain w) = volume c ∧
  process_volume (chain (serve w (FinalizeEpoch 1))) = (volume c + of_decimal 125 (-2))%num ∧
  volume (Reference.finalizeEpoch c).2 = volume c.
Proof. vm_compute. done. Qed.
End Witnesses.
