(* ===== verification/Regex.v ===== *)
(** * Regular expressions and files, as the scripts use them

    The fragment of ECMAScript matching the maintenance scripts use, on strings of
    UTF-8 bytes: ordered choice, greedy and lazy repetition, one capture. A match
    is a function of a continuation, as in the language's own definition. Then the
    directory trees [fs.readdirSync] walks. *)

From S2P Require Import Prelude NumberText.
From Stdlib Require Import ZArith Ascii String.

(** ** Patterns *)

Inductive regex :=
| Eps
| Chr (p : ascii → bool)
| Seq (r1 r2 : regex)
| Alt (r1 r2 : regex)
| Star (greedy : bool) (r : regex)
| Group (r : regex)
| NotAhead (p : ascii → bool)
| NotAheadText (t : string).

(** The text captured so far. *)
Definition captured_text := option string.

(** [s.startsWith(t)]. *)
Fixpoint starts_with (s t : string) : bool :=
  match t, s with
  | EmptyString, _ => true
  | String b t, String a s => Ascii.eqb a b && starts_with s t
  | _, _ => false
  end.

Fixpoint has_char (a : ascii) (s : string) : bool :=
  match s with EmptyString => false | String b s => Ascii.eqb a b || has_char a s end.

(** The part of [s] before its suffix [s']. *)
Definition consumed (s s' : string) : string := substring 0 (String.length s - String.length s') s.

(** [matches r s c k]: match [r] at the head of [s] and go on with [k] on the rest;
    the first alternative that lets the whole succeed wins. *)
Fixpoint matches {A} (r : regex) (s : string) (c : captured_text) (k : string → captured_text → option A)
  : option A :=
  match r with
  | Eps => k s c
  | Chr p => match s with String a s' => if p a then k s' c else None | EmptyString => None end
  | Seq r1 r2 => matches r1 s c (λ s' c', matches r2 s' c' k)
  | Alt r1 r2 => match matches r1 s c k with Some x => Some x | None => matches r2 s c k end
  | Star greedy r =>
    (fix loop (n : nat) (s : string) (c : captured_text) : option A :=
       match n with
       | O => k s c
       | S n =>
         let more := matches r s c (λ s' c',
           if (String.length s' <? String.length s)%nat then loop n s' c' else None) in
         let stop := k s c in
         if greedy then match more with Some x => Some x | None => stop end
         else match stop with Some x => Some x | None => more end
       end) (String.length s) s c
  | Group r => matches r s c (λ s' _, k s' (Some (consumed s s')))
  | NotAhead p => match s with String a _ => if p a then None else k s c | EmptyString => k s c end
  | NotAheadText t => if starts_with s t then None else k s c
  end.

(** The length and the capture of the match at the head of [s]. *)
Definition match_here (r : regex) (s : string) : option (nat * captured_text) :=
  matches r s None (λ s' c, Some ((String.length s - String.length s')%nat, c)).

(** [s.match(r)] without the [g] flag: the leftmost match. *)
Fixpoint exec (r : regex) (s : string) : option (nat * captured_text) :=
  match match_here r s with
  | Some m => Some m
  | None => match s with EmptyString => None | String _ s' => exec r s' end
  end.

Definition test (r : regex) (s : string) : bool := match exec r s with Some _ => true | None => false end.

(** The number of matches of [s.match(r)] with the [g] flag; the patterns here
    never match the empty string. [skip] characters belong to the last match. *)
Fixpoint count_from (r : regex) (skip : nat) (s : string) : nat :=
  match s with
  | EmptyString => 0
  | String _ s' =>
    match skip with
    | S skip => count_from r skip s'
    | O =>
      match match_here r s with
      | Some (S n, _) => S (count_from r n s')
      | _ => count_from r 0 s'
      end
    end
  end.

Definition count (r : regex) (s : string) : nat := count_from r 0 s.

(** The matches of [s.matchAll(r)], each with its text and its capture. *)
Fixpoint all_from (r : regex) (skip : nat) (s : string) : list (string * captured_text) :=
  match s with
  | EmptyString => []
  | String _ s' =>
    match skip with
    | S skip => all_from r skip s'
    | O =>
      match match_here r s with
      | Some (S n, c) => (substring 0 (S n) s, c) :: all_from r n s'
      | _ => all_from r 0 s'
      end
    end
  end.

Definition match_all (r : regex) (s : string) : list (string * captured_text) := all_from r 0 s.

(** What a replacement can refer to. *)
Record Match := { preceding : string; matched : string; following : string; capture : captured_text }.

(** [s.replace(r, f)] with the [g] flag, [past] being what came before [s]. *)
Fixpoint replace_from (r : regex) (f : Match → string) (past : string) (skip : nat) (s : string) : string :=
  match s with
  | EmptyString => EmptyString
  | String a s' =>
    let past' := past +:+ String a EmptyString in
    match skip with
    | S skip => replace_from r f past' skip s'
    | O =>
      match match_here r s with
      | Some (S n, c) =>
        f {| preceding := past; matched := substring 0 (S n) s;
             following := substring (S n) (String.length s) s; capture := c |} +:+ replace_from r f past' n s'
      | _ => String a (replace_from r f past' 0 s')
      end
    end
  end.

Definition replace_matches (r : regex) (f : Match → string) (s : string) : string := replace_from r f EmptyString 0 s.

(** A replacement text without [$]. *)
Definition replace_all (r : regex) (t s : string) : string := replace_matches r (λ _, t) s.

(** [s.replace(r, f)] without the flag: the leftmost match only. *)
Fixpoint replace_first (r : regex) (f : captured_text → string) (s : string) : string :=
  match match_here r s with
  | Some (n, c) => f c +:+ substring n (String.length s) s
  | None => match s with EmptyString => EmptyString | String a s' => String a (replace_first r f s') end
  end.

(** A replacement text, in which [$] introduces what it refers to. *)
Fixpoint expand (m : Match) (t : string) : string :=
  match t with
  | EmptyString => EmptyString
  | String "$" (String b t' as t1) =>
    if Ascii.eqb b "$" then String "$" (expand m t')
    else if Ascii.eqb b "&" then matched m +:+ expand m t'
    else if Ascii.eqb b "`" then preceding m +:+ expand m t'
    else if Ascii.eqb b "'" then following m +:+ expand m t'
    else String "$" (expand m t1)
  | String a t => String a (expand m t)
  end.

(** ** Common patterns *)

Definition lower (a : ascii) : ascii :=
  let n := N_of_ascii a in if (65 <=? n)%N && (n <=? 90)%N then ascii_of_N (n + 32) else a.

(** One character of a literal, with or without the [i] flag. *)
Definition chr (ci : bool) (a : ascii) : regex :=
  Chr (λ b, if ci then Ascii.eqb (lower a) (lower b) else Ascii.eqb a b).

Fixpoint literal (ci : bool) (s : string) : regex :=
  match s with EmptyString => Eps | String a s => Seq (chr ci a) (literal ci s) end.

Definition byte_in (lo hi : N) : regex := Chr (λ a, (lo <=? N_of_ascii a)%N && (N_of_ascii a <=? hi)%N).

(** [.]: one UTF-16 unit that ends no line. The four bytes of a character outside
    the basic plane are two units, two bytes each. *)
Definition dot : regex :=
  Alt (Chr (λ a, (N_of_ascii a <? 128)%N && negb (N_of_ascii a =? 10)%N && negb (N_of_ascii a =? 13)%N))
  (Alt (Seq (byte_in 194 223) (byte_in 128 191))
  (Alt (Seq (byte_in 226 226) (Alt (Seq (byte_in 128 128) (Alt (byte_in 128 167) (byte_in 170 191)))
                                   (Seq (byte_in 129 191) (byte_in 128 191))))
  (Alt (Seq (Alt (byte_in 224 225) (byte_in 227 239)) (Seq (byte_in 128 191) (byte_in 128 191)))
  (Alt (Seq (byte_in 240 244) (byte_in 128 191)) (Seq (byte_in 128 191) (byte_in 128 191)))))).

Definition any_char : regex := Chr (λ _, true).
Definition plus (r : regex) : regex := Seq r (Star true r).
Definition lazy_plus (r : regex) : regex := Seq r (Star false r).
Definition is_word (a : ascii) : bool :=
  let n := N_of_ascii a in
  ((48 <=? n) && (n <=? 57) || (65 <=? n) && (n <=? 90) || (97 <=? n) && (n <=? 122) || (n =? 95))%N.

(** [s.includes(t)]. *)
Definition includes (s t : string) : bool := test (literal false t) s.

(** ** Lines *)

Definition newline : ascii := ascii_of_N 10.

(** [s.split('\n')]. *)
Fixpoint split_lines (s : string) : list string :=
  match s with
  | EmptyString => [EmptyString]
  | String a s =>
    if Ascii.eqb a newline then EmptyString :: split_lines s
    else match split_lines s with l :: ls => String a l :: ls | [] => [String a EmptyString] end
  end.

(** [lines.join(sep)]. *)
Fixpoint join (sep : string) (l : list string) : string :=
  match l with
  | [] => EmptyString
  | [s] => s
  | s :: l' => s +:+ sep +:+ join sep l'
  end.

Definition newline_text : string := String newline EmptyString.

(** [s.trim()]. *)
Definition trim (s : string) : string := trim_right (trim_left s).

(** [s.endsWith(t)]. *)
Definition ends_with (s t : string) : bool :=
  (String.length t <=? String.length s)%nat &&
  String.eqb (substring (String.length s - String.length t) (String.length t) s) t.

(** ** Directory trees *)

(** What a path names: a file, unreadable or with its text; a directory,
    unreadable or with its entries in the order they are listed; anything else. *)
#[local] Unset Elimination Schemes.

Inductive node :=
| File (content : option string)
| Dir (entries : option (list (string * node)))
| Special.

#[local] Set Elimination Schemes.

Fixpoint entry_named (name : string) (l : list (string * node)) : option node :=
  match l with
  | [] => None
  | (n, e) :: l => if String.eqb n name then Some e else entry_named name l
  end.

(** [path.join] of relative names, followed from a tree. *)
Fixpoint at_path (path : list string) (t : node) : option node :=
  match path with
  | [] => Some t
  | name :: path =>
    match t with
    | Dir (Some l) => match entry_named name l with Some t => at_path path t | None => None end
    | _ => None
    end
  end.

(** [fs.existsSync]. *)
Definition exists_at (path : list string) (t : node) : bool :=
  match at_path path t with Some _ => true | None => false end.

(** ** Facts *)

Lemma split_lines_nonempty s : split_lines s ≠ [].
Proof.
  induction s as [|a s IH]; [discriminate|]. cbn [split_lines]. destruct (Ascii.eqb a newline); [discriminate|].
  destruct (split_lines s); discriminate.
Qed.

(** Joining the lines of a text gives the text back. *)
Lemma join_split_lines s : join newline_text (split_lines s) = s.
Proof.
  induction s as [|a s IH]; [done|]. cbn [split_lines]. pose proof (split_lines_nonempty s) as Hn.
  destruct (Ascii.eqb_spec a newline) as [->|].
  - transitivity (newline_text +:+ join newline_text (split_lines s)); [by destruct (split_lines s)|by rewrite IH].
  - rewrite <- IH at 2. by destruct (split_lines s) as [|l [|l' ls]].
Qed.

Lemma node_ind' (P : node → Prop) :
  (∀ c, P (File c)) → P (Dir None) → (∀ l, Forall (λ kv, P kv.2) l → P (Dir (Some l))) → P Special → ∀ t, P t.
Proof.
  intros Hf Hn Hd Hs. fix IH 1. intros [c|[l|]|]; [apply Hf| |exact Hn|exact Hs].
  apply Hd. induction l as [|[k x] l IHl]; constructor; [apply IH|exact IHl].
Qed.

(** *** Literals *)

Lemma starts_with_split s t : starts_with s t = true → ∃ s', s = t +:+ s'.
Proof.
  revert s. induction t as [|b t IH]; intros s H; [by exists s|]. destruct s as [|a s]; [done|].
  cbn in H. apply andb_true_iff in H as [->%Ascii.eqb_eq [s' ->]%IH]. by exists s'.
Qed.

Lemma matches_literal {A} t s c (k : string → captured_text → option A) x :
  matches (literal false t) s c k = Some x → ∃ s', s = t +:+ s' ∧ k s' c = Some x.
Proof.
  revert s. induction t as [|b t IH]; intros s; cbn; [by exists s|]. destruct s as [|a s]; [done|].
  destruct (Ascii.eqb_spec b a) as [->|]; [|done]. intros (s' & -> & H)%IH. by exists s'.
Qed.

(** A match of a literal is its text. *)
Lemma match_here_literal t s n c : match_here (literal false t) s = Some (n, c) → substring 0 n s = t.
Proof.
  intros (s' & -> & [= <- _])%matches_literal. rewrite string_length_app, Nat.add_sub. clear c.
  induction t as [|b t IH]; [by destruct s'|]. exact (f_equal (String b) IH).
Qed.

(** Whatever is matched is a part of the text. *)
Lemma matches_some {A} r s c (k : string → captured_text → option A) x :
  matches r s c k = Some x → ∃ s' c', k s' c' = Some x.
Proof.
  revert A s c k x. induction r as [|p|r1 IH1 r2 IH2|r1 IH1 r2 IH2|g r IH|r IH|p|t]; intros A s c k x; cbn [matches].
  - eauto.
  - destruct s; [done|]. destruct (p _); [eauto|done].
  - intros (s' & c' & H)%IH1. eauto.
  - destruct (matches r1 s c k) eqn:E; [intros [= ->]; eauto|eauto].
  - generalize (String.length s) as n. intros n. revert s c.
    induction n as [|n IHn]; intros s c; [eauto|]. cbn zeta beta.
    match goal with |- (if g then match ?more with _ => _ end else _) = _ → _ =>
      intros H; assert (k s c = Some x ∨ more = Some x) as [Hk|Hm] by (destruct g; repeat case_match; naive_solver) end.
    + eauto.
    + apply IH in Hm as (s' & c' & Hm). destruct (_ <? _)%nat; [eauto|done].
  - intros (s' & c' & H)%IH. eauto.
  - destruct s; [eauto|]. destruct (p _); [done|eauto].
  - destruct (starts_with s t); [done|eauto].
Qed.

Lemma match_here_length r s n c : match_here r s = Some (n, c) → (n ≤ String.length s)%nat.
Proof. intros (s' & c' & [= <- _])%matches_some. lia. Qed.

(** Replacing every match by its own text changes nothing. *)
Lemma substring_whole s : substring 0 (String.length s) s = s.
Proof. induction s as [|a s IH]; [done|]. exact (f_equal (String a) IH). Qed.

Lemma replace_from_self r f past skip s :
  (∀ m s n c, match_here r s = Some (n, c) → matched m = substring 0 n s → f m = matched m) →
  (skip ≤ String.length s)%nat →
  replace_from r f past skip s = substring skip (String.length s - skip) s.
Proof.
  intros Hf. revert past skip. induction s as [|a s IH]; intros past skip Hs; [by destruct skip|].
  cbn [replace_from]. destruct skip as [|skip]; [|cbn in Hs; rewrite IH by lia; done].
  rewrite Nat.sub_0_r.
  assert (String a (replace_from r f (past +:+ String a EmptyString) 0 s) = String a s) as Hskip.
  { rewrite IH by lia. by rewrite Nat.sub_0_r, substring_whole. }
  rewrite substring_whole.
  destruct (match_here r (String a s)) as [[[|n] c]|] eqn:E; [exact Hskip| |exact Hskip].
  rewrite (Hf _ _ _ _ E) by done. pose proof (match_here_length _ _ _ _ E) as Hn. cbn in Hn.
  cbn [matched substring]. rewrite IH by lia. rewrite string_app_cons. f_equal. apply substring_split. lia.
Qed.

(** Replacing every match by its own text changes nothing. *)
Lemma replace_matches_self r f s :
  (∀ m s n c, match_here r s = Some (n, c) → matched m = substring 0 n s → f m = matched m) →
  replace_matches r f s = s.
Proof. intros Hf. unfold replace_matches. rewrite replace_from_self by (done || lia). by rewrite Nat.sub_0_r, substring_whole. Qed.

(** A text without [$] is its own replacement. *)
Lemma expand_plain m t : has_char "$" t = false → expand m t = t.
Proof.
  induction t as [|a t IH]; [done|]. cbn [has_char]. intros [Ha Ht]%orb_false_iff.
  assert (expand m (String a t) = String a (expand m t)) as ->; [|by rewrite IH].
  destruct a as [[] [] [] [] [] [] [] []]; try reflexivity. done.
Qed.

Lemma has_char_app a s t : has_char a (s +:+ t) = has_char a s || has_char a t.
Proof. induction s as [|b s IH]; [done|]. rewrite string_app_cons. cbn [has_char]. by rewrite IH, orb_assoc. Qed.
