(* ===== verification/Script.v ===== *)
(** * Programs over files and a console

    The maintenance scripts of [src/scripts/] read and write the files under the
    directory they start in, print, and run commands. A [script] is a function of that
    [Machine]: it ends with a result or an exception, and leaves the machine as it made
    it. What a command prints, and what it does to the files, is a parameter. *)

From S2P Require Import Prelude Effects Regex.
From Stdlib Require Import ZArith Ascii String.

Local Open Scope string_scope.

(** What a script does to the outside. *)
Inductive Action :=
| Printed (line : string)
| WriteFile (path : list string) (content : string)
| RunCommand (cmd : string) (cwd : list string).

(** The files, and what was done so far. *)
Record Machine := { tree : node; actions : list Action }.

Definition script (A : Type) : Type := Machine → (exn + A) * Machine.

#[global] Instance script_ret : MRet script := λ A a m, (inr a, m).
#[global] Instance script_bind : MBind script :=
  λ A B k p m, match p m with (inl e, m) => (inl e, m) | (inr a, m) => k a m end.

Definition throw {A} (e : exn) : script A := λ m, (inl e, m).

(** [for (const x of l) ...], the variables it assigns being [b]. *)
Fixpoint each {A B} (f : B → A → script B) (l : list A) (b : B) : script B :=
  match l with [] => mret b | x :: l => b ← f b x; each f l b end.

(** ** The console *)

Definition act (a : Action) : script () := λ m, (inr (), {| tree := tree m; actions := app (actions m) [a] |}).

Definition console_log (line : string) : script () := act (Printed line).

(** [console.error] of what was thrown. *)
Definition exn_text (e : exn) : string :=
  match e with
  | JsError m => "Error: " +:+ m
  | NotFoundException m => "NotFoundException: " +:+ m
  | EntityNotFoundError => "EntityNotFoundError"
  | QueryFailedError => "QueryFailedError"
  end.

(** ** Files *)

Definition existsSync (path : list string) : script bool := λ m, (inr (exists_at path (tree m)), m).

(** [fs.readFileSync]. *)
Definition readFileSync (path : list string) : script string := λ m,
  match at_path path (tree m) with
  | Some (File (Some s)) => (inr s, m)
  | _ => (inl (JsError ("cannot read " +:+ join "/" path)), m)
  end.

(** Replaces an entry, or adds it at the end. *)
Fixpoint set_entry (name : string) (t : node) (l : list (string * node)) : list (string * node) :=
  match l with
  | [] => [(name, t)]
  | (n, e) :: l => if String.eqb n name then (n, t) :: l else (n, e) :: set_entry name t l
  end.

(** The tree with a file written, when its directory is there and the path names no
    directory and nothing that cannot be read. *)
Fixpoint write_at (path : list string) (content : string) (t : node) : option node :=
  match path, t with
  | [], File (Some _) => Some (File (Some content))
  | name :: path, Dir (Some l) =>
    match entry_named name l, path with
    | Some t, _ => t' ← write_at path content t; Some (Dir (Some (set_entry name t' l)))
    | None, [] => Some (Dir (Some (set_entry name (File (Some content)) l)))
    | None, _ => None
    end
  | _, _ => None
  end.

(** [fs.writeFileSync]. *)
Definition writeFileSync (path : list string) (content : string) : script () := λ m,
  match write_at path content (tree m) with
  | Some t => (inr (), {| tree := t; actions := app (actions m) [WriteFile path content] |})
  | None => (inl (JsError ("cannot write " +:+ join "/" path)), m)
  end.

(** ** Commands *)

(** What a command does in a directory: the text [execSync] returns, or that of its
    exception, and the files after it. *)
Definition shell := string → list string → node → string * node.

Definition execSync (sh : shell) (cmd : string) (cwd : list string) : script string := λ m,
  let '(out, t) := sh cmd cwd (tree m) in
  (inr out, {| tree := t; actions := app (actions m) [RunCommand cmd cwd] |}).

(** ** Facts *)

Lemma script_bind_eq {A B} (p : script A) (k : A → script B) m :
  (p ≫= k) m = match p m with (inl e, m) => (inl e, m) | (inr a, m) => k a m end.
Proof. reflexivity. Qed.

Lemma script_bind_assoc {A B C} (p : script A) (k : A → script B) (q : B → script C) m :
  ((p ≫= k) ≫= q) m = (p ≫= λ a, k a ≫= q) m.
Proof. rewrite !script_bind_eq. by destruct (p m) as [[]]. Qed.

Lemma script_ret_bind {A B} (a : A) (k : A → script B) m : ((mret a : script A) ≫= k) m = k a m.
Proof. reflexivity. Qed.

Definition printed (a : Action) : Prop := match a with Printed _ => True | _ => False end.
Definition written (a : Action) : Prop := match a with WriteFile _ _ => True | _ => False end.

#[global] Instance printed_dec a : Decision (printed a).
Proof. destruct a; apply _. Defined.
#[global] Instance written_dec a : Decision (written a).
Proof. destruct a; apply _. Defined.

(** What was done besides printing. *)
Definition effects (l : list Action) : list Action := filter (λ a, ¬ printed a) l.

Lemma effects_app l l' : effects (app l l') = app (effects l) (effects l').
Proof. apply filter_app. Qed.

Lemma effects_printed l line : effects (app l [Printed line]) = effects l.
Proof. rewrite effects_app. apply app_nil_r. Qed.

Lemma effects_done l a : ¬ printed a → effects (app l [a]) = app (effects l) [a].
Proof. intros Ha. rewrite effects_app. unfold effects at 2. by rewrite filter_cons_True, filter_nil. Qed.

(** A script all of whose actions, however it ends, satisfy [P]. *)
Definition does (P : Action → Prop) {A} (p : script A) : Prop :=
  ∀ m, ∃ l, actions (p m).2 = app (actions m) l ∧ Forall P l.

Section Does.
Context (P : Action → Prop).

Lemma does_nothing {A} (p : script A) : (∀ m, actions (p m).2 = actions m) → does P p.
Proof. intros H m. exists []. split; [by rewrite H, app_nil_r|constructor]. Qed.

Lemma does_ret {A} (a : A) : does P (mret a : script A).
Proof. by apply does_nothing. Qed.

Lemma does_throw {A} e : does P (throw e : script A).
Proof. by apply does_nothing. Qed.

Lemma does_bind {A B} (p : script A) (k : A → script B) :
  does P p → (∀ a, does P (k a)) → does P (p ≫= k).
Proof.
  intros Hp Hk m. rewrite script_bind_eq. destruct (Hp m) as (l & Hl & Fl).
  destruct (p m) as [[e|a] m1]; [by exists l|]. destruct (Hk a m1) as (l' & -> & Fl').
  cbn in Hl. rewrite Hl. exists (app l l'). split; [by rewrite <- app_assoc|by apply Forall_app].
Qed.

Lemma does_each {A B} (f : B → A → script B) l b : (∀ b a, a ∈ l → does P (f b a)) → does P (each f l b).
Proof.
  revert b. induction l as [|x l IH]; intros b Hf; [apply does_ret|].
  apply does_bind; [apply Hf; left|]. intros b'. apply IH. intros b'' a Ha. apply Hf. by right.
Qed.

Lemma does_act a : P a → does P (act a).
Proof. intros Ha m. exists [a]. split; [done|by constructor]. Qed.

Lemma does_readFileSync path : does P (readFileSync path).
Proof. apply does_nothing. intros m. unfold readFileSync. by destruct (at_path path (tree m)) as [[[]| |]|]. Qed.

Lemma does_writeFileSync path content : P (WriteFile path content) → does P (writeFileSync path content).
Proof.
  intros Ha m. unfold writeFileSync. destruct (write_at path content (tree m)).
  - exists [WriteFile path content]. split; [done|by constructor].
  - exists []. split; [by rewrite app_nil_r|constructor].
Qed.

Lemma does_execSync sh cmd cwd : P (RunCommand cmd cwd) → does P (execSync sh cmd cwd).
Proof.
  intros Ha m. unfold execSync. destruct (sh cmd cwd (tree m)) as [out t].
  exists [RunCommand cmd cwd]. split; [done|by constructor].
Qed.
End Does.

Create HintDb script.
#[export] Hint Resolve does_ret does_throw does_bind does_act does_readFileSync does_writeFileSync does_execSync : script.

(** *** Files written are read back *)

Lemma entry_named_set name t l : entry_named name (set_entry name t l) = Some t.
Proof.
  induction l as [|[n e] l IH]; cbn; [by rewrite String.eqb_refl|].
  destruct (String.eqb n name) eqn:E; cbn; rewrite E; [done|exact IH].
Qed.

Lemma write_at_read path content t t' : write_at path content t = Some t' → at_path path t' = Some (File (Some content)).
Proof.
  revert t t'. induction path as [|name path IH]; intros t t'; cbn.
  - destruct t as [[c|]| |]; intros [= <-]. done.
  - destruct t as [|[l|]|]; try done. destruct (entry_named name l) as [e|].
    + intros (e' & He & [= <-])%bind_Some. cbn. rewrite entry_named_set. by apply (IH e).
    + destruct path; [|done]. intros [= <-]. cbn. by rewrite entry_named_set.
Qed.

Lemma write_at_some path content t c :
  at_path path t = Some (File (Some c)) → ∃ t', write_at path content t = Some t'.
Proof.
  revert t. induction path as [|name path IH]; intros t; cbn.
  - intros [= ->]. by eexists.
  - destruct t as [|[l|]|]; try done. destruct (entry_named name l) as [e|]; [|done].
    intros (t' & ->)%IH. by eexists.
Qed.

(** *** A script that has only printed *)

Definition prints (m m' : Machine) : Prop := tree m' = tree m ∧ effects (actions m') = effects (actions m).

#[global] Instance prints_preorder : PreOrder prints.
Proof. split; [done|]. intros m1 m2 m3 [H1 H2] [H3 H4]. split; congruence. Qed.

Definition after_log (line : string) (m : Machine) : Machine :=
  {| tree := tree m; actions := app (actions m) [Printed line] |}.

Lemma run_log_bind {B} line (k : () → script B) m : (console_log line ≫= k) m = k () (after_log line m).
Proof. reflexivity. Qed.

Lemma prints_log line m : prints m (after_log line m).
Proof. split; [done|]. apply effects_printed. Qed.

(** *** A script that does not throw *)

Definition completes {A} (p : script A) : Prop :=
  ∀ m, ∃ a m' l, p m = (inr a, m') ∧ effects (actions m') = app (effects (actions m)) l.

Lemma completes_neutral {A} (p : script A) : (∀ m, ∃ a, p m = (inr a, m)) → completes p.
Proof. intros H m. destruct (H m) as [a Ha]. exists a, m, []. split; [done|by rewrite app_nil_r]. Qed.

Lemma completes_ret {A} (a : A) : completes (mret a : script A).
Proof. apply completes_neutral. intros m. by exists a. Qed.

Lemma completes_bind {A B} (p : script A) (k : A → script B) :
  completes p → (∀ a, completes (k a)) → completes (p ≫= k).
Proof.
  intros Hp Hk m. destruct (Hp m) as (a & m1 & l1 & E1 & H1), (Hk a m1) as (b & m2 & l2 & E2 & H2).
  exists b, m2, (app l1 l2). rewrite script_bind_eq, E1, E2. split; [done|]. by rewrite H2, H1, app_assoc.
Qed.

Lemma completes_each {A B} (f : B → A → script B) l b : (∀ b a, completes (f b a)) → completes (each f l b).
Proof.
  intros Hf. revert b. induction l as [|x l IH]; intros b; [apply completes_ret|]. by apply completes_bind.
Qed.

Lemma completes_log line : completes (console_log line).
Proof. intros m. exists (), (after_log line m), []. split; [done|]. rewrite app_nil_r. apply effects_printed. Qed.

Lemma completes_existsSync path : completes (existsSync path).
Proof. apply completes_neutral. intros m. by eexists. Qed.

Lemma completes_execSync sh cmd cwd : completes (execSync sh cmd cwd).
Proof.
  intros m. unfold execSync. destruct (sh cmd cwd (tree m)) as [out t].
  exists out, {| tree := t; actions := app (actions m) [RunCommand cmd cwd] |}, [RunCommand cmd cwd].
  split; [done|]. apply effects_done. exact id.
Qed.

#[export] Hint Resolve completes_ret completes_log completes_existsSync completes_execSync : script.
