(* ===== verification/NightlyAudit.v ===== *)
(** * The nightly audit

    [src/scripts/nightly-audit.ts]. The audit walks the module directories, counts
    markers in their sources, reads the output of the test runner, the compiler and
    npm, and writes a report. It runs on the files under its directory ([Script]); the
    commands, which may change the files, and the clock are parameters. *)

From S2P Require Import Prelude Number NumberText Json JsonParse Effects Regex Script.
From Stdlib Require Import ZArith Ascii String.

Local Open Scope string_scope.

(** ** Data *)

Definition MODULES : list string :=
  ["01_coin_engine"; "02_nodechain_engine"; "03_token_management_layer"; "04_aros_value_circulation";
   "05_bridge_layer"; "06_governance_layer"; "07_processing_layer"; "08_fee_distribution";
   "09_crypto_ingestion_pipeline"; "10_proof_of_transaction_engine"; "11_node_security_and_payments";
   "12_nodechain_ai_agents"; "13_extra_supervisory_layer"; "14_decentralized_tx_encoding"].

Record ModuleAuditResult := {
  mod_name : string;
  mod_exists : bool;
  todoCount : nat;
  stubCount : nat;
  mockCount : nat;
  tsFiles : nat
}.

Inductive Health := HEALTHY | WARNING | CRITICAL.

(** The two counts of the npm report are whatever its JSON holds. *)
Record AuditSummary := {
  sum_date : string;
  sum_commit : string;
  sum_modules : list ModuleAuditResult;
  testsPassed : nat;
  testsFailed : nat;
  tscErrors : nat;
  secCritical : json;
  secHigh : json;
  totalTodos : nat;
  totalStubs : nat;
  overallHealth : Health
}.

(** ** Counting *)

(** [new RegExp(pattern, 'gi')]; the dot of [not.implemented] is a wildcard. *)
Definition marker (pattern : string) : regex :=
  if String.eqb pattern "not.implemented" then Seq (literal true "not") (Seq dot (literal true "implemented"))
  else literal true pattern.

Definition TODO_PATTERNS : list string := ["TODO"; "FIXME"; "HACK"; "XXX"].
Definition STUB_PATTERNS : list string := ["stub"; "placeholder"; "not.implemented"; "NOT_IMPLEMENTED"].
Definition MOCK_PATTERNS : list string := ["mock"; "fake"; "dummy"].

Definition count_in (patterns : list string) (content : string) : nat :=
  sum_list ((λ p, count (marker p) content) <$> patterns).

Definition is_source (name : string) : bool := ends_with name ".ts" || ends_with name ".js".

(** [walk] of [countMatches]. A directory that cannot be listed is skipped; a file
    that cannot be read ends the loop of its directory. *)
Fixpoint walk_matches (patterns : list string) (t : node) : nat :=
  match t with
  | Dir (Some l) =>
    (fix entries (l : list (string * node)) : nat :=
       match l with
       | [] => 0
       | (name, e) :: l =>
         match e with
         | Dir _ =>
           (if String.eqb name "node_modules" || String.eqb name "dist" then 0
            else walk_matches patterns e) + entries l
         | File c =>
           if is_source name then
             match c with Some content => count_in patterns content + entries l | None => 0 end
           else entries l
         | Special => entries l
         end
       end) l
  | _ => 0
  end.

Definition countMatches (root : node) (dir : list string) (patterns : list string) : nat :=
  match at_path dir root with Some t => walk_matches patterns t | None => 0 end.

(** [walk] of [countTsFiles]: the name decides for everything that is not walked. *)
Fixpoint walk_files (t : node) : nat :=
  match t with
  | Dir (Some l) =>
    (fix entries (l : list (string * node)) : nat :=
       match l with
       | [] => 0
       | (name, e) :: l =>
         let named := if is_source name then 1 else 0 in
         match e with
         | Dir _ => (if String.eqb name "node_modules" then named else walk_files e) + entries l
         | _ => named + entries l
         end
       end) l
  | _ => 0
  end.

Definition countTsFiles (root : node) (dir : list string) : nat :=
  match at_path dir root with Some t => walk_files t | None => 0 end.

Definition auditModule (root : node) (name : string) : ModuleAuditResult :=
  if exists_at [name] root then
    let allMocks := countMatches root [name] MOCK_PATTERNS in
    let testMocks := countMatches root [name; "__tests__"] MOCK_PATTERNS in
    {| mod_name := name; mod_exists := true;
       todoCount := countMatches root [name] TODO_PATTERNS;
       stubCount := countMatches root [name] STUB_PATTERNS;
       mockCount := allMocks - testMocks;
       tsFiles := countTsFiles root [name] |}
  else {| mod_name := name; mod_exists := false; todoCount := 0; stubCount := 0; mockCount := 0; tsFiles := 0 |}.

(** ** The tools *)

(** The tests an output reports as passed and as failed. *)
Definition tests_in (output : string) : nat * nat :=
  (count (Alt (literal false "✓") (Alt (literal false "PASS ") (literal false "passed"))) output,
   count (Alt (literal false "✗") (Alt (literal false "FAIL ") (literal false "failed"))) output).

Definition errors_in (output : string) : nat := count (literal false "error TS") output.

(** [v ?? 0]. *)
Definition or_zero (v : option json) : json :=
  match v with None | Some JNull => JNum Number.zero | Some v => v end.

(** A count of the npm report, [parsed] being what [JSON.parse] made of it. *)
Definition severity (k : string) (parsed : option json) : json :=
  match parsed with
  | None => JNum Number.zero
  | Some report =>
    match property "metadata" report with
    | Some metadata => match property "vulnerabilities" metadata with
                       | Some found => or_zero (property k found)
                       | None => JNum Number.zero
                       end
    | None => JNum Number.zero
    end
  end.

Definition vulnerabilities_in (auditOutput : string) : json * json :=
  let parsed := JSON_parse auditOutput in
  (severity "critical" parsed, severity "high" parsed).

(** [v > 0] on a value of the report. *)
Definition positive (v : json) : bool := num_ltb Number.zero (json_to_num v).

(** ** The verdict *)

Definition criticalCount (failed errors : nat) (critical : json) : nat :=
  (if (0 <? failed)%nat then 1 else 0) + (if (0 <? errors)%nat then 1 else 0) + (if positive critical then 1 else 0).

Definition health (failed errors : nat) (critical : json) : Health :=
  let n := criticalCount failed errors critical in
  if (n =? 0)%nat then HEALTHY else if (n <=? 1)%nat then WARNING else CRITICAL.

(** The summary of what was found. *)
Definition summarise (date commit : string) (modules : list ModuleAuditResult) (tests : nat * nat) (errors : nat)
  (found : json * json) : AuditSummary :=
  {| sum_date := date; sum_commit := commit; sum_modules := modules; testsPassed := tests.1;
     testsFailed := tests.2; tscErrors := errors; secCritical := found.1; secHigh := found.2;
     totalTodos := sum_list (todoCount <$> modules); totalStubs := sum_list (stubCount <$> modules);
     overallHealth := health tests.2 errors found.1 |}.

(** ** The report *)

Definition nat_text (n : nat) : string := string_of_Z (Z.of_nat n).

Definition health_text (h : Health) : string :=
  match h with HEALTHY => "✅ HEALTHY" | WARNING => "⚠️ WARNING" | CRITICAL => "❌ CRITICAL" end.

Definition module_row (m : ModuleAuditResult) : string :=
  "| " +:+ mod_name m +:+ " | " +:+ (if mod_exists m then "✅" else "❌") +:+ " | " +:+ nat_text (todoCount m) +:+
  " | " +:+ nat_text (stubCount m) +:+ " | " +:+ nat_text (mockCount m) +:+ " | " +:+ nat_text (tsFiles m) +:+ " |".

Definition bad_count (mark : string) (bad : bool) (text : string) : string :=
  if bad then mark +:+ " " +:+ text else "✅ 0".

Definition when (b : bool) (s : string) : string := if b then s else EmptyString.

Definition report_lines (s : AuditSummary) : list string :=
  ["# Nightly Audit Report — AST-Aros-Financial-Paradigm"; EmptyString;
   "**Date:** " +:+ sum_date s; "**Commit:** `" +:+ sum_commit s +:+ "`";
   "**Overall Health:** " +:+ health_text (overallHealth s); EmptyString; "---"; EmptyString;
   "## Module Coverage (14 modules)"; EmptyString;
   "| Module | Exists | TODOs | Stubs | Mocks | TS Files |";
   "|--------|--------|-------|-------|-------|----------|";
   join newline_text (module_row <$> sum_modules s); EmptyString;
   "**Totals:** TODOs: **" +:+ nat_text (totalTodos s) +:+ "** | Stubs: **" +:+ nat_text (totalStubs s) +:+ "**";
   EmptyString; "---"; EmptyString; "## Test Suite"; EmptyString; "| Metric | Value |"; "|--------|-------|";
   "| Tests passed | ✅ " +:+ nat_text (testsPassed s) +:+ " |";
   "| Tests failed | " +:+ bad_count "❌" (0 <? testsFailed s)%nat (nat_text (testsFailed s)) +:+ " |";
   EmptyString; "---"; EmptyString; "## TypeScript"; EmptyString; "| Metric | Value |"; "|--------|-------|";
   "| Type errors | " +:+ bad_count "❌" (0 <? tscErrors s)%nat (nat_text (tscErrors s)) +:+ " |";
   EmptyString; "---"; EmptyString; "## Security (npm audit)"; EmptyString;
   "| Severity | Count |"; "|----------|-------|";
   "| Critical | " +:+ bad_count "🔴" (positive (secCritical s)) (json_to_text (secCritical s)) +:+ " |";
   "| High | " +:+ bad_count "🟠" (positive (secHigh s)) (json_to_text (secHigh s)) +:+ " |";
   EmptyString; "---"; EmptyString; "## Action Items"; EmptyString;
   when (0 <? testsFailed s)%nat ("- ❌ Fix " +:+ nat_text (testsFailed s) +:+ " failing test(s)");
   when (0 <? tscErrors s)%nat ("- ❌ Fix " +:+ nat_text (tscErrors s) +:+ " TypeScript error(s)");
   when (positive (secCritical s))
     ("- 🔴 Address " +:+ json_to_text (secCritical s) +:+ " critical security vulnerability(ies)");
   when (20 <? totalTodos s)%nat ("- ⚠️ " +:+ nat_text (totalTodos s) +:+ " TODOs in code — consider triaging");
   when (match overallHealth s with HEALTHY => true | _ => false end)
     "✅ All systems nominal. No critical issues found.";
   EmptyString; "---"; "*Auto-generated by nightly-audit.ts · " +:+ sum_date s +:+ "*"; EmptyString].

Definition generateReport (s : AuditSummary) : string := join newline_text (report_lines s).

(** ** [main] *)

Definition rule : string := join EmptyString (replicate 60 "=").

(** The line printed for a module. *)
Definition module_line (m : ModuleAuditResult) : string :=
  "  " +:+ mod_name m +:+ ": " +:+
  (if mod_exists m then "✅ (" +:+ nat_text (tsFiles m) +:+ " files, " +:+ nat_text (todoCount m) +:+ " TODOs)"
   else "❌ MISSING").

Definition health_name (h : Health) : string :=
  match h with HEALTHY => "HEALTHY" | WARNING => "WARNING" | CRITICAL => "CRITICAL" end.

(** The part of an ISO timestamp before its [T]. *)
Fixpoint day_of (iso : string) : string :=
  match iso with
  | EmptyString => EmptyString
  | String c iso => if Ascii.eqb c "T" then EmptyString else String c (day_of iso)
  end.

Section Main.
(** [process.cwd()], the commands, and the two readings of the clock. *)
Context (ROOT : string) (sh : shell) (started now : string).

Definition REPORT_FILE : list string := ["NIGHTLY_AUDIT_REPORT.md"].

(** [run]: what a command prints, whether it succeeds or fails. *)
Definition run (cmd : string) : script string := execSync sh cmd [].

Definition runTests : script (nat * nat) :=
  console_log "  Running test suite...";;
  output ← run "npm test";
  mret (tests_in output).

Definition runTypeCheck : script nat :=
  console_log "  Running TypeScript type check...";;
  output ← run "npx tsc --noEmit";
  mret (errors_in output).

Definition runSecurityAudit : script (json * json) :=
  console_log "  Running npm security audit...";;
  output ← run "npm audit --json";
  run "npm audit";;
  mret (vulnerabilities_in output).

(** The audit of a module, and its line. *)
Definition audit_step (acc : list ModuleAuditResult) (name : string) : script (list ModuleAuditResult) := λ m,
  let result := auditModule (tree m) name in
  (console_log (module_line result);; mret (app acc [result])) m.

Definition audit_modules : script (list ModuleAuditResult) := each audit_step MODULES [].

(** [main] up to the report. *)
Definition gather : script AuditSummary :=
  console_log rule;;
  console_log "AST Nightly Audit — nightly-audit.ts";;
  console_log ("Started: " +:+ started);;
  console_log rule;;
  let date := day_of now in
  commit ← run "git rev-parse --short HEAD";
  console_log (newline_text +:+ "[1/4] Auditing 14 modules...");;
  modules ← audit_modules;
  console_log (newline_text +:+ "[2/4] Running test suite...");;
  tests ← runTests;
  console_log ("  Passed: " +:+ nat_text tests.1 +:+ " | Failed: " +:+ nat_text tests.2);;
  console_log (newline_text +:+ "[3/4] TypeScript check...");;
  errors ← runTypeCheck;
  console_log ("  Errors: " +:+ nat_text errors);;
  console_log (newline_text +:+ "[4/4] Security audit...");;
  found ← runSecurityAudit;
  console_log ("  Critical: " +:+ json_to_text found.1 +:+ " | High: " +:+ json_to_text found.2);;
  mret (summarise date (trim commit) modules tests errors found).

(** The exit code of [main] when it ends without an exception. *)
Definition main : script Z :=
  summary ← gather;
  writeFileSync REPORT_FILE (generateReport summary);;
  console_log (newline_text +:+ rule);;
  console_log ("Overall Health: " +:+ health_name (overallHealth summary));;
  console_log ("Report written to: " +:+ ROOT +:+ "/NIGHTLY_AUDIT_REPORT.md");;
  console_log rule;;
  mret (match overallHealth summary with CRITICAL => 1%Z | _ => 0%Z end).

(** [main().catch(...)]: the exit code, and what was done. *)
Definition nightly_audit (m : Machine) : Z * Machine :=
  match main m with
  | (inr code, m) => (code, m)
  | (inl e, m) => (1%Z, (console_log ("nightly-audit.ts fatal error: " +:+ exn_text e) m).2)
  end.

(** *** What the commands print, and the files after them *)

Record Outputs := {
  out_commit : string; out_tests : string; out_tsc : string; out_audit : string;
  audited : node; left : node
}.

Definition outputs (t : node) : Outputs :=
  let '(commit, t1) := sh "git rev-parse --short HEAD" [] t in
  let '(tests, t2) := sh "npm test" [] t1 in
  let '(tsc, t3) := sh "npx tsc --noEmit" [] t2 in
  let '(audit, t4) := sh "npm audit --json" [] t3 in
  let '(_, t5) := sh "npm audit" [] t4 in
  {| out_commit := commit; out_tests := tests; out_tsc := tsc; out_audit := audit; audited := t1; left := t5 |}.

(** The summary these outputs and files call for. *)
Definition summary_of (o : Outputs) : AuditSummary :=
  summarise (day_of now) (trim (out_commit o)) (auditModule (audited o) <$> MODULES)
    (tests_in (out_tests o)) (errors_in (out_tsc o)) (vulnerabilities_in (out_audit o)).
End Main.

(** ** Facts *)

(** The entries of a listed directory, one after the other. *)
Definition entry_matches (patterns : list string) (kv : string * node) : nat :=
  match kv.2 with
  | Dir _ => if String.eqb kv.1 "node_modules" || String.eqb kv.1 "dist" then 0 else walk_matches patterns kv.2
  | File (Some content) => if is_source kv.1 then count_in patterns content else 0
  | _ => 0
  end.

(** Every source file listed here can be read. *)
Definition listed_readable (l : list (string * node)) : Prop :=
  Forall (λ kv, is_source kv.1 = true → kv.2 ≠ File None) l.

Lemma walk_matches_sum patterns l :
  listed_readable l → walk_matches patterns (Dir (Some l)) = sum_list (entry_matches patterns <$> l).
Proof.
  unfold listed_readable. induction 1 as [|[name e] l He _ IH]; [done|]. cbn [snd fst] in He.
  destruct e as [[c|]|es|]; cbn in *; try (by rewrite IH).
  - destruct (is_source name); by rewrite IH.
  - destruct (is_source name); [by destruct He|]. by rewrite IH.
Qed.

Lemma entry_named_elem name l t : entry_named name l = Some t → (name, t) ∈ l.
Proof.
  induction l as [|[n e] l IH]; [done|]. cbn. destruct (String.eqb_spec n name) as [->|]; intros H.
  - injection H as ->. left.
  - right. auto.
Qed.

(** The count of one entry apart from the others. *)
Lemma sum_entries_split patterns name l :
  NoDup (l.*1) →
  sum_list (entry_matches patterns <$> l) =
  match entry_named name l with Some t => entry_matches patterns (name, t) | None => 0 end +
  sum_list (entry_matches patterns <$> filter (λ kv, kv.1 ≠ name) l).
Proof.
  induction l as [|[n e] l IH]; [done|]. cbn [fmap list_fmap fst]. intros [Hn Hd]%NoDup_cons.
  cbn [entry_named]. rewrite filter_cons. cbn [fst]. destruct (String.eqb_spec n name) as [->|Hne].
  - rewrite decide_False by tauto. cbn. rewrite IH by done.
    destruct (entry_named name l) as [t|] eqn:E; [|lia].
    apply entry_named_elem, (list_elem_of_fmap_2 fst) in E. done.
  - rewrite decide_True by done. cbn. rewrite IH by done. lia.
Qed.

Lemma at_path_app p q t : at_path (p ++ q) t = match at_path p t with Some t => at_path q t | None => None end.
Proof.
  revert t. induction p as [|name p IH]; intros t; [done|]. cbn. destruct t as [|[l|]|]; try done.
  destruct (entry_named name l); [apply IH|done].
Qed.

(** ** Properties *)

(** Mocks: for a module whose source files at the top can be read, the count of
    the report is the count over the module without the [__tests__] directory at
    its top; tests anywhere else count as mocks. *)
Theorem mockCount_excludes_top_tests root name l :
  at_path [name] root = Some (Dir (Some l)) → NoDup (l.*1) → listed_readable l →
  mockCount (auditModule root name) = walk_matches MOCK_PATTERNS (Dir (Some (filter (λ kv, kv.1 ≠ "__tests__") l))).
Proof.
  intros Hat Hnd Hr. unfold auditModule, exists_at, countMatches. rewrite Hat. cbn [mockCount].
  change ([name; "__tests__"]) with (app [name] ["__tests__"]). rewrite at_path_app, Hat. cbn [at_path].
  rewrite !walk_matches_sum; [|apply Forall_forall; intros kv [_ Hin]%list_elem_of_filter; by apply (proj1 (Forall_forall _ _) Hr)|done].
  rewrite (sum_entries_split _ "__tests__") by done.
  destruct (entry_named "__tests__" l) as [[[c|]|es|]|] eqn:E; cbn; lia.
Qed.

Lemma run_audit_steps l acc m :
  ∃ m', each audit_step l acc m = (inr (app acc (auditModule (tree m) <$> l)), m') ∧ prints m m'.
Proof.
  revert acc m. induction l as [|name l IH]; intros acc m; cbn [each].
  - exists m. split; [by rewrite app_nil_r|reflexivity].
  - destruct (IH (app acc [auditModule (tree m) name]) (after_log (module_line (auditModule (tree m) name)) m)) as (m' & E & H).
    exists m'. rewrite script_bind_eq. change (audit_step acc name m) with
      (inr (A := exn) (app acc [auditModule (tree m) name]), after_log (module_line (auditModule (tree m) name)) m).
    cbn iota beta. rewrite E. split; [by rewrite <- app_assoc|]. etransitivity; [apply prints_log|exact H].
Qed.

Lemma run_audit_modules m :
  ∃ m', audit_modules m = (inr (auditModule (tree m) <$> MODULES), m') ∧ prints m m'.
Proof. apply run_audit_steps. Qed.

Lemma health_spec failed errors critical :
  (health failed errors critical = HEALTHY ↔ failed = 0 ∧ errors = 0 ∧ positive critical = false) ∧
  (health failed errors critical = CRITICAL ↔
     (0 < failed ∧ 0 < errors) ∨ (0 < failed ∧ positive critical = true) ∨ (0 < errors ∧ positive critical = true)).
Proof.
  unfold health, criticalCount. cbn zeta. generalize (positive critical) as c. intros c.
  destruct (Nat.ltb_spec 0 failed), (Nat.ltb_spec 0 errors), c; cbn; intuition (discriminate || lia || auto).
Qed.

Section Verdict.
Context (ROOT : string) (sh : shell) (started now : string).

(** The commands an audit runs. *)
Definition audit_commands : list Action :=
  (λ cmd, RunCommand cmd []) <$>
    ["git rev-parse --short HEAD"; "npm test"; "npx tsc --noEmit"; "npm audit --json"; "npm audit"].

Lemma run_command_bind {B} cmd (k : string → script B) m :
  (run sh cmd ≫= k) m = k (sh cmd [] (tree m)).1
    {| tree := (sh cmd [] (tree m)).2; actions := app (actions m) [RunCommand cmd []] |}.
Proof. rewrite script_bind_eq. unfold run, execSync. by destruct (sh cmd [] (tree m)). Qed.

Lemma effects_command l cmd : effects (app l [RunCommand cmd []]) = app (effects l) [RunCommand cmd []].
Proof. apply effects_done. exact id. Qed.

(** Gathering never fails, and does nothing but print and run its commands. *)
Lemma run_gather m :
  ∃ m', gather sh started now m = (inr (summary_of now (outputs sh (tree m))), m') ∧
    tree m' = left (outputs sh (tree m)) ∧ effects (actions m') = app (effects (actions m)) audit_commands.
Proof.
  unfold gather, outputs. cbn zeta. rewrite !run_log_bind, run_command_bind, run_log_bind. cbn [tree actions after_log].
  destruct (sh "git rev-parse --short HEAD" [] (tree m)) as [commit t1]. cbn [fst snd].
  match goal with |- context [(audit_modules ≫= _) ?x] => destruct (run_audit_modules x) as (m1 & E1 & [T1 A1]) end.
  rewrite script_bind_eq, E1. cbn [tree actions after_log] in *. rewrite run_log_bind.
  unfold runTests. rewrite script_bind_assoc, run_log_bind, script_bind_assoc, run_command_bind.
  cbn [tree actions after_log]. rewrite T1.
  destruct (sh "npm test" [] t1) as [tests t2]. cbn [fst snd]. rewrite script_ret_bind, !run_log_bind.
  unfold runTypeCheck. rewrite script_bind_assoc, run_log_bind, script_bind_assoc, run_command_bind.
  cbn [tree actions after_log]. destruct (sh "npx tsc --noEmit" [] t2) as [tsc t3]. cbn [fst snd].
  rewrite script_ret_bind, !run_log_bind.
  unfold runSecurityAudit. rewrite script_bind_assoc, run_log_bind, script_bind_assoc, run_command_bind.
  cbn [tree actions after_log]. destruct (sh "npm audit --json" [] t3) as [audit t4]. cbn [fst snd].
  rewrite script_bind_assoc, run_command_bind. cbn [tree actions].
  destruct (sh "npm audit" [] t4) as [full t5]. cbn [fst snd]. rewrite script_ret_bind, run_log_bind.
  eexists. split; [reflexivity|]. split; [reflexivity|]. cbn [actions after_log].
  repeat first [rewrite effects_printed | rewrite effects_command].
  rewrite A1. repeat first [rewrite effects_printed | rewrite effects_command].
  by rewrite <- !app_assoc.
Qed.

(** C39. The verdict of the audit, its report and its exit code. Of what the tests, the
    compiler and npm print, on the files each leaves to the next: the audit is healthy
    exactly when no test failed, no type error is left and no critical vulnerability is
    known, and critical exactly when at least two of the three fail; neither the module
    counts nor the high vulnerabilities enter. It does nothing to the outside but run
    its five commands and write the report of that summary; it exits with 1 exactly when
    it is critical or cannot write its report. *)
Theorem audit_verdict m :
  let out := outputs sh (tree m) in
  let s := summary_of now out in
  let written := write_at REPORT_FILE (generateReport s) (left out) in
  let r := nightly_audit ROOT sh started now m in
  (overallHealth s = HEALTHY ↔
     (tests_in (out_tests out)).2 = 0 ∧ errors_in (out_tsc out) = 0 ∧
     positive (vulnerabilities_in (out_audit out)).1 = false) ∧
  (overallHealth s = CRITICAL ↔
     (0 < (tests_in (out_tests out)).2 ∧ 0 < errors_in (out_tsc out)) ∨
     (0 < (tests_in (out_tests out)).2 ∧ positive (vulnerabilities_in (out_audit out)).1 = true) ∨
     (0 < errors_in (out_tsc out) ∧ positive (vulnerabilities_in (out_audit out)).1 = true)) ∧
  (r.1 = 1%Z ↔ overallHealth s = CRITICAL ∨ written = None) ∧
  effects (actions r.2) = app (effects (actions m)) (app audit_commands
    match written with Some _ => [WriteFile REPORT_FILE (generateReport s)] | None => [] end) ∧
  tree r.2 = default (left out) written.
Proof.
  cbn zeta. destruct (run_gather m) as (m1 & E1 & T1 & A1).
  generalize (health_spec (tests_in (out_tests (outputs sh (tree m)))).2 (errors_in (out_tsc (outputs sh (tree m))))
    (vulnerabilities_in (out_audit (outputs sh (tree m)))).1). intros [H1 H2].
  split; [exact H1|]. split; [exact H2|]. unfold nightly_audit, main.
  rewrite script_bind_eq, E1, script_bind_eq. unfold writeFileSync. rewrite T1.
  destruct (write_at REPORT_FILE _ _) as [t|]; cbn [default].
  - rewrite !run_log_bind. unfold mret, script_ret. cbn [fst snd actions tree after_log].
    rewrite !effects_printed, effects_done, A1 by exact id. rewrite <- app_assoc. split_and!; [|done|done].
    destruct (overallHealth _); naive_solver.
  - unfold console_log, act. cbn [fst snd actions tree]. rewrite effects_printed, A1, app_nil_r. split_and!; [naive_solver|done|exact T1].
Qed.
End Verdict.

(** ** Witnesses *)

(** Tests that fail, types that do not check, and a directory in the report's place. *)
Definition failing_shell : shell := λ cmd _ t,
  (if String.eqb cmd "npm test" then "FAIL tests/a.spec.ts"
   else if String.eqb cmd "npx tsc --noEmit" then "src/a.ts(1,2): error TS2304" else EmptyString, t).
Definition healthy_shell : shell := λ _ _ t, (EmptyString, t).

Example critical_exits_1 :
  (nightly_audit "/app" failing_shell "now" "2026-01-01T00:00" {| tree := Dir (Some []); actions := [] |}).1 = 1%Z.
Proof. vm_compute. reflexivity. Qed.

Example healthy_exits_0 :
  (nightly_audit "/app" healthy_shell "now" "2026-01-01T00:00" {| tree := Dir (Some []); actions := [] |}).1 = 0%Z.
Proof. vm_compute. reflexivity. Qed.

Example unwritten_report_exits_1 :
  (nightly_audit "/app" healthy_shell "now" "2026-01-01T00:00"
     {| tree := Dir (Some [("NIGHTLY_AUDIT_REPORT.md", Dir (Some []))]); actions := [] |}).1 = 1%Z.
Proof. vm_compute. reflexivity. Qed.

Definition sample_module : list (string * node) :=
  [("engine.ts", File (Some "const m = mockChain();"));
   ("__tests__", Dir (Some [("engine.spec.ts", File (Some "mock fake"))]))].

Lemma mockCount_excludes_top_tests_witness :
  mockCount (auditModule (Dir (Some [("02_nodechain_engine", Dir (Some sample_module))])) "02_nodechain_engine") = 1.
Proof.
  rewrite (mockCount_excludes_top_tests _ _ sample_module).
  - vm_compute. reflexivity.
  - reflexivity.
  - apply (bool_decide_unpack _). vm_compute. exact I.
  - repeat constructor; discriminate.
Defined.

(** The marker [NOT_IMPLEMENTED] is counted by two of the four stub patterns. *)
Lemma not_implemented_counted_twice : count_in STUB_PATTERNS "NOT_IMPLEMENTED" = 2.
Proof. vm_compute. reflexivity. Qed.

(** A test file outside the top-level [__tests__] counts as a mock. *)
Lemma nested_test_counts_as_mock :
  mockCount (auditModule (Dir (Some [("02_nodechain_engine",
    Dir (Some [("chain.spec.ts", File (Some "mock"))]))])) "02_nodechain_engine") = 1.
Proof. vm_compute. reflexivity. Qed.
