(* ===== verification/FixCi.v ===== *)
(** * The CI repair script

    [src/scripts/fix-ci.ts]. The script classifies a CI log, tries the known fixes
    in order and escalates when none applies. It runs on the files under its
    directory ([Script]); the commands and the clock are parameters.

    The commands [npm run fix:ci] and [npx ts-node scripts/fix-ci.ts] type-check the
    file first, and it does not type-check: eight calls of the function [log] stand
    where a parameter of that name, a text, hides it. [launch] is what these commands
    do; [main] is the script's body, which runs only where nothing checks its types
    ([ts-node --transpile-only], [tsx]). *)

From Stdlib Require Import ZArith Ascii String.
From S2P Require Import Prelude Number NumberText Json JsonParse Effects Regex Script.

Local Open Scope string_scope.

(** ** Data *)

Record Options := {
  LOG_FILE : string;
  ERROR_SUMMARY : string;
  RUN_ID : string;
  ATTEMPT : number;
  DRY_RUN : bool
}.

Record CIAnalysis := {
  failedStep : string;
  errorType : string;
  patterns : list string;
  rawErrors : list string
}.

Record FixResult := { applied : bool; description : string; details : option string }.

(** *** The command line *)

(** [getArg]: what follows the first occurrence of a flag. *)
Fixpoint getArg (flag : string) (args : list string) : option string :=
  match args with
  | [] => None
  | a :: rest => if String.eqb a flag then head rest else getArg flag rest
  end.

(** [parseInt(s, 10)]. *)
Definition parseInt (s : string) : number :=
  let s := trim_left s in
  let '(negative, s) := match s with
                        | String "-" s => (true, s)
                        | String "+" s => (false, s)
                        | _ => (false, s)
                        end in
  let '(v, count, _) := take_digits 10 0 0 s in
  if (count =? 0)%Z then nan else if negative then SpecFloat.SFopp (of_Z v) else of_Z v.

Definition options_of (args : list string) : Options := {|
  LOG_FILE := default "full_ci_log.txt" (getArg "--log-file" args);
  ERROR_SUMMARY := default EmptyString (getArg "--error-summary" args);
  RUN_ID := default "local" (getArg "--run-id" args);
  ATTEMPT := parseInt (default "0" (getArg "--attempt" args));
  DRY_RUN := bool_decide ("--dry-run" ∈ args) |}.

(** *** Paths *)

(** A path's segments. *)
Fixpoint path_segments (current : string) (s : string) : list string :=
  match s with
  | EmptyString => [current]
  | String "/" s => current :: path_segments EmptyString s
  | String c s => path_segments (current +:+ String c EmptyString) s
  end.

(** [path.normalize] of a relative path; [None] when it leaves the directory. *)
Fixpoint normalize_from (past : list string) (l : list string) : option (list string) :=
  match l with
  | [] => Some (reverse past)
  | s :: l =>
    if String.eqb s EmptyString || String.eqb s "." then normalize_from past l
    else if String.eqb s ".." then match past with [] => None | _ :: past => normalize_from past l end
    else normalize_from (s :: past) l
  end.

Definition relative_path (s : string) : option (list string) := normalize_from [] (path_segments EmptyString s).

(** Where a path leads, from the directory the script runs in. The files outside of
    it are not there. *)
Definition locate (ROOT p : string) : option (list string) :=
  if starts_with p "/" then
    if starts_with p (ROOT +:+ "/") then relative_path (substring (String.length ROOT + 1) (String.length p) p) else None
  else relative_path p.

(** ** The log *)

Definition is_blank (a : ascii) : bool := is_space a.

(** The two patterns that name the failed step. *)
Definition step_annotation : regex :=
  Seq (literal true "##[error]") (Seq (Star false dot) (Seq (literal true "step:")
    (Seq (Star true (Chr is_blank)) (Group (plus dot))))).
Definition step_run : regex :=
  Seq (literal true "Run ") (Seq (Group (lazy_plus dot)) (Seq (chr true newline)
    (Seq (Star false any_char) (literal true "error")))).

Definition find_step (log : string) : string :=
  match exec step_annotation log with
  | Some (_, Some s) => trim s
  | _ => match exec step_run log with Some (_, Some s) => trim s | _ => "unknown" end
  end.

Definition test_failure : regex := Alt (literal false "● ") (Alt (literal false "FAIL ") (literal false "✗ ")).

(** One detector of [analyzeLog]: the label it adds, the type it proposes, the
    lines it keeps, when it fires. *)
Definition detected (fires : bool) (label type : string) (errors : list string) (a : CIAnalysis) : CIAnalysis :=
  if fires then
    {| failedStep := failedStep a;
       errorType := if String.eqb (errorType a) "unknown" then type else errorType a;
       patterns := app (patterns a) [label]; rawErrors := app (rawErrors a) errors |}
  else a.

Definition some_line (l : list string) : bool := match l with [] => false | _ => true end.

Definition analyzeLog (log : string) : CIAnalysis :=
  let lines := split_lines log in
  let tsErrors := filter (λ l, includes l "error TS" = true) lines in
  let testFailLines := filter (λ l, test test_failure l = true) lines in
  let moduleErrors := filter (λ l, includes l "Cannot find module" = true) lines in
  let a := {| failedStep := find_step log; errorType := "unknown"; patterns := []; rawErrors := [] |} in
  let a := detected (some_line tsErrors) "typescript-error" "TypeScript" (take 10 tsErrors) a in
  let a := detected (some_line testFailLines) "test-failure" "Test" (take 10 testFailLines) a in
  let a := detected (some_line moduleErrors) "missing-module" "Import" (take 5 moduleErrors) a in
  let a := detected (includes log "Build failed" || includes log "npm ERR!") "build-failure" "Build" [] a in
  let a := detected (includes log "cd contracts" && includes log "No such file") "wrong-workdir" "Workflow" [] a in
  detected (includes log "HardhatError" || includes log "hardhat") "hardhat-error" "Hardhat" [] a.

Section FixCi.
(** [process.cwd()], the command line, the commands, and the time. *)
Context (ROOT : string) (o : Options) (sh : shell) (timestamp : string).

Definition log : string → script () := console_log.

(** [run]: a dry run prints the command instead. *)
Definition run (cmd : string) (cwd : list string) : script string :=
  if DRY_RUN o then console_log ("[DRY RUN] " +:+ cmd);; mret EmptyString
  else execSync sh cmd cwd.

(** [fs.existsSync], with the path when there is something. *)
Definition find_path (p : string) : script (option (list string)) :=
  match locate ROOT p with
  | None => mret None
  | Some path => found ← existsSync path; mret (if found : bool then Some path else None)
  end.

Definition readLog : script string :=
  found ← find_path (LOG_FILE o);
  match found with Some path => readFileSync path | None => mret (ERROR_SUMMARY o) end.

(** The path of a file as [path.join] prints it. *)
Definition full_path (path : list string) : string := ROOT +:+ "/" +:+ join "/" path.

(** [findFiles]: the files whose name fits, directory by directory; hidden ones,
    dependencies and build output are not entered, nor is what cannot be listed. *)
Fixpoint walk (fits : string → bool) (t : node) : list (list string) :=
  match t with
  | Dir (Some l) =>
    (fix entries (l : list (string * node)) : list (list string) :=
       match l with
       | [] => []
       | (name, e) :: l =>
         app match e with
             | Dir _ =>
               if starts_with name "." || String.eqb name "node_modules" || String.eqb name "dist" then []
               else cons name <$> walk fits e
             | File _ => if fits name then [[name]] else []
             | Special => []
             end (entries l)
       end) l
  | _ => []
  end.

Definition findFiles (fits : string → bool) (dir : list string) : script (list (list string)) := λ m,
  (inr (app dir <$> match at_path dir (tree m) with Some t => walk fits t | None => [] end), m).

(** ** The known fixes *)

Record FailurePattern := {
  fix_name : string;
  detect : string → bool;
  fix_it : string → script FixResult
}.

(** In the first three fixes the parameter [log] hides the function of that name:
    each statement [log(...)] calls the text of the log, which is no function. Their
    bodies take what such a statement does. *)
Definition log_is_no_function : exn := JsError "log is not a function".
Definition hidden_log (_ : string) : script () := throw log_is_no_function.

Definition result (fixed : bool) (what : string) (details : string) : script FixResult :=
  mret {| applied := fixed; description := what; details := Some details |}.

Definition refuse (why : string) : script FixResult :=
  mret {| applied := false; description := why; details := None |}.

(** [if (!DRY_RUN) fs.writeFileSync(...)]. *)
Definition write_unless_dry (path : list string) (content : string) : script () :=
  if DRY_RUN o then mret () else writeFileSync path content.

(** *** 1. Cannot find module *)

Definition missing_module : regex :=
  Seq (literal false "Cannot find module '") (Seq (Group (plus (Chr (λ a, negb (Ascii.eqb a "'"))))) (literal false "'")).

(** [[...new Set(l)]]. *)
Fixpoint unique_from (seen l : list string) : list string :=
  match l with
  | [] => []
  | x :: l => if decide (x ∈ seen) then unique_from seen l else x :: unique_from (x :: seen) l
  end.

Definition missing_modules (text : string) : list string :=
  unique_from [] (omap snd (match_all missing_module text)).

(** The pattern is the module's name with its special characters escaped, which
    matches the name; the replacement is a text in which [$] is special. *)
Definition correct_import (modu content : string) : string :=
  let import := "from '" +:+ modu +:+ "'" in
  replace_matches (literal false import) (λ m, expand m import) content.

Definition import_of (file : list string) (modu : string) (acc : bool * list string) : script (bool * list string) :=
  content ← readFileSync file;
  if includes content modu then
    let correctedContent := correct_import modu content in
    if String.eqb correctedContent content then mret acc
    else write_unless_dry file correctedContent;;
         mret (true, app acc.2 [full_path file +:+ ": corrected import '" +:+ modu +:+ "'"])
  else mret acc.

(** The names every object inherits: reading one of them gives a function or an
    object. *)
Definition inherited : list string :=
  ["constructor"; "__defineGetter__"; "__defineSetter__"; "hasOwnProperty"; "__lookupGetter__"; "__lookupSetter__";
   "isPrototypeOf"; "propertyIsEnumerable"; "toString"; "valueOf"; "__proto__"; "toLocaleString"].

(** [{ ...pkg.dependencies, ...pkg.devDependencies }[modu]] as a condition; the two
    tables are objects or absent. *)
Definition depended (pkg : json) (modu : string) : bool :=
  let own k := match property k pkg with Some deps => property modu deps | None => None end in
  match own "devDependencies", own "dependencies" with
  | Some v, _ | None, Some v => truthy (Some v)
  | None, None => bool_decide (modu ∈ inherited)
  end.

Definition parse_package (text : string) : script json :=
  match JSON_parse text with
  | None => throw (JsError "SyntaxError")
  | Some JNull => throw (JsError "cannot read properties of null")
  | Some pkg => mret pkg
  end.

Definition fix_module (call : string → script ()) (acc : bool * list string) (modu : string)
  : script (bool * list string) :=
  acc ← (if starts_with modu "." || starts_with modu "@/" then
           tsFiles ← findFiles (λ name, ends_with name ".ts") ["src"];
           each (λ acc file, import_of file modu acc) tsFiles acc
         else mret acc);
  text ← readFileSync ["package.json"];
  pkg ← parse_package text;
  if negb (depended pkg modu) && negb (starts_with modu ".") then
    call ("Installing missing package: " +:+ modu);;
    run ("npm install " +:+ modu +:+ " --save 2>&1") [];;
    mret (true, app acc.2 ["Installed missing package: " +:+ modu])
  else mret acc.

Definition missing_module_body (call : string → script ()) (text : string) : script FixResult :=
  call "Detected: Cannot find module — scanning for broken imports...";;
  let uniqueModules := missing_modules text in
  call ("Missing modules: " +:+ join ", " uniqueModules);;
  acc ← each (fix_module call) uniqueModules (false, []);
  let '(fixed, fixedList) := acc in
  result fixed
    (if fixed : bool then "Fixed missing modules: " +:+ join "; " fixedList
     else "Could not auto-fix missing modules: " +:+ join ", " uniqueModules)
    (join newline_text fixedList).

Definition fix_missing_module : FailurePattern :=
  {| fix_name := "fix-missing-module"; detect log := includes log "Cannot find module";
     fix_it := missing_module_body hidden_log |}.

(** *** 2. Test failures *)

(** [tests\/[^\s]+] after [FAIL ]; what it captures is the match without [FAIL ]. *)
Definition failing_file : regex :=
  Seq (literal false "FAIL ") (Group (Seq (literal false "tests/") (plus (Chr (λ a, negb (is_space a)))))).

Definition failed_files (text : string) : list string := omap snd (match_all failing_file text).

(** [/jest\.fn\(\)(?!\.mock)/g]. *)
Definition bare_mock : regex := Seq (literal false "jest.fn()") (NotAheadText ".mock").

(** [/it\('([^']+)', \(\) => \{/g]. *)
Definition sync_test : regex :=
  Seq (literal false "it('") (Seq (Group (plus (Chr (λ a, negb (Ascii.eqb a "'"))))) (literal false "', () => {")).

Definition patch_test (content : string) : string :=
  let mockFix := replace_all bare_mock "jest.fn().mockResolvedValue(undefined)" content in
  replace_matches sync_test (λ m, "it('" +:+ default EmptyString (capture m) +:+ "', async () => {") mockFix.

Definition patch_test_file (acc : bool * list string) (testFile : string) : script (bool * list string) :=
  found ← find_path testFile;
  match found with
  | None => mret acc
  | Some path =>
    content ← readFileSync path;
    let asyncFix := patch_test content in
    if String.eqb asyncFix content then mret acc
    else write_unless_dry path asyncFix;;
         mret (true, app acc.2 [testFile +:+ ": patched mock return values and async patterns"])
  end.

Definition test_failure_body (call : string → script ()) (text : string) : script FixResult :=
  call "Detected: Test failures — analyzing...";;
  let failedFiles := failed_files text in
  match failedFiles with
  | [] => refuse "Could not identify failing test files"
  | _ =>
    acc ← each patch_test_file failedFiles (false, []);
    let '(fixed, fixedList) := acc in
    result fixed
      (if fixed : bool then "Patched test files: " +:+ join "; " fixedList
       else "Test failures in [" +:+ join ", " failedFiles +:+ "] require manual inspection")
      (join newline_text fixedList)
  end.

Definition fix_test_failure : FailurePattern :=
  {| fix_name := "fix-test-failure";
     detect := test (Alt (literal false "● ") (Alt (literal false "FAIL ") (literal false "Test suite failed")));
     fix_it := test_failure_body hidden_log |}.

(** *** 3. TypeScript build errors *)

Definition nat_text (n : nat) : string := string_of_Z (Z.of_nat n).

Definition digit : regex := byte_in 48 57.

(** [/^(.+\.ts)\((\d+),(\d+)\): error (TS\d+): (.+)$/], with one of its groups
    capturing: where the groups are does not change the match. *)
Definition ts_error (path line code message : regex → regex) : regex :=
  Seq (path (Seq (plus dot) (literal false ".ts")))
  (Seq (literal false "(") (Seq (line (plus digit)) (Seq (literal false ",") (Seq (plus digit)
  (Seq (literal false "): error ") (Seq (code (Seq (literal false "TS") (plus digit))) (Seq (literal false ": ")
  (Seq (message (plus dot)) (NotAhead (λ _, true)))))))))).

Record TsError := { ts_path : string; ts_line : string; ts_code : string; ts_message : string }.

Definition captured_by (r : regex) (s : string) : option string :=
  match match_here r s with Some (_, c) => c | None => None end.

Definition parse_ts_error (line : string) : option TsError :=
  path ← captured_by (ts_error Group id id id) line;
  number ← captured_by (ts_error id Group id id) line;
  code ← captured_by (ts_error id id Group id) line;
  message ← captured_by (ts_error id id id Group) line;
  Some {| ts_path := path; ts_line := number; ts_code := code; ts_message := message |}.

(** [lines[i] = s]: out of range the array grows with holes, which [join] leaves
    empty; a negative or too large index is no index. *)
Definition set_line (i : Z) (s : string) (lines : list string) : list string :=
  if (i <? 0)%Z || (2 ^ 32 - 1 <=? i)%Z then lines
  else if (Z.to_nat i <? List.length lines)%nat then <[Z.to_nat i := s]> lines
  else app lines (app (replicate (Z.to_nat i - List.length lines) EmptyString) [s]).

(** [lines[i] ?? '']. *)
Definition get_line (i : Z) (lines : list string) : string :=
  if (i <? 0)%Z then EmptyString else default EmptyString (lines !! Z.to_nat i).

(** [s.replace(/\)$/, ' as any)')]. *)
Definition add_assertion (s : string) : string :=
  if ends_with s ")" then substring 0 (String.length s - 1) s +:+ " as any)" else s.

(** [s.replace(/\((\w+)\)/, '($1: any)')]. *)
Definition add_any (s : string) : string :=
  replace_first (Seq (literal false "(") (Seq (Group (plus (Chr is_word))) (literal false ")")))
    (λ c, "(" +:+ default EmptyString c +:+ ": any)") s.

Definition missing_name : regex :=
  Seq (literal false "Cannot find name '") (Seq (Group (plus (Chr is_word))) (literal false "'")).

(** The line index an error names, [parseInt(lineNum, 10) - 1]. *)
Definition line_index (lineNum : string) : Z := let '(v, _, _) := take_digits 10 0 0 lineNum in (v - 1)%Z.

(** What the statements on one error leave: the lines, and the list of fixes. *)
Definition fix_line (path : list string) (e : TsError) (edit : string) (note : string)
  (state : list string * (bool * list string)) : script (list string * (bool * list string)) :=
  let lines := set_line (line_index (ts_line e)) edit state.1 in
  write_unless_dry path (join newline_text lines);;
  mret (lines, (true, app state.2.2 [ts_path e +:+ ":" +:+ ts_line e +:+ note])).

Definition fix_error (call : string → script ()) (acc : bool * list string) (errLine : string)
  : script (bool * list string) :=
  match parse_ts_error errLine with
  | None => mret acc
  | Some e =>
    found ← find_path (ts_path e);
    match found with
    | None => mret acc
    | Some path =>
      text ← readFileSync path;
      let lines := split_lines text in
      let lineContent := get_line (line_index (ts_line e)) lines in
      state ← (if String.eqb (ts_code e) "TS2345" && negb (includes lineContent " as ")
               then fix_line path e (add_assertion lineContent) " — added 'as any' for TS2345" (lines, acc)
               else mret (lines, acc));
      (if String.eqb (ts_code e) "TS2304" then
         match exec missing_name (ts_message e) with
         | Some (_, Some name) => call ("  Cannot resolve '" +:+ name +:+ "' — needs manual import")
         | _ => mret ()
         end
       else mret ());;
      state ← (if String.eqb (ts_code e) "TS7006"
               then fix_line path e (add_any lineContent) " — added 'any' type for TS7006" state
               else mret state);
      mret state.2
    end
  end.

Definition typescript_body (call : string → script ()) (_ : string) : script FixResult :=
  call "Detected: TypeScript errors — running tsc diagnostics...";;
  tscOut ← run "npx tsc --noEmit 2>&1" [];
  let errors := filter (λ l, includes l "error TS" = true) (split_lines tscOut) in
  match errors with
  | [] => refuse "No current TypeScript errors found"
  | _ =>
    call ("TypeScript errors (" +:+ nat_text (List.length errors) +:+ "):");;
    each (λ _ e, call ("  " +:+ e)) (take 10 errors) ();;
    acc ← each (fix_error call) (take 20 errors) (false, []);
    let '(fixed, fixedList) := acc in
    result fixed
      (if fixed : bool then "Applied TypeScript fixes: " +:+ join "; " fixedList
       else "TypeScript errors require manual attention (" +:+ nat_text (List.length errors) +:+ " errors)")
      (join newline_text (take 20 errors))
  end.

Definition fix_typescript_errors : FailurePattern :=
  {| fix_name := "fix-typescript-errors"; detect log := includes log "error TS";
     fix_it := typescript_body hidden_log |}.

(** *** 4. Wrong working directory in workflow *)

Definition workflow_path : list string := [".github"; "workflows"; "ci.yml"].

(** [/cd contracts\b/g]; the character before the boundary is a letter. *)
Definition cd_contracts : regex := Seq (literal false "cd contracts") (NotAhead is_word).

Definition quote_text : string := String (ascii_of_N 34) EmptyString.
Definition in_quotes (s : string) : string := quote_text +:+ s +:+ quote_text.

Definition actual_dir : script (option string) :=
  b ← existsSync ["smart_contracts"];
  if b : bool then mret (Some "smart_contracts")
  else b ← existsSync ["contracts"]; mret (if b : bool then Some "contracts" else None).

Definition wrong_workdir_body (_ : string) : script FixResult :=
  log ("Detected: Wrong working directory " +:+ in_quotes "cd contracts" +:+ " in workflow...");;
  found ← existsSync workflow_path;
  if negb found then refuse "ci.yml not found"
  else
    content ← readFileSync workflow_path;
    dir ← actual_dir;
    match dir with
    | None => refuse "Cannot find contracts directory"
    | Some dir =>
      let fixed := replace_all cd_contracts ("cd " +:+ dir) content in
      if String.eqb fixed content then refuse ("Pattern " +:+ in_quotes "cd contracts" +:+ " not found in ci.yml")
      else
        write_unless_dry workflow_path fixed;;
        result true ("Fixed ci.yml: " +:+ in_quotes "cd contracts" +:+ " → " +:+ in_quotes ("cd " +:+ dir))
          "Wrong directory reference corrected in .github/workflows/ci.yml"
    end.

Definition fix_wrong_workdir : FailurePattern :=
  {| fix_name := "fix-wrong-workdir";
     detect log := includes log "cd contracts" && includes log "No such file or directory";
     fix_it := wrong_workdir_body |}.

(** *** 5. Hardhat compile errors *)

Definition hardhat_body (_ : string) : script FixResult :=
  log "Detected: Hardhat compilation error — checking smart_contracts setup...";;
  found ← existsSync ["smart_contracts"];
  if negb found then refuse "smart_contracts directory not found"
  else
    found ← existsSync ["smart_contracts"; "package.json"];
    if negb found then refuse "smart_contracts/package.json not found"
    else
      log "Reinstalling smart_contracts dependencies...";;
      run "npm install" ["smart_contracts"];;
      result true "Reinstalled smart_contracts/node_modules" "Ran npm install in smart_contracts directory".

Definition fix_hardhat_error : FailurePattern :=
  {| fix_name := "fix-hardhat-error";
     detect log := includes log "HardhatError" || (includes log "hardhat compile" && includes log "Error");
     fix_it := hardhat_body |}.

Definition KNOWN_FIXES : list FailurePattern :=
  [fix_missing_module; fix_test_failure; fix_typescript_errors; fix_wrong_workdir; fix_hardhat_error].

(** ** Escalation *)

Definition or_text (s other : string) : string := if String.eqb s EmptyString then other else s.

(** [lines.slice(-50)]. *)
Definition last_lines (n : nat) (l : list string) : list string := drop (List.length l - n) l.

Definition escalation_report (a : CIAnalysis) (logContent : string) : string :=
  join newline_text
    [EmptyString; "ESCALATION REPORT — CI Auto-Fix Unable to Resolve";
     "==================================================="; "Run ID:      " +:+ RUN_ID o;
     "Attempt:     " +:+ num_to_string (ATTEMPT o); "Timestamp:   " +:+ timestamp;
     "Failed Step: " +:+ failedStep a; "Error Type:  " +:+ errorType a;
     "Patterns:    " +:+ or_text (join ", " (patterns a)) "none detected"; EmptyString;
     "Raw Errors (first 20):"; join newline_text (take 20 (rawErrors a)); EmptyString;
     "CI Log (last 50 lines):"; join newline_text (last_lines 50 (split_lines logContent)); EmptyString].

Definition escalate (a : CIAnalysis) (logContent : string) : script () :=
  writeFileSync ["ESCALATION_REPORT.md"] (escalation_report a logContent);;
  log "ESCALATION: Written to ESCALATION_REPORT.md";;
  log "This failure requires manual human intervention.".

(** ** [main] *)

Definition rule : string := join EmptyString (replicate 60 "=").

(** One turn of the loop over the known fixes: whether one applied, and those that
    did. *)
Definition apply_fix (logContent : string) (acc : bool * list string) (p : FailurePattern) : script (bool * list string) :=
  if detect p logContent then
    log (newline_text +:+ "Applying fix: " +:+ fix_name p);;
    r ← fix_it p logContent;
    if applied r then
      log ("  ✅ Fix applied: " +:+ description r);;
      console_log ("FIX_DESCRIPTION:" +:+ description r);;
      mret (true, app acc.2 [description r])
    else log ("  ⚠️  Fix not applicable: " +:+ description r);; mret acc
  else mret acc.

Definition apply_fixes (logContent : string) : script (bool * list string) :=
  each (apply_fix logContent) KNOWN_FIXES (false, []).

Definition print_analysis (a : CIAnalysis) : script () :=
  log (newline_text +:+ "Analysis:");;
  log ("  Failed step: " +:+ failedStep a);;
  log ("  Error type:  " +:+ errorType a);;
  log ("  Patterns:    " +:+ or_text (join ", " (patterns a)) "none");;
  log ("  Errors:      " +:+ nat_text (List.length (rawErrors a)) +:+ " lines" +:+ newline_text).

(** The summary, and the type check that follows the fixes. *)
Definition report_fixes (appliedFixes : list string) : script () :=
  log (newline_text +:+ rule);;
  log ("Fixes applied (" +:+ nat_text (List.length appliedFixes) +:+ "):");;
  each (λ _ '(i, f), log ("  " +:+ nat_text (i + 1) +:+ ". " +:+ f)) (imap pair appliedFixes) ();;
  log rule;;
  log (newline_text +:+ "Verifying TypeScript after fixes...");;
  verifyOut ← run "npx tsc --noEmit 2>&1" [];
  let remainingErrors := List.length (filter (λ l, includes l "error TS" = true) (split_lines verifyOut)) in
  if (0 <? remainingErrors)%nat
  then log ("⚠️  " +:+ nat_text remainingErrors +:+ " TypeScript errors remain after fix. Manual review needed.")
  else log "✅ TypeScript clean after fixes.".

(** [main], when the script is started: its exit code. *)
Definition main : script Z :=
  log rule;;
  log "AST Self-Healing CI — fix-ci.ts";;
  log ("Run ID: " +:+ RUN_ID o +:+ "  |  Attempt: " +:+ num_to_string (ATTEMPT o) +:+ "  |  Dry-run: " +:+
       (if DRY_RUN o then "true" else "false"));;
  log rule;;
  logContent ← readLog;
  (if String.eqb logContent EmptyString then log "WARNING: No CI log content available. Running in limited mode."
   else mret ());;
  let analysis := analyzeLog logContent in
  print_analysis analysis;;
  fixes ← apply_fixes logContent;
  let '(anyFixed, appliedFixes) := fixes in
  if negb anyFixed then
    log (newline_text +:+ "No automatic fix could be applied.");;
    escalate analysis logContent;;
    mret 1%Z
  else report_fixes appliedFixes;; mret 0%Z.

(** The lines that call [log] inside a fix whose parameter is [log : string]. *)
Definition hidden_calls : list Z := [173; 178; 209; 231; 282; 289; 290; 320]%Z.

(** What the type checker says of such a call; its column is left out. *)
Definition diagnostic (line : Z) : string :=
  "scripts/fix-ci.ts(" +:+ string_of_Z line +:+ "): error TS2349: This expression is not callable.".

(** [ts-node]: with its type check, a file that has diagnostics is refused and nothing
    of it runs; without, it starts. *)
Definition launch (typeCheck : bool) : script Z :=
  let diagnostics := diagnostic <$> hidden_calls in
  if typeCheck && negb (bool_decide (diagnostics = []))
  then throw (JsError ("TSError: Unable to compile TypeScript:" +:+ newline_text +:+ join newline_text diagnostics))
  else main.

(** An exception that leaves the script, or refuses it, is reported with code 1. *)
Definition exit_code (r : exn + Z) : Z := match r with inl _ => 1 | inr code => code end.

(** ** Properties *)

(** The log shows a failure of the code: a missing module, a failed test or a
    type error. *)
Definition code_failure (logContent : string) : bool :=
  detect fix_missing_module logContent || detect fix_test_failure logContent || detect fix_typescript_errors logContent.

(** The part of [main] after the analysis is printed. *)
Definition main_rest (logContent : string) : script Z :=
  fixes ← apply_fixes logContent;
  let '(anyFixed, appliedFixes) := fixes in
  if negb anyFixed then
    log (newline_text +:+ "No automatic fix could be applied.");;
    escalate (analyzeLog logContent) logContent;;
    mret 1%Z
  else report_fixes appliedFixes;; mret 0%Z.

(** The log the script reads from a tree. *)
Definition log_of (t : node) : exn + string :=
  match locate ROOT (LOG_FILE o) with
  | None => inr (ERROR_SUMMARY o)
  | Some path =>
    match at_path path t with
    | None => inr (ERROR_SUMMARY o)
    | Some (File (Some s)) => inr s
    | Some _ => inl (JsError ("cannot read " +:+ join "/" path))
    end
  end.

Lemma run_readLog m : readLog m = (log_of (tree m), m).
Proof.
  unfold readLog, find_path, log_of. destruct (locate ROOT (LOG_FILE o)) as [path|]; [|done].
  rewrite !script_bind_eq. unfold existsSync, exists_at. destruct (at_path path (tree m)) as [e|] eqn:E; [|done].
  cbn. unfold readFileSync. rewrite E. by destruct e as [[]| |].
Qed.

Lemma run_main m logContent :
  log_of (tree m) = inr logContent → ∃ m', prints m m' ∧ main m = main_rest logContent m'.
Proof.
  intros Hlog. unfold main, log. rewrite !run_log_bind, script_bind_eq, run_readLog. cbn [tree after_log]. rewrite Hlog.
  set (m1 := after_log _ _). assert (prints m m1) as H1 by (repeat (etransitivity; [|apply prints_log]); reflexivity).
  assert (∃ m2, prints m1 m2 ∧ (if String.eqb logContent EmptyString
    then console_log "WARNING: No CI log content available. Running in limited mode." else mret ()) m1 = (inr (), m2))
    as (m2 & H2 & E2).
  { destruct (String.eqb _ _); eexists; (split; [|reflexivity]); [apply prints_log|reflexivity]. }
  rewrite script_bind_eq, E2. unfold print_analysis, log. rewrite script_bind_eq, !run_log_bind.
  eexists. split; [|reflexivity]. etransitivity; [exact H1|]. etransitivity; [exact H2|].
  repeat (etransitivity; [|apply prints_log]); reflexivity.
Qed.

(** The command of the repository repairs nothing: the file is refused, nothing of it
    runs, and the exit code is 1 whatever the log says. *)
Lemma launch_refused m : ∃ e, launch true m = (inl e, m) ∧ exit_code (launch true m).1 = 1%Z.
Proof. by eexists. Qed.

(** Nor does the script repair code where its types are not checked: on a log that
    shows a missing module, a failed test or a type error it stops with the exception
    of its first fix, exit code 1, having written no file, run no command and escalated
    nothing. *)
Theorem code_failures_not_repaired m logContent :
  log_of (tree m) = inr logContent → code_failure logContent = true →
  ∃ m', launch false m = (inl log_is_no_function, m') ∧ prints m m' ∧ exit_code (launch false m).1 = 1%Z.
Proof.
  intros Hlog Hc. change (launch false m) with (main m). destruct (run_main m logContent Hlog) as (m1 & H1 & ->).
  assert (∃ m2, prints m1 m2 ∧ apply_fixes logContent m1 = (inl log_is_no_function, m2)) as (m2 & H2 & E).
  { unfold apply_fixes, KNOWN_FIXES, code_failure in *. cbn [each]. rewrite script_bind_eq. unfold apply_fix at 1, log.
    destruct (detect fix_missing_module logContent).
    { eexists. split; [apply prints_log|reflexivity]. }
    cbn. rewrite script_bind_eq. unfold apply_fix at 1, log.
    destruct (detect fix_test_failure logContent).
    { eexists. split; [apply prints_log|reflexivity]. }
    cbn. rewrite script_bind_eq. unfold apply_fix at 1, log.
    destruct (detect fix_typescript_errors logContent); [|done].
    eexists. split; [apply prints_log|reflexivity]. }
  exists m2. unfold main_rest. rewrite script_bind_eq, E. split_and!; [done|by etransitivity|done].
Qed.

(** The import correction replaces each import by itself: whatever the name of the
    module, as long as it holds no [$], no file changes. *)
Lemma correct_import_id modu content : has_char "$" modu = false → correct_import modu content = content.
Proof.
  intros Hd. unfold correct_import. apply replace_matches_self. intros m s n c Hm Hmatched.
  rewrite Hmatched, (match_here_literal _ _ _ _ Hm). apply expand_plain.
  rewrite !has_char_app, Hd. reflexivity.
Qed.

(** The first fix does not work even when its statements reach the console: it
    writes no file at all, whatever imports are broken, and reports success only if it
    installed a package. *)
Theorem import_fix_inert text :
  Forall (λ modu, has_char "$" modu = false) (missing_modules text) →
  does (λ a, ¬ written a) (missing_module_body log text).
Proof.
  intros Hd. rewrite Forall_forall in Hd.
  assert (∀ line, does (λ a, ¬ written a) (log line)) as Hlog by (intros line; apply does_act; exact id).
  assert (∀ cmd cwd, does (λ a, ¬ written a) (run cmd cwd)) as Hrun.
  { intros cmd cwd. unfold run. destruct (DRY_RUN o).
    - apply does_bind; [apply Hlog|intros _; apply does_ret].
    - apply does_execSync. exact id. }
  unfold missing_module_body. apply does_bind; [apply Hlog|intros _]. cbn zeta. apply does_bind; [apply Hlog|intros _].
  apply does_bind; [|intros [fixed fixedList]; apply does_ret].
  apply does_each. intros acc modu Hin. apply Hd in Hin. unfold fix_module.
  apply does_bind; [|intros acc'; apply does_bind; [apply does_readFileSync|]].
  - destruct (_ || _); [|apply does_ret]. apply does_bind; [by apply does_nothing|]. intros files. apply does_each.
    intros acc' file _. unfold import_of. apply does_bind; [apply does_readFileSync|]. intros content.
    destruct (includes content modu); [|apply does_ret]. rewrite (correct_import_id modu content Hin).
    rewrite String.eqb_refl. apply does_ret.
  - intros pkg_text. apply does_bind; [apply does_nothing; intros m; unfold parse_package; by destruct (JSON_parse pkg_text) as [[]|]|]. intros pkg.
    destruct (_ && _); [|apply does_ret]. apply does_bind; [apply Hlog|intros _]. apply does_bind; [apply Hrun|intros _; apply does_ret].
Qed.

(** The directory the fourth fix finds. *)
Definition dir_of (t : node) : option string :=
  if exists_at ["smart_contracts"] t then Some "smart_contracts"
  else if exists_at ["contracts"] t then Some "contracts" else None.

Lemma run_actual_dir m : actual_dir m = (inr (dir_of (tree m)), m).
Proof.
  unfold actual_dir, dir_of. rewrite script_bind_eq. cbn. destruct (exists_at ["smart_contracts"] (tree m)); [done|].
  rewrite script_bind_eq. cbn. by destruct (exists_at ["contracts"] (tree m)).
Qed.

(** The fourth fix on a workflow it can repair. *)
Lemma run_wrong_workdir logContent content dir m :
  let fixed := replace_all cd_contracts ("cd " +:+ dir) content in
  DRY_RUN o = false → at_path workflow_path (tree m) = Some (File (Some content)) → dir_of (tree m) = Some dir →
  fixed ≠ content →
  ∃ r m', wrong_workdir_body logContent m = (inr r, m') ∧ applied r = true ∧
    at_path workflow_path (tree m') = Some (File (Some fixed)) ∧
    effects (actions m') = app (effects (actions m)) [WriteFile workflow_path fixed].
Proof.
  intros fixed Hdry Hat Hdir Hne. unfold wrong_workdir_body, log. rewrite run_log_bind.
  set (m1 := after_log _ m). assert (exists_at workflow_path (tree m1) = true) as Hex by (unfold exists_at; cbn [m1 tree after_log]; by rewrite Hat).
  rewrite script_bind_eq. unfold existsSync. rewrite Hex. cbn [negb].
  rewrite script_bind_eq. unfold readFileSync. change (tree m1) with (tree m). rewrite Hat.
  rewrite script_bind_eq, run_actual_dir. change (tree m1) with (tree m). rewrite Hdir. fold fixed.
  rewrite (proj2 (String.eqb_neq _ _)) by done.
  rewrite script_bind_eq. unfold write_unless_dry, writeFileSync. rewrite Hdry. change (tree m1) with (tree m).
  destruct (write_at_some workflow_path fixed (tree m) content Hat) as (t' & Ht). rewrite Ht.
  do 2 eexists. split_and!; [reflexivity|done| |].
  - cbn [tree]. by apply write_at_read in Ht.
  - cbn [actions m1 after_log]. by rewrite !effects_app, app_nil_r.
Qed.

Lemma completes_run cmd cwd : completes (run cmd cwd).
Proof. unfold run. destruct (DRY_RUN o); [apply completes_bind|]; auto with script. Qed.

#[local] Hint Resolve completes_run : script.

(** A composition of printing, looking and running completes. *)
Ltac completes_tac :=
  repeat first [progress intros | apply completes_bind | apply completes_each | case_match | solve [auto with script]].

Lemma completes_hardhat logContent : completes (hardhat_body logContent).
Proof. unfold hardhat_body, log, refuse, result. completes_tac. Qed.

Lemma completes_report fixes : completes (report_fixes fixes).
Proof. unfold report_fixes, log. completes_tac. Qed.

Lemma skip_fix logContent p ps acc m :
  detect p logContent = false → each (apply_fix logContent) (p :: ps) acc m = each (apply_fix logContent) ps acc m.
Proof. intros Hd. cbn [each]. rewrite script_bind_eq. unfold apply_fix at 1. by rewrite Hd. Qed.

(** After a fix applied, the last one leaves that. *)
Lemma completes_last logContent names m :
  ∃ names' m' l, each (apply_fix logContent) [fix_hardhat_error] (true, names) m = (inr (true, names'), m') ∧
    effects (actions m') = app (effects (actions m)) l.
Proof.
  cbn [each]. rewrite script_bind_eq. unfold apply_fix, log. destruct (detect fix_hardhat_error logContent).
  - rewrite run_log_bind, script_bind_eq. cbn [fix_it fix_hardhat_error].
    destruct (completes_hardhat logContent (after_log (newline_text +:+ "Applying fix: " +:+ fix_name fix_hardhat_error) m))
      as (r & m1 & l & -> & H1). cbn [actions after_log] in H1. rewrite effects_printed in H1.
    destruct (applied r); rewrite !run_log_bind; do 2 eexists; exists l; (split; [reflexivity|]);
      cbn [actions after_log]; by rewrite !effects_printed.
  - do 2 eexists. exists []. split; [reflexivity|]. by rewrite app_nil_r.
Qed.

(** The two fixes that work, where types are not checked: without a failure of the code, a wrong directory
    in [ci.yml] that the log shows is rewritten to the directory that exists, the
    script exits with 0 and the file is the first thing it writes. *)
Theorem wrong_workdir_repaired m logContent content dir :
  let fixed := replace_all cd_contracts ("cd " +:+ dir) content in
  log_of (tree m) = inr logContent → code_failure logContent = false → DRY_RUN o = false →
  detect fix_wrong_workdir logContent = true →
  at_path workflow_path (tree m) = Some (File (Some content)) → dir_of (tree m) = Some dir → fixed ≠ content →
  ∃ m' rest, launch false m = (inr 0%Z, m') ∧
    effects (actions m') = app (effects (actions m)) (WriteFile workflow_path fixed :: rest).
Proof.
  intros fixed Hlog Hc Hdry Hd Hat Hdir Hne. change (launch false m) with (main m). destruct (run_main m logContent Hlog) as (m1 & [Ht He] & ->).
  unfold code_failure in Hc. apply orb_false_iff in Hc as [[Hc1 Hc2]%orb_false_iff Hc3].
  assert (∃ m2 names l, apply_fixes logContent m1 = (inr (true, names), m2) ∧
    effects (actions m2) = app (effects (actions m1)) (WriteFile workflow_path fixed :: l)) as (m2 & names & l & E2 & H2).
  { unfold apply_fixes, KNOWN_FIXES. rewrite !skip_fix by done. cbn [each].
    rewrite script_bind_eq. unfold apply_fix at 1. rewrite Hd. unfold log. rewrite run_log_bind.
    rewrite <- Ht in Hat, Hdir. set (m0 := after_log _ m1).
    destruct (run_wrong_workdir logContent content dir m0 Hdry Hat Hdir Hne) as (r & m2 & E & Hr & _ & Hm2).
    cbn [fix_it fix_wrong_workdir]. rewrite script_bind_eq, E, Hr, !run_log_bind. cbn [app].
    destruct (completes_last logContent [description r] (after_log ("FIX_DESCRIPTION:" +:+ description r)
      (after_log ("  ✅ Fix applied: " +:+ description r) m2))) as (names & m3 & l & E3 & H3).
    exists m3, names, l. split; [exact E3|]. rewrite H3. cbn [actions after_log]. rewrite !effects_printed, Hm2.
    cbn [m0 actions after_log]. rewrite effects_printed. by rewrite <- app_assoc. }
  destruct (completes_report names m2) as ([] & m3 & l' & E3 & H3).
  exists m3, (app l l'). unfold main_rest. rewrite script_bind_eq, E2. cbn [negb]. rewrite script_bind_eq, E3.
  split; [done|]. by rewrite H3, H2, He, <- app_assoc.
Qed.
End FixCi.

(** ** Witnesses *)

Definition sample_options (dry : bool) : Options := options_of (if dry then ["--dry-run"] else []).

Definition machine (l : list (string * node)) : Machine := {| tree := Dir (Some l); actions := [] |}.

Definition sample_machine (logContent : string) : Machine :=
  machine [("full_ci_log.txt", File (Some logContent)); ("smart_contracts", Dir (Some []));
    (".github", Dir (Some [("workflows", Dir (Some [("ci.yml", File (Some "run: cd contracts && npm test"))]))]))].

(** Commands that say nothing and change nothing. *)
Definition silent_shell : shell := λ _ _ t, (EmptyString, t).

Lemma code_failures_not_repaired_witness :
  ∃ m', launch "/app" (sample_options false) silent_shell "now" false
    (sample_machine "src/a.ts(1,2): error TS2304: Cannot find name") = (inl log_is_no_function, m') ∧ effects (actions m') = [].
Proof.
  destruct (code_failures_not_repaired "/app" (sample_options false) silent_shell "now"
    (sample_machine "src/a.ts(1,2): error TS2304: Cannot find name")
    "src/a.ts(1,2): error TS2304: Cannot find name") as (m' & H1 & [_ H2] & _).
  - vm_compute. reflexivity.
  - vm_compute. reflexivity.
  - exists m'. split; [exact H1|exact H2].
Defined.

Lemma import_fix_inert_witness :
  missing_modules "Cannot find module './a' Cannot find module '@/b'" = ["./a"; "@/b"] ∧
  does (λ a, ¬ written a) (missing_module_body "/app" (sample_options false) silent_shell log
    "Cannot find module './a' Cannot find module '@/b'").
Proof.
  assert (missing_modules "Cannot find module './a' Cannot find module '@/b'" = ["./a"; "@/b"]) as H
    by (vm_compute; reflexivity).
  split; [exact H|]. apply (import_fix_inert "/app" (sample_options false) silent_shell). rewrite H.
  by repeat constructor.
Defined.

Lemma wrong_workdir_repaired_witness :
  ∃ m' rest, launch "/app" (sample_options false) silent_shell "now" false
      (sample_machine "cd contracts: No such file or directory") = (inr 0%Z, m') ∧
    effects (actions m') = WriteFile workflow_path "run: cd smart_contracts && npm test" :: rest.
Proof.
  assert (replace_all cd_contracts ("cd " +:+ "smart_contracts") "run: cd contracts && npm test" =
    "run: cd smart_contracts && npm test") as H by (vm_compute; reflexivity).
  destruct (wrong_workdir_repaired "/app" (sample_options false) silent_shell "now"
    (sample_machine "cd contracts: No such file or directory") "cd contracts: No such file or directory"
    "run: cd contracts && npm test" "smart_contracts") as (m' & rest & H1 & H2).
  - vm_compute. reflexivity.
  - vm_compute. reflexivity.
  - reflexivity.
  - vm_compute. reflexivity.
  - vm_compute. reflexivity.
  - vm_compute. reflexivity.
  - rewrite H. discriminate.
  - exists m', rest. rewrite H in H2. split; [exact H1|exact H2].
Defined.

(** A dry run that finds nothing to fix writes its report all the same. *)
Lemma dry_run_writes_report :
  ∃ report, effects (actions (launch "/app" (sample_options true) silent_shell "now" false (sample_machine "out of disk")).2) =
    [WriteFile ["ESCALATION_REPORT.md"] report].
Proof. vm_compute. eexists. reflexivity. Qed.

(** The step and the type of a failure. *)
Example analysis_of_a_log :
  let a := analyzeLog ("##[error] in Step: Build  " +:+ newline_text +:+ "npm ERR! code 1") in
  (failedStep a, errorType a, patterns a) = ("Build", "Build", ["build-failure"]).
Proof. vm_compute. reflexivity. Qed.

(** The other two bodies do their work when their statements can print. *)
Example test_file_patched :
  patch_test "it('adds', () => { jest.fn(); jest.fn().mock })" =
  "it('adds', async () => { jest.fn().mockResolvedValue(undefined); jest.fn().mock })".
Proof. vm_compute. reflexivity. Qed.

Example type_error_patched :
  effects (actions (typescript_body "/app" (sample_options false)
    (λ _ _ t, ("src/a.ts(2,5): error TS7006: Parameter 'x' implicitly has an 'any' type.", t)) log EmptyString
    (machine [("src", Dir (Some [("a.ts", File (Some ("// a" +:+ newline_text +:+ "const f = (x) => x;")))]))])).2) =
  [RunCommand "npx tsc --noEmit 2>&1" []; WriteFile ["src"; "a.ts"] ("// a" +:+ newline_text +:+ "const f = (x: any) => x;")].
Proof. vm_compute. reflexivity. Qed.
