(* ===== verification/AgentsStatus.v ===== *)
(** * The agent dashboard

    [src/scripts/agents-status.ts]. The script looks up the files the agents need
    and prints a dashboard. The tree, the output of the commands it runs and the
    dates of files are parameters. *)

From S2P Require Import Prelude NumberText Regex.
From Stdlib Require Import ZArith Ascii String.

Local Open Scope string_scope.

Section AgentsStatus.

(** The working tree, the output of a command, the modification date of a file. *)
Context (root : node) (run : string → string) (getLastModified : string → string).

(** ** Data *)

Record AgentStatus := {
  name : string;
  agent_module : string;
  workflowFile : string;
  workflowExists : bool;
  lastModified : option string;
  testPath : option string;
  testsExist : bool;
  moduleExists : bool
}.

Record Item := { item_name : string; item_path : string; item_exists : bool }.

Record SystemStatus := {
  agents : list AgentStatus;
  workflows : list Item;
  scripts : list Item;
  lastAuditReport : option string;
  gitBranch : string;
  lastCommit : string
}.

(** ** Checks *)

(** The names between the slashes of a path. *)
Fixpoint segments (s : string) : list string :=
  match s with
  | EmptyString => [EmptyString]
  | String a s =>
    if Ascii.eqb a "/" then EmptyString :: segments s
    else match segments s with w :: ws => String a w :: ws | [] => [String a EmptyString] end
  end.

(** [path.join] drops the empty names. *)
Definition path_of (p : string) : list string := filter (λ w, w ≠ EmptyString) (segments p).

Definition fileExists (p : string) : bool := exists_at (path_of p) root.

(** [run(...).trim().length > 0]. *)
Definition some_output (cmd : string) : bool := negb (String.eqb (trim (run cmd)) EmptyString).

Definition quote_text : string := String (ascii_of_N 34) EmptyString.
Definition find_specs (grep : string) : string :=
  "find tests -name " +:+ quote_text +:+ "*.spec.ts" +:+ quote_text +:+ " | grep " +:+ grep.

Definition DISPATCHER : string := ".github/workflows/agent-dispatcher.yml".

Definition agent (name agent_module workflow : string) (tests : option string) (hasModule hasTests : bool)
  : AgentStatus :=
  {| name := name; agent_module := agent_module; workflowFile := workflow;
     workflowExists := fileExists workflow; lastModified := None; testPath := tests;
     testsExist := hasTests; moduleExists := hasModule |}.

Definition dated (a : AgentStatus) : AgentStatus :=
  {| name := name a; agent_module := agent_module a; workflowFile := workflowFile a;
     workflowExists := workflowExists a;
     lastModified := if workflowExists a then Some (getLastModified (workflowFile a)) else None;
     testPath := testPath a; testsExist := testsExist a; moduleExists := moduleExists a |}.

Definition checkAgents : list AgentStatus := dated <$>
  [agent "AGENT-CHAIN" "02_nodechain_engine" DISPATCHER (Some "tests/unit/nodechain")
     (fileExists "02_nodechain_engine")
     (fileExists "tests/unit/nodechain" || some_output (find_specs "-i nodechain"));
   agent "AGENT-BRIDGE" "05_bridge_layer" DISPATCHER (Some "tests/unit/bridge")
     (fileExists "05_bridge_layer")
     (fileExists "tests/unit/bridge" || some_output (find_specs "-i bridge"));
   agent "AGENT-GOV" "06_governance_layer" DISPATCHER (Some "tests/unit/governance")
     (fileExists "06_governance_layer") (fileExists "tests/unit/governance");
   agent "AGENT-EMISSION" "10_proof_of_transaction_engine" DISPATCHER (Some "tests/unit/emission")
     (fileExists "10_proof_of_transaction_engine")
     (some_output (find_specs ("-iE " +:+ quote_text +:+ "emission|proof" +:+ quote_text)));
   agent "AGENT-TEST-INT" "all modules" DISPATCHER (Some "tests/") true (fileExists "tests");
   agent "AGENT-AUTOFIX" "CI/CD" ".github/workflows/auto-fix.yml" None true true;
   agent "AGENT-NIGHTLY" "all modules" ".github/workflows/nightly-audit.yml" None true true].

Definition item (name path : string) : Item :=
  {| item_name := name; item_path := path; item_exists := fileExists path |}.

Definition checkWorkflows : list Item :=
  [item "CI (main)" ".github/workflows/ci.yml"; item "Auto-Fix" ".github/workflows/auto-fix.yml";
   item "Agent Dispatcher" DISPATCHER; item "Nightly Audit" ".github/workflows/nightly-audit.yml";
   item "AI Review" ".github/workflows/ai-review.yml"].

Definition script (name : string) : Item := item name ("scripts/" +:+ name).

Definition checkScripts : list Item :=
  script <$> ["fix-ci.ts"; "nightly-audit.ts"; "agents-status.ts"; "simulate_flow.ts"; "test_governance.ts"].

(** ** The dashboard *)

Definition ansi (code s : string) : string :=
  String (ascii_of_N 27) ("[" +:+ code +:+ "m") +:+ s +:+ String (ascii_of_N 27) "[0m".
Definition bold : string → string := ansi "1".
Definition green : string → string := ansi "32".
Definition red : string → string := ansi "31".
Definition yellow : string → string := ansi "33".
Definition cyan : string → string := ansi "36".

Definition ok : string := green "✅ OK".
Definition miss : string := red "❌ MISSING".
Definition warn : string := yellow "⚠️  PARTIAL".

(** [s.repeat(n)]. *)
Fixpoint repeat_text (n : nat) (s : string) : string :=
  match n with O => EmptyString | S n => s +:+ repeat_text n s end.

(** [s.padEnd(n)] on the ASCII names printed here. *)
Definition pad_end (n : nat) (s : string) : string := s +:+ repeat_text (n - String.length s) " ".

Definition rule : string := "  " +:+ repeat_text 62 "─".

Definition workflow_line (w : Item) : string :=
  "  " +:+ (if item_exists w then ok else miss) +:+ "  " +:+ pad_end 22 (item_name w) +:+ " " +:+ item_path w.

Definition agent_mark (a : AgentStatus) : string :=
  if workflowExists a && moduleExists a then ok else if negb (workflowExists a) then miss else warn.

Definition agent_line (a : AgentStatus) : string :=
  "  " +:+ agent_mark a +:+ "  " +:+ pad_end 18 (name a) +:+ " module: " +:+ pad_end 32 (agent_module a) +:+
  " tests: " +:+ (if testsExist a then green "🧪" else yellow "🚫").

Definition script_line (s : Item) : string :=
  "  " +:+ (if item_exists s then ok else miss) +:+ "  " +:+ item_path s.

Definition audit_lines (report : option string) : list string :=
  match report with
  | None | Some EmptyString => []
  | Some text =>
    app [bold "  LAST NIGHTLY AUDIT"; rule] (app ((λ l, "  " +:+ l) <$> take 8 (split_lines text)) [EmptyString])
  end.

Definition healthyAgents (s : SystemStatus) : nat :=
  List.length (filter (λ a, workflowExists a && moduleExists a = true) (agents s)).
Definition healthyWorkflows (s : SystemStatus) : nat :=
  List.length (filter (λ w, item_exists w = true) (workflows s)).

Definition overallOk (s : SystemStatus) : bool :=
  (healthyAgents s =? List.length (agents s))%nat && (healthyWorkflows s =? List.length (workflows s))%nat.

Definition nat_text (n : nat) : string := string_of_Z (Z.of_nat n).

Definition summary_lines (s : SystemStatus) : list string :=
  [bold "  SUMMARY"; rule;
   "  Agents:    " +:+ green (nat_text (healthyAgents s)) +:+ "/" +:+ nat_text (List.length (agents s)) +:+ " operational";
   "  Workflows: " +:+ green (nat_text (healthyWorkflows s)) +:+ "/" +:+ nat_text (List.length (workflows s)) +:+ " present";
   "  Status:    " +:+ (if overallOk s then green "ALL SYSTEMS OPERATIONAL" else yellow "SOME COMPONENTS MISSING");
   bold (repeat_text 64 "═"); EmptyString].

Definition printDashboard (now : string) (s : SystemStatus) : list string :=
  app [newline_text +:+ bold (repeat_text 64 "═"); bold "  AST-Aros-Financial-Paradigm — Agent System Status";
       bold (repeat_text 64 "═"); "  Branch: " +:+ cyan (gitBranch s); "  Commit: " +:+ cyan (lastCommit s);
       "  Date:   " +:+ now; EmptyString; bold "  WORKFLOWS"; rule]
  (app (workflow_line <$> workflows s)
  (app [EmptyString; bold "  AGENTS"; rule]
  (app (agent_line <$> agents s)
  (app [EmptyString; bold "  SCRIPTS"; rule]
  (app (script_line <$> scripts s)
  (app [EmptyString] (app (audit_lines (lastAuditReport s)) (summary_lines s)))))))).

(** [main]: an audit report that is there but cannot be read ends the script. *)
Definition main (now : string) : option (list string) :=
  let status report := {|
    agents := checkAgents; workflows := checkWorkflows; scripts := checkScripts; lastAuditReport := report;
    gitBranch := trim (run "git rev-parse --abbrev-ref HEAD"); lastCommit := trim (run "git log --oneline -1") |} in
  match at_path ["NIGHTLY_AUDIT_REPORT.md"] root with
  | None => Some (printDashboard now (status None))
  | Some (File (Some text)) => Some (printDashboard now (status (Some text)))
  | Some _ => None
  end.

(** ** Facts *)

Lemma length_filter_all {A} (P : A → Prop) `{∀ x, Decision (P x)} (l : list A) :
  List.length (filter P l) = List.length l ↔ Forall P l.
Proof.
  induction l as [|x l IH]; [done|]. rewrite filter_cons, Forall_cons. case_decide as Hx; cbn.
  - rewrite <- IH. split; [intros H0; split; [done|lia]|intros [_ H0]; lia].
  - split; [|tauto]. intros H0. exfalso. pose proof (length_filter P l). lia.
Qed.

(** ** Properties *)

(** What the last line of the dashboard says: all systems are operational
    exactly when the modules of the four module agents, the three agent workflows,
    the CI workflow and the review workflow exist; tests, scripts and the audit
    report do not count. *)
Theorem operational_status report branch commit :
  overallOk {| agents := checkAgents; workflows := checkWorkflows; scripts := checkScripts;
               lastAuditReport := report; gitBranch := branch; lastCommit := commit |} = true ↔
  Forall (λ p, fileExists p = true)
    ["02_nodechain_engine"; "05_bridge_layer"; "06_governance_layer"; "10_proof_of_transaction_engine";
     DISPATCHER; ".github/workflows/auto-fix.yml"; ".github/workflows/nightly-audit.yml";
     ".github/workflows/ci.yml"; ".github/workflows/ai-review.yml"].
Proof.
  unfold overallOk, healthyAgents, healthyWorkflows. cbn [agents workflows].
  rewrite andb_true_iff, !Nat.eqb_eq, !length_filter_all.
  unfold checkAgents, checkWorkflows, item. cbn [fmap list_fmap]. rewrite !Forall_cons, !Forall_nil.
  cbn [dated agent workflowExists moduleExists item_exists]. rewrite !andb_true_iff. tauto.
Qed.

End AgentsStatus.
