(* ===== verification/Bootstrap.v ===== *)
(** * The start of the server

    [src/src/main.ts], [app.controller.ts], the options of [app.module.ts], and the
    routes the controllers of [src/src/orchestrator/] declare. The framework takes a
    request to the method whose declared path it matches, segment by segment; the
    environment, the configuration service and the clock are parameters. *)

From Stdlib Require Import ZArith Ascii String.
From S2P Require Import Prelude Number Json.

(** ** main.ts *)

(** The argument of [new ValidationPipe]. *)
Record ValidationOptions := { transform : bool; whitelist : bool; forbidNonWhitelisted : bool }.

Definition validation_options : ValidationOptions :=
  {| transform := true; whitelist := true; forbidNonWhitelisted := true |}.

(** [process.env.PORT || 8080], as the text the port is printed with: an unset and an
    empty variable are both falsy. *)
Definition port (PORT : option string) : string :=
  match PORT with Some (String _ _ as p) => p | _ => "8080" end.

(** What [bootstrap] does to the application, in order. *)
Inductive Setup :=
| Create (levels : list string)
| UseGlobalPipes (options : ValidationOptions)
| EnableCors
| Listen (port : string)
| Log (line : string).

Definition bootstrap (PORT : option string) (getUrl : string) : list Setup :=
  [Create ["error"; "warn"; "log"; "debug"; "verbose"];
   UseGlobalPipes validation_options;
   EnableCors;
   Listen (port PORT);
   Log ("Application is running on: " +:+ getUrl);
   Log ("Port: " +:+ port PORT)].

(** ** app.module.ts *)

(** What [useFactory] returns. *)
Record DatabaseOptions := {
  db_type : string; host : string; db_port : string; username : string; password : string; database : string;
  entities : list string; synchronize : bool; logging : bool
}.

(** [configService.get(key, default)]. *)
Definition config_get (env : string → option string) (k default_value : string) : string := default default_value (env k).

Definition useFactory (dirname : string) (env : string → option string) (NODE_ENV : option string) : DatabaseOptions := {|
  db_type := "postgres";
  host := config_get env "DB_HOST" "localhost";
  db_port := config_get env "DB_PORT" "5432";
  username := config_get env "DB_USERNAME" "aros_user";
  password := config_get env "DB_PASSWORD" "aros_password";
  database := config_get env "DB_DATABASE" "aros_ast";
  entities := [dirname +:+ "/**/*.entity{.ts,.js}"];
  synchronize := bool_decide (NODE_ENV = Some "development");
  logging := false |}.

(** ** app.controller.ts *)

(** The health probe; [ts] is the time of the call. *)
Definition getHealth (ts : string) : json := JObj [("ok", JBool true); ("service", JStr "AST"); ("ts", JStr ts)].

(** ** Routes *)

Inductive Method := GET | POST.

#[global] Instance method_eq_dec : EqDecision Method.
Proof. solve_decision. Defined.

(** A segment of a declared path: its text, or a parameter. *)
Inductive Segment := Lit (s : string) | Param (name : string).

(** The methods of the controllers. *)
Inductive Handler := AppController_getHealth | OrchestratorController_run | OrchestratorController_get
  | MetricsController_metrics | MetricsController_finalize.

Record RouteDecl := { method : Method; path : list Segment; handler : Handler }.

Definition app_routes : list RouteDecl := [{| method := GET; path := []; handler := AppController_getHealth |}].

Definition orchestrator_routes : list RouteDecl :=
  [{| method := POST; path := [Lit "processes"]; handler := OrchestratorController_run |};
   {| method := GET; path := [Lit "processes"; Param "id"]; handler := OrchestratorController_get |}].

Definition metrics_routes : list RouteDecl :=
  [{| method := GET; path := [Lit "metrics"]; handler := MetricsController_metrics |};
   {| method := POST; path := [Lit "epochs"; Param "epoch"; Lit "finalize"]; handler := MetricsController_finalize |}].

Definition declared_routes : list RouteDecl := app_routes ++ orchestrator_routes ++ metrics_routes.

(** The segments of a request's path, up to its query. *)
Fixpoint segments_from (current : string) (s : string) : list string :=
  let close := if String.eqb current "" then [] else [current] in
  match s with
  | EmptyString => close
  | String c s' =>
    if Ascii.eqb c "?" then close
    else if Ascii.eqb c "/" then close ++ segments_from "" s'
    else segments_from (current +:+ String c EmptyString) s'
  end.

Definition segments (s : string) : list string := segments_from "" s.

Fixpoint fits (decl : list Segment) (request : list string) : bool :=
  match decl, request with
  | [], [] => true
  | Lit s :: decl, t :: request => String.eqb s t && fits decl request
  | Param _ :: decl, _ :: request => fits decl request
  | _, _ => false
  end.

Definition matches (m : Method) (url : string) (r : RouteDecl) : bool :=
  bool_decide (method r = m) && fits (path r) (segments url).

(** The handler a request reaches. *)
Definition route (m : Method) (url : string) : option Handler :=
  handler <$> head (base.filter (λ r, matches m url r = true) declared_routes).

(** ** Properties *)

(** No request fits two routes, so the order in which the controllers are
    registered does not matter: a route that fits is the one that answers. *)
Theorem route_unambiguous m url r :
  r ∈ declared_routes → matches m url r = true →
  route m url = Some (handler r) ∧ ∀ r', r' ∈ declared_routes → matches m url r' = true → r' = r.
Proof.
  intros Hr Hm.
  assert (∀ r r', r ∈ declared_routes → r' ∈ declared_routes → matches m url r = true → matches m url r' = true → r = r') as Hu.
  { unfold matches. intros r1 r2 H1%list_elem_of_In H2%list_elem_of_In. cbn in H1, H2.
    destruct H1 as [<-|[<-|[<-|[<-|[<-|[]]]]]], H2 as [<-|[<-|[<-|[<-|[<-|[]]]]]]; try done;
      destruct m; try done; destruct (segments url) as [|a [|b [|c [|]]]]; cbn;
      by rewrite ?andb_false_r. }
  split; [|intros r' Hr' Hm'; by apply Hu].
  unfold route. destruct (base.filter (λ r, matches m url r = true) declared_routes) as [|r0 l] eqn:Hf.
  - exfalso. assert (r ∈ base.filter (λ r, matches m url r = true) declared_routes) as Hin by (by apply list_elem_of_filter).
    rewrite Hf in Hin. by apply elem_of_nil in Hin.
  - assert (r0 ∈ base.filter (λ r, matches m url r = true) declared_routes) as Hin by (rewrite Hf; left).
    apply list_elem_of_filter in Hin as [Hm0 Hin]. cbn. by rewrite (Hu r0 r).
Qed.

Lemma route_unambiguous_witness :
  route POST "/processes?dry=1" = Some OrchestratorController_run ∧
  route GET "/processes/p-1" = Some OrchestratorController_get ∧ route GET "/processes" = None.
Proof.
  split_and!.
  - apply (route_unambiguous POST "/processes?dry=1"
             {| method := POST; path := [Lit "processes"]; handler := OrchestratorController_run |}); [|done].
    right. left.
  - vm_compute. reflexivity.
  - vm_compute. reflexivity.
Defined.

(** With nothing configured the server listens on 8080, and only an environment
    declared as development rebuilds the database's tables. *)
Lemma defaults dirname env :
  port None = "8080" ∧ port (Some "") = "8080" ∧ (∀ p, p ≠ "" → port (Some p) = p) ∧
  (∀ e, synchronize (useFactory dirname env e) = true ↔ e = Some "development").
Proof.
  split_and!; [done|done| |].
  - by intros [|c s].
  - intros e. cbn. by rewrite bool_decide_eq_true.
Qed.
