(* ===== verification/Http.v ===== *)
(** * The server as its clients see it

    What a request does from the moment the framework has read it: [Bootstrap] finds
    its handler, [Api] validates its body and calls the service, [System] runs the
    service's program. So the theorems of the services are theorems about traffic. The
    framework's reading of a query and of a path parameter are parameters. *)

From Stdlib Require Import ZArith String.
From S2P Require Import Prelude Number Json Storage Effects Entities World NodeChain StateRecording Pot ArosCoin Emission Nodes Reserve Commission Release AllSeeingEye Orchestrator System Api Bootstrap.

Section Http.
Context {ST : Storage} {PL : Platform} {CV : ClassValidator}.
Context (ParseIntPipe : pipe) (query : string → string → option string) (decode : string → string) (now : string).

(** A request whose body has been read. *)
Record HttpRequest := { h_method : Method; h_url : string; h_body : object }.

(** What the server does with it. *)
Inductive Reaction :=
| Refuse (status : Z)
| Probe (body : json)
| Run (p : prog World ()).

(** An answer of the controllers, its value going back to the client. *)
Definition reaction {A} (a : Answer A) : Reaction :=
  match a with BadRequest => Refuse 400 | Served p => Run (p;; mret tt) end.

(** The parameter of a path, its second segment. *)
Definition path_param (url : string) : string := decode (default EmptyString (segments url !! 1)).

Definition dispatch (h : HttpRequest) : Reaction :=
  match route (h_method h) (h_url h) with
  | None => Refuse 404
  | Some AppController_getHealth => Probe (getHealth now)
  | Some OrchestratorController_run => reaction (post_processes (h_body h))
  | Some OrchestratorController_get => Run (get_processes (path_param (h_url h));; mret tt)
  | Some MetricsController_metrics => reaction (get_metrics ParseIntPipe (query (h_url h) "epoch"))
  | Some MetricsController_finalize => reaction (post_finalize ParseIntPipe (path_param (h_url h)))
  end.

(** The task a request becomes; a refusal touches nothing. *)
Definition http_program (h : HttpRequest) : prog World () :=
  match dispatch h with Run p => p | _ => mret tt end.

Definition http_serve (w : World) (h : HttpRequest) : World := (run (http_program h) w).2.
Definition http_serve_all (hs : list HttpRequest) (w : World) : World := fold_left http_serve hs w.

(** The requests a client can make the services serve. *)
Definition public (q : Request) : Prop :=
  match q with
  | RunProcess i => is_finite (in_amount i) = true ∧ num_ltb zero (in_amount i) = true
  | FinalizeEpoch _ | GetProcess _ | Metrics _ => True
  | _ => False
  end.

(** ** Facts *)

Lemma dispatch_public h : http_program h = mret tt ∨ ∃ q, public q ∧ http_program h = program q.
Proof.
  unfold http_program, dispatch. destruct (route _ _) as [[]|]; [by left| | | | |by left].
  - unfold post_processes. destruct (RunProcessDto_valid (h_body h)) eqn:Hv; [|by left]. right.
    exists (RunProcess (input_of (RunProcessDto_of (h_body h)))). split; [|done].
    exact (de_positive _ _ (valid_describes _ Hv)).
  - right. by exists (GetProcess (path_param (h_url h))).
  - unfold get_metrics. destruct (query _ _) as [s|]; [destruct (ParseIntPipe s) as [n|]; [|by left]|]; right.
    + by exists (Metrics n).
    + by exists (Metrics 1).
  - unfold post_finalize. destruct (ParseIntPipe _) as [n|]; [|by left]. right. by exists (FinalizeEpoch n).
Qed.

Lemma guarantee_http R `{!AllowsAll R} h : guarantee R (http_program h).
Proof.
  destruct (dispatch_public h) as [->|(q & _ & ->)]; [apply guarantee_ret|by apply guarantee_program].
Qed.

Lemma http_interleaved R `{!PreOrder R, !AllowsAll (stepwise R)} hs w ps w' :
  steps (http_program <$> hs, w) (ps, w') → R w w'.
Proof.
  intros Hs. apply (guarantee_steps R _ _) in Hs; [exact Hs|].
  apply Forall_fmap, Forall_true. intros h. by apply guarantee_http.
Qed.

Lemma http_interleaved_shared I G `{!PreOrder G, !AllowsAll (shared I G)} hs w ps w' :
  steps (http_program <$> hs, w) (ps, w') → I w → I w' ∧ G w w'.
Proof.
  intros Hs Hw. apply (shared_steps I G _ _) in Hs; [exact Hs| |exact Hw].
  apply Forall_fmap, Forall_true. intros h. by apply (guarantee_http (shared I G)).
Qed.

(** What the requests of the services are when they come over HTTP. *)
Definition traffic_requests (hs : list HttpRequest) (qs : list Request) : Prop :=
  Forall public qs ∧ length qs ≤ length hs ∧ ∀ w, http_serve_all hs w = serve_all qs w.

Lemma http_requests hs : ∃ qs, traffic_requests hs qs.
Proof.
  induction hs as [|h hs (qs & Hq & Hl & IH)]; [exists []; by repeat constructor|].
  destruct (dispatch_public h) as [H|(q & Hpub & H)].
  - exists qs. split_and!; [done|cbn; lia|]. intros w. rewrite <- IH. unfold http_serve_all. cbn [fold_left]. unfold http_serve. by rewrite H.
  - exists (q :: qs). split_and!; [by constructor|cbn; lia|]. intros w. unfold serve_all. cbn [fold_left].
    fold (serve_all qs (serve w q)). rewrite <- IH. unfold http_serve_all. cbn [fold_left]. unfold http_serve. by rewrite H.
Qed.

(** ** Properties *)

(** C5. Whatever clients send, the record and the books hold. Starting from an empty
    database: requests in flight at once, in any interleaving, leave a chain whose
    positions are 1, 2, 3, ... and whose hashes are those of its rows, an oversight
    ledger whose entries carry their hashes under distinct ids, and a sound ledger row;
    requests served one after the other are a sequence of the four public requests,
    runs among them only of positive finite amounts, and leave a chain that replays, an
    oversight ledger that verifies, and, when the runs name epochs of the [integer]
    column, minted equal to burned. *)
Theorem http_traffic_safe (hs : list HttpRequest) :
  (∀ ps w, steps (http_program <$> hs, fresh_world) (ps, w) →
     chain_sound w ∧ log_sound (oversight_rows w) ∧ ledger_ok w) ∧
  (∃ qs, traffic_requests hs qs ∧
     let w := http_serve_all hs fresh_world in
     run reconstruct w = (inr {| ok := true; brokenAt := None |}, w) ∧
     run verifyLog w = (inr {| ok := true; brokenAt := None |}, w) ∧
     (Forall keyed qs → processMinted (tallies w) = processBurned (tallies w))).
Proof.
  pose proof fresh_sound as H0. split.
  - intros ps w Hs. split_and!.
    + apply (http_interleaved_shared chain_sound chain_grows hs fresh_world ps w Hs), H0.
    + destruct (http_interleaved log_grows hs fresh_world ps w Hs) as [_ Hids Hsealed].
      destruct (ss_entries _ H0). split; auto.
    + apply (http_interleaved keeps_ledger_ok hs fresh_world ps w Hs), H0.
  - destruct (http_requests hs) as (qs & Hqs). exists qs. split; [done|].
    destruct Hqs as (_ & _ & ->). cbn zeta. split_and!.
    + apply run_reconstruct_intact. apply (served_alone chain_extends qs fresh_world), H0.
    + apply run_verifyLog_intact. apply (served_alone oversight_extends qs fresh_world), H0.
    + intros Hk. by apply serve_all_books, H0.
Qed.
End Http.

(** ** Witnesses *)

Section Witnesses.
#[local] Existing Instance transparent_platform.

(** A run, a settlement, a body with a property nobody declared, and an unknown path. *)
Definition run_body : object :=
  [("processId", JStr "p"); ("amount", JNum (of_Z 100)); ("type", JStr "transfer"); ("admissible", JBool true)].

Definition traffic : list HttpRequest :=
  [{| h_method := POST; h_url := "/processes"; h_body := run_body |};
   {| h_method := POST; h_url := "/epochs/1/finalize"; h_body := [] |};
   {| h_method := POST; h_url := "/processes"; h_body := ("owner", JStr "x") :: run_body |};
   {| h_method := GET; h_url := "/governance/proposals"; h_body := [] |};
   {| h_method := GET; h_url := "/metrics"; h_body := [] |}].

Definition parse_digits (s : string) : option Z :=
  match NumberText.take_digits 10 0 0 s with (v, count, EmptyString) => if (0 <? count)%Z then Some v else None | _ => None end.

Definition in_flight : list (prog World ()) * World :=
  run_schedule round_robin (http_program parse_digits (λ _ _, None) id "now" <$> traffic, fresh_world).

Lemma http_traffic_safe_witness :
  (λ h, match dispatch parse_digits (λ _ _, None) id "now" h with Refuse n => Some n | _ => None end) <$> traffic =
    [None; None; Some 400; Some 404; None]%Z ∧
  (chain_sound in_flight.2 ∧ length (chain in_flight.2) = 9) ∧
  ∃ qs, length qs ≤ 5 ∧
    let w := http_serve_all parse_digits (λ _ _, None) id "now" traffic fresh_world in
    w = serve_all qs fresh_world ∧ processMinted (tallies w) = of_Z 100 ∧
    run reconstruct w = (inr {| ok := true; brokenAt := None |}, w).
Proof.
  destruct (http_traffic_safe parse_digits (λ _ _, None) id "now" traffic) as [H1 (qs & (_ & Hl & Hw) & H2 & _)].
  split; [vm_compute; reflexivity|]. split; [split; [|vm_compute; reflexivity]|].
  - apply (H1 in_flight.1). rewrite <- surjective_pairing. apply run_schedule_steps.
  - exists qs. split; [exact Hl|]. cbn zeta. split_and!; [apply Hw|vm_compute; reflexivity|exact H2].
Defined.
End Witnesses.
