(* ===== verification/Frontend.v ===== *)
(** * The data hook of the web view

    [src/frontend/src/hooks/useData.ts]. The hook keeps four values and a flag, and
    refreshes them by polling four routes. What [fetch] answers is a parameter of a
    poll. *)

From S2P Require Import Prelude Number NumberText Json.
From Stdlib Require Import ZArith.

(** ** State *)

Record View := {
  view_nodes : json;
  view_transactions : json;
  view_proposals : json;
  view_stats : json;
  loading : bool
}.

Definition initial_view : View := {|
  view_nodes := JArr []; view_transactions := JArr []; view_proposals := JArr [];
  view_stats := JObj [("ledgerHeight", JNum zero); ("activeNodes", JNum zero); ("epoch", JNum (of_Z 1))];
  loading := true |}.

Definition setNodes (v : json) (s : View) : View :=
  {| view_nodes := v; view_transactions := view_transactions s; view_proposals := view_proposals s;
     view_stats := view_stats s; loading := loading s |}.
Definition setTransactions (v : json) (s : View) : View :=
  {| view_nodes := view_nodes s; view_transactions := v; view_proposals := view_proposals s;
     view_stats := view_stats s; loading := loading s |}.
Definition setProposals (v : json) (s : View) : View :=
  {| view_nodes := view_nodes s; view_transactions := view_transactions s; view_proposals := v;
     view_stats := view_stats s; loading := loading s |}.
Definition setStats (v : json) (s : View) : View :=
  {| view_nodes := view_nodes s; view_transactions := view_transactions s; view_proposals := view_proposals s;
     view_stats := v; loading := loading s |}.
Definition setLoading (b : bool) (s : View) : View :=
  {| view_nodes := view_nodes s; view_transactions := view_transactions s; view_proposals := view_proposals s;
     view_stats := view_stats s; loading := b |}.

(** ** Polling *)

Definition API_BASE : string := "http://localhost:8080".

(** The routes, in the order of [Promise.all]. *)
Definition routes : list string :=
  (λ p, API_BASE +:+ p) <$>
  ["/nodechain/nodes"; "/nodechain/stats"; "/api/v1/ledger/recent?limit=20"; "/governance/proposals"].

(** A response: its [ok] and what [json()] gives, nothing when it rejects. *)
Record Response := { resp_ok : bool; resp_json : option json }.

Record Answers := {
  nodesRes : Response;
  statsRes : Response;
  txRes : Response;
  propRes : Response
}.

(** One line of the [try] block: [None] when awaiting the body rejects. *)
Definition take_body (r : Response) (set : json → View → View) (s : View) : option View :=
  if resp_ok r then match resp_json r with Some v => Some (set v s) | None => None end else Some s.

(** The lines of the [try] block in order; the state of the last one that ran. *)
Fixpoint take_bodies (l : list (Response * (json → View → View))) (s : View) : View :=
  match l with
  | [] => s
  | (r, set) :: l => match take_body r set s with Some s' => take_bodies l s' | None => s end
  end.

(** [fetchData]; no answers when one of the four requests fails. *)
Definition fetchData (answers : option Answers) (s : View) : View :=
  setLoading false
    match answers with
    | None => s
    | Some a => take_bodies [(nodesRes a, setNodes); (statsRes a, setStats); (txRes a, setTransactions);
                             (propRes a, setProposals)] s
    end.

(** The effect: a fetch at once and one per tick of the interval. *)
Definition poll (answers : list (option Answers)) : View := fold_left (λ s a, fetchData a s) answers initial_view.

(** ** Properties *)

(** The body a response contributes. *)
Definition body (r : Response) : option json := if resp_ok r then resp_json r else None.

Definition readable (r : Response) : Prop := resp_ok r = true → resp_json r ≠ None.

(** A poll never leaves the view loading, keeps every value when a request
    fails, and otherwise replaces exactly the values whose route answered, as long
    as every body that is read can be read. *)
Theorem fetchData_updates a s :
  loading (fetchData (Some a) s) = false ∧
  fetchData None s = setLoading false s ∧
  (Forall readable [nodesRes a; statsRes a; txRes a; propRes a] →
   fetchData (Some a) s = {|
     view_nodes := default (view_nodes s) (body (nodesRes a));
     view_transactions := default (view_transactions s) (body (txRes a));
     view_proposals := default (view_proposals s) (body (propRes a));
     view_stats := default (view_stats s) (body (statsRes a)); loading := false |}).
Proof.
  split_and!; [done|done|]. rewrite !Forall_cons. unfold readable. intros (H1 & H2 & H3 & H4 & _).
  unfold fetchData, body. destruct a as [[b1 j1] [b2 j2] [b3 j3] [b4 j4]]. cbn in *.
  destruct b1, b2, b3, b4, j1, j2, j3, j4; naive_solver.
Qed.
