(* ===== verification/Views.v ===== *)
(** * The web view

    [src/frontend/src/App.tsx] and the components of [src/frontend/src/components/]:
    each is a function from its props to the tree of elements it returns, with every
    attribute, or nothing when evaluating it throws. What the view shows comes from
    the server unchecked, so the components take [json] and behave as the language
    does on any of it. The state is that of the hook ([Frontend]) and the name of the
    current view.

    The icons are components of a library and stay elements with their names.
    [toLocaleTimeString] depends on the reader's locale and is a parameter. Text is
    cut by UTF-16 units, as the language counts; half a character outside the basic
    plane is two of its four bytes. *)

From Stdlib Require Import ZArith Ascii String.
From S2P Require Import Prelude Number NumberText Json Frontend Bootstrap.

(** ** Elements *)

(** The value of a style property. *)
Inductive css := Words (s : string) | Pixels (z : Z).

#[global] Instance css_eq_dec : EqDecision css.
Proof. solve_decision. Defined.

Inductive attribute :=
| ClassName (s : string)
| Style (l : list (string * css))
| Key (k : string)
| Size (z : Z)
| Color (s : string)
| OnClick (view : string).

#[local] Unset Elimination Schemes.

Inductive ui :=
| Text (s : string)
| Element (tag : string) (attributes : list attribute) (children : list ui).

#[local] Set Elimination Schemes.

Declare Scope css_scope.
Delimit Scope css_scope with css.
Notation "k '=:' s" := (k, Words s) (at level 60) : css_scope.
Notation "k '=#' n" := (k, Pixels n%Z) (at level 60) : css_scope.
#[local] Open Scope css_scope.

(** The text on the page, leaf by leaf. *)
Fixpoint shown (u : ui) : list string :=
  match u with Text s => [s] | Element _ _ l => concat (map shown l) end.

(** The controls on the page: what the handler of each sets the view to, and whether
    the element is drawn with the border of the selected entry. *)
Definition selected_border : string * css := "borderColor" =: "var(--color-primary)".

Definition selected (l : list attribute) : bool :=
  existsb (λ a, if a is Style st then bool_decide (selected_border ∈ st) else false) l.

Definition controls_of (l : list attribute) : list (string * bool) :=
  omap (λ a, if a is OnClick v then Some (v, selected l) else None) l.

Fixpoint controls (u : ui) : list (string * bool) :=
  match u with Text _ => [] | Element _ l c => controls_of l ++ concat (map controls c) end.

(** ** The language on a value from the server *)

(** [value.k]: reading a property of [null] or [undefined] throws. *)
Definition member (k : string) (v : option json) : option (option json) :=
  match v with None | Some JNull => None | Some j => Some (property k j) end.

(** [String(v)]: an object's own [toString] or an array's [join]. A property of that
    name in the value is no function, and the conversion throws. *)
Fixpoint text_of_json (j : json) : option string :=
  match j with
  | JNull => Some "null"
  | JBool b => Some (if b then "true" else "false")
  | JNum n => Some (num_to_string n)
  | JStr s => Some s
  | JArr l =>
    concat_comma <$> foldr (λ j r, t ← (if j is JNull then Some "" else text_of_json j); (t ::.) <$> r) (Some []) l
  | JObj o => if get_property "toString" o is Some _ then None else Some "[object Object]"
  end.

Definition text_of_value (v : option json) : option string :=
  match v with None => Some "undefined" | Some j => text_of_json j end.

(** [key={v}]: no key when it is [undefined]. *)
Definition keyed (v : option json) : option (list attribute) :=
  match v with None => Some [] | Some j => t ← text_of_json j; Some [Key t] end.

(** [{v}] between tags: text for strings and numbers, nothing for the rest, the
    elements of an array in turn; an object is refused. *)
Fixpoint child_of (j : json) : option (list ui) :=
  match j with
  | JNull | JBool _ => Some []
  | JNum n => Some [Text (num_to_string n)]
  | JStr s => Some [Text s]
  | JArr l => foldr (λ j r, a ← child_of j; (a ++.) <$> r) (Some []) l
  | JObj _ => None
  end.

Definition child (v : option json) : option (list ui) :=
  match v with None => Some [] | Some j => child_of j end.

(** The bytes of the UTF-16 unit that begins with a byte: a character outside the basic
    plane is two units, two of its four bytes each. *)
Definition unit_bytes (a : ascii) : nat :=
  let n := N_of_ascii a in
  if (n <? 128)%N then 1 else if (n <? 224)%N then 2 else if (n <? 240)%N then 3 else 2.

(** The first [n] units of a text, after [more] bytes of the unit before them. *)
Fixpoint prefix_units (n more : nat) (s : string) : string :=
  match s, more, n with
  | EmptyString, _, _ | _, 0, 0 => EmptyString
  | String a s, S more, _ => String a (prefix_units n more s)
  | String a s, 0, S n => String a (prefix_units n (unit_bytes a - 1) s)
  end.

Definition first_units (n : nat) (s : string) : string := prefix_units n 0 s.

Example units_are_not_bytes : first_units 3 "é€1x" = "é€1".
Proof. reflexivity. Qed.

(** [v.substring(0, n)]: only strings have it. *)
Definition cut (n : nat) (v : option json) : option string :=
  match v with Some (JStr s) => Some (first_units n s) | _ => None end.

(** [v.slice(0, n)], of arrays and strings. *)
Definition slice (n : nat) (j : json) : option json :=
  match j with JArr l => Some (JArr (take n l)) | JStr s => Some (JStr (first_units n s)) | _ => None end.

(** [v.map(f)], of arrays only. *)
Definition map_json (f : json → option ui) (j : json) : option (list ui) :=
  match j with JArr l => mapM f l | _ => None end.

(** [v === s]. *)
Definition is_text (v : option json) (s : string) : bool :=
  match v with Some (JStr t) => String.eqb t s | _ => false end.

(** [v.length === 0]. *)
Definition length_zero (j : json) : option bool :=
  match j with
  | JNull => None
  | JArr l => Some (bool_decide (l = []))
  | JStr s => Some (String.eqb s "")
  | JObj o => Some (if get_property "length" o is Some (JNum n) then num_eqb n zero else false)
  | _ => Some false
  end.

(** ** What the server is declared to send

    The interfaces of [useData.ts]. The compiler trusts them; nothing checks them when
    a response arrives. *)

Record Node := { id : string; type : string; ip : string; isActive : bool }.

Record Transaction := {
  hash : string; tx_type : string; sender : string; recipient : string; amount : string;
  tx_ledgerHeight : string; createdAt : string
}.

Record Proposal := {
  proposal_id : string; title : string; description : string; status : string; proposerId : string;
  impactLevel : string; actionType : string; requiredQuorumPercent : number; timelockWindow : number;
  proposal_createdAt : string
}.

Record Stats := { ledgerHeight : number; activeNodes : number; epoch : number }.

Definition node_json (n : Node) : json :=
  JObj [("id", JStr (id n)); ("type", JStr (type n)); ("ip", JStr (ip n)); ("isActive", JBool (isActive n))].

Definition transaction_json (t : Transaction) : json :=
  JObj [("hash", JStr (hash t)); ("type", JStr (tx_type t)); ("sender", JStr (sender t));
        ("recipient", JStr (recipient t)); ("amount", JStr (amount t)); ("ledgerHeight", JStr (tx_ledgerHeight t));
        ("createdAt", JStr (createdAt t))].

Definition proposal_json (p : Proposal) : json :=
  JObj [("id", JStr (proposal_id p)); ("title", JStr (title p)); ("description", JStr (description p));
        ("status", JStr (status p)); ("proposerId", JStr (proposerId p)); ("impactLevel", JStr (impactLevel p));
        ("actionType", JStr (actionType p)); ("requiredQuorumPercent", JNum (requiredQuorumPercent p));
        ("timelockWindow", JNum (timelockWindow p)); ("createdAt", JStr (proposal_createdAt p))].

Definition stats_json (s : Stats) : json :=
  JObj [("ledgerHeight", JNum (ledgerHeight s)); ("activeNodes", JNum (activeNodes s)); ("epoch", JNum (epoch s))].

(** ** Components *)

Section Views.
(** [new Date(v).toLocaleTimeString()]. *)
Context (toLocaleTimeString : option json → option string).

Definition glass : attribute := ClassName "glass-panel".
Definition dim : string := "var(--color-text-dim)".

(** *** Overview.tsx *)

Definition card (label : string) (value : list ui) (color : string) (i : Z) : ui :=
  Element "div" [Key (string_of_Z i); glass; Style ["padding" =: "24px"; "textAlign" =: "center"]]
    [Element "h3" [Style ["margin" =: "0 0 10px 0"; "color" =: dim; "fontSize" =: "14px"; "textTransform" =: "uppercase"]]
       [Text label];
     Element "div" [Style ["fontSize" =: "36px"; "fontWeight" =: "bold"; "color" =: color;
                           "textShadow" =: ("0 0 20px " +:+ color +:+ "40")]]
       value].

Definition Overview (stats : json) : option ui :=
  ledgerHeight ← member "ledgerHeight" (Some stats);
  activeNodes ← member "activeNodes" (Some stats);
  epoch ← member "epoch" (Some stats);
  epoch_text ← text_of_value epoch;
  height ← child ledgerHeight;
  active ← child activeNodes;
  Some (Element "div" [Style ["display" =: "grid"; "gridTemplateColumns" =: "repeat(auto-fit, minmax(250px, 1fr))";
                              "gap" =: "20px"]]
    [card "Ledger Height" height "var(--color-primary)" 0;
     card "Active Validators" active "var(--color-secondary)" 1;
     card "Current Epoch" [Text ("#" +:+ epoch_text)] "var(--color-success)" 2]).

(** *** NodeList.tsx *)

Definition node_card (node : json) : option ui :=
  id ← member "id" (Some node);
  key ← keyed id;
  id_text ← child id;
  ip ← child (property "ip" node);
  type ← child (property "type" node);
  Some (Element "div" (key ++ [glass; Style ["padding" =: "20px"; "display" =: "flex"; "alignItems" =: "center"; "gap" =: "15px"]])
    [Element "div" [Style ["width" =: "40px"; "height" =: "40px"; "borderRadius" =: "10px";
                           "background" =: "rgba(255, 255, 255, 0.05)"; "display" =: "flex"; "alignItems" =: "center";
                           "justifyContent" =: "center"]]
       [Element "Server" [Size 20; Color "var(--color-primary)"] []];
     Element "div" [Style ["flex" =# 1; "overflow" =: "hidden"]]
       [Element "div" [Style ["fontWeight" =: "bold"; "fontSize" =: "14px"; "whiteSpace" =: "nowrap";
                              "overflow" =: "hidden"; "textOverflow" =: "ellipsis"]] id_text;
        Element "div" [Style ["fontSize" =: "12px"; "color" =: dim; "marginTop" =: "4px"]]
          (ip ++ [Text " • "; Element "span" [Style ["color" =: "var(--color-secondary)"]] type])];
     if truthy (property "isActive" node)
     then Element "CheckCircle" [Size 18; Color "var(--color-success)"] []
     else Element "XCircle" [Size 18; Color dim] []]).

Definition NodeList (nodes : json) : option ui :=
  cards ← map_json node_card nodes;
  Some (Element "div" [Style ["display" =: "grid"; "gridTemplateColumns" =: "repeat(auto-fill, minmax(300px, 1fr))";
                              "gap" =: "20px"]] cards).

(** *** LedgerFeed.tsx *)

Definition heading (align text : string) : ui :=
  Element "th" [Style ["padding" =: "15px"; "textAlign" =: align; "color" =: dim; "fontSize" =: "12px"]] [Text text].

(** [cond && <icon/>]. *)
Definition shown_if (cond : bool) (u : ui) : list ui := if cond then [u] else [].

Definition transaction_row (tx : json) : option ui :=
  hash ← member "hash" (Some tx);
  key ← keyed hash;
  let type := property "type" tx in
  type_text ← child type;
  short ← cut 16 hash;
  amount ← child (property "amount" tx);
  time ← toLocaleTimeString (property "createdAt" tx);
  Some (Element "tr" (key ++ [Style ["borderTop" =: "1px solid var(--glass-border)"]])
    [Element "td" [Style ["padding" =: "15px"; "display" =: "flex"; "alignItems" =: "center"; "gap" =: "10px"]]
       (shown_if (is_text type "MINT") (Element "ArrowDownLeft" [Size 14; Color "var(--color-success)"] []) ++
        shown_if (is_text type "BURN") (Element "ArrowUpRight" [Size 14; Color "var(--color-danger)"] []) ++
        shown_if (is_text type "REWARD") (Element "Box" [Size 14; Color "var(--color-primary)"] []) ++
        [Element "span" [Style ["fontSize" =: "12px"; "fontWeight" =: "bold";
           "color" =: if is_text type "MINT" then "var(--color-success)"
                      else if is_text type "BURN" then "var(--color-danger)" else "var(--color-primary)"]] type_text]);
     Element "td" [Style ["padding" =: "15px"; "fontFamily" =: "monospace"; "fontSize" =: "12px"; "color" =: dim]]
       [Text short; Text "..."];
     Element "td" [Style ["padding" =: "15px"; "textAlign" =: "right"; "fontWeight" =: "bold"]]
       (amount ++ [Text " AROS"]);
     Element "td" [Style ["padding" =: "15px"; "textAlign" =: "right"; "fontSize" =: "12px"; "color" =: dim]]
       [Text time]]).

Definition LedgerFeed (transactions : json) : option ui :=
  rows ← map_json transaction_row transactions;
  Some (Element "div" [glass; Style ["overflow" =: "hidden"]]
    [Element "table" [Style ["width" =: "100%"; "borderCollapse" =: "collapse"]]
       [Element "thead" [Style ["background" =: "rgba(255, 255, 255, 0.03)"]]
          [Element "tr" [] [heading "left" "TYPE"; heading "left" "HASH"; heading "right" "AMOUNT"; heading "right" "TIME"]];
        Element "tbody" [] rows]]).

(** *** GovernancePanel.tsx *)

Definition getImpactColor (impact : option json) : string :=
  if is_text impact "CRITICAL" then "var(--color-danger)"
  else if is_text impact "HIGH" then "#ff8800"
  else if is_text impact "MEDIUM" then "var(--color-primary)"
  else "var(--color-success)".

Definition getStatusColor (status : option json) : string :=
  if is_text status "ACTIVE" then "var(--color-success)"
  else if is_text status "VETOED" then "var(--color-danger)"
  else if is_text status "FAILED_QUORUM" then "#ff8800"
  else dim.

Definition badge (color : string) (content : list ui) : ui :=
  Element "span" [Style ["background" =: "rgba(0, 0, 0, 0.3)"; "border" =: ("1px solid " +:+ color); "color" =: color;
                         "padding" =: "4px 8px"; "borderRadius" =: "4px"; "fontSize" =: "11px"; "fontWeight" =: "bold"]]
    content.

Definition strong (content : list ui) : ui := Element "strong" [Style ["color" =: "white"]] content.

Definition voting_actions : ui :=
  Element "div" [Style ["marginTop" =: "20px"; "display" =: "flex"; "gap" =: "10px"]]
    [Element "button" [glass; Style ["flex" =# 2; "padding" =: "12px"; "cursor" =: "pointer";
       "background" =: "rgba(0, 255, 157, 0.05)"; "color" =: "var(--color-success)"; "fontWeight" =: "bold";
       "border" =: "1px solid rgba(0,255,157,0.3)"; "transition" =: "all 0.2s"]] [Text "VOTE YES"];
     Element "button" [glass; Style ["flex" =# 2; "padding" =: "12px"; "cursor" =: "pointer";
       "background" =: "rgba(255, 0, 85, 0.05)"; "color" =: "var(--color-danger)"; "fontWeight" =: "bold";
       "border" =: "1px solid rgba(255,0,85,0.3)"; "transition" =: "all 0.2s"]] [Text "VOTE NO"];
     Element "button" [glass; Style ["flex" =# 1; "padding" =: "12px"; "cursor" =: "pointer"; "color" =: dim;
       "border" =: "1px solid rgba(255,255,255,0.1)"]] [Text "ABSTAIN"]].

Definition proposal_card (prop : json) : option ui :=
  id ← member "id" (Some prop);
  key ← keyed id;
  let status := property "status" prop in
  let impactLevel := property "impactLevel" prop in
  status_text ← child status;
  impact_text ← child impactLevel;
  short ← cut 8 id;
  title ← child (property "title" prop);
  actionType ← child (property "actionType" prop);
  quorum ← child (property "requiredQuorumPercent" prop);
  timelock ← child (property "timelockWindow" prop);
  description ← child (property "description" prop);
  Some (Element "div" (key ++ [glass; Style ["padding" =: "24px"; "position" =: "relative"; "overflow" =: "hidden"]])
    ([Element "div" [Style ["display" =: "flex"; "justifyContent" =: "space-between"; "marginBottom" =: "15px"]]
        [Element "div" [Style ["display" =: "flex"; "gap" =: "10px"]]
           [badge (getStatusColor status) status_text;
            badge (getImpactColor impactLevel) (impact_text ++ [Text " IMPACT"])];
         Element "span" [Style ["fontSize" =: "12px"; "color" =: dim; "fontFamily" =: "monospace"]]
           [Text "ID: "; Text short]];
      Element "h3" [Style ["margin" =: "0 0 10px 0"; "fontSize" =: "18px"]] title;
      Element "div" [Style ["display" =: "flex"; "gap" =: "20px"; "fontSize" =: "12px"; "color" =: dim;
                            "marginBottom" =: "15px"]]
        [Element "span" [] [Text "Type: "; strong actionType];
         Element "span" [] [Text "Quorum Required: "; strong (quorum ++ [Text "%"])];
         Element "span" [] [Text "TimeLock: "; strong (timelock ++ [Text " Snapshots"])]];
      Element "p" [Style ["color" =: dim; "fontSize" =: "14px"; "lineHeight" =: "1.6"; "marginBottom" =: "20px"]]
        description] ++
     shown_if (is_text status "ACTIVE") voting_actions)).

Definition GovernancePanel (proposals : json) : option ui :=
  empty ← length_zero proposals;
  if empty : bool then
    Some (Element "div" [Style ["textAlign" =: "center"; "padding" =: "40px"; "color" =: dim]]
            [Text "No active proposals found."])
  else
    cards ← map_json proposal_card proposals;
    Some (Element "div" [Style ["display" =: "grid"; "gap" =: "20px"]] cards).

(** *** Navbar.tsx *)

(** An entry of the bar: its view, its label and its icon. *)
Record NavItem := { item_id : string; label : string; icon : string }.

Definition navItems : list NavItem :=
  [{| item_id := "overview"; label := "Overview"; icon := "Activity" |};
   {| item_id := "validators"; label := "Validators"; icon := "Globe" |};
   {| item_id := "ledger"; label := "Ledger"; icon := "Layers" |};
   {| item_id := "governance"; label := "Governance"; icon := "FileText" |}].

Definition nav_button (currentView : string) (item : NavItem) : ui :=
  let selected := String.eqb currentView (item_id item) in
  Element "button"
    [Key (item_id item); OnClick (item_id item); glass;
     Style ["padding" =: "8px 16px"; "display" =: "flex"; "alignItems" =: "center"; "gap" =: "8px"; "cursor" =: "pointer";
            "background" =: if selected then "rgba(0, 240, 255, 0.15)" else "transparent";
            "borderColor" =: if selected then "var(--color-primary)" else "transparent";
            "color" =: if selected then "var(--color-primary)" else dim;
            "transition" =: "all 0.2s"]]
    [Element (icon item) [Size 16] []; Text (label item)].

Definition Navbar (currentView : string) : ui :=
  Element "nav" [glass; Style ["marginBottom" =: "20px"; "padding" =: "15px 25px"; "display" =: "flex";
                               "alignItems" =: "center"; "justifyContent" =: "space-between"]]
    [Element "div" [Style ["display" =: "flex"; "alignItems" =: "center"; "gap" =: "10px"]]
       [Element "div" [Style ["width" =: "32px"; "height" =: "32px"; "background" =: "var(--color-primary)";
                              "borderRadius" =: "50%"; "boxShadow" =: "0 0 15px var(--color-primary)"]] [];
        Element "h2" [Style ["margin" =# 0; "background" =: "linear-gradient(to right, #fff, #aaa)";
                             "WebkitBackgroundClip" =: "text"; "WebkitTextFillColor" =: "transparent"]] [Text "AST Aros"]];
     Element "div" [Style ["display" =: "flex"; "gap" =: "10px"]] (map (nav_button currentView) navItems)].

(** *** App.tsx *)

Definition overview_panel (data : View) : option ui :=
  recent ← slice 5 (view_transactions data);
  some_nodes ← slice 4 (view_nodes data);
  cards ← Overview (view_stats data);
  feed ← LedgerFeed recent;
  validators ← NodeList some_nodes;
  Some (Element "div" [Style ["display" =: "flex"; "flexDirection" =: "column"; "gap" =: "20px"]]
    [cards;
     Element "div" [Style ["display" =: "grid"; "gridTemplateColumns" =: "1.5fr 1fr"; "gap" =: "20px"; "marginTop" =: "10px"]]
       [feed;
        Element "div" [glass; Style ["padding" =: "20px"]]
          [Element "h3" [Style ["marginTop" =# 0]] [Text "Active Validators"]; validators]]]).

(** [cond && <panel/>]; the panel is evaluated only then. *)
Definition panel_if (cond : bool) (panel : option ui) : option (list ui) :=
  if cond then u ← panel; Some [u] else Some [].

Definition App (view : string) (data : View) : option ui :=
  if loading data then
    Some (Element "div" [Style ["height" =: "100vh"; "display" =: "flex"; "alignItems" =: "center"; "justifyContent" =: "center";
                                "color" =: "var(--color-primary)"]]
            [Text "INITIALIZING AST SYSTEM..."])
  else
    overview ← panel_if (String.eqb view "overview") (overview_panel data);
    validators ← panel_if (String.eqb view "validators") (NodeList (view_nodes data));
    ledger ← panel_if (String.eqb view "ledger") (LedgerFeed (view_transactions data));
    governance ← panel_if (String.eqb view "governance") (GovernancePanel (view_proposals data));
    Some (Element "div" [ClassName "page-container"]
            [Navbar view; Element "main" [] (overview ++ validators ++ ledger ++ governance)]).

(** *** main.tsx *)

(** What is rendered into the root element. *)
Definition root (view : string) (data : View) : option ui := u ← App view data; Some (Element "StrictMode" [] [u]).

(** *** The page as it is used *)

Record Page := { page_view : string; page_data : View }.

Definition render (p : Page) : option ui := App (page_view p) (page_data p).

Definition first_page : Page := {| page_view := "overview"; page_data := initial_view |}.

(** A handler of the page is called, or a poll ends with some of the [answers] the
    server can give. Nothing happens to a page that could not be rendered: no boundary
    catches the error, and the root is unmounted. *)
Inductive page_step (answers : option Answers → Prop) : Page → Page → Prop :=
| step_click p u v b : render p = Some u → (v, b) ∈ controls u →
    page_step answers p {| page_view := v; page_data := page_data p |}
| step_poll p a : is_Some (render p) → answers a →
    page_step answers p {| page_view := page_view p; page_data := fetchData a (page_data p) |}.

(** ** Properties *)

(** The data of a page, as declared. *)
Record Declared := { nodes : list Node; transactions : list Transaction; proposals : list Proposal; stats : Stats }.

Definition declared_view (d : Declared) : View :=
  {| view_nodes := JArr (node_json <$> nodes d); view_transactions := JArr (transaction_json <$> transactions d);
     view_proposals := JArr (proposal_json <$> proposals d); view_stats := stats_json (stats d); loading := false |}.

Definition stats_text (s : Stats) : list string :=
  ["Ledger Height"; num_to_string (ledgerHeight s); "Active Validators"; num_to_string (activeNodes s);
   "Current Epoch"; "#" +:+ num_to_string (epoch s)].

Definition node_text (n : Node) : list string := [id n; ip n; " • "; type n].

Definition transaction_text (time : Transaction → string) (t : Transaction) : list string :=
  [tx_type t; first_units 16 (hash t); "..."; amount t; " AROS"; time t].

Definition proposal_text (p : Proposal) : list string :=
  [status p; impactLevel p; " IMPACT"; "ID: "; first_units 8 (proposal_id p); title p; "Type: "; actionType p;
   "Quorum Required: "; num_to_string (requiredQuorumPercent p); "%"; "TimeLock: ";
   num_to_string (timelockWindow p); " Snapshots"; description p] ++
  (if String.eqb (status p) "ACTIVE" then ["VOTE YES"; "VOTE NO"; "ABSTAIN"] else []).

Definition bar_text : list string := ["AST Aros"; "Overview"; "Validators"; "Ledger"; "Governance"].
Definition table_text : list string := ["TYPE"; "HASH"; "AMOUNT"; "TIME"].

(** What a view shows of declared data. *)
Definition page_text (time : Transaction → string) (view : string) (d : Declared) : list string :=
  bar_text ++
  if String.eqb view "overview" then
    stats_text (stats d) ++ table_text ++ concat (transaction_text time <$> take 5 (transactions d)) ++
    ["Active Validators"] ++ concat (node_text <$> take 4 (nodes d))
  else if String.eqb view "validators" then concat (node_text <$> nodes d)
  else if String.eqb view "ledger" then table_text ++ concat (transaction_text time <$> transactions d)
  else if String.eqb view "governance" then
    if decide (proposals d = []) then ["No active proposals found."] else concat (proposal_text <$> proposals d)
  else [].
Lemma map_json_fmap {A} (f : json → option ui) (g : A → json) (txt : A → list string) (l : list A) :
  (∀ x, ∃ u, f (g x) = Some u ∧ shown u = txt x) →
  ∃ us, map_json f (JArr (g <$> l)) = Some us ∧ concat (map shown us) = concat (txt <$> l).
Proof.
  intros Hf. cbn [map_json]. induction l as [|x l (us & Hus & Htxt)]; [by exists []|].
  destruct (Hf x) as (u & Hu & Hshown). exists (u :: us). cbn. rewrite Hu. cbn. rewrite Hus. cbn.
  by rewrite Hshown, Htxt.
Qed.

(** Only the bar has handlers: *)
Definition inert (us : list ui) : Prop := concat (map controls us) = [].

Lemma inert_app us vs : inert us → inert vs → inert (us ++ vs).
Proof. unfold inert. rewrite map_app, concat_app. by intros -> ->. Qed.

Lemma inert_cons u us : controls u = [] → inert us → inert (u :: us).
Proof. unfold inert. cbn. by intros -> ->. Qed.

Lemma inert_foldr (l : list json) us :
  Forall (λ j, ∀ us, child_of j = Some us → inert us) l →
  foldr (λ j r, a ← child_of j; (a ++.) <$> r) (Some []) l = Some us → inert us.
Proof.
  intros Hl. revert us. induction Hl as [|j l Hj _ IH]; intros us; cbn; [by intros [= <-]|].
  intros H. simplify_option_eq. apply inert_app; eauto.
Qed.

Lemma child_inert v us : child v = Some us → inert us.
Proof.
  destruct v as [j|]; [|by intros [= <-]]. cbn. revert us.
  induction j as [| | | |l IH|o _] using json_nested_ind; intros us; cbn; try (by intros [= <-]); try done.
  by apply inert_foldr.
Qed.

Lemma keyed_controls v l attributes : keyed v = Some l → controls_of (l ++ attributes) = controls_of attributes.
Proof. destruct v; cbn; intros H; simplify_option_eq; done. Qed.

Lemma controls_element tag l c : controls_of l = [] → inert c → controls (Element tag l c) = [].
Proof. cbn. unfold inert. by intros -> ->. Qed.

Lemma inert_shown_if b u : controls u = [] → inert (shown_if b u).
Proof. intros H. destruct b; [by apply inert_cons|done]. Qed.

(** The values a rendered component read. *)
Ltac inv_render H :=
  repeat (let v := fresh "v" in let Hv := fresh "Hv" in apply bind_Some in H as (v & Hv & H)); injection H as <-.

(** Takes a rendered component apart, down to what it shows of its props. *)
Ltac solve_inert :=
  repeat first
    [ reflexivity
    | eapply child_inert; eassumption
    | erewrite keyed_controls by eassumption; reflexivity
    | apply controls_element | apply inert_cons | apply inert_app | apply inert_shown_if
    | case_match ].

Lemma node_card_controls j u : node_card j = Some u → controls u = [].
Proof. unfold node_card. intros H. inv_render H. solve_inert. Qed.

Lemma transaction_row_controls j u : transaction_row j = Some u → controls u = [].
Proof. unfold transaction_row. intros H. inv_render H. solve_inert. Qed.

Lemma proposal_card_controls j u : proposal_card j = Some u → controls u = [].
Proof. unfold proposal_card. intros H. inv_render H. solve_inert. Qed.

Lemma map_json_controls (f : json → option ui) j us :
  (∀ x u, f x = Some u → controls u = []) → map_json f j = Some us → inert us.
Proof.
  intros Hf. destruct j as [| | | |l|]; try done. cbn. intros Hus%mapM_Some.
  induction Hus as [|x u l us Hx _ IH]; [done|]. apply inert_cons; eauto.
Qed.

Lemma NodeList_controls j u : NodeList j = Some u → controls u = [].
Proof.
  unfold NodeList. intros H. inv_render H. apply controls_element; [done|].
  eapply map_json_controls; [apply node_card_controls|done].
Qed.

Lemma LedgerFeed_controls j u : LedgerFeed j = Some u → controls u = [].
Proof.
  unfold LedgerFeed. intros (rows & Hrows & [= <-])%bind_Some.
  apply (map_json_controls _ _ _ transaction_row_controls) in Hrows. by solve_inert.
Qed.

Lemma GovernancePanel_controls j u : GovernancePanel j = Some u → controls u = [].
Proof.
  unfold GovernancePanel. intros ([] & _ & H)%bind_Some; [by injection H as <-|].
  apply bind_Some in H as (cards & Hcards & [= <-]). apply controls_element; [done|].
  eapply map_json_controls; [apply proposal_card_controls|done].
Qed.

Lemma overview_controls d u : overview_panel d = Some u → controls u = [].
Proof.
  unfold overview_panel. intros (recent & _ & H)%bind_Some. apply bind_Some in H as (few & _ & H).
  apply bind_Some in H as (cards & Hc & H). apply bind_Some in H as (feed & Hf & H).
  apply bind_Some in H as (nl & Hn & [= <-]).
  assert (controls cards = []) as Hc'.
  { unfold Overview in Hc. inv_render Hc. solve_inert. }
  apply LedgerFeed_controls in Hf. apply NodeList_controls in Hn. by solve_inert.
Qed.

Lemma panel_if_inert b panel us :
  (∀ u, panel = Some u → controls u = []) → panel_if b panel = Some us → inert us.
Proof. intros Hp. destruct b; cbn; intros H; simplify_option_eq; [|done]. by apply inert_cons; [apply Hp|]. Qed.

(** The controls of any page that has left the loading screen are the bar's. *)
Lemma App_controls v d u :
  App v d = Some u → controls u = if loading d then [] else (λ i, (item_id i, String.eqb v (item_id i))) <$> navItems.
Proof.
  unfold App. destruct (loading d); [by intros [= <-]|].
  intros (p1 & H1 & H)%bind_Some. apply bind_Some in H as (p2 & H2 & H). apply bind_Some in H as (p3 & H3 & H).
  apply bind_Some in H as (p4 & H4 & [= <-]).
  apply (panel_if_inert _ _ _ (overview_controls d)) in H1. apply (panel_if_inert _ _ _ (NodeList_controls _)) in H2.
  apply (panel_if_inert _ _ _ (LedgerFeed_controls _)) in H3. apply (panel_if_inert _ _ _ (GovernancePanel_controls _)) in H4.
  assert (inert (p1 ++ p2 ++ p3 ++ p4)) as Hin by (by repeat apply inert_app).
  cbn. unfold inert in Hin. rewrite Hin. rewrite !app_nil_r.
  unfold controls_of, selected. cbn.
  destruct (String.eqb v "overview"), (String.eqb v "validators"), (String.eqb v "ledger"), (String.eqb v "governance");
    vm_compute; reflexivity.
Qed.
(** *** What the components show *)

Lemma node_card_shown n : ∃ u, node_card (node_json n) = Some u ∧ shown u = node_text n.
Proof. eexists. split; [reflexivity|]. cbn. by destruct (isActive n). Qed.

Lemma proposal_card_shown p : ∃ u, proposal_card (proposal_json p) = Some u ∧ shown u = proposal_text p.
Proof.
  eexists. split; [reflexivity|]. unfold proposal_text. cbn. by destruct (String.eqb (status p) "ACTIVE").
Qed.

Lemma NodeList_shown l :
  ∃ u, NodeList (JArr (node_json <$> l)) = Some u ∧ shown u = concat (node_text <$> l).
Proof.
  destruct (map_json_fmap node_card node_json node_text l node_card_shown) as (us & Hus & Ht).
  eexists. unfold NodeList. rewrite Hus. split; [reflexivity|done].
Qed.

Lemma GovernancePanel_shown l :
  ∃ u, GovernancePanel (JArr (proposal_json <$> l)) = Some u ∧
    shown u = if decide (l = []) then ["No active proposals found."] else concat (proposal_text <$> l).
Proof.
  destruct (map_json_fmap proposal_card proposal_json proposal_text l proposal_card_shown) as (us & Hus & Ht).
  unfold GovernancePanel. rewrite Hus. destruct l as [|p l]; eexists; (split; [reflexivity|done]).
Qed.

Section Times.
Context (time : Transaction → string).
Hypothesis time_shown : ∀ t, toLocaleTimeString (Some (JStr (createdAt t))) = Some (time t).

Lemma transaction_row_shown t :
  ∃ u, transaction_row (transaction_json t) = Some u ∧ shown u = transaction_text time t.
Proof.
  eexists. unfold transaction_row. cbn. rewrite time_shown. split; [reflexivity|]. cbn.
  by destruct (String.eqb (tx_type t) "MINT"), (String.eqb (tx_type t) "BURN"), (String.eqb (tx_type t) "REWARD").
Qed.

Lemma LedgerFeed_shown l :
  ∃ u, LedgerFeed (JArr (transaction_json <$> l)) = Some u ∧
    shown u = table_text ++ concat (transaction_text time <$> l).
Proof.
  destruct (map_json_fmap transaction_row transaction_json _ l transaction_row_shown) as (us & Hus & Ht).
  eexists. unfold LedgerFeed. rewrite Hus. split; [reflexivity|]. cbn. by rewrite !app_nil_r, Ht.
Qed.

Lemma overview_shown d :
  ∃ u, overview_panel (declared_view d) = Some u ∧
    shown u = stats_text (stats d) ++ table_text ++ concat (transaction_text time <$> take 5 (transactions d)) ++
      ["Active Validators"] ++ concat (node_text <$> take 4 (nodes d)).
Proof.
  destruct (LedgerFeed_shown (take 5 (transactions d))) as (feed & Hf & Tf).
  destruct (NodeList_shown (take 4 (nodes d))) as (nl & Hl & Tl).
  rewrite fmap_take in Hf. rewrite fmap_take in Hl. eexists. unfold overview_panel.
  cbn [slice declared_view view_transactions view_nodes mbind option_bind].
  rewrite Hf, Hl. split; [reflexivity|]. cbn. rewrite Tf, Tl. by rewrite !app_nil_r, <- app_assoc.
Qed.
End Times.

(** C40. Each view shows exactly its data: whatever the server sends within what it is
    declared to send, the page renders, and its text is the bar followed by the view's
    own, row by row and in the server's order. The overview has the figures, the first
    five transactions and the first four nodes; votes are offered on active proposals
    only; an unknown view is an empty page. *)
Theorem page_shows time view d :
  (∀ t, toLocaleTimeString (Some (JStr (createdAt t))) = Some (time t)) →
  ∃ u, App view (declared_view d) = Some u ∧ shown u = page_text time view d.
Proof.
  intros Ht. destruct (overview_shown time Ht d) as (u1 & H1 & T1), (NodeList_shown (nodes d)) as (u2 & H2 & T2),
    (LedgerFeed_shown time Ht (transactions d)) as (u3 & H3 & T3), (GovernancePanel_shown (proposals d)) as (u4 & H4 & T4).
  unfold App, page_text. cbn [loading declared_view view_nodes view_transactions view_proposals].
  destruct (String.eqb_spec view "overview") as [->|_]; [|destruct (String.eqb_spec view "validators") as [->|_];
    [|destruct (String.eqb_spec view "ledger") as [->|_]; [|destruct (String.eqb_spec view "governance") as [->|_]]]];
    cbn [panel_if String.eqb Ascii.eqb Bool.eqb]; rewrite ?H1, ?H2, ?H3, ?H4; eexists;
    (split; [reflexivity|]); cbn; rewrite ?T1, ?T2, ?T3, ?T4; by rewrite ?app_nil_r.
Qed.

(** The bar is the only control. On every page a reader can reach, one of the four
    views is current; once loaded the page has exactly the four entries as handlers,
    each leading to its own view, and exactly the current one is marked. So nothing
    happens on any of the voting buttons. *)
Theorem bar_is_the_only_control answers p :
  rtc (page_step answers) first_page p →
  page_view p ∈ item_id <$> navItems ∧
  ∀ u, render p = Some u →
    controls u = if loading (page_data p) then [] else (λ i, (item_id i, String.eqb (page_view p) (item_id i))) <$> navItems.
Proof.
  intros Hs. split; [|intros u; apply App_controls].
  revert Hs. apply (rtc_ind_r (λ p, page_view p ∈ item_id <$> navItems)); [by left|].
  intros q q' _ [p0 u v b Hu Hv|p0 a _ _] Hq; [|done]. cbn [page_view].
  apply App_controls in Hu. rewrite Hu in Hv. destruct (loading _); [by apply elem_of_nil in Hv|].
  apply list_elem_of_fmap in Hv as (i & [= -> ->] & Hi). by apply list_elem_of_fmap_2.
Qed.

(** *** Against the server of this repository *)

(** A poll's answers when the responses come from [server]. *)
Definition answered_by (server : string → Response) (a : option Answers) : Prop :=
  match a with
  | None => True
  | Some a => [nodesRes a; statsRes a; txRes a; propRes a] = server <$> routes
  end.

(** A server that answers [ok] only where a controller of this repository declares a
    route. *)
Definition declared_only (server : string → Response) : Prop :=
  ∀ p, resp_ok (server (API_BASE +:+ p)) = true → is_Some (route GET p).

(** Against the server of this repository the view stays as it began: no
    controller declares any of the four routes it polls, so whatever a reader does and
    however long it polls, the figures are 0, 0 and #1 and every list is empty. *)
Theorem view_never_fills server p :
  declared_only server → rtc (page_step (answered_by server)) first_page p →
  page_data p = initial_view ∨ page_data p = setLoading false initial_view.
Proof.
  intros Hserver Hs. revert Hs.
  apply (rtc_ind_r (λ p, page_data p = initial_view ∨ page_data p = setLoading false initial_view)); [by left|].
  intros q q' _ [p0 u v b _ _|p0 a _ Ha] Hq; [done|]. right. cbn [page_data].
  assert (∀ q, q ∈ ["/nodechain/nodes"; "/nodechain/stats"; "/api/v1/ledger/recent?limit=20"; "/governance/proposals"] →
    resp_ok (server (API_BASE +:+ q)) = false) as Hno.
  { intros r Hr. apply not_true_iff_false. intros Hok. apply Hserver in Hok.
    apply list_elem_of_In in Hr. cbn in Hr. destruct Hr as [<-|[<-|[<-|[<-|[]]]]]; by destruct Hok. }
  destruct a as [a|]; [|by destruct Hq as [->| ->]]. injection Ha as H1 H2 H3 H4.
  unfold fetchData. rewrite H1, H2, H3, H4. unfold take_bodies, take_body.
  rewrite !Hno by (repeat first [left|right]). by destruct Hq as [->| ->].
Qed.
End Views.

(** ** Witnesses *)

Section Witnesses.

Definition noon : option json → option string := λ _, Some "12:00:00".

Definition sample : Declared := {|
  nodes := [{| id := "node-1"; type := "VALIDATOR"; ip := "10.0.0.1"; isActive := true |}];
  transactions := [{| hash := "0123456789abcdef0123"; tx_type := "MINT"; sender := "a"; recipient := "b";
                      amount := "5"; tx_ledgerHeight := "1"; createdAt := "2026-01-01T12:00:00Z" |}];
  proposals := [{| proposal_id := "12345678-1"; title := "Raise"; description := "d"; status := "ACTIVE";
                   proposerId := "p"; impactLevel := "HIGH"; actionType := "SET"; requiredQuorumPercent := of_Z 60;
                   timelockWindow := of_Z 3; proposal_createdAt := "" |}];
  stats := {| ledgerHeight := of_Z 1; activeNodes := of_Z 1; epoch := of_Z 2 |} |}.

Lemma page_shows_witness :
  ∃ u, App noon "ledger" (declared_view sample) = Some u ∧
    shown u = bar_text ++ table_text ++ ["MINT"; "0123456789abcdef"; "..."; "5"; " AROS"; "12:00:00"].
Proof.
  destruct (page_shows noon (λ _, "12:00:00") "ledger" sample) as (u & Hu & Ht); [done|].
  exists u. split; [exact Hu|]. rewrite Ht. vm_compute. reflexivity.
Defined.

Definition silent : Response := {| resp_ok := false; resp_json := None |}.
Definition silent_answers : Answers := {| nodesRes := silent; statsRes := silent; txRes := silent; propRes := silent |}.

(** Loaded, then the governance entry clicked. *)
Definition governance_page : Page := {| page_view := "governance"; page_data := setLoading false initial_view |}.

Lemma governance_reached (answers : option Answers → Prop) a :
  answers (Some a) → fetchData (Some a) initial_view = setLoading false initial_view → rtc (page_step noon answers) first_page governance_page.
Proof.
  intros Ha Hf. eapply rtc_l; [apply step_poll; [by eexists|exact Ha]|].
  cbn [page_view page_data first_page]. rewrite Hf. apply rtc_once.
  eapply (step_click noon answers {| page_view := "overview"; page_data := setLoading false initial_view |} _
            "governance" false); [reflexivity|].
  apply list_elem_of_In. vm_compute. tauto.
Qed.

Lemma bar_is_the_only_control_witness :
  ∃ u, render noon governance_page = Some u ∧
    controls u = [("overview", false); ("validators", false); ("ledger", false); ("governance", true)].
Proof.
  destruct (bar_is_the_only_control noon (λ _, True) governance_page) as [_ H];
    [by apply (governance_reached _ silent_answers)|].
  eexists. split; [reflexivity|]. rewrite (H _ eq_refl). vm_compute. reflexivity.
Defined.

(** A server with exactly the declared routes. *)
Fixpoint drop_chars (n : nat) (s : string) : string :=
  match n, s with S n, String _ s => drop_chars n s | _, _ => s end.

Definition repository_server (url : string) : Response :=
  {| resp_ok := bool_decide (is_Some (route GET (drop_chars (String.length API_BASE) url))); resp_json := Some JNull |}.

Definition repository_answers : Answers :=
  {| nodesRes := repository_server (API_BASE +:+ "/nodechain/nodes");
     statsRes := repository_server (API_BASE +:+ "/nodechain/stats");
     txRes := repository_server (API_BASE +:+ "/api/v1/ledger/recent?limit=20");
     propRes := repository_server (API_BASE +:+ "/governance/proposals") |}.

Lemma repository_server_declared : declared_only repository_server.
Proof. intros p H. apply bool_decide_eq_true in H. exact H. Qed.

Lemma view_never_fills_witness :
  resp_ok (repository_server "http://localhost:8080/metrics") = true ∧
  (page_data governance_page = initial_view ∨ page_data governance_page = setLoading false initial_view).
Proof.
  split; [reflexivity|].
  apply (view_never_fills noon repository_server); [apply repository_server_declared|].
  apply (governance_reached _ repository_answers); reflexivity.
Defined.
End Witnesses.
