(* ===== verification/Demo.v ===== *)
(** * The demonstration of the reference core

    [src/reference/ast-core/src/demo.ts]: four processes, one settlement, and the
    lines it prints. *)

From S2P Require Import Prelude Number NumberFacts NumberText Json Effects World Reference.
From Stdlib Require Import ZArith.

Section Demo.
Context {PL : Platform}.

Definition demo_request (id : string) (amount : Z) (type : string) (admissible : bool) : ProcessRequest :=
  {| req_id := id; req_amount := of_Z amount; req_type := type; req_admissible := admissible |}.

Definition requests : list ProcessRequest :=
  [demo_request "P-1001" 500 "transfer" true; demo_request "P-1002" 700 "settlement" true;
   demo_request "P-1003" 300 "transfer" false; demo_request "P-1004" 900 "settlement" true].

Definition reason_text (r : Reason) : string :=
  match r with inadmissible => "inadmissible" | unverified => "unverified" end.

Definition result_line (r : RunResult) : string :=
  match r with
  | Completed p minted fee =>
    "✔ " +:+ p +:+ ": verified, minted=" +:+ num_to_string minted +:+ ", fee=" +:+ num_to_string fee
  | Stopped p reason =>
    "x " +:+ p +:+ ": НЕ подтверждён (" +:+ reason_text reason +:+ ") — стоимость не возникла"
  end.

(** The loop over the requests; an exception would end the program. *)
Fixpoint run_requests (reqs : list ProcessRequest) (c : Core) : exn + (list string * Core) :=
  match reqs with
  | [] => inr ([], c)
  | r :: reqs =>
    match runProcess r c with
    | (inl e, _) => inl e
    | (inr res, c) =>
      match run_requests reqs c with
      | inl e => inl e
      | inr (lines, c) => inr (result_line res :: lines, c)
      end
    end
  end.

Definition payment_line (d : string * number) : string :=
  "  " +:+ d.1 +:+ ": оплата " +:+ to_fixed 4 d.2 +:+ " (удержано нодой)".

Definition type_text (t : NodeType) : string :=
  match t with validator => "validator" | router => "router" | recorder => "recorder" end.

Definition node_line (n : NodeEntity) : string :=
  "  " +:+ ref_id n +:+ " [" +:+ type_text (ref_type n) +:+ "] reputation=" +:+ to_fixed 3 (ref_reputation n) +:+
  " weight=" +:+ to_fixed 3 (ref_weight n) +:+ " earned=" +:+ to_fixed 4 (ref_earned n).

Definition chain_text (a : Audit) : string :=
  match audit_brokenAt a with None => "OK" | Some i => "НАРУШЕНА@" +:+ string_of_Z i end.

(** [line("\\n" + s)]: the empty line above a heading. *)
Definition heading (s : string) : string := String (Ascii.ascii_of_nat 10) s.

Definition banner : list string :=
  ["═══════════════════════════════════════════════";
   "  AST (Aros Studio Tokenomics) — Model 1 core";
   "  Полный жизненный цикл процесса, end-to-end";
   "═══════════════════════════════════════════════";
   heading "── Прогон процессов ──"].

(** Every line the program prints. *)
Definition demo (t : Z) : exn + list string :=
  match run_requests requests (initial_core t) with
  | inl e => inl e
  | inr (lines, c) =>
    let '(epoch, c) := finalizeEpoch c in
    let '(s, c) := snapshot c in
    let '(m, c) := metrics c in
    inr (banner ++ lines ++ [heading "── Финализация эпохи (оплата нодам post-factum) ──"] ++ (payment_line <$> distributionLog epoch) ++
      ["  операционная маржа AST: " +:+ to_fixed 4 (margin epoch) +:+ " | пул сведён: " +:+ bool_text (reconciled epoch);
       heading "── Состояние супплая ArosCoin ──";
       "  processMinted=" +:+ num_to_string (supply_minted s) +:+ "  processBurned=" +:+
         num_to_string (supply_burned s) +:+ "  earnedRetained=" +:+ to_fixed 4 (supply_earned s);
       "  processNet=" +:+ num_to_string (processNet c) +:+ " (→0)  totalSupply=" +:+ to_fixed 4 (totalSupply c) +:+
         " (= заработанное удержанное)";
       heading "── Метрики устойчивости ──";
       "  reserveIndex=" +:+ to_fixed 4 (met_reserveIndex m) +:+ "  velocity=" +:+ to_fixed 2 (met_velocity m) +:+
         "  internalPrice=" +:+ to_fixed 4 (met_internalPrice m);
       "  Release Phase активна: " +:+ bool_text (release_active (met_release m)) +:+ " (mature=" +:+
         bool_text (mature (met_release m)) +:+ ")";
       heading "── Ноды (влияние из работы и репутации, без стейкинга) ──"] ++ (node_line <$> registry c) ++
      [heading "── NodeChain (система записи) ──";
       "  снимков (ExecutionSnapshot): " +:+ string_of_Z (height c) +:+ "  целостность цепочки: " +:+
         chain_text (reconstruct c);
       heading "── All-Seeing Eye (пассивный надзор) ──";
       "  записей в oversight ledger: " +:+ string_of_Z (Z.of_nat (length (oversightLedger c))) +:+
         "  сигналов целостности: " +:+ string_of_Z (Z.of_nat (length (signals c)));
       "  (Eye только наблюдал и логировал — ни одного изменения состояния)";
       heading "✅ AST Model 1: полный цикл отработал end-to-end."])
  end.

(** ** Facts *)

Lemma run_requests_spec reqs c :
  good c →
  ∃ c', run_requests reqs c =
    inr ((λ r, result_line (if req_admissible r
                            then Completed (req_id r) (req_amount r) (computeFee (req_amount r) zero)
                            else Stopped (req_id r) inadmissible)) <$> reqs, c') ∧ good c'.
Proof.
  revert c. induction reqs as [|r reqs IH]; intros c Hg; [by exists c|].
  destruct (run_spec r c Hg) as (res & c1 & Hrun & Hg1 & _ & Hr). cbn [run_requests]. rewrite Hrun.
  destruct (IH c1 Hg1) as (c2 & -> & Hg2). exists c2. split; [|done]. cbn [fmap list_fmap]. do 3 f_equal.
  by destruct (req_admissible r), Hr as [-> _].
Qed.

(** ** Properties *)

(** The demonstration runs to its end on every platform: it prints the three
    verified processes with their amounts and fees and the rejected one, and finds
    the chain intact. *)
Theorem demo_runs t :
  ∃ rest, demo t = inr (banner ++
    ["✔ P-1001: verified, minted=500, fee=2.5"; "✔ P-1002: verified, minted=700, fee=3.5";
     "x P-1003: НЕ подтверждён (inadmissible) — стоимость не возникла"; "✔ P-1004: verified, minted=900, fee=4.5"]
    ++ rest) ∧
  ∃ count, ("  снимков (ExecutionSnapshot): " +:+ count +:+ "  целостность цепочки: OK") ∈ rest.
Proof.
  destruct (run_requests_spec requests _ (good_initial t)) as (c & Hrun & Hg). unfold demo. rewrite Hrun.
  pose proof (good_finalize c Hg) as Hg1. destruct (finalizeEpoch c) as [epoch c1]. cbn [snd] in Hg1.
  unfold snapshot. cbn zeta. pose proof (good_neutral c1 (advance_clock c1)) as Hg2.
  assert (good (advance_clock c1)) as Hg3 by (by apply Hg2). clear Hg2.
  pose proof (good_metrics _ Hg3) as Hg4. destruct (metrics (advance_clock c1)) as [m c3]. cbn [snd] in Hg4.
  eexists. split; [apply (f_equal inr), (f_equal (app banner)), (f_equal2 app); [vm_compute; reflexivity|reflexivity]|].
  exists (string_of_Z (height c3)).
  assert (chain_text (reconstruct c3) = "OK") as H.
  { destruct Hg4 as [G _ _]. apply reconstruct_chained in G. unfold chain_text, reconstruct in *.
    by destruct (broken_from 0 GENESIS (ref_snapshots c3)). }
  rewrite H, !elem_of_app. right. right. right. right. right. left.
Qed.
End Demo.
