(* ===== verification/Wiring.v ===== *)
(** * The module graph

    The [*.module.ts] files of [src/src/] and the constructors of the services and
    controllers. The framework resolves a constructor parameter in the module that
    declares the class: among the module's own providers, the exports of the
    modules it imports, and the exports of global modules; it creates every class
    once, after what its constructor needs. The four framework modules the root imports
    are described by what their documentation says they provide: the configuration, and
    the connection to the database, made from the configuration, which every repository
    needs. *)

From S2P Require Import Prelude.

(** ** Data *)

Inductive Entity := ExecutionSnapshot | PotVerdict | ArosCoinLedger | Epoch | NodeEntity | ReleasePhase
  | OversightLogEntry.

(** The classes the framework creates. *)
Inductive Provider :=
| ClockService | NodeChainService | StateRecordingService | PotService | ArosCoinService | EmissionService
| CommissionService | ReserveService | ReleaseService | NodesService | AllSeeingEyeService
| OrchestratorService | OrchestratorController | MetricsController | AppController
| ConfigService | DataSource
| Repository (e : Entity).

#[global] Instance entity_eq_dec : EqDecision Entity.
Proof. solve_decision. Defined.
#[global] Instance provider_eq_dec : EqDecision Provider.
Proof. solve_decision. Defined.

Inductive ModuleName := AppModule | CommonModule | NodeChainModule | StateRecordingModule | PotModule
  | ArosCoinModule | EmissionModule | CommissionModule | ReserveModule | ReleaseModule | NodesModule
  | AllSeeingEyeModule | OrchestratorModule
  | ConfigModule | EventEmitterModule | ScheduleModule | TypeOrmCoreModule.

#[global] Instance module_eq_dec : EqDecision ModuleName.
Proof. solve_decision. Defined.

(** The argument of [@Module]. [features] are the entities of
    [TypeOrmModule.forFeature], whose repositories the import provides. *)
Record ModuleSpec := {
  global : bool;
  imports : list ModuleName;
  features : list Entity;
  controllers : list Provider;
  providers : list Provider;
  exports : list Provider
}.

(** ** The modules *)

(** A module with one service, which it exports. *)
Definition serving (imported : list ModuleName) (features : list Entity) (service : Provider) : ModuleSpec :=
  {| global := false; imports := imported; features := features; controllers := []; providers := [service];
     exports := [service] |}.

Definition common_module : ModuleSpec :=
  {| global := true; imports := []; features := []; controllers := []; providers := [ClockService];
     exports := [ClockService] |}.
Definition nodechain_module : ModuleSpec := serving [] [ExecutionSnapshot] NodeChainService.
Definition state_recording_module : ModuleSpec := serving [NodeChainModule] [] StateRecordingService.
Definition pot_module : ModuleSpec := serving [NodeChainModule; StateRecordingModule] [PotVerdict] PotService.
Definition aroscoin_module : ModuleSpec := serving [] [ArosCoinLedger] ArosCoinService.
Definition emission_module : ModuleSpec :=
  serving [ArosCoinModule; PotModule; NodeChainModule] [] EmissionService.
Definition commission_module : ModuleSpec :=
  serving [NodesModule; PotModule; NodeChainModule; ArosCoinModule; ReserveModule] [Epoch] CommissionService.
Definition reserve_module : ModuleSpec := serving [NodeChainModule] [] ReserveService.
Definition release_module : ModuleSpec :=
  serving [ReserveModule; ArosCoinModule; NodeChainModule] [ReleasePhase] ReleaseService.
Definition nodes_module : ModuleSpec := serving [NodeChainModule] [NodeEntity] NodesService.
Definition all_seeing_eye_module : ModuleSpec :=
  serving [NodeChainModule] [OversightLogEntry] AllSeeingEyeService.
Definition orchestrator_module : ModuleSpec :=
  {| global := false;
     imports := [StateRecordingModule; PotModule; EmissionModule; ArosCoinModule; CommissionModule; NodesModule;
                 ReserveModule; ReleaseModule; AllSeeingEyeModule; NodeChainModule];
     features := []; controllers := [OrchestratorController; MetricsController];
     providers := [OrchestratorService]; exports := [OrchestratorService] |}.
(** [ConfigModule.forRoot({ isGlobal: true, ... })]. *)
Definition config_module : ModuleSpec :=
  {| global := true; imports := []; features := []; controllers := []; providers := [ConfigService];
     exports := [ConfigService] |}.

(** [EventEmitterModule.forRoot()] and [ScheduleModule.forRoot()]: no class of the
    application injects what they provide. *)
Definition unused_module : ModuleSpec :=
  {| global := false; imports := []; features := []; controllers := []; providers := []; exports := [] |}.

(** The global module of [TypeOrmModule.forRootAsync({ imports: [ConfigModule],
    inject: [ConfigService], ... })]. *)
Definition typeorm_core_module : ModuleSpec :=
  {| global := true; imports := [ConfigModule]; features := []; controllers := []; providers := [DataSource];
     exports := [DataSource] |}.

Definition app_module : ModuleSpec :=
  {| global := false;
     imports := [ConfigModule; EventEmitterModule; ScheduleModule; TypeOrmCoreModule; CommonModule; NodeChainModule; StateRecordingModule; PotModule; ArosCoinModule; EmissionModule;
                 CommissionModule; ReserveModule; ReleaseModule; NodesModule; AllSeeingEyeModule;
                 OrchestratorModule];
     features := []; controllers := [AppController]; providers := []; exports := [] |}.

Definition module_spec (m : ModuleName) : ModuleSpec :=
  match m with
  | AppModule => app_module | CommonModule => common_module | NodeChainModule => nodechain_module
  | StateRecordingModule => state_recording_module | PotModule => pot_module
  | ArosCoinModule => aroscoin_module | EmissionModule => emission_module
  | CommissionModule => commission_module | ReserveModule => reserve_module
  | ReleaseModule => release_module | NodesModule => nodes_module
  | AllSeeingEyeModule => all_seeing_eye_module | OrchestratorModule => orchestrator_module
  | ConfigModule => config_module | EventEmitterModule | ScheduleModule => unused_module
  | TypeOrmCoreModule => typeorm_core_module
  end.

(** ** The constructors *)

Definition NodeChainService_deps : list Provider := [Repository ExecutionSnapshot; ClockService].
Definition StateRecordingService_deps : list Provider := [NodeChainService].
Definition PotService_deps : list Provider :=
  [Repository PotVerdict; NodeChainService; StateRecordingService; ClockService].
Definition ArosCoinService_deps : list Provider := [Repository ArosCoinLedger; ClockService].
Definition EmissionService_deps : list Provider := [ArosCoinService; PotService; NodeChainService].
Definition CommissionService_deps : list Provider :=
  [Repository Epoch; NodesService; PotService; NodeChainService; ArosCoinService; ReserveService; ClockService].
Definition ReserveService_deps : list Provider := [NodeChainService].
Definition ReleaseService_deps : list Provider :=
  [Repository ReleasePhase; ReserveService; ArosCoinService; NodeChainService; ClockService].
Definition NodesService_deps : list Provider := [Repository NodeEntity; NodeChainService].
Definition AllSeeingEyeService_deps : list Provider :=
  [Repository OversightLogEntry; ClockService; NodeChainService].
Definition OrchestratorService_deps : list Provider :=
  [StateRecordingService; PotService; EmissionService; ArosCoinService; CommissionService; NodesService;
   ReserveService; ReleaseService; AllSeeingEyeService; NodeChainService].
Definition OrchestratorController_deps : list Provider := [OrchestratorService].
Definition MetricsController_deps : list Provider := [OrchestratorService].

(** The [inject] of the connection's factory. *)
Definition DataSource_deps : list Provider := [ConfigService].

Definition dependencies (p : Provider) : list Provider :=
  match p with
  | NodeChainService => NodeChainService_deps | StateRecordingService => StateRecordingService_deps
  | PotService => PotService_deps | ArosCoinService => ArosCoinService_deps
  | EmissionService => EmissionService_deps | CommissionService => CommissionService_deps
  | ReserveService => ReserveService_deps | ReleaseService => ReleaseService_deps
  | NodesService => NodesService_deps | AllSeeingEyeService => AllSeeingEyeService_deps
  | OrchestratorService => OrchestratorService_deps
  | OrchestratorController => OrchestratorController_deps | MetricsController => MetricsController_deps
  | DataSource => DataSource_deps
  | Repository _ => [DataSource]
  | ClockService | AppController | ConfigService => []
  end.

(** ** Resolution *)

(** The modules loaded from the root, in the order they are met. *)
Fixpoint load (fuel : nat) (pending loaded : list ModuleName) : list ModuleName :=
  match fuel, pending with
  | S fuel, m :: pending =>
    if bool_decide (m ∈ loaded) then load fuel pending loaded
    else load fuel (imports (module_spec m) ++ pending) (loaded ++ [m])
  | _, _ => loaded
  end.

Definition loaded_modules : list ModuleName := load 100 [AppModule] [].

(** What the global modules offer to every module. *)
Definition visible_everywhere : list Provider :=
  filter (λ m', global (module_spec m') = true) loaded_modules ≫= λ m', exports (module_spec m').

(** What a module can inject. *)
Definition visible (m : ModuleName) : list Provider :=
  let s := module_spec m in
  providers s ++ (Repository <$> features s) ++ (imports s ≫= λ m', exports (module_spec m')) ++
  visible_everywhere.

(** The classes a module declares. *)
Definition declared (m : ModuleName) : list Provider :=
  providers (module_spec m) ++ controllers (module_spec m).

(** ** Creation *)

(** One class can be created when what its constructor needs exists; a repository, which
    its own module [forFeature] declares, when the connection does. *)
Inductive created : Provider → Prop :=
| created_repository e : DataSource ∈ visible_everywhere → created DataSource → created (Repository e)
| created_class m p :
    m ∈ loaded_modules → p ∈ declared m → (∀ d, d ∈ dependencies p → d ∈ visible m) →
    (∀ d, d ∈ dependencies p → created d) → created p.

(** The modules that can inject a class. *)
Definition holders (p : Provider) : list Provider :=
  filter (λ q, p ∈ dependencies q) (loaded_modules ≫= declared).

(** ** Facts *)

Ltac by_table := apply (bool_decide_unpack _); vm_compute; exact I.

Lemma declared_created m p :
  m ∈ loaded_modules → p ∈ declared m → Forall (λ d, d ∈ visible m) (dependencies p) →
  Forall created (dependencies p) → created p.
Proof. intros Hm Hp Hv Hc. rewrite Forall_forall in Hv, Hc. by apply (created_class m). Qed.

(** The services in an order in which each finds what it needs. *)
Definition creation_order : list (ModuleName * Provider) :=
  [(ConfigModule, ConfigService); (TypeOrmCoreModule, DataSource); (CommonModule, ClockService); (NodeChainModule, NodeChainService);
   (StateRecordingModule, StateRecordingService); (PotModule, PotService); (ArosCoinModule, ArosCoinService);
   (EmissionModule, EmissionService); (NodesModule, NodesService); (ReserveModule, ReserveService);
   (CommissionModule, CommissionService); (ReleaseModule, ReleaseService);
   (AllSeeingEyeModule, AllSeeingEyeService); (OrchestratorModule, OrchestratorService);
   (OrchestratorModule, OrchestratorController); (OrchestratorModule, MetricsController);
   (AppModule, AppController)].

(** A class of the order, given those before it. *)
Definition ready (before : list Provider) (mp : ModuleName * Provider) : Prop :=
  mp.1 ∈ loaded_modules ∧ mp.2 ∈ declared mp.1 ∧
  Forall (λ d, d ∈ visible mp.1 ∧
    (d ∈ before ∨ match d with Repository _ => DataSource ∈ visible_everywhere ∧ DataSource ∈ before | _ => False end))
    (dependencies mp.2).

#[global] Instance ready_dec before mp : Decision (ready before mp).
Proof.
  unfold ready. apply and_dec; [apply _|]. apply and_dec; [apply _|]. apply Forall_dec. intros d.
  apply and_dec; [apply _|]. apply or_dec; [apply _|]. destruct d; apply _.
Defined.

Fixpoint all_ready (before : list Provider) (order : list (ModuleName * Provider)) : Prop :=
  match order with
  | [] => True
  | mp :: order => ready before mp ∧ all_ready (before ++ [mp.2]) order
  end.

#[global] Instance all_ready_dec before order : Decision (all_ready before order).
Proof. revert before. induction order; intros before; cbn; apply _. Defined.

Lemma all_ready_created before order :
  Forall created before → all_ready before order → Forall created (order.*2).
Proof.
  revert before. induction order as [|[m p] order IH]; intros before Hb; [constructor|].
  intros [(Hm & Hp & Hd) Hr]. cbn [fst snd] in *.
  assert (created p) as Hc.
  { apply (declared_created m); [done|done| |].
    - eapply Forall_impl; [exact Hd|]. by intros d [? _].
    - rewrite Forall_forall in Hb. eapply Forall_impl; [exact Hd|]. intros d [_ [H|H]]; [by apply Hb|].
      destruct d; try done. destruct H as [Hv H]. by constructor; [|apply Hb]. }
  constructor; [done|]. apply (IH (before ++ [p])); [|done]. apply Forall_app. by split; [|constructor].
Qed.

(** ** Properties *)

(** The application starts: every service and controller of every loaded module
    is created, each with a constructor whose parameters its own module can
    inject. *)
Theorem every_class_created :
  Forall (λ m, Forall created (declared m)) loaded_modules ∧ length loaded_modules = 17.
Proof.
  split; [|vm_compute; reflexivity].
  assert (Forall created (creation_order.*2)) as Hc.
  { apply (all_ready_created []); [constructor|]. by_table. }
  rewrite Forall_forall in Hc. apply Forall_forall. intros m Hm. apply Forall_forall. intros p Hp. apply Hc.
  assert (Forall (λ m, Forall (λ p, p ∈ creation_order.*2) (declared m)) loaded_modules) as H by by_table.
  rewrite Forall_forall in H. specialize (H m Hm). rewrite Forall_forall in H. by apply H.
Qed.

(** Who can reach the value: the ledger of ArosCoin is injected into emission,
    commission, release and the orchestrator only, the minter into the
    orchestrator only, and each table into the one service that owns it. *)
Theorem value_reachable_from :
  holders ArosCoinService ≡ₚ [EmissionService; CommissionService; ReleaseService; OrchestratorService] ∧
  holders EmissionService = [OrchestratorService] ∧
  (∀ e, length (holders (Repository e)) = 1).
Proof.
  split; [|split].
  - apply (bool_decide_unpack _). vm_compute. exact I.
  - vm_compute. reflexivity.
  - intros []; vm_compute; reflexivity.
Qed.
