(* ===== verification/Solidity.v ===== *)
(** * Functions of a Solidity contract

    What [src/smart_contracts/contracts/] uses of the language: a function runs for
    a caller ([msg.sender]) on the storage of its contract; it either reverts, which
    undoes everything, or returns a value, the new storage and the events it emitted.
    Arithmetic is on 256-bit words: checked by default, wrapping in an [unchecked]
    block. *)

From S2P Require Import Prelude.
From Stdlib Require Import ZArith String.

Local Open Scope Z_scope.

(** ** Words *)

(** One more than [type(uint256).max]. *)
Definition modulus : Z := 2 ^ 256.
Definition uint256_max : Z := modulus - 1.
Definition address_modulus : Z := 2 ^ 160.

Definition is_uint256 (v : Z) : Prop := 0 ≤ v < modulus.
Definition is_address (a : Z) : Prop := 0 ≤ a < address_modulus.

#[global] Instance is_uint256_dec v : Decision (is_uint256 v) := _.
#[global] Instance is_address_dec a : Decision (is_address a) := _.

(** [address(0)]. *)
Abbreviation address0 := 0%Z (only parsing).

(** [unchecked { x + y }] and [unchecked { x - y }]. *)
Definition unchecked_add (x y : Z) : Z := (x + y) mod modulus.
Definition unchecked_sub (x y : Z) : Z := (x - y) mod modulus.

Lemma modulus_pos : 0 < modulus.
Proof. by apply Z.pow_pos_nonneg. Qed.

Lemma address_modulus_pos : 0 < address_modulus.
Proof. by apply Z.pow_pos_nonneg. Qed.

Lemma address_below_modulus : address_modulus < modulus.
Proof. by apply Z.pow_lt_mono_r. Qed.

Lemma address_is_uint256 a : is_address a → is_uint256 a.
Proof. unfold is_address, is_uint256. pose proof address_below_modulus. lia. Qed.

#[global] Opaque modulus address_modulus.

Lemma unchecked_add_exact x y : is_uint256 (x + y) → unchecked_add x y = x + y.
Proof. apply Z.mod_small. Qed.

Lemma unchecked_sub_exact x y : is_uint256 (x - y) → unchecked_sub x y = x - y.
Proof. apply Z.mod_small. Qed.

(** ** Functions *)

(** Why a call reverts: a failed check of the language (overflow is [0x11]), a
    [require] with its text, or an error the contract declares. *)
Inductive revert_reason (E : Type) :=
| Panic (code : Z)
| Error (message : string)
| Custom (error : E).
Arguments Panic {E} code.
Arguments Error {E} message.
Arguments Custom {E} error.

(** A function of a contract with errors [E], events [L] and storage [S]. *)
Definition contract (E L S A : Type) : Type :=
  Z → S → revert_reason E + (A * S * list L).

Section Functions.
Context {E L S : Type}.

#[global] Instance contract_ret : MRet (contract E L S) := λ A a _ s, inr (a, s, []).
#[global] Instance contract_bind : MBind (contract E L S) := λ A B k m sender s,
  match m sender s with
  | inl e => inl e
  | inr (a, s, l) =>
    match k a sender s with
    | inl e => inl e
    | inr (b, s, l') => inr (b, s, l ++ l')
    end
  end.

Definition msg_sender : contract E L S Z := λ sender s, inr (sender, s, []).
Definition load {A} (f : S → A) : contract E L S A := λ _ s, inr (f s, s, []).
Definition store (f : S → S) : contract E L S () := λ _ s, inr (tt, f s, []).
Definition emit_event (l : L) : contract E L S () := λ _ s, inr (tt, s, [l]).
Definition revert {A} (e : revert_reason E) : contract E L S A := λ _ _, inl e.

(** [require(condition, message)]. *)
Definition require (b : bool) (message : string) : contract E L S () :=
  if b then mret tt else revert (Error message).

(** [x + y] on [uint256] outside [unchecked]. *)
Definition checked_add (x y : Z) : contract E L S Z :=
  if decide (x + y < modulus) then mret (x + y) else revert (Panic 0x11).

Lemma bind_ok {A B} (m : contract E L S A) (k : A → contract E L S B) sender s b s' l :
  (m ≫= k) sender s = inr (b, s', l) ↔
  ∃ a s1 l1 l2, m sender s = inr (a, s1, l1) ∧ k a sender s1 = inr (b, s', l2) ∧ l = l1 ++ l2.
Proof.
  unfold mbind, contract_bind. split.
  - destruct (m sender s) as [?|[[a s1] l1]]; [done|].
    destruct (k a sender s1) as [?|[[b' s2] l2]] eqn:Hk; [done|]. intros [= <- <- <-].
    exists a, s1, l1, l2. split_and!; [done|exact Hk|done].
  - by intros (a&s1&l1&l2&->&->&->).
Qed.

Lemma bind_inv {A B} (m : contract E L S A) (k : A → contract E L S B) sender s b s' l :
  (m ≫= k) sender s = inr (b, s', l) →
  ∃ a s1 l1 l2, m sender s = inr (a, s1, l1) ∧ k a sender s1 = inr (b, s', l2) ∧ l = l1 ++ l2.
Proof. apply bind_ok. Qed.

Lemma sender_bind {B} (k : Z → contract E L S B) sender s : (msg_sender ≫= k) sender s = k sender sender s.
Proof. unfold mbind, contract_bind. simpl. by destruct (k sender sender s) as [?|[[??]?]]. Qed.

Lemma load_bind {A B} (f : S → A) (k : A → contract E L S B) sender s : (load f ≫= k) sender s = k (f s) sender s.
Proof. unfold mbind, contract_bind. simpl. by destruct (k (f s) sender s) as [?|[[??]?]]. Qed.

Lemma require_bind {B} (b : bool) m (k : contract E L S B) sender s :
  (require b m;; k) sender s = if b then k sender s else inl (Error m).
Proof. unfold mbind, contract_bind. destruct b; simpl; [|done]. by destruct (k sender s) as [?|[[??]?]]. Qed.

Lemma store_bind {B} (f : S → S) (k : contract E L S B) sender s : (store f;; k) sender s = k sender (f s).
Proof. unfold mbind, contract_bind. simpl. by destruct (k sender (f s)) as [?|[[??]?]]. Qed.

Lemma then_ret {A B} (m : contract E L S A) (b : B) sender s c s' l :
  (m;; mret b) sender s = inr (c, s', l) ↔ c = b ∧ ∃ a, m sender s = inr (a, s', l).
Proof.
  rewrite bind_ok. split.
  - intros (a&s1&l1&l2&E1&[= <- <- <-]&->). rewrite app_nil_r. eauto.
  - intros (->&a&E1). exists a, s', l, []. by rewrite app_nil_r.
Qed.
End Functions.

(** A contract runs the functions of one it inherits from on its part of the storage. *)
Section Inherit.
Context {E L S E' L' S' : Type} (get : S' → S) (set : S → S' → S') (error : E → E') (event : L → L').

Definition reason_map (e : revert_reason E) : revert_reason E' :=
  match e with Panic c => Panic c | Error m => Error m | Custom e => Custom (error e) end.

Definition inherit {A} (f : contract E L S A) : contract E' L' S' A := λ sender s,
  match f sender (get s) with
  | inl e => inl (reason_map e)
  | inr (a, p, l) => inr (a, set p s, event <$> l)
  end.

Lemma inherit_ok {A} (f : contract E L S A) sender s a s' l :
  inherit f sender s = inr (a, s', l) ↔
  ∃ p l0, f sender (get s) = inr (a, p, l0) ∧ s' = set p s ∧ l = event <$> l0.
Proof.
  unfold inherit. destruct (f sender (get s)) as [e|[[b p] l0]]; [naive_solver|]. split.
  - intros [= <- <- <-]. eauto.
  - by intros (?&?&[= <- <- <-]&->&->).
Qed.
End Inherit.
