(* ===== verification/Ownable.v ===== *)
(** * Ownable

    The contract [Ownable] of [@openzeppelin/contracts/access/Ownable.sol], as the
    build of the repository records it
    ([src/smart_contracts/artifacts/build-info/], its [input.sources]). *)

From S2P Require Import Prelude Solidity.
From Stdlib Require Import ZArith String.

Local Open Scope Z_scope.

Inductive OwnableError :=
| OwnableUnauthorizedAccount (account : Z)
| OwnableInvalidOwner (owner : Z).

Inductive OwnableEvent :=
| OwnershipTransferred (previousOwner newOwner : Z).

#[global] Instance OwnableError_eq_dec : EqDecision OwnableError.
Proof. solve_decision. Defined.
#[global] Instance OwnableEvent_eq_dec : EqDecision OwnableEvent.
Proof. solve_decision. Defined.

(** The storage: [_owner]. *)
Record OwnableStorage := { _owner : Z }.

Abbreviation ownable := (contract OwnableError OwnableEvent OwnableStorage).

(** ** Functions *)

Definition owner : ownable Z := load _owner.

Definition _checkOwner : ownable () :=
  o ← owner;
  sender ← msg_sender;
  if decide (o = sender) then mret tt else revert (Custom (OwnableUnauthorizedAccount sender)).

Definition _transferOwnership (newOwner : Z) : ownable () :=
  oldOwner ← load _owner;
  store (λ _, {| _owner := newOwner |});;
  emit_event (OwnershipTransferred oldOwner newOwner).

Definition Ownable_constructor (initialOwner : Z) : ownable () :=
  if decide (initialOwner = address0) then revert (Custom (OwnableInvalidOwner address0))
  else _transferOwnership initialOwner.

Definition renounceOwnership : ownable () := _checkOwner;; _transferOwnership address0.

Definition transferOwnership (newOwner : Z) : ownable () :=
  _checkOwner;;
  if decide (newOwner = address0) then revert (Custom (OwnableInvalidOwner address0))
  else _transferOwnership newOwner.

(** ** What they do *)

Lemma checkOwner_eq sender s :
  _checkOwner sender s =
  if decide (_owner s = sender) then inr (tt, s, [])
  else inl (Custom (OwnableUnauthorizedAccount sender)).
Proof.
  unfold _checkOwner, owner, load, msg_sender, mbind, contract_bind. simpl. by case_decide.
Qed.

Lemma transferOwnership_ok newOwner sender s s' l :
  transferOwnership newOwner sender s = inr (tt, s', l) →
  _owner s = sender ∧ newOwner ≠ address0 ∧ _owner s' = newOwner.
Proof.
  unfold transferOwnership, mbind, contract_bind. rewrite checkOwner_eq. case_decide; [|done].
  case_decide; [done|]. by intros [= <- _].
Qed.

Lemma renounceOwnership_ok sender s s' l :
  renounceOwnership sender s = inr (tt, s', l) → _owner s = sender ∧ _owner s' = address0.
Proof.
  unfold renounceOwnership, mbind, contract_bind. rewrite checkOwner_eq. case_decide; [|done].
  by intros [= <- _].
Qed.
