(* ===== verification/ERC20.v ===== *)
(** * ERC20 and ERC20Burnable

    The token contracts of [@openzeppelin/contracts/token/ERC20/] the reserve
    contract inherits from, as the build of the repository records them
    ([src/smart_contracts/artifacts/build-info/], its [input.sources]). The last part
    gives them their meaning: when a function succeeds, and that its [Transfer]
    events then say everything about balances and supply, in exact integers. *)

From S2P Require Import Prelude Solidity.
From Stdlib Require Import ZArith String.

Local Open Scope Z_scope.

(** The errors of [IERC20Errors] ([draft-IERC6093.sol]). *)
Inductive ERC20Error :=
| ERC20InsufficientBalance (sender balance needed : Z)
| ERC20InvalidSender (sender : Z)
| ERC20InvalidReceiver (receiver : Z)
| ERC20InsufficientAllowance (spender allowance needed : Z)
| ERC20InvalidApprover (approver : Z)
| ERC20InvalidSpender (spender : Z).

(** The events of [IERC20]. *)
Inductive ERC20Event :=
| Transfer (from to value : Z)
| Approval (owner spender value : Z).

#[global] Instance ERC20Error_eq_dec : EqDecision ERC20Error.
Proof. solve_decision. Defined.
#[global] Instance ERC20Event_eq_dec : EqDecision ERC20Event.
Proof. solve_decision. Defined.

(** The storage. A mapping holds zero where nothing was written. *)
Record ERC20Storage := {
  _balances : gmap Z Z;
  _allowances : gmap (Z * Z) Z;
  _totalSupply : Z;
  _name : string;
  _symbol : string
}.

Abbreviation erc20 := (contract ERC20Error ERC20Event ERC20Storage).

Definition balance_at (s : ERC20Storage) (a : Z) : Z := default 0 (_balances s !! a).
Definition allowance_at (s : ERC20Storage) (o p : Z) : Z := default 0 (_allowances s !! (o, p)).

Definition set_balance (a v : Z) (s : ERC20Storage) : ERC20Storage :=
  {| _balances := <[a := v]> (_balances s); _allowances := _allowances s;
     _totalSupply := _totalSupply s; _name := _name s; _symbol := _symbol s |}.
Definition set_allowance (o p v : Z) (s : ERC20Storage) : ERC20Storage :=
  {| _balances := _balances s; _allowances := <[(o, p) := v]> (_allowances s);
     _totalSupply := _totalSupply s; _name := _name s; _symbol := _symbol s |}.
Definition set_supply (v : Z) (s : ERC20Storage) : ERC20Storage :=
  {| _balances := _balances s; _allowances := _allowances s;
     _totalSupply := v; _name := _name s; _symbol := _symbol s |}.

(** ** Functions *)

Definition ERC20_constructor (name_ symbol_ : string) : ERC20Storage :=
  {| _balances := ∅; _allowances := ∅; _totalSupply := 0; _name := name_; _symbol := symbol_ |}.

Definition name : erc20 string := load _name.
Definition symbol : erc20 string := load _symbol.
Definition decimals : erc20 Z := mret 18.
Definition totalSupply : erc20 Z := load _totalSupply.
Definition balanceOf (account : Z) : erc20 Z := load (λ s, balance_at s account).
Definition allowance (owner spender : Z) : erc20 Z := load (λ s, allowance_at s owner spender).

Definition _update (from to value : Z) : erc20 () :=
  (if decide (from = address0) then
     supply ← load _totalSupply;
     supply ← checked_add supply value;
     store (set_supply supply)
   else
     fromBalance ← load (λ s, balance_at s from);
     if decide (fromBalance < value) then revert (Custom (ERC20InsufficientBalance from fromBalance value))
     else store (set_balance from (unchecked_sub fromBalance value)));;
  (if decide (to = address0) then store (λ s, set_supply (unchecked_sub (_totalSupply s) value) s)
   else store (λ s, set_balance to (unchecked_add (balance_at s to) value) s));;
  emit_event (Transfer from to value).

Definition _transfer (from to value : Z) : erc20 () :=
  if decide (from = address0) then revert (Custom (ERC20InvalidSender address0))
  else if decide (to = address0) then revert (Custom (ERC20InvalidReceiver address0))
  else _update from to value.

Definition _mint (account value : Z) : erc20 () :=
  if decide (account = address0) then revert (Custom (ERC20InvalidReceiver address0))
  else _update address0 account value.

Definition _burn (account value : Z) : erc20 () :=
  if decide (account = address0) then revert (Custom (ERC20InvalidSender address0))
  else _update account address0 value.

Definition _approve (owner spender value : Z) (emitEvent : bool) : erc20 () :=
  if decide (owner = address0) then revert (Custom (ERC20InvalidApprover address0))
  else if decide (spender = address0) then revert (Custom (ERC20InvalidSpender address0))
  else
    store (set_allowance owner spender value);;
    if emitEvent then emit_event (Approval owner spender value) else mret tt.

Definition _spendAllowance (owner spender value : Z) : erc20 () :=
  currentAllowance ← allowance owner spender;
  if decide (currentAllowance < uint256_max) then
    if decide (currentAllowance < value) then
      revert (Custom (ERC20InsufficientAllowance spender currentAllowance value))
    else _approve owner spender (unchecked_sub currentAllowance value) false
  else mret tt.

Definition transfer (to value : Z) : erc20 bool :=
  owner ← msg_sender;
  _transfer owner to value;;
  mret true.

Definition approve (spender value : Z) : erc20 bool :=
  owner ← msg_sender;
  _approve owner spender value true;;
  mret true.

Definition transferFrom (from to value : Z) : erc20 bool :=
  spender ← msg_sender;
  _spendAllowance from spender value;;
  _transfer from to value;;
  mret true.

(** [ERC20Burnable]. *)
Definition burn (value : Z) : erc20 () :=
  sender ← msg_sender;
  _burn sender value.

Definition burnFrom (account value : Z) : erc20 () :=
  sender ← msg_sender;
  _spendAllowance account sender value;;
  _burn account value.

(** ** The sum of all balances *)

Definition total (m : gmap Z Z) : Z := map_fold (λ _ v acc, v + acc) 0 m.

Lemma total_empty : total ∅ = 0.
Proof. apply map_fold_empty. Qed.

Lemma total_insert_fresh m a v : m !! a = None → total (<[a:=v]> m) = v + total m.
Proof. intros Ha. apply map_fold_insert_L; [lia|done]. Qed.

Lemma total_delete m a : total m = default 0 (m !! a) + total (delete a m).
Proof.
  destruct (m !! a) as [v|] eqn:Ha; simpl.
  - rewrite <- (insert_delete_id m a v Ha) at 1. by rewrite total_insert_fresh by apply lookup_delete_eq.
  - by rewrite delete_id.
Qed.

Lemma total_insert m a v : total (<[a:=v]> m) = total m + v - default 0 (m !! a).
Proof.
  rewrite <- insert_delete_eq, total_insert_fresh by apply lookup_delete_eq.
  rewrite (total_delete m a). lia.
Qed.

Lemma total_nonneg m : (∀ a, 0 ≤ default 0 (m !! a)) → 0 ≤ total m.
Proof.
  induction m as [|a v m Ha IH] using map_ind; intros H; [by rewrite total_empty|].
  rewrite total_insert_fresh by done.
  pose proof (H a) as Hv. rewrite lookup_insert_eq in Hv. simpl in Hv.
  assert (0 ≤ total m); [|lia]. apply IH. intros b. destruct (decide (a = b)) as [<-|Hab]; [by rewrite Ha|].
  specialize (H b). by rewrite lookup_insert_ne in H.
Qed.

Lemma total_member m a : (∀ a, 0 ≤ default 0 (m !! a)) → default 0 (m !! a) ≤ total m.
Proof.
  intros H. rewrite (total_delete m a). assert (0 ≤ total (delete a m)); [|lia].
  apply total_nonneg. intros b. destruct (decide (a = b)) as [<-|Hab]; [by rewrite lookup_delete_eq|].
  by rewrite lookup_delete_ne.
Qed.

(** Two members weigh no more than everything. *)
Lemma total_members m a b : a ≠ b → (∀ a, 0 ≤ default 0 (m !! a)) →
  default 0 (m !! a) + default 0 (m !! b) ≤ total m.
Proof.
  intros Hab H. rewrite (total_delete m a).
  rewrite <- (lookup_delete_ne m a b) by done. apply Z.add_le_mono_l, total_member.
  intros c. destruct (decide (a = c)) as [<-|Hac]; [by rewrite lookup_delete_eq|].
  by rewrite lookup_delete_ne.
Qed.

(** ** Postings *)

(** What an event adds to the books of an account. The zero address is the
    counterparty of mints and burns. *)
Definition credit (a : Z) (e : ERC20Event) : Z :=
  match e with Transfer _ to value => if decide (to = a) then value else 0 | _ => 0 end.
Definition debit (a : Z) (e : ERC20Event) : Z :=
  match e with Transfer from _ value => if decide (from = a) then value else 0 | _ => 0 end.
Definition posted (a : Z) (l : list ERC20Event) : Z :=
  foldr (λ e acc, credit a e - debit a e + acc) 0 l.

Lemma posted_app a l1 l2 : posted a (l1 ++ l2) = posted a l1 + posted a l2.
Proof. induction l1 as [|e l1 IH]; simpl; [done|]. rewrite IH. lia. Qed.

(** The books are in order. *)
Record books (s : ERC20Storage) : Prop := {
  books_nonneg a : 0 ≤ balance_at s a;
  books_zero : balance_at s address0 = 0;
  books_supply : _totalSupply s = total (_balances s);
  books_bound : _totalSupply s < modulus;
  books_allowance o p : is_uint256 (allowance_at s o p)
}.

Lemma books_balance s a : books s → is_uint256 (balance_at s a).
Proof.
  intros Hs. split; [by apply books_nonneg|]. pose proof (books_bound s Hs) as Hb.
  rewrite (books_supply s Hs) in Hb. pose proof (total_member (_balances s) a (books_nonneg s Hs)).
  unfold balance_at. lia.
Qed.

Lemma books_total_supply s : books s → is_uint256 (_totalSupply s).
Proof.
  intros Hs. split; [|by apply books_bound]. rewrite (books_supply s Hs).
  apply total_nonneg, (books_nonneg s Hs).
Qed.

(** From one storage to the next the events say everything about balances and supply. *)
Definition posting (s s' : ERC20Storage) (l : list ERC20Event) : Prop :=
  books s' ∧
  (∀ a, a ≠ address0 → balance_at s' a = balance_at s a + posted a l) ∧
  _totalSupply s' = _totalSupply s - posted address0 l ∧
  _name s' = _name s ∧ _symbol s' = _symbol s.

Lemma posting_refl s : books s → posting s s [].
Proof. intros. split_and!; [done| |simpl; lia|done|done]. intros. simpl. lia. Qed.

Lemma posting_trans s1 s2 s3 l1 l2 : posting s1 s2 l1 → posting s2 s3 l2 → posting s1 s3 (l1 ++ l2).
Proof.
  intros (_&Hb1&Ht1&Hn1&Hm1) (H2&Hb2&Ht2&Hn2&Hm2). split_and!; [done| | |congruence|congruence].
  - intros a Ha. rewrite Hb2, Hb1, posted_app by done. lia.
  - rewrite Ht2, Ht1, posted_app. lia.
Qed.

Lemma balance_set_balance a v s b :
  balance_at (set_balance a v s) b = if decide (a = b) then v else balance_at s b.
Proof.
  unfold balance_at, set_balance. simpl. case_decide; subst; [by rewrite lookup_insert_eq|].
  by rewrite lookup_insert_ne.
Qed.

Lemma allowance_set_allowance o p v s o' p' :
  allowance_at (set_allowance o p v s) o' p' = if decide ((o, p) = (o', p')) then v else allowance_at s o' p'.
Proof.
  unfold allowance_at, set_allowance. simpl. case_decide as E; [injection E as <- <-; by rewrite lookup_insert_eq|].
  by rewrite lookup_insert_ne.
Qed.

(** [_update] on books in order: the two branches of the code with its [unchecked]
    arithmetic exact. *)
Definition moved (from to value : Z) (s : ERC20Storage) : ERC20Storage :=
  let s := if decide (from = address0) then set_supply (_totalSupply s + value) s
           else set_balance from (balance_at s from - value) s in
  if decide (to = address0) then set_supply (_totalSupply s - value) s
  else set_balance to (balance_at s to + value) s.

Lemma update_eq from to value sender s :
  books s → is_uint256 value → ¬ (from = address0 ∧ to = address0) →
  _update from to value sender s =
  if decide (from = address0) then
    if decide (_totalSupply s + value < modulus) then inr (tt, moved from to value s, [Transfer from to value])
    else inl (Panic 0x11)
  else if decide (balance_at s from < value) then
    inl (Custom (ERC20InsufficientBalance from (balance_at s from) value))
  else inr (tt, moved from to value s, [Transfer from to value]).
Proof.
  intros Hs Hv Hft. pose proof (books_balance s to Hs) as Hto. pose proof (books_balance s from Hs) as Hfrom.
  pose proof (books_total_supply s Hs) as Hsup. pose proof (books_supply s Hs) as Htot.
  unfold is_uint256 in *. unfold _update, moved, mbind, contract_bind, load, store, emit_event, checked_add.
  destruct (decide (from = address0)) as [->|Hf]; simpl.
  - case_decide as Hb; [|done]. simpl. rewrite !decide_False by naive_solver.
    rewrite unchecked_add_exact; [done|].
    unfold balance_at in *. simpl in *.
    pose proof (total_member (_balances s) to (books_nonneg s Hs)). unfold is_uint256. lia.
  - case_decide as Hb; [done|]. rewrite (unchecked_sub_exact (balance_at s from)) by (unfold is_uint256; lia).
    case_decide as Ht; simpl.
    + rewrite unchecked_sub_exact; [done|].
      pose proof (total_member (_balances s) from (books_nonneg s Hs)).
      unfold balance_at, is_uint256 in *. lia.
    + rewrite unchecked_add_exact; [done|]. rewrite balance_set_balance.
      case_decide as E; [subst; unfold is_uint256; lia|].
      pose proof (total_members (_balances s) from to E (books_nonneg s Hs)).
      unfold balance_at, is_uint256 in *. lia.
Qed.

Lemma total_set_balance a v s : total (_balances (set_balance a v s)) = total (_balances s) + v - balance_at s a.
Proof. apply total_insert. Qed.
Lemma total_set_supply v s : total (_balances (set_supply v s)) = total (_balances s).
Proof. done. Qed.
Lemma balance_set_supply v s a : balance_at (set_supply v s) a = balance_at s a.
Proof. done. Qed.
Lemma supply_set_supply v s : _totalSupply (set_supply v s) = v.
Proof. done. Qed.
Lemma supply_set_balance a v s : _totalSupply (set_balance a v s) = _totalSupply s.
Proof. done. Qed.

(** Balances, supply and their sum after a change, by cases on the accounts. *)
Ltac books_cases :=
  repeat first [rewrite total_set_supply | rewrite total_set_balance | rewrite balance_set_supply
    | rewrite supply_set_balance | rewrite supply_set_supply | rewrite balance_set_balance
    | case_decide; subst];
  try congruence; try tauto; try lia.

(** What remains to be shown of a change to balances and supply that keeps the rest. *)
Lemma posting_intro s s' l :
  books s →
  (∀ a, 0 ≤ balance_at s' a) → balance_at s' address0 = 0 →
  _totalSupply s' = total (_balances s') → _totalSupply s' < modulus →
  _allowances s' = _allowances s → _name s' = _name s → _symbol s' = _symbol s →
  (∀ a, a ≠ address0 → balance_at s' a = balance_at s a + posted a l) →
  _totalSupply s' = _totalSupply s - posted address0 l →
  posting s s' l.
Proof.
  intros Hs ???? Ha ????. split_and!; try done. split; try done.
  intros o p. unfold allowance_at. rewrite Ha. by apply books_allowance.
Qed.

Lemma moved_posting from to value s :
  books s → is_uint256 value → ¬ (from = address0 ∧ to = address0) →
  (from = address0 → _totalSupply s + value < modulus) →
  (from ≠ address0 → value ≤ balance_at s from) →
  posting s (moved from to value s) [Transfer from to value].
Proof.
  intros Hs [Hv0 Hv] Hft Hmint Hspend.
  pose proof (books_nonneg s Hs) as Hnn. pose proof (books_supply s Hs) as Htot.
  pose proof (books_zero s Hs) as Hz. pose proof (books_bound s Hs) as Hbd.
  unfold moved.
  destruct (decide (from = address0)) as [->|Hf]; destruct (decide (to = address0)) as [->|Ht]; [naive_solver| | |].
  all: try specialize (Hmint eq_refl); try specialize (Hspend Hf); apply posting_intro; try done.
  all: try match goal with |- ∀ a : Z, _ → _ => intros a Ha; specialize (Hnn a)
                         | |- ∀ a : Z, _ => intros a; specialize (Hnn a) end.
  all: unfold posted, credit, debit; simpl foldr; books_cases.
Qed.

Lemma set_allowance_posting o p value s l : is_uint256 value → books s → posted address0 l = 0 → (∀ a, posted a l = 0) →
  posting s (set_allowance o p value s) l.
Proof.
  intros Hv Hs Hl0 Hl. split_and!; [|intros a _; rewrite Hl; unfold balance_at; simpl; lia|simpl; lia|done..].
  destruct Hs as [H1 H2 H3 H4 H5]. split; try done.
  intros o' p'. rewrite allowance_set_allowance. by case_decide.
Qed.

(** [_spendAllowance] on books in order. *)
Definition spent (o p value : Z) (s : ERC20Storage) : ERC20Storage :=
  if decide (allowance_at s o p = uint256_max) then s
  else set_allowance o p (allowance_at s o p - value) s.

Lemma spendAllowance_eq o p value sender s :
  books s → is_uint256 value →
  _spendAllowance o p value sender s =
  if decide (allowance_at s o p = uint256_max) then inr (tt, s, [])
  else if decide (allowance_at s o p < value) then
    inl (Custom (ERC20InsufficientAllowance p (allowance_at s o p) value))
  else if decide (o = address0) then inl (Custom (ERC20InvalidApprover address0))
  else if decide (p = address0) then inl (Custom (ERC20InvalidSpender address0))
  else inr (tt, spent o p value s, []).
Proof.
  intros Hs Hv. pose proof (books_allowance s Hs o p) as Ha.
  unfold _spendAllowance, allowance, load, mbind, contract_bind, _approve, spent.
  unfold is_uint256, uint256_max in *. simpl.
  destruct (decide (allowance_at s o p = modulus - 1)) as [E|E]; [by rewrite decide_False by lia|].
  rewrite decide_True by lia. case_decide; [done|].
  rewrite unchecked_sub_exact by (unfold is_uint256; lia). by repeat case_decide.
Qed.

Lemma spent_posting o p value s :
  books s → 0 ≤ value → value ≤ allowance_at s o p → posting s (spent o p value s) [].
Proof.
  intros Hs Hv Ha. unfold spent. case_decide; [by apply posting_refl|].
  pose proof (books_allowance s Hs o p) as Hr.
  apply set_allowance_posting; [unfold is_uint256 in *; lia|done..].
Qed.

(** ** When they succeed, and what they do then *)

Section Success.
Context (value : Z) (Hvalue : is_uint256 value) (sender : Z) (s : ERC20Storage) (Hs : books s).

Lemma internal_transfer_ok_iff from to s' l :
  _transfer from to value sender s = inr (tt, s', l) ↔
  from ≠ address0 ∧ to ≠ address0 ∧ value ≤ balance_at s from ∧
  s' = moved from to value s ∧ l = [Transfer from to value].
Proof.
  unfold _transfer. destruct (decide (from = address0)); [naive_solver|].
  destruct (decide (to = address0)); [naive_solver|]. rewrite update_eq by naive_solver.
  rewrite decide_False by done. case_decide; split; try naive_solver lia.
Qed.

Lemma internal_mint_ok_iff account s' l :
  _mint account value sender s = inr (tt, s', l) ↔
  account ≠ address0 ∧ _totalSupply s + value < modulus ∧
  s' = moved address0 account value s ∧ l = [Transfer address0 account value].
Proof.
  unfold _mint. destruct (decide (account = address0)); [naive_solver|].
  rewrite update_eq by naive_solver. rewrite decide_True by done. case_decide; naive_solver.
Qed.

Lemma internal_burn_ok_iff account s' l :
  _burn account value sender s = inr (tt, s', l) ↔
  account ≠ address0 ∧ value ≤ balance_at s account ∧
  s' = moved account address0 value s ∧ l = [Transfer account address0 value].
Proof.
  unfold _burn. destruct (decide (account = address0)); [naive_solver|].
  rewrite update_eq by naive_solver. rewrite decide_False by done. case_decide; split; naive_solver lia.
Qed.

(** The holder gave the spender enough. *)
Definition allowed (o p : Z) : Prop :=
  allowance_at s o p = uint256_max ∨ (value ≤ allowance_at s o p ∧ o ≠ address0 ∧ p ≠ address0).

Lemma spendAllowance_ok_iff o p s' l :
  _spendAllowance o p value sender s = inr (tt, s', l) ↔
  allowed o p ∧ s' = spent o p value s ∧ l = [].
Proof.
  rewrite spendAllowance_eq by done. unfold allowed. case_decide as E.
  { unfold spent. rewrite decide_True by done. naive_solver. }
  repeat case_decide; split; naive_solver lia.
Qed.

Lemma allowed_enough o p : allowed o p → value ≤ allowance_at s o p.
Proof.
  pose proof Hvalue as [??]. unfold allowed, uint256_max. intros [E|E].
  all: lia.
Qed.

Lemma spent_books o p : allowed o p → books (spent o p value s).
Proof.
  intros Ha. apply (spent_posting o p value s Hs); [apply Hvalue|]. by apply allowed_enough.
Qed.

Lemma transfer_ok_iff to b s' l :
  transfer to value sender s = inr (b, s', l) ↔
  b = true ∧ sender ≠ address0 ∧ to ≠ address0 ∧ value ≤ balance_at s sender ∧
  s' = moved sender to value s ∧ l = [Transfer sender to value].
Proof.
  unfold transfer. rewrite sender_bind, then_ret. split.
  - by intros (->&[]&?%internal_transfer_ok_iff).
  - intros (->&?). split; [done|]. exists tt. by apply internal_transfer_ok_iff.
Qed.

Lemma burn_ok_iff s' l :
  burn value sender s = inr (tt, s', l) ↔
  sender ≠ address0 ∧ value ≤ balance_at s sender ∧
  s' = moved sender address0 value s ∧ l = [Transfer sender address0 value].
Proof. unfold burn. rewrite sender_bind. apply internal_burn_ok_iff. Qed.
End Success.

Lemma balance_spent o p value s a : balance_at (spent o p value s) a = balance_at s a.
Proof. unfold spent. by case_decide. Qed.

Lemma supply_spent o p value s : _totalSupply (spent o p value s) = _totalSupply s.
Proof. unfold spent. by case_decide. Qed.

Lemma spend_then_ok_iff {B} o p value sender s (k : erc20 B) b s' l :
  books s → is_uint256 value →
  (_spendAllowance o p value;; k) sender s = inr (b, s', l) ↔
  allowed value s o p ∧ books (spent o p value s) ∧ k sender (spent o p value s) = inr (b, s', l).
Proof.
  intros Hs Hv. rewrite bind_ok. split.
  - intros ([]&s1&l1&l2&(Ha&->&->)%spendAllowance_ok_iff&Hk&->); try done. eauto using spent_books.
  - intros (Ha&Hs1&Hk). exists tt, (spent o p value s), [], l. split_and!; [|done|done].
    by apply spendAllowance_ok_iff.
Qed.

Lemma transferFrom_ok_iff from to value sender s b s' l :
  books s → is_uint256 value →
  transferFrom from to value sender s = inr (b, s', l) ↔
  b = true ∧ allowed value s from sender ∧ from ≠ address0 ∧ to ≠ address0 ∧ value ≤ balance_at s from ∧
  s' = moved from to value (spent from sender value s) ∧ l = [Transfer from to value].
Proof.
  intros Hs Hv. unfold transferFrom. rewrite sender_bind, spend_then_ok_iff, then_ret by done. split.
  - intros (Ha&Hs1&->&[]&H%internal_transfer_ok_iff); [|done..]. rewrite balance_spent in H. naive_solver.
  - intros (->&Ha&H). pose proof (spent_books value Hv s Hs from sender Ha). split_and!; [done..|].
    exists tt. apply internal_transfer_ok_iff; [done..|]. by rewrite balance_spent.
Qed.

Lemma burnFrom_ok_iff account value sender s s' l :
  books s → is_uint256 value →
  burnFrom account value sender s = inr (tt, s', l) ↔
  allowed value s account sender ∧ account ≠ address0 ∧ value ≤ balance_at s account ∧
  s' = moved account address0 value (spent account sender value s) ∧ l = [Transfer account address0 value].
Proof.
  intros Hs Hv. unfold burnFrom. rewrite sender_bind, spend_then_ok_iff by done. split.
  - intros (Ha&Hs1&H%internal_burn_ok_iff); [|done..]. by rewrite balance_spent in H.
  - intros (Ha&H). pose proof (spent_books value Hv s Hs account sender Ha). split_and!; [done..|].
    apply internal_burn_ok_iff; [done..|]. by rewrite balance_spent.
Qed.

Lemma approve_ok_iff spender value sender s b s' l :
  approve spender value sender s = inr (b, s', l) ↔
  b = true ∧ sender ≠ address0 ∧ spender ≠ address0 ∧
  s' = set_allowance sender spender value s ∧ l = [Approval sender spender value].
Proof.
  unfold approve. rewrite sender_bind, then_ret. unfold _approve.
  destruct (decide (sender = address0)); [naive_solver|].
  destruct (decide (spender = address0)); [naive_solver|].
  unfold mbind, contract_bind, store, emit_event. simpl. naive_solver.
Qed.

(** ** Who may lower a balance *)

(** Between two storages only the sender's own balance goes down, and another's within
    what its holder allowed the sender, which is used up by that much unless it is
    unlimited. *)
Definition authorised (sender : Z) (s s' : ERC20Storage) : Prop := ∀ a, a ≠ address0 → a ≠ sender →
  balance_at s' a < balance_at s a →
  balance_at s a - balance_at s' a ≤ allowance_at s a sender ∧
  (allowance_at s a sender = uint256_max ∨
   allowance_at s' a sender = allowance_at s a sender - (balance_at s a - balance_at s' a)).

Lemma balance_moved from to value s a : a ≠ address0 →
  balance_at (moved from to value s) a =
  balance_at s a - (if decide (from = a) then value else 0) + (if decide (to = a) then value else 0).
Proof. intros Ha. unfold moved. books_cases. Qed.

Lemma allowance_moved from to value s o p : allowance_at (moved from to value s) o p = allowance_at s o p.
Proof. unfold moved. by repeat case_decide. Qed.

Lemma allowance_spent o p value s :
  allowance_at (spent o p value s) o p =
  if decide (allowance_at s o p = uint256_max) then uint256_max else allowance_at s o p - value.
Proof. unfold spent. case_decide as E; [done|]. rewrite allowance_set_allowance. by rewrite decide_True. Qed.

Lemma moved_authorised sender to value s : 0 ≤ value → authorised sender s (moved sender to value s).
Proof. intros Hv a Ha Hne. rewrite balance_moved, decide_False by done. case_decide; lia. Qed.

Lemma spent_authorised from to value sender s :
  0 ≤ value → allowed value s from sender → value ≤ allowance_at s from sender →
  authorised sender s (moved from to value (spent from sender value s)).
Proof.
  intros Hv Hal Hle a Ha Hne. rewrite balance_moved, balance_spent, allowance_moved by done.
  destruct (decide (from = a)) as [<-|]; [|case_decide; lia]. rewrite allowance_spent.
  destruct (decide (to = from)); case_decide; intros; split; lia.
Qed.

Lemma unchanged_authorised sender s s' : (∀ a, balance_at s' a = balance_at s a) → authorised sender s s'.
Proof. intros H a _ _. rewrite H. lia. Qed.
