(* ===== verification/ReserveManager.v ===== *)
(** * The reserve contract of the coin

    [src/smart_contracts/contracts/ArosCoinReserveManager.sol], with what it inherits
    ([ERC20], [ERC20Burnable], [Ownable]): its storage, its functions, the calls the
    outside can make and the life of a deployed contract under any sequence of them. *)

From S2P Require Import Prelude Solidity Ownable ERC20.
From Stdlib Require Import ZArith String.

Local Open Scope Z_scope.

(** ** Storage, errors and events *)

Record Token := {
  erc20_part : ERC20Storage;
  ownable_part : OwnableStorage;
  usedReferences : gmap Z bool
}.

Inductive TokenError :=
| FromERC20 (e : ERC20Error)
| FromOwnable (e : OwnableError).

Inductive TokenEvent :=
| ERC20Log (l : ERC20Event)
| OwnableLog (l : OwnableEvent)
| Minted (to amount txReference : Z)
| Burned (from amount txReference : Z).

#[global] Instance TokenEvent_eq_dec : EqDecision TokenEvent.
Proof. solve_decision. Defined.
#[global] Instance TokenError_eq_dec : EqDecision TokenError.
Proof. solve_decision. Defined.

Definition set_erc20 (p : ERC20Storage) (s : Token) : Token :=
  {| erc20_part := p; ownable_part := ownable_part s; usedReferences := usedReferences s |}.
Definition set_ownable (p : OwnableStorage) (s : Token) : Token :=
  {| erc20_part := erc20_part s; ownable_part := p; usedReferences := usedReferences s |}.

(** [usedReferences[txReference]]. *)
Definition reference_used (s : Token) (txReference : Z) : bool := default false (usedReferences s !! txReference).

(** [usedReferences[txReference] = true]. *)
Definition mark (txReference : Z) (s : Token) : Token :=
  {| erc20_part := erc20_part s; ownable_part := ownable_part s;
     usedReferences := <[txReference := true]> (usedReferences s) |}.

Abbreviation manager := (contract TokenError TokenEvent Token).

Definition of_erc20 {A} : erc20 A → manager A := inherit erc20_part set_erc20 FromERC20 ERC20Log.
Definition of_ownable {A} : ownable A → manager A := inherit ownable_part set_ownable FromOwnable OwnableLog.

(** ** Functions *)

(** The storage before construction. *)
Definition blank : Token :=
  {| erc20_part := ERC20_constructor "" ""; ownable_part := {| _owner := address0 |}; usedReferences := ∅ |}.

Definition constructor : manager () :=
  sender ← msg_sender;
  store (set_erc20 (ERC20_constructor "ArosCoin" "AROS"));;
  of_ownable (Ownable_constructor sender).

Definition mint (to amount txReference : Z) : manager () :=
  of_ownable _checkOwner;;
  used ← load (λ s, reference_used s txReference);
  require (negb used) "Reference already used";;
  of_erc20 (_mint to amount);;
  store (mark txReference);;
  emit_event (Minted to amount txReference).

Definition burnWithReference (from amount txReference : Z) : manager () :=
  of_ownable _checkOwner;;
  used ← load (λ s, reference_used s txReference);
  require (negb used) "Reference already used";;
  of_erc20 (_burn from amount);;
  store (mark txReference);;
  emit_event (Burned from amount txReference).

Definition isReferenceUsed (txReference : Z) : manager bool := load (λ s, reference_used s txReference).

(** ** Calls *)

(** The functions of the contract, its own and the inherited ones, with their arguments. *)
Inductive call :=
| Call_allowance (owner spender : Z)
| Call_approve (spender value : Z)
| Call_balanceOf (account : Z)
| Call_burn (value : Z)
| Call_burnFrom (account value : Z)
| Call_burnWithReference (from amount txReference : Z)
| Call_decimals
| Call_isReferenceUsed (txReference : Z)
| Call_mint (to amount txReference : Z)
| Call_name
| Call_owner
| Call_renounceOwnership
| Call_symbol
| Call_totalSupply
| Call_transfer (to value : Z)
| Call_transferFrom (from to value : Z)
| Call_transferOwnership (newOwner : Z).

#[global] Instance call_eq_dec : EqDecision call.
Proof. solve_decision. Defined.

(** What a function returns. *)
Inductive value :=
| VAddress (a : Z)
| VUint256 (v : Z)
| VUint8 (v : Z)
| VBytes32 (v : Z)
| VBool (b : bool)
| VString (s : string).

#[global] Instance value_eq_dec : EqDecision value.
Proof. solve_decision. Defined.

Definition returns {A} (f : A → list value) (m : manager A) : manager (list value) :=
  a ← m; mret (f a).
Definition nothing (_ : ()) : list value := [].

Definition execute (c : call) : manager (list value) :=
  match c with
  | Call_allowance o p => returns (λ v, [VUint256 v]) (of_erc20 (allowance o p))
  | Call_approve p v => returns (λ b, [VBool b]) (of_erc20 (approve p v))
  | Call_balanceOf a => returns (λ v, [VUint256 v]) (of_erc20 (balanceOf a))
  | Call_burn v => returns nothing (of_erc20 (burn v))
  | Call_burnFrom a v => returns nothing (of_erc20 (burnFrom a v))
  | Call_burnWithReference a v r => returns nothing (burnWithReference a v r)
  | Call_decimals => returns (λ v, [VUint8 v]) (of_erc20 decimals)
  | Call_isReferenceUsed r => returns (λ b, [VBool b]) (isReferenceUsed r)
  | Call_mint a v r => returns nothing (mint a v r)
  | Call_name => returns (λ v, [VString v]) (of_erc20 name)
  | Call_owner => returns (λ v, [VAddress v]) (of_ownable owner)
  | Call_renounceOwnership => returns nothing (of_ownable renounceOwnership)
  | Call_symbol => returns (λ v, [VString v]) (of_erc20 symbol)
  | Call_totalSupply => returns (λ v, [VUint256 v]) (of_erc20 totalSupply)
  | Call_transfer a v => returns (λ b, [VBool b]) (of_erc20 (transfer a v))
  | Call_transferFrom a b v => returns (λ b, [VBool b]) (of_erc20 (transferFrom a b v))
  | Call_transferOwnership a => returns nothing (of_ownable (transferOwnership a))
  end.

(** The arguments lie in their types. *)
Definition typed (c : call) : Prop :=
  match c with
  | Call_allowance o p => is_address o ∧ is_address p
  | Call_approve p v | Call_burnFrom p v | Call_transfer p v => is_address p ∧ is_uint256 v
  | Call_balanceOf a | Call_transferOwnership a => is_address a
  | Call_burn v => is_uint256 v
  | Call_burnWithReference a v r | Call_mint a v r => is_address a ∧ is_uint256 v ∧ is_uint256 r
  | Call_isReferenceUsed r => is_uint256 r
  | Call_transferFrom a b v => is_address a ∧ is_address b ∧ is_uint256 v
  | _ => True
  end.

#[global] Instance typed_dec c : Decision (typed c).
Proof. destruct c; simpl; apply _. Defined.

(** A transaction: who calls what. A reverted one changes nothing. *)
Definition transact (s : Token) (sender : Z) (c : call) : Token * list TokenEvent :=
  match execute c sender s with inl _ => (s, []) | inr (_, s', l) => (s', l) end.

(** The state and the log after the transactions. *)
Fixpoint history (s : Token) (l : list TokenEvent) (txs : list (Z * call)) : Token * list TokenEvent :=
  match txs with
  | [] => (s, l)
  | (sender, c) :: txs => let '(s', l') := transact s sender c in history s' (l ++ l') txs
  end.

(** Deployment by an account. *)
Definition deploy (deployer : Z) : revert_reason TokenError + (Token * list TokenEvent) :=
  match constructor deployer blank with inl e => inl e | inr (_, s, l) => inr (s, l) end.

(** ** The specification

    What a call that succeeds does, in exact integers and without the steps of the
    code: its conditions, the state it leaves and its events. *)

Definition balance (s : Token) (a : Z) : Z := balance_at (erc20_part s) a.
Definition approved (s : Token) (o p : Z) : Z := allowance_at (erc20_part s) o p.
Definition supply (s : Token) : Z := _totalSupply (erc20_part s).
Definition token_owner (s : Token) : Z := _owner (ownable_part s).

Definition move (from to value : Z) (s : Token) : Token := set_erc20 (moved from to value (erc20_part s)) s.
Definition spend (o p value : Z) (s : Token) : Token := set_erc20 (spent o p value (erc20_part s)) s.
Definition own (a : Z) (s : Token) : Token := set_ownable {| _owner := a |} s.

(** [a] holds the value. *)
Definition covers (s : Token) (a value : Z) : Prop := a ≠ address0 ∧ value ≤ balance s a.

Definition moves (from to value : Z) : list TokenEvent := [ERC20Log (Transfer from to value)].

Definition performs (sender : Z) (s : Token) (c : call) (s' : Token) (l : list TokenEvent) : Prop :=
  match c with
  | Call_approve p v =>
    sender ≠ address0 ∧ p ≠ address0 ∧
    s' = set_erc20 (set_allowance sender p v (erc20_part s)) s ∧ l = [ERC20Log (Approval sender p v)]
  | Call_burn v => covers s sender v ∧ s' = move sender address0 v s ∧ l = moves sender address0 v
  | Call_burnFrom a v =>
    allowed v (erc20_part s) a sender ∧ covers s a v ∧
    s' = move a address0 v (spend a sender v s) ∧ l = moves a address0 v
  | Call_transfer a v =>
    covers s sender v ∧ a ≠ address0 ∧ s' = move sender a v s ∧ l = moves sender a v
  | Call_transferFrom a b v =>
    allowed v (erc20_part s) a sender ∧ covers s a v ∧ b ≠ address0 ∧
    s' = move a b v (spend a sender v s) ∧ l = moves a b v
  | Call_mint a v r =>
    token_owner s = sender ∧ reference_used s r = false ∧ a ≠ address0 ∧ supply s + v < modulus ∧
    s' = mark r (move address0 a v s) ∧ l = moves address0 a v ++ [Minted a v r]
  | Call_burnWithReference a v r =>
    token_owner s = sender ∧ reference_used s r = false ∧ covers s a v ∧
    s' = mark r (move a address0 v s) ∧ l = moves a address0 v ++ [Burned a v r]
  | Call_renounceOwnership =>
    token_owner s = sender ∧ s' = own address0 s ∧ l = [OwnableLog (OwnershipTransferred sender address0)]
  | Call_transferOwnership a =>
    token_owner s = sender ∧ a ≠ address0 ∧ s' = own a s ∧ l = [OwnableLog (OwnershipTransferred sender a)]
  | _ => s' = s ∧ l = []
  end.

(** What it answers. *)
Definition answer (s : Token) (c : call) : list value :=
  match c with
  | Call_allowance o p => [VUint256 (approved s o p)]
  | Call_balanceOf a => [VUint256 (balance s a)]
  | Call_decimals => [VUint8 18]
  | Call_isReferenceUsed r => [VBool (reference_used s r)]
  | Call_name => [VString (_name (erc20_part s))]
  | Call_owner => [VAddress (token_owner s)]
  | Call_symbol => [VString (_symbol (erc20_part s))]
  | Call_totalSupply => [VUint256 (supply s)]
  | Call_approve _ _ | Call_transfer _ _ | Call_transferFrom _ _ _ => [VBool true]
  | _ => []
  end.

(** ** The functions meet it *)

Lemma returns_ok {A} (f : A → list value) (m : manager A) sender s v s' l :
  returns f m sender s = inr (v, s', l) ↔ ∃ a, v = f a ∧ m sender s = inr (a, s', l).
Proof.
  unfold returns. rewrite bind_ok. split.
  - intros (a&s1&l1&l2&E1&[= <- <- <-]&->). rewrite app_nil_r. eauto.
  - intros (a&->&E1). exists a, s', l, []. by rewrite app_nil_r.
Qed.

Lemma set_erc20_id s : set_erc20 (erc20_part s) s = s.
Proof. by destruct s. Qed.
Lemma set_ownable_id s : set_ownable (ownable_part s) s = s.
Proof. by destruct s. Qed.

(** What the modifier [onlyOwner] lets through. *)
Lemma only_owner {B} (k : manager B) sender s :
  (of_ownable _checkOwner;; k) sender s =
  if decide (token_owner s = sender) then k sender s
  else inl (Custom (FromOwnable (OwnableUnauthorizedAccount sender))).
Proof.
  unfold mbind, contract_bind, of_ownable, inherit. rewrite checkOwner_eq. unfold token_owner.
  case_decide; [|done]. simpl. rewrite set_ownable_id. by destruct (k sender s) as [?|[[??]?]].
Qed.

(** The common part of [mint] and [burnWithReference], which differ in what they do
    to the token and in their event. *)
Lemma referenced_ok (f : erc20 ()) ev txReference sender s s' l :
  (of_ownable _checkOwner;;
   used ← load (λ s, reference_used s txReference);
   require (negb used) "Reference already used";;
   of_erc20 f;;
   store (mark txReference);;
   emit_event ev) sender s = inr (tt, s', l) ↔
  token_owner s = sender ∧ reference_used s txReference = false ∧
  ∃ p l0, f sender (erc20_part s) = inr (tt, p, l0) ∧
          s' = mark txReference (set_erc20 p s) ∧ l = (ERC20Log <$> l0) ++ [ev].
Proof.
  rewrite only_owner. case_decide; [|naive_solver].
  rewrite load_bind, require_bind. destruct (reference_used s txReference); simpl; [naive_solver|].
  rewrite bind_ok. split.
  - intros ([]&s1&l1&l2&(p&l0&E&->&->)%inherit_ok&Hk&->). rewrite store_bind in Hk.
    injection Hk as <- <-.
    split_and!; [done..|]. by exists p, l0.
  - intros (_&_&p&l0&E&->&->). exists tt, (set_erc20 p s), (ERC20Log <$> l0), [ev].
    split_and!; [apply inherit_ok; eauto|by rewrite store_bind|done].
Qed.

Lemma of_erc20_ok {A} (f : erc20 A) sender s a s' l :
  of_erc20 f sender s = inr (a, s', l) ↔
  ∃ p l0, f sender (erc20_part s) = inr (a, p, l0) ∧ s' = set_erc20 p s ∧ l = ERC20Log <$> l0.
Proof. apply inherit_ok. Qed.

Lemma read_erc20 {A} (f : ERC20Storage → A) sender s a s' l :
  of_erc20 (load f) sender s = inr (a, s', l) ↔ a = f (erc20_part s) ∧ s' = s ∧ l = [].
Proof.
  rewrite of_erc20_ok. unfold load. split.
  - intros (?&?&[= <- <- <-]&->&->). by rewrite set_erc20_id.
  - intros (->&->&->). exists (erc20_part s), []. by rewrite set_erc20_id.
Qed.

Section Meets.
Context (sender : Z) (s : Token) (Hs : books (erc20_part s)).

(** A function of the token part, by when it succeeds and what it does then. *)
Lemma meets_erc20 {A} (f : erc20 A) g a0 C p0 l0 v s' l :
  (∀ a p l1, f sender (erc20_part s) = inr (a, p, l1) ↔ a = a0 ∧ C ∧ p = p0 ∧ l1 = l0) →
  returns g (of_erc20 f) sender s = inr (v, s', l) ↔ (C ∧ s' = set_erc20 p0 s ∧ l = ERC20Log <$> l0) ∧ v = g a0.
Proof.
  intros Hf. rewrite returns_ok. setoid_rewrite of_erc20_ok. setoid_rewrite Hf. split.
  - by intros (a&->&p&l1&(->&HC&->&->)&->&->).
  - intros ((HC&->&->)&->). by exists a0; split; [|exists p0, l0].
Qed.

Lemma mint_ok_iff a v r s' l : is_uint256 v →
  mint a v r sender s = inr (tt, s', l) ↔ performs sender s (Call_mint a v r) s' l.
Proof.
  intros Hv. unfold mint. rewrite referenced_ok. setoid_rewrite internal_mint_ok_iff; [|done..]. simpl.
  unfold supply, move, moves. naive_solver.
Qed.

Lemma burnWithReference_ok_iff a v r s' l : is_uint256 v →
  burnWithReference a v r sender s = inr (tt, s', l) ↔ performs sender s (Call_burnWithReference a v r) s' l.
Proof.
  intros Hv. unfold burnWithReference. rewrite referenced_ok. setoid_rewrite internal_burn_ok_iff; [|done..]. simpl.
  unfold covers, balance, move, moves. naive_solver.
Qed.

Lemma renounceOwnership_ok_iff s' l :
  of_ownable renounceOwnership sender s = inr (tt, s', l) ↔ performs sender s Call_renounceOwnership s' l.
Proof.
  unfold of_ownable. rewrite inherit_ok. simpl. unfold renounceOwnership, own, token_owner.
  unfold mbind at 1, contract_bind at 1. setoid_rewrite checkOwner_eq.
  case_decide as E; [|naive_solver]. unfold _transferOwnership, mbind, contract_bind, load, store, emit_event. simpl.
  rewrite E. naive_solver.
Qed.

Lemma transferOwnership_ok_iff a s' l :
  of_ownable (transferOwnership a) sender s = inr (tt, s', l) ↔ performs sender s (Call_transferOwnership a) s' l.
Proof.
  unfold of_ownable. rewrite inherit_ok. simpl. unfold transferOwnership, own, token_owner.
  unfold mbind at 1, contract_bind at 1. setoid_rewrite checkOwner_eq.
  case_decide as E; [|naive_solver]. case_decide; [naive_solver|].
  unfold _transferOwnership, mbind, contract_bind, load, store, emit_event. simpl.
  rewrite E. naive_solver.
Qed.

Lemma meets_unit (m : manager ()) c v s' l :
  (m sender s = inr (tt, s', l) ↔ performs sender s c s' l) →
  returns nothing m sender s = inr (v, s', l) ↔ performs sender s c s' l ∧ v = [].
Proof. intros Hm. rewrite returns_ok. split; [intros ([]&->&E); split; [by apply Hm|done]|intros (E&->); exists tt; split; [done|by apply Hm]]. Qed.

Lemma execute_performs c v s' l : typed c →
  execute c sender s = inr (v, s', l) ↔ performs sender s c s' l ∧ v = answer s c.
Proof.
  destruct c; simpl execute; simpl answer; intros Ht.
  all: try (rewrite returns_ok; setoid_rewrite read_erc20; unfold performs, approved, balance, supply; naive_solver).
  all: try (apply meets_unit; first [by apply mint_ok_iff, Ht | by apply burnWithReference_ok_iff, Ht | apply renounceOwnership_ok_iff | apply transferOwnership_ok_iff]).
  all: unfold performs, covers, balance, token_owner; simpl in Ht.
  - rewrite (meets_erc20 _ _ true (sender ≠ address0 ∧ spender ≠ address0)
      (set_allowance sender spender value0 (erc20_part s)) [Approval sender spender value0]); [simpl; tauto|].
    intros a p l1. rewrite approve_ok_iff. tauto.
  - rewrite (meets_erc20 _ _ tt (covers s sender value0)
      (moved sender address0 value0 (erc20_part s)) [Transfer sender address0 value0]); [unfold covers, balance; simpl; tauto|].
    intros [] p l1. rewrite burn_ok_iff by done. unfold covers, balance. tauto.
  - rewrite (meets_erc20 _ _ tt (allowed value0 (erc20_part s) account sender ∧ covers s account value0)
      (moved account address0 value0 (spent account sender value0 (erc20_part s))) [Transfer account address0 value0]);
      [unfold covers, balance; simpl; tauto|].
    intros [] p l1. rewrite burnFrom_ok_iff by (done || apply Ht). unfold covers, balance. tauto.
  - rewrite returns_ok. unfold isReferenceUsed, load. naive_solver.
  - rewrite returns_ok. unfold of_ownable. setoid_rewrite inherit_ok. unfold owner, load. split.
    + intros (a&->&p&l0&[= <- <- <-]&->&->). by rewrite set_ownable_id.
    + intros ((->&->)&->). exists (_owner (ownable_part s)). split; [done|].
      exists (ownable_part s), []. by rewrite set_ownable_id.
  - rewrite (meets_erc20 _ _ true (covers s sender value0 ∧ to ≠ address0)
      (moved sender to value0 (erc20_part s)) [Transfer sender to value0]); [unfold covers, balance; simpl; tauto|].
    intros a p l1. rewrite transfer_ok_iff by (done || apply Ht). unfold covers, balance. tauto.
  - rewrite (meets_erc20 _ _ true (allowed value0 (erc20_part s) from sender ∧ covers s from value0 ∧ to ≠ address0)
      (moved from to value0 (spent from sender value0 (erc20_part s))) [Transfer from to value0]);
      [unfold covers, balance; simpl; tauto|].
    intros a p l1. rewrite transferFrom_ok_iff by (done || apply Ht). unfold covers, balance. tauto.
Qed.
End Meets.

(** ** The log

    What the events of a contract say about its state. *)

Definition transfers (l : list TokenEvent) : list ERC20Event :=
  omap (λ e, match e with ERC20Log t => Some t | _ => None end) l.
Definition references (l : list TokenEvent) : list Z :=
  omap (λ e, match e with Minted _ _ r | Burned _ _ r => Some r | _ => None end) l.

(** The issued and the retired amounts. *)
Definition issued (l : list TokenEvent) : Z :=
  foldr (λ e acc, match e with Minted _ v _ => v + acc | _ => acc end) 0 l.
Definition retired (l : list TokenEvent) : Z :=
  foldr (λ e acc, match e with Burned _ v _ => v + acc | _ => acc end) 0 l.

Lemma transfers_app l1 l2 : transfers (l1 ++ l2) = transfers l1 ++ transfers l2.
Proof. apply omap_app. Qed.
Lemma references_app l1 l2 : references (l1 ++ l2) = references l1 ++ references l2.
Proof. apply omap_app. Qed.
Lemma issued_app l1 l2 : issued (l1 ++ l2) = issued l1 + issued l2.
Proof. induction l1 as [|[] l1 IH]; simpl; rewrite ?IH; lia. Qed.
Lemma retired_app l1 l2 : retired (l1 ++ l2) = retired l1 + retired l2.
Proof. induction l1 as [|[] l1 IH]; simpl; rewrite ?IH; lia. Qed.

Lemma reference_used_mark r s r' : reference_used (mark r s) r' = bool_decide (r = r') || reference_used s r'.
Proof.
  unfold reference_used, mark. simpl. case_bool_decide; subst; [by rewrite lookup_insert_eq|].
  by rewrite lookup_insert_ne.
Qed.

(** What every call that succeeds keeps. *)
Record lawful (s : Token) (l : list TokenEvent) : Prop := {
  lawful_books : books (erc20_part s);
  lawful_balance a : a ≠ address0 → balance s a = posted a (transfers l);
  lawful_supply : supply s = - posted address0 (transfers l);
  lawful_references : NoDup (references l);
  lawful_used r : reference_used s r = true ↔ r ∈ references l;
  lawful_names : _name (erc20_part s) = "ArosCoin" ∧ _symbol (erc20_part s) = "AROS"
}.

Section Performs.
Context (sender : Z) (s : Token) (Hs : books (erc20_part s)).

Lemma move_posting from to v : is_uint256 v → ¬ (from = address0 ∧ to = address0) →
  (from = address0 → supply s + v < modulus) → (from ≠ address0 → v ≤ balance s from) →
  posting (erc20_part s) (erc20_part (move from to v s)) [Transfer from to v].
Proof. apply moved_posting. done. Qed.

Lemma spend_move_posting o p from to v : is_uint256 v → allowed v (erc20_part s) o p →
  from ≠ address0 → v ≤ balance s from →
  posting (erc20_part s) (erc20_part (move from to v (spend o p v s))) [Transfer from to v].
Proof.
  intros Hv Ha Hf Hb. apply (posting_trans _ (erc20_part (spend o p v s)) _ [] [Transfer from to v]).
  - apply spent_posting; [done|apply Hv|by apply allowed_enough].
  - apply moved_posting; [by apply spent_books|done|naive_solver|naive_solver|].
    intros _. simpl. by rewrite balance_spent.
Qed.

Lemma performs_posting c s' l : typed c → performs sender s c s' l →
  posting (erc20_part s) (erc20_part s') (transfers l).
Proof.
  destruct c; simpl; unfold covers.
  all: intros Ht H; destruct_and?; subst; try by apply posting_refl.
  all: try (first [apply move_posting|apply spend_move_posting]; naive_solver).
  - by apply set_allowance_posting.
  all: by apply posting_refl.
Qed.
End Performs.

(** What a call that succeeds does to the references. *)
Lemma performs_references sender s c s' l : performs sender s c s' l →
  (references l = [] ∧ usedReferences s' = usedReferences s) ∨
  ∃ r, references l = [r] ∧ reference_used s r = false ∧
       usedReferences s' = <[r := true]> (usedReferences s).
Proof. destruct c; simpl; intros H; destruct_and?; subst; eauto 6. Qed.

(** The owner after it. *)
Lemma performs_owner sender s c s' l : performs sender s c s' l →
  token_owner s' = token_owner s ∨ token_owner s = sender.
Proof. destruct c; simpl; intros H; destruct_and?; subst; auto. Qed.

Lemma lawful_step sender s l c s' l' :
  lawful s l → typed c → performs sender s c s' l' → lawful s' (l ++ l').
Proof.
  intros [Hb Hbal Hsup Hnd Hu Hn] Ht Hp.
  pose proof (performs_posting sender s Hb c s' l' Ht Hp) as (Hb'&Hbal'&Hsup'&Hn'&Hm').
  pose proof (performs_references sender s c s' l' Hp) as Hr.
  split; [done| | | | |destruct Hn; split; congruence].
  - intros a Ha. unfold balance in *. rewrite transfers_app, posted_app, Hbal', Hbal by done. done.
  - unfold supply in *. rewrite transfers_app, posted_app. lia.
  - rewrite references_app. destruct Hr as [[-> _]|(r&->&Hf&_)]; [by rewrite app_nil_r|].
    apply NoDup_app. split_and!; [done| |apply NoDup_singleton].
    intros r' Hr' ->%list_elem_of_singleton. apply Hu in Hr'. congruence.
  - intros r. rewrite references_app, elem_of_app, <- Hu.
    destruct Hr as [[-> E]|(r0&->&Hf&E)]; unfold reference_used; rewrite E.
    + split; [by left|]. intros [?|H]; [done|by apply elem_of_nil in H].
    + rewrite list_elem_of_singleton. destruct (decide (r0 = r)) as [->|Hne].
      * rewrite lookup_insert_eq. simpl. tauto.
      * rewrite lookup_insert_ne by done. split; [by left|]. by intros [?|?]; [|congruence].
Qed.

(** A transaction either performs its call or changes nothing. *)
Lemma transact_performs s sender c : books (erc20_part s) → typed c →
  performs sender s c (transact s sender c).1 (transact s sender c).2 ∨ transact s sender c = (s, []).
Proof.
  intros Hs Ht. unfold transact. destruct (execute c sender s) as [?|[[v s'] l]] eqn:E; [by right|].
  left. by apply (execute_performs sender s Hs) in E as [? _].
Qed.

Definition typed_all (txs : list (Z * call)) : Prop := Forall (λ tx, typed tx.2) txs.

Lemma history_cons s l sender c txs :
  history s l ((sender, c) :: txs) =
  history (transact s sender c).1 (l ++ (transact s sender c).2) txs.
Proof. simpl. by destruct (transact s sender c). Qed.

Lemma lawful_transact s l sender c : lawful s l → typed c →
  lawful (transact s sender c).1 (l ++ (transact s sender c).2).
Proof.
  intros Hl Ht. destruct (transact_performs s sender c (lawful_books s l Hl) Ht) as [Hp| ->].
  - by eapply lawful_step.
  - by rewrite app_nil_r.
Qed.

Lemma lawful_history s l txs : lawful s l → typed_all txs →
  lawful (history s l txs).1 (history s l txs).2.
Proof.
  revert s l. induction txs as [|[sender c] txs IH]; intros s l Hl Ht; [done|]. inv Ht.
  rewrite history_cons. apply IH; [|done]. by apply lawful_transact.
Qed.

(** Deployment. *)
Definition fresh (deployer : Z) : Token :=
  own deployer (set_erc20 (ERC20_constructor "ArosCoin" "AROS") blank).
Definition fresh_log (deployer : Z) : list TokenEvent := [OwnableLog (OwnershipTransferred address0 deployer)].

Lemma deploy_eq deployer :
  deploy deployer = if decide (deployer = address0) then inl (Custom (FromOwnable (OwnableInvalidOwner address0)))
                    else inr (fresh deployer, fresh_log deployer).
Proof.
  unfold deploy, constructor. rewrite sender_bind, store_bind.
  unfold of_ownable, inherit, Ownable_constructor. by case_decide.
Qed.

Lemma lawful_fresh deployer : lawful (fresh deployer) (fresh_log deployer).
Proof.
  split; simpl; try done.
  - constructor.
  - intros r. unfold reference_used. simpl. rewrite lookup_empty. simpl. rewrite elem_of_nil. naive_solver.
Qed.

(** The life of a contract: it is deployed, and called. *)
Definition life (deployer : Z) (txs : list (Z * call)) : Token * list TokenEvent :=
  history (fresh deployer) (fresh_log deployer) txs.

Lemma lawful_life deployer txs : typed_all txs → lawful (life deployer txs).1 (life deployer txs).2.
Proof. apply lawful_history, lawful_fresh. Qed.

(** ** What holds of every contract *)

(** In the life of a contract, whoever calls what, the books are exact. The balances
    are the sums of the [Transfer] events, added and subtracted as integers; so is the
    supply, as what came from the zero address less what went to it; the supply is the
    sum of all balances and fits its word, so that no [unchecked] operation wraps. *)
Theorem books_follow_the_log deployer txs : typed_all txs →
  let '(s, l) := life deployer txs in
  (∀ a, a ≠ address0 → balance s a = posted a (transfers l)) ∧
  supply s = - posted address0 (transfers l) ∧
  supply s = total (_balances (erc20_part s)) ∧
  (∀ a, 0 ≤ balance s a ≤ supply s) ∧ supply s ≤ uint256_max.
Proof.
  intros Ht. pose proof (lawful_life deployer txs Ht) as [Hb Hbal Hsup _ _ _].
  destruct (life deployer txs) as [s l]. simpl in *.
  pose proof (books_supply _ Hb) as Htot. pose proof (books_bound _ Hb).
  split_and!; [done..| |unfold supply, uint256_max; lia].
  intros a. split; [apply (books_nonneg _ Hb)|]. unfold supply. rewrite Htot.
  apply total_member, (books_nonneg _ Hb).
Qed.

(** A reference is used at most once in the life of a contract, over mints and burns
    together, and [isReferenceUsed] says exactly which ones were. *)
Theorem reference_used_once deployer txs : typed_all txs →
  let '(s, l) := life deployer txs in
  NoDup (references l) ∧ ∀ r, answer s (Call_isReferenceUsed r) = [VBool (bool_decide (r ∈ references l))].
Proof.
  intros Ht. pose proof (lawful_life deployer txs Ht) as [_ _ _ Hnd Hu _].
  destruct (life deployer txs) as [s l]. simpl in *. split; [done|]. intros r. do 2 f_equal.
  specialize (Hu r). destruct (reference_used s r); case_bool_decide; naive_solver.
Qed.

(** C7. The functions of the contract meet the specification. On books in order a call
    succeeds exactly when its conditions hold, then leaves the state, the events and the
    answer it should, with exact arithmetic; otherwise it reverts. *)
Theorem execute_meets sender s c : books (erc20_part s) → typed c →
  match execute c sender s with
  | inl _ => ∀ s' l, ¬ performs sender s c s' l
  | inr (v, s', l) => performs sender s c s' l ∧ v = answer s c ∧ books (erc20_part s') ∧
                      ∀ s2 l2, performs sender s c s2 l2 → s2 = s' ∧ l2 = l
  end.
Proof.
  intros Hs Ht. destruct (execute c sender s) as [e|[[v s'] l]] eqn:E.
  - intros s' l Hp. assert (execute c sender s = inr (answer s c, s', l)) as E2; [|congruence].
    by apply execute_performs.
  - destruct (proj1 (execute_performs sender s Hs c v s' l Ht) E) as [Hp ->]. split_and!; [done|done| |].
    + apply (performs_posting sender s Hs c s' l Ht Hp).
    + intros s2 l2 Hp2. assert (execute c sender s = inr (answer s c, s2, l2)) as E2; [|split; congruence].
      by apply execute_performs.
Qed.

(** Why an issue or a retirement is refused, in the order of the code: the caller is
    not the owner, the reference was used, the account is the zero address, and then the
    supply would leave its word (a panic, not a wrapped sum) or the holder has too little.
    Otherwise it is carried out under the reference. *)
Theorem issue_outcome a v r sender s : books (erc20_part s) → is_uint256 v →
  mint a v r sender s =
    (if decide (token_owner s ≠ sender) then inl (Custom (FromOwnable (OwnableUnauthorizedAccount sender)))
     else if reference_used s r then inl (Error "Reference already used")
     else if decide (a = address0) then inl (Custom (FromERC20 (ERC20InvalidReceiver address0)))
     else if decide (supply s + v < modulus) then
       inr (tt, mark r (move address0 a v s), moves address0 a v ++ [Minted a v r])
     else inl (Panic 0x11)) ∧
  burnWithReference a v r sender s =
    (if decide (token_owner s ≠ sender) then inl (Custom (FromOwnable (OwnableUnauthorizedAccount sender)))
     else if reference_used s r then inl (Error "Reference already used")
     else if decide (a = address0) then inl (Custom (FromERC20 (ERC20InvalidSender address0)))
     else if decide (balance s a < v) then inl (Custom (FromERC20 (ERC20InsufficientBalance a (balance s a) v)))
     else inr (tt, mark r (move a address0 v s), moves a address0 v ++ [Burned a v r])).
Proof.
  intros Hs Hv. unfold mint, burnWithReference. rewrite !only_owner.
  destruct (decide (token_owner s = sender)) as [->|Ho]; [|by rewrite !decide_True by done].
  rewrite !(decide_False (P := sender ≠ sender)) by tauto.
  rewrite !load_bind, !require_bind. destruct (reference_used s r); [done|]. cbn [negb].
  unfold of_erc20, inherit, mbind, contract_bind, _mint, _burn.
  destruct (decide (a = address0)) as [->|Ha]; [done|].
  rewrite !update_eq by (done || naive_solver).
  rewrite (decide_True (P := address0 = address0)), (decide_False (P := a = address0)) by done.
  unfold supply, balance, move, moves. split; case_decide; done.
Qed.

(** ** Who can do what *)

Lemma supply_move from to v s :
  supply (move from to v s) =
  supply s + (if decide (from = address0) then v else 0) - (if decide (to = address0) then v else 0).
Proof. unfold supply, move. simpl. unfold moved. repeat case_decide; simpl; lia. Qed.

Lemma supply_spend o p v s : supply (spend o p v s) = supply s.
Proof. apply supply_spent. Qed.

Lemma supply_mark r s : supply (mark r s) = supply s.
Proof. done. Qed.

(** What a call does to the supply. *)
Definition supply_change (c : call) : Z :=
  match c with
  | Call_mint _ v _ => v
  | Call_burn v | Call_burnFrom _ v | Call_burnWithReference _ v _ => - v
  | _ => 0
  end.

Lemma performs_supply sender s c s' l : performs sender s c s' l → supply s' = supply s + supply_change c.
Proof.
  destruct c; simpl; unfold covers; intros H; destruct_and?; subst; try (change (supply (set_erc20 _ _)) with (supply s));
    try (change (supply (own _ s)) with (supply s)); rewrite ?supply_mark, ?supply_move, ?supply_spend;
    repeat case_decide; try done; lia.

Qed.

(** The books side of a call other than the owner's: balances go down as authorised. *)
Lemma performs_authorised sender s c s' l : books (erc20_part s) → typed c → performs sender s c s' l →
  (∀ a v r, c ≠ Call_burnWithReference a v r) → authorised sender (erc20_part s) (erc20_part s').
Proof.
  intros Hs Ht Hp Hc. destruct c; simpl in *; unfold covers in *; destruct_and?; subst;
    try (by apply unchanged_authorised); unfold is_uint256 in *.
  - apply moved_authorised; lia.
  - apply spent_authorised; [lia|done|apply allowed_enough; [|done]]. by unfold is_uint256.
  - by destruct (Hc from amount txReference).
  - intros a Ha _. simpl. rewrite balance_moved by done. repeat case_decide; lia.
  - apply moved_authorised; lia.
  - apply spent_authorised; [lia|done|apply allowed_enough; [|done]]. by unfold is_uint256.
Qed.

(** C22. No transaction lowers a balance without a right to. The holder sent it; or the
    sender had an allowance of the holder for the amount, which is used up by it unless
    unlimited; or it is the owner's [burnWithReference] of exactly that amount under a
    reference not used before. *)
Theorem balance_lowered s sender c a : books (erc20_part s) → typed c → a ≠ address0 →
  let s' := (transact s sender c).1 in
  let d := balance s a - balance s' a in
  0 < d →
  sender = a ∨
  (d ≤ approved s a sender ∧
   (approved s a sender = uint256_max ∨ approved s' a sender = approved s a sender - d)) ∨
  (token_owner s = sender ∧ ∃ r, c = Call_burnWithReference a d r ∧ reference_used s r = false).
Proof.
  intros Hs Ht Ha s' d Hd. subst s' d. destruct (decide (sender = a)) as [->|Hne]; [by left|right].
  destruct (transact_performs s sender c Hs Ht) as [Hp|E]; [|rewrite E in Hd; simpl in Hd; lia].
  destruct (transact s sender c) as [s' l]. simpl in *.
  assert ((∃ b v r, c = Call_burnWithReference b v r) ∨ ∀ b v r, c ≠ Call_burnWithReference b v r) as [(b&v&r&->)|Hc].
  { destruct c; eauto 6. }
  - right. simpl in Hp. destruct Hp as (Ho&Hu&_&->&_). split; [done|].
    exists r. split; [|done]. revert Hd. unfold balance. simpl.
    rewrite balance_moved by done. case_decide as E; [subst b|repeat case_decide; lia].
    rewrite decide_False by done. intros _. f_equal. lia.
  - left. pose proof (performs_authorised sender s c s' l Hs Ht Hp Hc a Ha) as H.
    unfold balance in *. apply H; [done|lia].
Qed.

(** C21. Only the owner issues. A transaction that raises the supply, uses a reference or
    changes the owner is the owner's; and it raises the supply by minting exactly the
    amount of its [Minted] event under a reference not used before. *)
Theorem only_owner_issues s sender c : books (erc20_part s) → typed c →
  let '(s', l) := transact s sender c in
  (supply s < supply s' ∨ references l ≠ [] ∨ token_owner s' ≠ token_owner s → sender = token_owner s) ∧
  (supply s < supply s' →
   ∃ a r, c = Call_mint a (supply s' - supply s) r ∧ reference_used s r = false ∧
          l = moves address0 a (supply s' - supply s) ++ [Minted a (supply s' - supply s) r]).
Proof.
  intros Hs Ht. destruct (transact_performs s sender c Hs Ht) as [Hp|E];
    [|rewrite E; simpl; split; [intros [?|[?|?]]; [lia|done|done]|lia]].
  destruct (transact s sender c) as [s' l]. simpl in *.
  pose proof (performs_supply sender s c s' l Hp) as Hsup. rewrite Hsup.
  destruct c; simpl in *; unfold covers, is_uint256 in *; destruct_and?; subst; simpl in *.
  all: split; [intros [?|[?|?]]; try done; lia|intros Hup; try (exfalso; lia)].
  exists to, txReference. by replace (supply s + amount - supply s) with amount by lia.
Qed.

(** The two public functions a holder can lower the supply with. *)
Definition holder_burn (c : call) : bool :=
  match c with Call_burn _ | Call_burnFrom _ _ => true | _ => false end.

(** What the referenced events account for beyond the supply. *)
Definition gap (s : Token) (l : list TokenEvent) : Z := issued l - retired l - supply s.

Lemma gap_performs sender s l c s' l' : typed c → performs sender s c s' l' →
  gap s' (l ++ l') = gap s l + if holder_burn c then - supply_change c else 0.
Proof.
  intros Ht Hp. unfold gap. rewrite (performs_supply _ _ _ _ _ Hp), issued_app, retired_app.
  destruct c; simpl in *; destruct_and?; subst; simpl; lia.
Qed.

Lemma gap_transact s l sender c : books (erc20_part s) → typed c →
  let '(s', l') := transact s sender c in
  gap s l ≤ gap s' (l ++ l') ∧ (holder_burn c = false → gap s' (l ++ l') = gap s l).
Proof.
  intros Hs Ht. destruct (transact_performs s sender c Hs Ht) as [Hp|E].
  - destruct (transact s sender c) as [s' l']. rewrite (gap_performs _ _ _ _ _ _ Ht Hp).
    destruct c; simpl in *; unfold is_uint256 in *; lia.
  - rewrite E, app_nil_r. done.
Qed.

Lemma gap_history s l txs : lawful s l → typed_all txs →
  gap s l ≤ gap (history s l txs).1 (history s l txs).2 ∧
  (Forall (λ tx, holder_burn tx.2 = false) txs → gap (history s l txs).1 (history s l txs).2 = gap s l).
Proof.
  intros Hl Ht. revert s l Hl. induction Ht as [|[sender c] txs Hc Ht IH]; intros s l Hl; [done|].
  rewrite history_cons. pose proof (gap_transact s l sender c (lawful_books s l Hl) Hc) as Hg.
  destruct (IH _ _ (lawful_transact s l sender c Hl Hc)) as [Hle Heq].
  destruct (transact s sender c) as [s' l']. simpl in *. destruct Hg as [Hg1 Hg2].
  split; [lia|]. intros Hf. inv Hf. rewrite Heq by done. auto.
Qed.

(** C23. Issuance accounts for the supply. The supply never exceeds the amounts of the
    [Minted] events less those of the [Burned] events, and is exactly that as long as no
    holder calls [burn] or [burnFrom], which the contract inherits. *)
Theorem supply_reconciles deployer txs : typed_all txs →
  let '(s, l) := life deployer txs in
  supply s ≤ issued l - retired l ∧
  (Forall (λ tx, holder_burn tx.2 = false) txs → supply s = issued l - retired l).
Proof.
  intros Ht. pose proof (gap_history _ _ txs (lawful_fresh deployer) Ht) as [H1 H2].
  unfold life. destruct (history _ _ txs) as [s l]. unfold gap in *. simpl in *.
  change (supply (fresh deployer)) with 0 in *. split; [lia|]. intros Hf. specialize (H2 Hf). lia.
Qed.

(** A holder's [burn] lowers the supply outside the references: it succeeds for
    anybody who holds the amount, without the owner, uses no reference and leaves no
    [Burned] event. *)
Theorem holder_burn_unreferenced s holder v : books (erc20_part s) → is_uint256 v → covers s holder v →
  let '(s', l) := transact s holder (Call_burn v) in
  supply s' = supply s - v ∧ balance s' holder = balance s holder - v ∧
  references l = [] ∧ usedReferences s' = usedReferences s ∧ token_owner s' = token_owner s.
Proof.
  intros Hs Hv [Hh Hle].
  assert (execute (Call_burn v) holder s = inr ([], move holder address0 v s, moves holder address0 v)) as E.
  { by apply (execute_performs holder s Hs (Call_burn v)). }
  unfold transact. rewrite E. rewrite supply_move, decide_False, decide_True by done.
  split_and!; try done; [lia|]. unfold balance, move. simpl. rewrite balance_moved by done.
  rewrite decide_True, decide_False by done. lia.
Qed.

(** Renouncing the ownership is for ever. Once no account is the owner, whatever
    accounts send, nothing is minted, no reference is used, the owner stays nobody and
    the supply does not grow. *)
Theorem renounced_for_ever s l txs : lawful s l → token_owner s = address0 →
  typed_all txs → Forall (λ tx, tx.1 ≠ address0) txs →
  let '(s', l') := history s l txs in
  token_owner s' = address0 ∧ references l' = references l ∧ issued l' = issued l ∧ supply s' ≤ supply s.
Proof.
  intros Hl Ho Ht Hn. revert s l Hl Ho Hn. induction Ht as [|[sender c] txs Hc Ht IH]; intros s l Hl Ho Hn; [done|].
  rewrite history_cons. inv Hn. simpl in *.
  pose proof (lawful_transact s l sender c Hl Hc) as Hl'.
  assert (token_owner (transact s sender c).1 = address0 ∧ references (transact s sender c).2 = [] ∧
          issued (transact s sender c).2 = 0 ∧ supply (transact s sender c).1 ≤ supply s) as (Ho'&Hr'&Hi'&Hs').
  { destruct (transact_performs s sender c (lawful_books s l Hl) Hc) as [Hp|E]; [|by rewrite E].
    destruct (transact s sender c) as [s' l']. simpl in *. rewrite (performs_supply _ _ _ _ _ Hp).
    destruct c; simpl in *; unfold is_uint256 in *; destruct_and?; subst; try congruence; simpl; split_and!; try done; lia. }
  specialize (IH _ _ Hl' Ho' ltac:(done)). destruct (history _ _ txs) as [s2 l2].
  destruct IH as (?&Hr&Hi&Hs). rewrite Hr, Hi, references_app, issued_app, Hr', Hi', app_nil_r.
  split_and!; [done|done|lia|lia].
Qed.

(** ** Concrete lives *)

Definition sample_txs : list (Z * call) :=
  [(1, Call_mint 2 100 7); (2, Call_transfer 3 40); (3, Call_approve 2 15); (2, Call_transferFrom 3 2 10);
   (1, Call_mint 2 100 7); (1, Call_burnWithReference 2 20 8); (3, Call_mint 3 5 9)].

Lemma sample_typed : typed_all sample_txs.
Proof. apply (bool_decide_unpack _). vm_compute. exact I. Qed.

(** The state the sample leaves. *)
Definition sample : Token := (life 1 sample_txs).1.

Lemma sample_books : books (erc20_part sample).
Proof. apply lawful_books with (l := (life 1 sample_txs).2). apply lawful_life, sample_typed. Qed.

Lemma books_follow_the_log_witness :
  typed_all sample_txs ∧ supply sample = 80 ∧
  balance sample 2 = posted 2 (transfers (life 1 sample_txs).2) ∧ balance sample 2 = 50.
Proof.
  pose proof (books_follow_the_log 1 sample_txs sample_typed) as H. unfold sample.
  split; [exact sample_typed|]. split; [by vm_compute|]. split; [|by vm_compute].
  destruct (life 1 sample_txs) as [s l]. by apply H.
Defined.

Lemma reference_used_once_witness :
  typed_all sample_txs ∧ NoDup (references (life 1 sample_txs).2) ∧ references (life 1 sample_txs).2 = [7; 8].
Proof.
  pose proof (reference_used_once 1 sample_txs sample_typed) as H.
  split; [exact sample_typed|]. split; [|by vm_compute].
  destruct (life 1 sample_txs) as [s l]. apply H.
Defined.

Lemma issue_outcome_witness :
  books (erc20_part sample) ∧ mint 2 5 7 1 sample = inl (Error "Reference already used") ∧
  mint 2 uint256_max 9 1 sample = inl (Panic 0x11).
Proof.
  pose proof (issue_outcome 2 5 7 1 sample sample_books ltac:(by apply (bool_decide_unpack _); vm_compute)) as [H1 _].
  pose proof (issue_outcome 2 uint256_max 9 1 sample sample_books ltac:(by apply (bool_decide_unpack _); vm_compute)) as [H2 _].
  split; [exact sample_books|]. rewrite H1, H2. by split; vm_compute.
Defined.

Lemma supply_reconciles_witness :
  Forall (λ tx : Z * call, holder_burn tx.2 = false) sample_txs ∧
  supply (life 1 sample_txs).1 = issued (life 1 sample_txs).2 - retired (life 1 sample_txs).2.
Proof.
  pose proof (supply_reconciles 1 sample_txs sample_typed) as H.
  assert (Forall (λ tx : Z * call, holder_burn tx.2 = false) sample_txs) as Hf by (by repeat constructor).
  split; [exact Hf|]. destruct (life 1 sample_txs) as [s l]. by apply H.
Defined.

Lemma execute_meets_witness :
  books (erc20_part sample) ∧
  (∃ s' l, execute (Call_mint 2 30 9) 1 sample = inr ([], s', l) ∧ performs 1 sample (Call_mint 2 30 9) s' l).
Proof.
  split; [exact sample_books|].
  pose proof (execute_meets 1 sample (Call_mint 2 30 9) sample_books ltac:(by apply (bool_decide_unpack _); vm_compute)) as H.
  destruct (execute (Call_mint 2 30 9) 1 sample) as [e|[[v s'] l]] eqn:E; [by vm_compute in E|].
  destruct H as (Hp&->&_). by exists s', l.
Defined.

Lemma balance_lowered_witness :
  0 < balance sample 2 - balance (transact sample 1 (Call_burnWithReference 2 30 9)).1 2 ∧
  (1 = 2 ∨ 30 ≤ approved sample 2 1 ∨ token_owner sample = 1).
Proof.
  pose proof (balance_lowered sample 1 (Call_burnWithReference 2 30 9) 2 sample_books
    ltac:(by apply (bool_decide_unpack _); vm_compute) ltac:(done)) as H. simpl in H.
  assert (balance sample 2 - balance (transact sample 1 (Call_burnWithReference 2 30 9)).1 2 = 30) as E by by vm_compute.
  rewrite E in *. split; [done|]. destruct (H ltac:(done)) as [?|[[? _]|[? _]]]; auto.
Defined.

Lemma only_owner_issues_witness :
  supply sample < supply (transact sample 1 (Call_mint 3 5 9)).1 ∧ 1 = token_owner sample.
Proof.
  pose proof (only_owner_issues sample 1 (Call_mint 3 5 9) sample_books
    ltac:(by apply (bool_decide_unpack _); vm_compute)) as H.
  assert (supply sample < supply (transact sample 1 (Call_mint 3 5 9)).1) as E by by vm_compute.
  split; [exact E|]. destruct (transact sample 1 (Call_mint 3 5 9)) as [s' l]. apply H. by left.
Defined.

Lemma holder_burn_unreferenced_witness :
  covers sample 3 30 ∧ supply (transact sample 3 (Call_burn 30)).1 = 50 ∧
  references (transact sample 3 (Call_burn 30)).2 = [].
Proof.
  assert (covers sample 3 30) as Hc by (by split; vm_compute).
  pose proof (holder_burn_unreferenced sample 3 30 sample_books ltac:(by apply (bool_decide_unpack _); vm_compute) Hc) as H.
  split; [exact Hc|]. split; [by vm_compute|]. destruct (transact sample 3 (Call_burn 30)) as [s' l]. apply H.
Defined.

Definition renounced_txs : list (Z * call) := sample_txs ++ [(1, Call_renounceOwnership)].

Lemma renounced_for_ever_witness :
  token_owner (life 1 renounced_txs).1 = address0 ∧
  issued (history (life 1 renounced_txs).1 (life 1 renounced_txs).2 [(1, Call_mint 2 100 10); (3, Call_burn 5)]).2 = 100.
Proof.
  assert (typed_all renounced_txs) as Ht by (by apply (bool_decide_unpack _); vm_compute).
  assert (token_owner (life 1 renounced_txs).1 = address0) as Ho by by vm_compute.
  pose proof (renounced_for_ever _ _ [(1, Call_mint 2 100 10); (3, Call_burn 5)] (lawful_life 1 renounced_txs Ht) Ho
    ltac:(by apply (bool_decide_unpack _); vm_compute) ltac:(by repeat constructor)) as H.
  split; [exact Ho|].
  destruct (history (life 1 renounced_txs).1 (life 1 renounced_txs).2 _) as [s' l'].
  destruct H as (_&_&H&_). simpl. rewrite H. by vm_compute.
Defined.
