(* ===== verification/Abi.v ===== *)
(** * The application binary interface

    How a call of a function reaches a contract: fragments describe the functions,
    events and errors as the factories of
    [src/smart_contracts/typechain-types/factories/] list them; a call is the selector
    of the function's signature and one word of 32 bytes for each argument; the
    compiled contract finds the function by its selector and reads the words back.
    The selectors are those the compiler recorded in
    [src/smart_contracts/artifacts/build-info/]. *)

From Stdlib Require Import Ascii String Strings.Byte ZArith.
From S2P Require Import Prelude Solidity Ownable ERC20 ReserveManager.

Local Open Scope Z_scope.

(** ** Fragments *)

(** An input or output of a fragment; [indexed] only in events. *)
Record Param := {
  internalType : string;
  param_name : string;
  param_type : string;
  indexed : option bool
}.

(** An entry of an ABI; absent keys are [None]. *)
Record Fragment := {
  anonymous : option bool;
  inputs : list Param;
  fragment_name : option string;
  outputs : option (list Param);
  stateMutability : option string;
  fragment_type : string
}.

#[global] Instance Param_eq_dec : EqDecision Param.
Proof. solve_decision. Defined.
#[global] Instance Fragment_eq_dec : EqDecision Fragment.
Proof. solve_decision. Defined.

(** The types that occur. *)
Inductive abi_type := TAddress | TUint256 | TUint8 | TBytes32 | TBool | TString.

#[global] Instance abi_type_eq_dec : EqDecision abi_type.
Proof. solve_decision. Defined.

Definition parse_type (s : string) : option abi_type :=
  if String.eqb s "address" then Some TAddress
  else if String.eqb s "uint256" then Some TUint256
  else if String.eqb s "uint8" then Some TUint8
  else if String.eqb s "bytes32" then Some TBytes32
  else if String.eqb s "bool" then Some TBool
  else if String.eqb s "string" then Some TString
  else None.

Definition param_types (l : list Param) : option (list abi_type) := mapM (λ p, parse_type (param_type p)) l.

(** The text whose hash selects a function: its name and the types of its arguments. *)
Definition signature_text (name : string) (types : list string) : string :=
  name +:+ "(" +:+ String.concat "," types +:+ ")".
Definition signature (f : Fragment) : string :=
  signature_text (default EmptyString (fragment_name f)) (param_type <$> inputs f).

Definition is_function (f : Fragment) : bool := String.eqb (fragment_type f) "function".

(** The function of an ABI with a name. No name of the contract is overloaded. *)
Definition function_named (abi : list Fragment) (name : string) : option Fragment :=
  List.find (λ f, is_function f && bool_decide (fragment_name f = Some name)) abi.

(** ** Words *)

Definition byte_value (b : byte) : Z := Z.of_N (Byte.to_N b).
Definition byte_of (v : Z) : byte := default x00 (Byte.of_N (Z.to_N (v mod 256))).

(** [n] bytes, most significant first. *)
Fixpoint to_bytes (n : nat) (v : Z) : list byte :=
  match n with
  | O => []
  | S n => to_bytes n (v / 256) ++ [byte_of v]
  end.
Definition of_bytes (l : list byte) : Z := foldl (λ acc b, acc * 256 + byte_value b) 0 l.

Lemma byte_value_bounds b : 0 ≤ byte_value b < 256.
Proof. unfold byte_value. pose proof (Byte.to_N_bounded b). lia. Qed.

Lemma byte_value_of v : byte_value (byte_of v) = v mod 256.
Proof.
  unfold byte_value, byte_of. pose proof (Z.mod_pos_bound v 256 ltac:(lia)) as Hb.
  destruct (Byte.of_N (Z.to_N (v mod 256))) as [b|] eqn:E; simpl.
  - apply Byte.to_of_N in E. rewrite E. lia.
  - apply Byte.of_N_None_iff in E. lia.
Qed.

Lemma to_bytes_length n v : length (to_bytes n v) = n.
Proof. revert v. induction n as [|n IH]; intros v; simpl; [done|]. rewrite length_app, IH. simpl. lia. Qed.

Lemma of_bytes_snoc l b : of_bytes (l ++ [b]) = of_bytes l * 256 + byte_value b.
Proof. unfold of_bytes. by rewrite foldl_app. Qed.

Lemma of_bytes_nonneg l : 0 ≤ of_bytes l.
Proof.
  induction l as [|b l IH] using rev_ind; [done|]. rewrite of_bytes_snoc.
  pose proof (byte_value_bounds b). lia.
Qed.

Lemma of_bytes_bound l : of_bytes l < 256 ^ Z.of_nat (length l).
Proof.
  induction l as [|b l IH] using rev_ind; [done|]. rewrite of_bytes_snoc, length_app. simpl length.
  rewrite Nat2Z.inj_add, Z.pow_add_r by lia. pose proof (byte_value_bounds b).
  change (256 ^ Z.of_nat 1) with 256. lia.
Qed.

Lemma of_to_bytes n v : 0 ≤ v < 256 ^ Z.of_nat n → of_bytes (to_bytes n v) = v.
Proof.
  revert v. induction n as [|n IH]; intros v Hv; [simpl in *; unfold of_bytes; simpl; lia|].
  simpl. rewrite of_bytes_snoc, byte_value_of, IH.
  - pose proof (Z.div_mod v 256). lia.
  - rewrite Nat2Z.inj_succ, Z.pow_succ_r in Hv by lia. split; [apply Z.div_pos; lia|].
    apply Z.div_lt_upper_bound; lia.
Qed.

(** Bytes are the digits of the number they spell. *)
Lemma to_of_bytes l : to_bytes (length l) (of_bytes l) = l.
Proof.
  induction l as [|b l IH] using rev_ind; [done|].
  rewrite length_app, Nat.add_comm. simpl. rewrite of_bytes_snoc. pose proof (byte_value_bounds b) as Hb.
  rewrite Z.div_add_l by lia. rewrite (Z.div_small (byte_value b)) by lia. rewrite Z.add_0_r, IH. do 2 f_equal.
  unfold byte_of. rewrite Z.add_comm, Z.mod_add, Z.mod_small by lia.
  unfold byte_value. by rewrite N2Z.id, Byte.of_to_N.
Qed.

Lemma word_modulus : 256 ^ Z.of_nat 32 = modulus.
Proof. by vm_compute. Qed.

Definition word_size : nat := 32.
Definition word (v : Z) : list byte := to_bytes word_size v.

Lemma word_length v : length (word v) = word_size.
Proof. apply to_bytes_length. Qed.

Lemma take_to_bytes n v l : take n (to_bytes n v ++ l) = to_bytes n v.
Proof. rewrite <- (to_bytes_length n v) at 1. apply take_app_length. Qed.
Lemma drop_to_bytes n v l : drop n (to_bytes n v ++ l) = l.
Proof. rewrite <- (to_bytes_length n v) at 1. apply drop_app_length. Qed.

Lemma take_word v l : take word_size (word v ++ l) = word v.
Proof. apply take_to_bytes. Qed.
Lemma drop_word v l : drop word_size (word v ++ l) = l.
Proof. apply drop_to_bytes. Qed.

Lemma of_word v : is_uint256 v → of_bytes (word v) = v.
Proof. intros Hv. apply of_to_bytes. unfold word_size. by rewrite word_modulus. Qed.

Lemma of_bytes_word l : length l = word_size → is_uint256 (of_bytes l).
Proof.
  intros Hl. split; [apply of_bytes_nonneg|]. rewrite <- word_modulus.
  change 32%nat with word_size. rewrite <- Hl. apply of_bytes_bound.
Qed.

#[global] Opaque word to_bytes.
Arguments word_size : simpl never.

(** ** The contract's side *)

(** A static value of a type, as its word. *)
Definition value_word (v : value) : option Z :=
  match v with
  | VAddress a => Some a
  | VUint256 n | VUint8 n | VBytes32 n => Some n
  | VBool b => Some (if b then 1 else 0)
  | VString _ => None
  end.

Definition value_type (v : value) : abi_type :=
  match v with
  | VAddress _ => TAddress | VUint256 _ => TUint256 | VUint8 _ => TUint8
  | VBytes32 _ => TBytes32 | VBool _ => TBool | VString _ => TString
  end.

(** A value lies in its type. *)
Definition value_typed (v : value) : Prop :=
  match v with
  | VAddress a => is_address a
  | VUint256 n | VBytes32 n => is_uint256 n
  | VUint8 n => 0 ≤ n < 256
  | VBool _ | VString _ => True
  end.

(** Reading a word as a type: the decoder refuses an address with higher bits set. *)
Definition decode_word (t : abi_type) (w : Z) : option value :=
  match t with
  | TAddress => if decide (w < address_modulus) then Some (VAddress w) else None
  | TUint256 => Some (VUint256 w)
  | TUint8 => if decide (w < 256) then Some (VUint8 w) else None
  | TBytes32 => Some (VBytes32 w)
  | TBool => if decide (w < 2) then Some (VBool (bool_decide (w = 1))) else None
  | TString => None
  end.

(** The arguments from the data behind the selector; what follows them is ignored. *)
Fixpoint decode_args (types : list abi_type) (data : list byte) : option (list value) :=
  match types with
  | [] => Some []
  | t :: types =>
    if decide (word_size ≤ length data)%nat then
      v ← decode_word t (of_bytes (take word_size data));
      vs ← decode_args types (drop word_size data);
      Some (v :: vs)
    else None
  end.

(** The public and external functions of the contract and of those it inherits from. *)
Definition external_functions : list (string * list abi_type) :=
  [("allowance", [TAddress; TAddress]);
   ("approve", [TAddress; TUint256]);
   ("balanceOf", [TAddress]);
   ("burn", [TUint256]);
   ("burnFrom", [TAddress; TUint256]);
   ("burnWithReference", [TAddress; TUint256; TBytes32]);
   ("decimals", []);
   ("isReferenceUsed", [TBytes32]);
   ("mint", [TAddress; TUint256; TBytes32]);
   ("name", []);
   ("owner", []);
   ("renounceOwnership", []);
   ("symbol", []);
   ("totalSupply", []);
   ("transfer", [TAddress; TUint256]);
   ("transferFrom", [TAddress; TAddress; TUint256]);
   ("transferOwnership", [TAddress])]%string.

Definition call_name (c : call) : string :=
  match c with
  | Call_allowance _ _ => "allowance"
  | Call_approve _ _ => "approve"
  | Call_balanceOf _ => "balanceOf"
  | Call_burn _ => "burn"
  | Call_burnFrom _ _ => "burnFrom"
  | Call_burnWithReference _ _ _ => "burnWithReference"
  | Call_decimals => "decimals"
  | Call_isReferenceUsed _ => "isReferenceUsed"
  | Call_mint _ _ _ => "mint"
  | Call_name => "name"
  | Call_owner => "owner"
  | Call_renounceOwnership => "renounceOwnership"
  | Call_symbol => "symbol"
  | Call_totalSupply => "totalSupply"
  | Call_transfer _ _ => "transfer"
  | Call_transferFrom _ _ _ => "transferFrom"
  | Call_transferOwnership _ => "transferOwnership"
  end.

Definition call_args (c : call) : list value :=
  match c with
  | Call_allowance o p => [VAddress o; VAddress p]
  | Call_approve p v | Call_burnFrom p v | Call_transfer p v => [VAddress p; VUint256 v]
  | Call_balanceOf a | Call_transferOwnership a => [VAddress a]
  | Call_burn v => [VUint256 v]
  | Call_burnWithReference a v r | Call_mint a v r => [VAddress a; VUint256 v; VBytes32 r]
  | Call_isReferenceUsed r => [VBytes32 r]
  | Call_transferFrom a b v => [VAddress a; VAddress b; VUint256 v]
  | _ => []
  end.

(** The call of a function by its name. *)
Definition call_of (name : string) (args : list value) : option call :=
  match args with
  | [] => List.find (λ c, String.eqb (call_name c) name)
            [Call_decimals; Call_name; Call_owner; Call_renounceOwnership; Call_symbol; Call_totalSupply]
  | [VUint256 v] => List.find (λ c, String.eqb (call_name c) name) [Call_burn v]
  | [VBytes32 r] => List.find (λ c, String.eqb (call_name c) name) [Call_isReferenceUsed r]
  | [VAddress a] => List.find (λ c, String.eqb (call_name c) name) [Call_balanceOf a; Call_transferOwnership a]
  | [VAddress a; VAddress b] => List.find (λ c, String.eqb (call_name c) name) [Call_allowance a b]
  | [VAddress a; VUint256 v] =>
    List.find (λ c, String.eqb (call_name c) name) [Call_approve a v; Call_burnFrom a v; Call_transfer a v]
  | [VAddress a; VUint256 v; VBytes32 r] =>
    List.find (λ c, String.eqb (call_name c) name) [Call_burnWithReference a v r; Call_mint a v r]
  | [VAddress a; VAddress b; VUint256 v] =>
    List.find (λ c, String.eqb (call_name c) name) [Call_transferFrom a b v]
  | _ => None
  end.

Definition type_text (t : abi_type) : string :=
  match t with
  | TAddress => "address" | TUint256 => "uint256" | TUint8 => "uint8"
  | TBytes32 => "bytes32" | TBool => "bool" | TString => "string"
  end.

(** The selectors of the compiled contract. *)
Definition methodIdentifiers : list (string * string) :=
  [("allowance(address,address)", "dd62ed3e");
   ("approve(address,uint256)", "095ea7b3");
   ("balanceOf(address)", "70a08231");
   ("burn(uint256)", "42966c68");
   ("burnFrom(address,uint256)", "79cc6790");
   ("burnWithReference(address,uint256,bytes32)", "9199a774");
   ("decimals()", "313ce567");
   ("isReferenceUsed(bytes32)", "986bf620");
   ("mint(address,uint256,bytes32)", "1e458bee");
   ("name()", "06fdde03");
   ("owner()", "8da5cb5b");
   ("renounceOwnership()", "715018a6");
   ("symbol()", "95d89b41");
   ("totalSupply()", "18160ddd");
   ("transfer(address,uint256)", "a9059cbb");
   ("transferFrom(address,address,uint256)", "23b872dd");
   ("transferOwnership(address)", "f2fde38b")]%string.

(** A hexadecimal digit in lower case, and a numeral of them. *)
Definition hex_digit (c : ascii) : Z :=
  let n := Z.of_N (N_of_ascii c) in if decide (n < 97) then n - 48 else n - 87.
Fixpoint hex_from (acc : Z) (s : string) : Z :=
  match s with EmptyString => acc | String c s => hex_from (16 * acc + hex_digit c) s end.
Definition hex_value (s : string) : Z := hex_from 0 s.

Definition selector_size : nat := 4.
Arguments selector_size : simpl never.

(** The function the selector of the data belongs to. *)
Definition selected (data : list byte) : option (string * list abi_type) :=
  if decide (selector_size ≤ length data)%nat then
    '(text, _) ← List.find (λ m, bool_decide (hex_value m.2 = of_bytes (take selector_size data))) methodIdentifiers;
    List.find (λ f, String.eqb (signature_text f.1 (type_text <$> f.2)) text) external_functions
  else None.

Definition dispatch (data : list byte) : option call :=
  '(name, types) ← selected data;
  args ← decode_args types (drop selector_size data);
  call_of name args.

(** A transaction as the contract receives it: no function takes a payment. *)
Definition serve (s : Token) (sender payment : Z) (data : list byte) : Token * list TokenEvent :=
  if decide (payment = 0) then
    match dispatch data with Some c => transact s sender c | None => (s, []) end
  else (s, []).

(** ** Reading back what was written *)

(** The words of static values. *)
Fixpoint encode_values (vs : list value) : option (list byte) :=
  match vs with
  | [] => Some []
  | v :: vs => w ← value_word v; l ← encode_values vs; Some (word w ++ l)
  end.

Lemma value_word_typed v w : value_typed v → value_word v = Some w → is_uint256 w.
Proof.
  pose proof address_below_modulus. assert (256 < modulus) by by vm_compute.
  destruct v as [| | | |[]|]; simpl; unfold is_address, is_uint256; intros ? [= <-]; lia.
Qed.

Lemma decode_word_encode v w : value_typed v → value_word v = Some w → decode_word (value_type v) w = Some v.
Proof.
  destruct v as [| | | |[]|]; simpl; unfold is_address; intros ? [= <-]; try done; case_decide; try done; lia.
Qed.

Lemma decode_word_typed t w v : is_uint256 w → decode_word t w = Some v →
  value_typed v ∧ value_type v = t ∧ (t ≠ TBool → value_word v = Some w).
Proof.
  destruct t; simpl; unfold is_uint256, is_address; intros; repeat case_decide; simplify_eq; simpl;
    unfold is_uint256, is_address; split_and!; try done; lia.
Qed.

Lemma decode_args_encode vs data rest : Forall value_typed vs → encode_values vs = Some data →
  decode_args (value_type <$> vs) (data ++ rest) = Some vs.
Proof.
  intros Ht. revert data. induction Ht as [|v vs Hv Ht IH]; intros data; simpl; [done|].
  destruct (value_word v) as [w|] eqn:Ew; [|done]. destruct (encode_values vs) as [l|]; [|done]. simpl.
  intros [= <-].
  rewrite <- app_assoc.
  rewrite take_word, drop_word.
  rewrite decide_True by (rewrite length_app, word_length; lia).
  rewrite of_word by by eapply value_word_typed.
  rewrite (decode_word_encode v w) by done. simpl.
  change (list_fmap value abi_type value_type vs) with (value_type <$> vs). by rewrite (IH l).
Qed.

Lemma decode_args_typed types data vs : decode_args types data = Some vs →
  Forall value_typed vs ∧ value_type <$> vs = types.
Proof.
  revert data vs. induction types as [|t types IH]; intros data vs; simpl; [by intros [= <-]|].
  case_decide; [|done].
  destruct (decode_word t _) as [v|] eqn:Ev; [|done]. simpl.
  destruct (decode_args types _) as [vs'|] eqn:Evs; [|done]. intros [= <-].
  apply decode_word_typed in Ev as (Hv&Ht&_); [|apply of_bytes_word; rewrite length_take; lia].
  apply IH in Evs as [Hvs Hts]. split; [by constructor|]. rewrite fmap_cons. by rewrite Ht, Hts.
Qed.

Lemma call_of_args c : call_of (call_name c) (call_args c) = Some c.
Proof. by destruct c. Qed.

Lemma find_call name (P : call → Prop) l c :
  Forall P l → List.find (λ c, String.eqb (call_name c) name) l = Some c → call_name c = name ∧ P c.
Proof.
  intros Hl [Hin Hn]%List.find_some. apply String.eqb_eq in Hn. split; [done|].
  rewrite Forall_forall in Hl. apply Hl. by apply list_elem_of_In.
Qed.

Lemma call_of_inv name args c : call_of name args = Some c → call_name c = name ∧ call_args c = args.
Proof.
  unfold call_of. intros Hf. revert Hf. repeat case_match; try done; intros Hf;
    (eapply (find_call _ (λ c, call_args c = _)) in Hf; [exact Hf|]); by repeat constructor.
Qed.

Lemma typed_args c : typed c ↔ Forall value_typed (call_args c).
Proof. destruct c; simpl; rewrite ?Forall_cons, ?Forall_nil; simpl; tauto. Qed.

(** The selector of a call, and the whole call as data. *)
Definition call_signature (c : call) : string :=
  signature_text (call_name c) ((λ v, type_text (value_type v)) <$> call_args c).
Definition call_selector (c : call) : option Z :=
  '(_, hex) ← List.find (λ m, String.eqb m.1 (call_signature c)) methodIdentifiers; Some (hex_value hex).
Definition calldata (c : call) : option (list byte) :=
  sel ← call_selector c; body ← encode_values (call_args c); Some (to_bytes selector_size sel ++ body).

Lemma selected_call c sel rest : call_selector c = Some sel →
  selected (to_bytes selector_size sel ++ rest) = Some (call_name c, value_type <$> call_args c).
Proof.
  intros Hs. unfold selected. rewrite decide_True by (rewrite length_app, to_bytes_length; lia).
  rewrite take_to_bytes.
  rewrite of_to_bytes.
  - by destruct c; vm_compute in Hs; injection Hs as <-.
  - by destruct c; vm_compute in Hs; injection Hs as <-.
Qed.

Lemma dispatch_calldata c data rest : typed c → calldata c = Some data → dispatch (data ++ rest) = Some c.
Proof.
  intros Ht%typed_args. unfold calldata. destruct (call_selector c) as [sel|] eqn:Es; [|done].
  simpl. destruct (encode_values (call_args c)) as [body|] eqn:Eb; [|done]. intros [= <-].
  unfold dispatch. rewrite <- app_assoc, (selected_call c) by done. simpl.
  rewrite drop_to_bytes.
  rewrite (decode_args_encode (call_args c)) by done. simpl. apply call_of_args.
Qed.

Lemma dispatch_typed data c : dispatch data = Some c → typed c.
Proof.
  unfold dispatch. destruct (selected data) as [[name types]|]; [|done]. simpl.
  destruct (decode_args types _) as [args|] eqn:Ea; [|done]. simpl. intros [_ Hc]%call_of_inv.
  apply typed_args. rewrite Hc. by apply decode_args_typed in Ea as [? _].
Qed.

Lemma calldata_total c : ∃ data, calldata c = Some data.
Proof. destruct c; eexists; reflexivity. Qed.

(** ** Any data

    A transaction as it is sent: who, how much, and bytes. *)
Record raw_tx := { raw_sender : Z; raw_payment : Z; raw_data : list byte }.

Definition serve_tx (s : Token) (t : raw_tx) : Token * list TokenEvent :=
  serve s (raw_sender t) (raw_payment t) (raw_data t).

Fixpoint serve_all (s : Token) (l : list TokenEvent) (raws : list raw_tx) : Token * list TokenEvent :=
  match raws with
  | [] => (s, l)
  | t :: raws => let '(s', l') := serve_tx s t in serve_all s' (l ++ l') raws
  end.

(** The call a transaction makes, if it makes one. *)
Definition call_made (t : raw_tx) : option (Z * call) :=
  if decide (raw_payment t = 0) then c ← dispatch (raw_data t); Some (raw_sender t, c) else None.

Lemma serve_all_history s l raws : serve_all s l raws = history s l (omap call_made raws).
Proof.
  revert s l. induction raws as [|t raws IH]; intros s l; [done|]. simpl.
  unfold serve_tx, serve, call_made. case_decide; simpl; [|by rewrite app_nil_r, IH].
  destruct (dispatch (raw_data t)) as [c|]; simpl; [|by rewrite app_nil_r, IH].
  destruct (transact s (raw_sender t) c) as [s' l']. apply IH.
Qed.

Lemma calls_made_typed raws : typed_all (omap call_made raws).
Proof.
  apply Forall_forall. intros [sender c] (t&_&Ht)%list_elem_of_omap. revert Ht. unfold call_made.
  case_decide; [|done]. destruct (dispatch (raw_data t)) as [c'|] eqn:E; [|done].
  intros [= <- <-]. by apply dispatch_typed in E.
Qed.

(** C6. Whatever bytes are sent to a deployed contract, by whom and with what payment,
    it behaves as under some well-typed calls; its supply is the sum of all balances and
    fits its word, its balances are what the [Transfer] events say, and no reference was
    used twice. *)
Theorem any_data_is_safe deployer raws :
  let '(s, l) := serve_all (fresh deployer) (fresh_log deployer) raws in
  (∃ txs, typed_all txs ∧ life deployer txs = (s, l)) ∧
  supply s = total (_balances (erc20_part s)) ∧ supply s ≤ uint256_max ∧
  (∀ a, a ≠ address0 → 0 ≤ balance s a ∧ balance s a = posted a (transfers l)) ∧
  NoDup (references l).
Proof.
  rewrite serve_all_history. fold (life deployer (omap call_made raws)).
  pose proof (calls_made_typed raws) as Ht. destruct (lawful_life deployer _ Ht) as [Hb Hbal _ Hnd _ _].
  destruct (life deployer (omap call_made raws)) as [s l] eqn:E. simpl in *. split_and!.
  - by exists (omap call_made raws).
  - apply (books_supply _ Hb).
  - pose proof (books_bound _ Hb). unfold supply, uint256_max. lia.
  - intros a Ha. split; [apply (books_nonneg _ Hb)|by apply Hbal].
  - done.
Qed.

(** ** Results *)

Definition padding (n : nat) : list byte := replicate ((word_size - n mod word_size) mod word_size)%nat x00.

(** What a function returns: words, or a string behind its offset and length. *)
Definition returndata (vs : list value) : option (list byte) :=
  match vs with
  | [VString s] =>
    let bytes := list_byte_of_string s in
    Some (word (Z.of_nat word_size) ++ word (Z.of_nat (length bytes)) ++ bytes ++ padding (length bytes))
  | _ => encode_values vs
  end.

(** A result by the types of the outputs. *)
Definition decode_result (types : list abi_type) (data : list byte) : option (list value) :=
  match types with
  | [TString] =>
    let at_ := drop (Z.to_nat (of_bytes (take word_size data))) data in
    let n := Z.to_nat (of_bytes (take word_size at_)) in
    let bytes := take n (drop word_size at_) in
    if decide (length bytes = n) then Some [VString (string_of_list_byte bytes)] else None
  | _ => decode_args types data
  end.

Lemma small_word n : (Z.of_nat n < 2 ^ 64)%Z → is_uint256 (Z.of_nat n).
Proof. intros Hn. assert (2 ^ 64 < modulus) by by vm_compute. unfold is_uint256. lia. Qed.

Lemma decode_result_string s data :
  Z.of_nat (String.length s) < 2 ^ 64 → returndata [VString s] = Some data →
  decode_result [TString] data = Some [VString s].
Proof.
  intros Hs [= <-]. unfold decode_result.
  assert (length (list_byte_of_string s) = String.length s) as Hl.
  { clear. unfold list_byte_of_string. rewrite length_map. induction s as [|c s IH]; [done|]. simpl. by rewrite IH. }
  rewrite take_word, of_word, Nat2Z.id, drop_word by by vm_compute.
  rewrite take_word, drop_word, of_word, Nat2Z.id by (rewrite Hl; by apply small_word).
  rewrite take_app_length, decide_True by done. by rewrite string_of_list_byte_of_string.
Qed.

Lemma decode_result_words vs data : Forall value_typed vs → encode_values vs = Some data →
  decode_result (value_type <$> vs) data = Some vs.
Proof.
  intros Ht He. assert (decode_args (value_type <$> vs) data = Some vs) as Hd.
  { rewrite <- (app_nil_r data). by apply decode_args_encode. }
  unfold decode_result. destruct vs as [|[] [|? vs]]; try done.
Qed.
