(* ===== verification/Abis.v ===== *)
(** * The ABIs of the factories

    The constant [_abi] of each file of
    [src/smart_contracts/typechain-types/factories/], fragment by fragment. In all of
    them the internal type of a parameter is its type. *)

From Stdlib Require Import String.
From S2P Require Import Prelude Abi.

Local Open Scope string_scope.

(** The forms of the fragments. *)
Definition input (type name : string) : Param :=
  {| internalType := type; param_name := name; param_type := type; indexed := None |}.
Definition event_input (is_indexed : bool) (type name : string) : Param :=
  {| internalType := type; param_name := name; param_type := type; indexed := Some is_indexed |}.

Definition constructor_fragment (ins : list Param) (mutability : string) : Fragment :=
  {| anonymous := None; inputs := ins; fragment_name := None; outputs := None;
     stateMutability := Some mutability; fragment_type := "constructor" |}.
Definition error_fragment (name : string) (ins : list Param) : Fragment :=
  {| anonymous := None; inputs := ins; fragment_name := Some name; outputs := None;
     stateMutability := None; fragment_type := "error" |}.
Definition event_fragment (name : string) (ins : list Param) : Fragment :=
  {| anonymous := Some false; inputs := ins; fragment_name := Some name; outputs := None;
     stateMutability := None; fragment_type := "event" |}.
Definition function_fragment (name : string) (ins outs : list Param) (mutability : string) : Fragment :=
  {| anonymous := None; inputs := ins; fragment_name := Some name; outputs := Some outs;
     stateMutability := Some mutability; fragment_type := "function" |}.

(** [Ownable__factory._abi]. *)
Definition Ownable_errors : list Fragment :=
  [error_fragment "OwnableInvalidOwner" [input "address" "owner"];
   error_fragment "OwnableUnauthorizedAccount" [input "address" "account"]].
Definition Ownable_events : list Fragment :=
  [event_fragment "OwnershipTransferred" [event_input true "address" "previousOwner";
    event_input true "address" "newOwner"]].
Definition Ownable_functions : list Fragment :=
  [function_fragment "owner" []
     [input "address" ""] "view";
   function_fragment "renounceOwnership" []
     [] "nonpayable";
   function_fragment "transferOwnership" [input "address" "newOwner"]
     [] "nonpayable"].
Definition Ownable_abi : list Fragment := Ownable_errors ++ Ownable_events ++ Ownable_functions.

(** [IERC1155Errors__factory._abi]. *)
Definition IERC1155Errors_errors : list Fragment :=
  [error_fragment "ERC1155InsufficientBalance" [input "address" "sender"; input "uint256" "balance";
    input "uint256" "needed"; input "uint256" "tokenId"];
   error_fragment "ERC1155InvalidApprover" [input "address" "approver"];
   error_fragment "ERC1155InvalidArrayLength" [input "uint256" "idsLength"; input "uint256" "valuesLength"];
   error_fragment "ERC1155InvalidOperator" [input "address" "operator"];
   error_fragment "ERC1155InvalidReceiver" [input "address" "receiver"];
   error_fragment "ERC1155InvalidSender" [input "address" "sender"];
   error_fragment "ERC1155MissingApprovalForAll" [input "address" "operator"; input "address" "owner"]].
Definition IERC1155Errors_abi : list Fragment := IERC1155Errors_errors.

(** [IERC20Errors__factory._abi]. *)
Definition IERC20Errors_errors : list Fragment :=
  [error_fragment "ERC20InsufficientAllowance" [input "address" "spender"; input "uint256" "allowance";
    input "uint256" "needed"];
   error_fragment "ERC20InsufficientBalance" [input "address" "sender"; input "uint256" "balance";
     input "uint256" "needed"];
   error_fragment "ERC20InvalidApprover" [input "address" "approver"];
   error_fragment "ERC20InvalidReceiver" [input "address" "receiver"];
   error_fragment "ERC20InvalidSender" [input "address" "sender"];
   error_fragment "ERC20InvalidSpender" [input "address" "spender"]].
Definition IERC20Errors_abi : list Fragment := IERC20Errors_errors.

(** [IERC721Errors__factory._abi]. *)
Definition IERC721Errors_errors : list Fragment :=
  [error_fragment "ERC721IncorrectOwner" [input "address" "sender"; input "uint256" "tokenId";
    input "address" "owner"];
   error_fragment "ERC721InsufficientApproval" [input "address" "operator"; input "uint256" "tokenId"];
   error_fragment "ERC721InvalidApprover" [input "address" "approver"];
   error_fragment "ERC721InvalidOperator" [input "address" "operator"];
   error_fragment "ERC721InvalidOwner" [input "address" "owner"];
   error_fragment "ERC721InvalidReceiver" [input "address" "receiver"];
   error_fragment "ERC721InvalidSender" [input "address" "sender"];
   error_fragment "ERC721NonexistentToken" [input "uint256" "tokenId"]].
Definition IERC721Errors_abi : list Fragment := IERC721Errors_errors.

(** [ERC20__factory._abi]. *)
Definition ERC20_errors : list Fragment :=
  [error_fragment "ERC20InsufficientAllowance" [input "address" "spender"; input "uint256" "allowance";
    input "uint256" "needed"];
   error_fragment "ERC20InsufficientBalance" [input "address" "sender"; input "uint256" "balance";
     input "uint256" "needed"];
   error_fragment "ERC20InvalidApprover" [input "address" "approver"];
   error_fragment "ERC20InvalidReceiver" [input "address" "receiver"];
   error_fragment "ERC20InvalidSender" [input "address" "sender"];
   error_fragment "ERC20InvalidSpender" [input "address" "spender"]].
Definition ERC20_events : list Fragment :=
  [event_fragment "Approval" [event_input true "address" "owner"; event_input true "address" "spender";
    event_input false "uint256" "value"];
   event_fragment "Transfer" [event_input true "address" "from"; event_input true "address" "to";
     event_input false "uint256" "value"]].
Definition ERC20_functions_1 : list Fragment :=
  [function_fragment "allowance" [input "address" "owner"; input "address" "spender"]
     [input "uint256" ""] "view";
   function_fragment "approve" [input "address" "spender"; input "uint256" "value"]
     [input "bool" ""] "nonpayable";
   function_fragment "balanceOf" [input "address" "account"]
     [input "uint256" ""] "view";
   function_fragment "decimals" []
     [input "uint8" ""] "view";
   function_fragment "name" []
     [input "string" ""] "view";
   function_fragment "symbol" []
     [input "string" ""] "view";
   function_fragment "totalSupply" []
     [input "uint256" ""] "view";
   function_fragment "transfer" [input "address" "to"; input "uint256" "value"]
     [input "bool" ""] "nonpayable"].
Definition ERC20_functions_2 : list Fragment :=
  [function_fragment "transferFrom" [input "address" "from"; input "address" "to"; input "uint256" "value"]
     [input "bool" ""] "nonpayable"].
Definition ERC20_abi : list Fragment := ERC20_errors ++ ERC20_events ++ ERC20_functions_1 ++ ERC20_functions_2.

(** [ERC20Burnable__factory._abi]. *)
Definition ERC20Burnable_errors : list Fragment :=
  [error_fragment "ERC20InsufficientAllowance" [input "address" "spender"; input "uint256" "allowance";
    input "uint256" "needed"];
   error_fragment "ERC20InsufficientBalance" [input "address" "sender"; input "uint256" "balance";
     input "uint256" "needed"];
   error_fragment "ERC20InvalidApprover" [input "address" "approver"];
   error_fragment "ERC20InvalidReceiver" [input "address" "receiver"];
   error_fragment "ERC20InvalidSender" [input "address" "sender"];
   error_fragment "ERC20InvalidSpender" [input "address" "spender"]].
Definition ERC20Burnable_events : list Fragment :=
  [event_fragment "Approval" [event_input true "address" "owner"; event_input true "address" "spender";
    event_input false "uint256" "value"];
   event_fragment "Transfer" [event_input true "address" "from"; event_input true "address" "to";
     event_input false "uint256" "value"]].
Definition ERC20Burnable_functions_1 : list Fragment :=
  [function_fragment "allowance" [input "address" "owner"; input "address" "spender"]
     [input "uint256" ""] "view";
   function_fragment "approve" [input "address" "spender"; input "uint256" "value"]
     [input "bool" ""] "nonpayable";
   function_fragment "balanceOf" [input "address" "account"]
     [input "uint256" ""] "view";
   function_fragment "burn" [input "uint256" "value"]
     [] "nonpayable";
   function_fragment "burnFrom" [input "address" "account"; input "uint256" "value"]
     [] "nonpayable";
   function_fragment "decimals" []
     [input "uint8" ""] "view";
   function_fragment "name" []
     [input "string" ""] "view";
   function_fragment "symbol" []
     [input "string" ""] "view";
   function_fragment "totalSupply" []
     [input "uint256" ""] "view"].
Definition ERC20Burnable_functions_2 : list Fragment :=
  [function_fragment "transfer" [input "address" "to"; input "uint256" "value"]
     [input "bool" ""] "nonpayable";
   function_fragment "transferFrom" [input "address" "from"; input "address" "to"; input "uint256" "value"]
     [input "bool" ""] "nonpayable"].
Definition ERC20Burnable_abi : list Fragment := ERC20Burnable_errors ++ ERC20Burnable_events ++ ERC20Burnable_functions_1 ++ ERC20Burnable_functions_2.

(** [IERC20Metadata__factory._abi]. *)
Definition IERC20Metadata_events : list Fragment :=
  [event_fragment "Approval" [event_input true "address" "owner"; event_input true "address" "spender";
    event_input false "uint256" "value"];
   event_fragment "Transfer" [event_input true "address" "from"; event_input true "address" "to";
     event_input false "uint256" "value"]].
Definition IERC20Metadata_functions_1 : list Fragment :=
  [function_fragment "allowance" [input "address" "owner"; input "address" "spender"]
     [input "uint256" ""] "view";
   function_fragment "approve" [input "address" "spender"; input "uint256" "value"]
     [input "bool" ""] "nonpayable";
   function_fragment "balanceOf" [input "address" "account"]
     [input "uint256" ""] "view";
   function_fragment "decimals" []
     [input "uint8" ""] "view";
   function_fragment "name" []
     [input "string" ""] "view";
   function_fragment "symbol" []
     [input "string" ""] "view";
   function_fragment "totalSupply" []
     [input "uint256" ""] "view";
   function_fragment "transfer" [input "address" "to"; input "uint256" "value"]
     [input "bool" ""] "nonpayable"].
Definition IERC20Metadata_functions_2 : list Fragment :=
  [function_fragment "transferFrom" [input "address" "from"; input "address" "to"; input "uint256" "value"]
     [input "bool" ""] "nonpayable"].
Definition IERC20Metadata_abi : list Fragment := IERC20Metadata_events ++ IERC20Metadata_functions_1 ++ IERC20Metadata_functions_2.

(** [IERC20__factory._abi]. *)
Definition IERC20_events : list Fragment :=
  [event_fragment "Approval" [event_input true "address" "owner"; event_input true "address" "spender";
    event_input false "uint256" "value"];
   event_fragment "Transfer" [event_input true "address" "from"; event_input true "address" "to";
     event_input false "uint256" "value"]].
Definition IERC20_functions : list Fragment :=
  [function_fragment "allowance" [input "address" "owner"; input "address" "spender"]
     [input "uint256" ""] "view";
   function_fragment "approve" [input "address" "spender"; input "uint256" "value"]
     [input "bool" ""] "nonpayable";
   function_fragment "balanceOf" [input "address" "account"]
     [input "uint256" ""] "view";
   function_fragment "totalSupply" []
     [input "uint256" ""] "view";
   function_fragment "transfer" [input "address" "to"; input "uint256" "value"]
     [input "bool" ""] "nonpayable";
   function_fragment "transferFrom" [input "address" "from"; input "address" "to"; input "uint256" "value"]
     [input "bool" ""] "nonpayable"].
Definition IERC20_abi : list Fragment := IERC20_events ++ IERC20_functions.

(** [ArosCoinReserveManager__factory._abi]. *)
Definition ArosCoinReserveManager_constructor : list Fragment :=
  [constructor_fragment [] "nonpayable"].
Definition ArosCoinReserveManager_errors : list Fragment :=
  [error_fragment "ERC20InsufficientAllowance" [input "address" "spender"; input "uint256" "allowance";
    input "uint256" "needed"];
   error_fragment "ERC20InsufficientBalance" [input "address" "sender"; input "uint256" "balance";
     input "uint256" "needed"];
   error_fragment "ERC20InvalidApprover" [input "address" "approver"];
   error_fragment "ERC20InvalidReceiver" [input "address" "receiver"];
   error_fragment "ERC20InvalidSender" [input "address" "sender"];
   error_fragment "ERC20InvalidSpender" [input "address" "spender"];
   error_fragment "OwnableInvalidOwner" [input "address" "owner"];
   error_fragment "OwnableUnauthorizedAccount" [input "address" "account"]].
Definition ArosCoinReserveManager_events : list Fragment :=
  [event_fragment "Approval" [event_input true "address" "owner"; event_input true "address" "spender";
    event_input false "uint256" "value"];
   event_fragment "Burned" [event_input true "address" "from"; event_input false "uint256" "amount";
     event_input true "bytes32" "txReference"];
   event_fragment "Minted" [event_input true "address" "to"; event_input false "uint256" "amount";
     event_input true "bytes32" "txReference"];
   event_fragment "OwnershipTransferred" [event_input true "address" "previousOwner";
     event_input true "address" "newOwner"];
   event_fragment "Transfer" [event_input true "address" "from"; event_input true "address" "to";
     event_input false "uint256" "value"]].
Definition ArosCoinReserveManager_functions_1 : list Fragment :=
  [function_fragment "allowance" [input "address" "owner"; input "address" "spender"]
     [input "uint256" ""] "view";
   function_fragment "approve" [input "address" "spender"; input "uint256" "value"]
     [input "bool" ""] "nonpayable";
   function_fragment "balanceOf" [input "address" "account"]
     [input "uint256" ""] "view";
   function_fragment "burn" [input "uint256" "value"]
     [] "nonpayable";
   function_fragment "burnFrom" [input "address" "account"; input "uint256" "value"]
     [] "nonpayable";
   function_fragment "burnWithReference" [input "address" "from"; input "uint256" "amount";
     input "bytes32" "txReference"]
     [] "nonpayable";
   function_fragment "decimals" []
     [input "uint8" ""] "view"].
Definition ArosCoinReserveManager_functions_2 : list Fragment :=
  [function_fragment "isReferenceUsed" [input "bytes32" "txReference"]
     [input "bool" ""] "view";
   function_fragment "mint" [input "address" "to"; input "uint256" "amount"; input "bytes32" "txReference"]
     [] "nonpayable";
   function_fragment "name" []
     [input "string" ""] "view";
   function_fragment "owner" []
     [input "address" ""] "view";
   function_fragment "renounceOwnership" []
     [] "nonpayable";
   function_fragment "symbol" []
     [input "string" ""] "view";
   function_fragment "totalSupply" []
     [input "uint256" ""] "view";
   function_fragment "transfer" [input "address" "to"; input "uint256" "value"]
     [input "bool" ""] "nonpayable"].
Definition ArosCoinReserveManager_functions_3 : list Fragment :=
  [function_fragment "transferFrom" [input "address" "from"; input "address" "to"; input "uint256" "value"]
     [input "bool" ""] "nonpayable";
   function_fragment "transferOwnership" [input "address" "newOwner"]
     [] "nonpayable"].
Definition ArosCoinReserveManager_abi : list Fragment := ArosCoinReserveManager_constructor ++ ArosCoinReserveManager_errors ++ ArosCoinReserveManager_events ++ ArosCoinReserveManager_functions_1 ++ ArosCoinReserveManager_functions_2 ++ ArosCoinReserveManager_functions_3.

