(* ===== verification/Interfaces.v ===== *)
(** * The typed interfaces

    What each declaration file of [src/smart_contracts/typechain-types/] offers to a
    client: the functions and events by name, the TypeScript types of arguments and
    results, and the members every contract has; and the names [hardhat.d.ts] and
    [index.ts] give out. *)

From Stdlib Require Import String.
From S2P Require Import Prelude Abi Abis.

Local Open Scope string_scope.

(** A namespace [<name>Event]. *)
Record EventType := {
  event_name : string;
  InputTuple : list (string * string);
  OutputTuple : list (string * string);
  OutputObject : list (string * string)
}.
Definition event_type (name : string) (i o b : list (string * string)) : EventType :=
  {| event_name := name; InputTuple := i; OutputTuple := o; OutputObject := b |}.

(** [TypedContractMethod<[arguments], [result], mutability>]. *)
Record MethodType := { method_args : list (string * string); method_result : string; method_mutability : string }.
Definition method_type (args : list (string * string)) (result mutability : string) : MethodType :=
  {| method_args := args; method_result := result; method_mutability := mutability |}.

(** A member of a contract's type: its name, the types of its parameters, its type. *)
Record Member := { member_name : string; member_params : list string; member_type : string }.
Definition member (name : string) (params : list string) (type : string) : Member :=
  {| member_name := name; member_params := params; member_type := type |}.

(** One declaration file. *)
Record Interface := {
  functions : list string;
  events : list string;
  encodeFunctionData_types : list (string * option (list string));
  decodeFunctionResult_names : list string;
  event_types : list EventType;
  members : list Member;
  methods : list (string * MethodType);
  getFunction_types : list (string * MethodType);
  getEvent_types : list (string * string);
  filters : list (string * string)
}.


(** [Ownable.ts]. *)
Definition Ownable_function_names : list string := ["owner"; "renounceOwnership"; "transferOwnership"].
Definition Ownable_event_names : list string := ["OwnershipTransferred"].
Definition Ownable_encode : list (string * option (list string)) :=
  [("owner", None);
   ("renounceOwnership", None);
   ("transferOwnership", Some ["AddressLike"])].
Definition Ownable_decode : list string := ["owner"; "renounceOwnership"; "transferOwnership"].
Definition Ownable_event_types : list EventType :=
  [event_type "OwnershipTransferred" [("previousOwner", "AddressLike"); ("newOwner", "AddressLike")]
     [("previousOwner", "string"); ("newOwner", "string")]
     [("previousOwner", "string"); ("newOwner", "string")]].
Definition Ownable_members : list Member :=
  [member "connect" ["ContractRunner | null"] "Ownable";
   member "waitForDeployment" [] "Promise<this>";
   member "interface" [] "OwnableInterface";
   member "queryFilter" ["TCEvent"; "string | number | undefined"; "string | number | undefined"]
     "Promise<Array<TypedEventLog<TCEvent>>>";
   member "queryFilter" ["TypedDeferredTopicFilter<TCEvent>"; "string | number | undefined";
     "string | number | undefined"]
     "Promise<Array<TypedEventLog<TCEvent>>>";
   member "on" ["TCEvent"; "TypedListener<TCEvent>"] "Promise<this>";
   member "on" ["TypedDeferredTopicFilter<TCEvent>"; "TypedListener<TCEvent>"] "Promise<this>";
   member "once" ["TCEvent"; "TypedListener<TCEvent>"] "Promise<this>";
   member "once" ["TypedDeferredTopicFilter<TCEvent>"; "TypedListener<TCEvent>"] "Promise<this>";
   member "listeners" ["TCEvent"] "Promise<Array<TypedListener<TCEvent>>>";
   member "listeners" ["string"] "Promise<Array<Listener>>";
   member "removeAllListeners" ["TCEvent"] "Promise<this>"].
Definition Ownable_methods : list (string * MethodType) :=
  [("owner", method_type [] "string" "view");
   ("renounceOwnership", method_type [] "void" "nonpayable");
   ("transferOwnership", method_type [("newOwner", "AddressLike")] "void" "nonpayable")].
Definition Ownable_getFunction : list (string * MethodType) :=
  [("owner", method_type [] "string" "view");
   ("renounceOwnership", method_type [] "void" "nonpayable");
   ("transferOwnership", method_type [("newOwner", "AddressLike")] "void" "nonpayable")].
Definition Ownable_getEvent : list (string * string) := [("OwnershipTransferred", "OwnershipTransferred")].
Definition Ownable_filters : list (string * string) :=
  [("OwnershipTransferred(address,address)", "OwnershipTransferred");
   ("OwnershipTransferred", "OwnershipTransferred")].
Definition Ownable_interface : Interface :=
  {| functions := Ownable_function_names; events := Ownable_event_names; encodeFunctionData_types := Ownable_encode;
     decodeFunctionResult_names := Ownable_decode; event_types := Ownable_event_types; members := Ownable_members;
     methods := Ownable_methods; getFunction_types := Ownable_getFunction; getEvent_types := Ownable_getEvent;
       filters := Ownable_filters |}.

(** [IERC1155Errors.ts]. *)
Definition IERC1155Errors_function_names : list string := [].
Definition IERC1155Errors_members : list Member :=
  [member "connect" ["ContractRunner | null"] "IERC1155Errors";
   member "waitForDeployment" [] "Promise<this>";
   member "interface" [] "IERC1155ErrorsInterface";
   member "queryFilter" ["TCEvent"; "string | number | undefined"; "string | number | undefined"]
     "Promise<Array<TypedEventLog<TCEvent>>>";
   member "queryFilter" ["TypedDeferredTopicFilter<TCEvent>"; "string | number | undefined";
     "string | number | undefined"]
     "Promise<Array<TypedEventLog<TCEvent>>>";
   member "on" ["TCEvent"; "TypedListener<TCEvent>"] "Promise<this>";
   member "on" ["TypedDeferredTopicFilter<TCEvent>"; "TypedListener<TCEvent>"] "Promise<this>";
   member "once" ["TCEvent"; "TypedListener<TCEvent>"] "Promise<this>";
   member "once" ["TypedDeferredTopicFilter<TCEvent>"; "TypedListener<TCEvent>"] "Promise<this>";
   member "listeners" ["TCEvent"] "Promise<Array<TypedListener<TCEvent>>>";
   member "listeners" ["string"] "Promise<Array<Listener>>";
   member "removeAllListeners" ["TCEvent"] "Promise<this>"].
Definition IERC1155Errors_filters : list (string * string) := [].
Definition IERC1155Errors_interface : Interface :=
  {| functions := IERC1155Errors_function_names; events := []; encodeFunctionData_types := [];
     decodeFunctionResult_names := []; event_types := []; members := IERC1155Errors_members;
     methods := []; getFunction_types := []; getEvent_types := []; filters := IERC1155Errors_filters |}.

(** [IERC20Errors.ts]. *)
Definition IERC20Errors_function_names : list string := [].
Definition IERC20Errors_members : list Member :=
  [member "connect" ["ContractRunner | null"] "IERC20Errors";
   member "waitForDeployment" [] "Promise<this>";
   member "interface" [] "IERC20ErrorsInterface";
   member "queryFilter" ["TCEvent"; "string | number | undefined"; "string | number | undefined"]
     "Promise<Array<TypedEventLog<TCEvent>>>";
   member "queryFilter" ["TypedDeferredTopicFilter<TCEvent>"; "string | number | undefined";
     "string | number | undefined"]
     "Promise<Array<TypedEventLog<TCEvent>>>";
   member "on" ["TCEvent"; "TypedListener<TCEvent>"] "Promise<this>";
   member "on" ["TypedDeferredTopicFilter<TCEvent>"; "TypedListener<TCEvent>"] "Promise<this>";
   member "once" ["TCEvent"; "TypedListener<TCEvent>"] "Promise<this>";
   member "once" ["TypedDeferredTopicFilter<TCEvent>"; "TypedListener<TCEvent>"] "Promise<this>";
   member "listeners" ["TCEvent"] "Promise<Array<TypedListener<TCEvent>>>";
   member "listeners" ["string"] "Promise<Array<Listener>>";
   member "removeAllListeners" ["TCEvent"] "Promise<this>"].
Definition IERC20Errors_filters : list (string * string) := [].
Definition IERC20Errors_interface : Interface :=
  {| functions := IERC20Errors_function_names; events := []; encodeFunctionData_types := [];
     decodeFunctionResult_names := []; event_types := []; members := IERC20Errors_members;
     methods := []; getFunction_types := []; getEvent_types := []; filters := IERC20Errors_filters |}.

(** [IERC721Errors.ts]. *)
Definition IERC721Errors_function_names : list string := [].
Definition IERC721Errors_members : list Member :=
  [member "connect" ["ContractRunner | null"] "IERC721Errors";
   member "waitForDeployment" [] "Promise<this>";
   member "interface" [] "IERC721ErrorsInterface";
   member "queryFilter" ["TCEvent"; "string | number | undefined"; "string | number | undefined"]
     "Promise<Array<TypedEventLog<TCEvent>>>";
   member "queryFilter" ["TypedDeferredTopicFilter<TCEvent>"; "string | number | undefined";
     "string | number | undefined"]
     "Promise<Array<TypedEventLog<TCEvent>>>";
   member "on" ["TCEvent"; "TypedListener<TCEvent>"] "Promise<this>";
   member "on" ["TypedDeferredTopicFilter<TCEvent>"; "TypedListener<TCEvent>"] "Promise<this>";
   member "once" ["TCEvent"; "TypedListener<TCEvent>"] "Promise<this>";
   member "once" ["TypedDeferredTopicFilter<TCEvent>"; "TypedListener<TCEvent>"] "Promise<this>";
   member "listeners" ["TCEvent"] "Promise<Array<TypedListener<TCEvent>>>";
   member "listeners" ["string"] "Promise<Array<Listener>>";
   member "removeAllListeners" ["TCEvent"] "Promise<this>"].
Definition IERC721Errors_filters : list (string * string) := [].
Definition IERC721Errors_interface : Interface :=
  {| functions := IERC721Errors_function_names; events := []; encodeFunctionData_types := [];
     decodeFunctionResult_names := []; event_types := []; members := IERC721Errors_members;
     methods := []; getFunction_types := []; getEvent_types := []; filters := IERC721Errors_filters |}.

(** [ERC20.ts]. *)
Definition ERC20_function_names : list string :=
  ["allowance"; "approve"; "balanceOf"; "decimals"; "name"; "symbol"; "totalSupply"; "transfer"; "transferFrom"].
Definition ERC20_event_names : list string := ["Approval"; "Transfer"].
Definition ERC20_encode : list (string * option (list string)) :=
  [("allowance", Some ["AddressLike"; "AddressLike"]);
   ("approve", Some ["AddressLike"; "BigNumberish"]);
   ("balanceOf", Some ["AddressLike"]);
   ("decimals", None);
   ("name", None);
   ("symbol", None);
   ("totalSupply", None);
   ("transfer", Some ["AddressLike"; "BigNumberish"]);
   ("transferFrom", Some ["AddressLike"; "AddressLike"; "BigNumberish"])].
Definition ERC20_decode : list string :=
  ["allowance"; "approve"; "balanceOf"; "decimals"; "name"; "symbol"; "totalSupply"; "transfer"; "transferFrom"].
Definition ERC20_event_types : list EventType :=
  [event_type "Approval" [("owner", "AddressLike"); ("spender", "AddressLike"); ("value", "BigNumberish")]
     [("owner", "string"); ("spender", "string"); ("value", "bigint")]
     [("owner", "string"); ("spender", "string"); ("value", "bigint")];
   event_type "Transfer" [("from", "AddressLike"); ("to", "AddressLike"); ("value", "BigNumberish")]
     [("from", "string"); ("to", "string"); ("value", "bigint")]
     [("from", "string"); ("to", "string"); ("value", "bigint")]].
Definition ERC20_members : list Member :=
  [member "connect" ["ContractRunner | null"] "ERC20";
   member "waitForDeployment" [] "Promise<this>";
   member "interface" [] "ERC20Interface";
   member "queryFilter" ["TCEvent"; "string | number | undefined"; "string | number | undefined"]
     "Promise<Array<TypedEventLog<TCEvent>>>";
   member "queryFilter" ["TypedDeferredTopicFilter<TCEvent>"; "string | number | undefined";
     "string | number | undefined"]
     "Promise<Array<TypedEventLog<TCEvent>>>";
   member "on" ["TCEvent"; "TypedListener<TCEvent>"] "Promise<this>";
   member "on" ["TypedDeferredTopicFilter<TCEvent>"; "TypedListener<TCEvent>"] "Promise<this>";
   member "once" ["TCEvent"; "TypedListener<TCEvent>"] "Promise<this>";
   member "once" ["TypedDeferredTopicFilter<TCEvent>"; "TypedListener<TCEvent>"] "Promise<this>";
   member "listeners" ["TCEvent"] "Promise<Array<TypedListener<TCEvent>>>";
   member "listeners" ["string"] "Promise<Array<Listener>>";
   member "removeAllListeners" ["TCEvent"] "Promise<this>"].
Definition ERC20_methods : list (string * MethodType) :=
  [("allowance", method_type [("owner", "AddressLike"); ("spender", "AddressLike")] "bigint" "view");
   ("approve", method_type [("spender", "AddressLike"); ("value", "BigNumberish")] "boolean" "nonpayable");
   ("balanceOf", method_type [("account", "AddressLike")] "bigint" "view");
   ("decimals", method_type [] "bigint" "view");
   ("name", method_type [] "string" "view");
   ("symbol", method_type [] "string" "view");
   ("totalSupply", method_type [] "bigint" "view");
   ("transfer", method_type [("to", "AddressLike"); ("value", "BigNumberish")] "boolean" "nonpayable");
   ("transferFrom", method_type [("from", "AddressLike"); ("to", "AddressLike");
     ("value", "BigNumberish")] "boolean" "nonpayable")].
Definition ERC20_getFunction : list (string * MethodType) :=
  [("allowance", method_type [("owner", "AddressLike"); ("spender", "AddressLike")] "bigint" "view");
   ("approve", method_type [("spender", "AddressLike"); ("value", "BigNumberish")] "boolean" "nonpayable");
   ("balanceOf", method_type [("account", "AddressLike")] "bigint" "view");
   ("decimals", method_type [] "bigint" "view");
   ("name", method_type [] "string" "view");
   ("symbol", method_type [] "string" "view");
   ("totalSupply", method_type [] "bigint" "view");
   ("transfer", method_type [("to", "AddressLike"); ("value", "BigNumberish")] "boolean" "nonpayable");
   ("transferFrom", method_type [("from", "AddressLike"); ("to", "AddressLike");
     ("value", "BigNumberish")] "boolean" "nonpayable")].
Definition ERC20_getEvent : list (string * string) := [("Approval", "Approval"); ("Transfer", "Transfer")].
Definition ERC20_filters : list (string * string) :=
  [("Approval(address,address,uint256)", "Approval");
   ("Approval", "Approval");
   ("Transfer(address,address,uint256)", "Transfer");
   ("Transfer", "Transfer")].
Definition ERC20_interface : Interface :=
  {| functions := ERC20_function_names; events := ERC20_event_names; encodeFunctionData_types := ERC20_encode;
     decodeFunctionResult_names := ERC20_decode; event_types := ERC20_event_types; members := ERC20_members;
     methods := ERC20_methods; getFunction_types := ERC20_getFunction; getEvent_types := ERC20_getEvent;
       filters := ERC20_filters |}.

(** [ERC20Burnable.ts]. *)
Definition ERC20Burnable_function_names : list string :=
  ["allowance"; "approve"; "balanceOf"; "burn"; "burnFrom"; "decimals"; "name"; "symbol"; "totalSupply"; "transfer";
    "transferFrom"].
Definition ERC20Burnable_event_names : list string := ["Approval"; "Transfer"].
Definition ERC20Burnable_encode : list (string * option (list string)) :=
  [("allowance", Some ["AddressLike"; "AddressLike"]);
   ("approve", Some ["AddressLike"; "BigNumberish"]);
   ("balanceOf", Some ["AddressLike"]);
   ("burn", Some ["BigNumberish"]);
   ("burnFrom", Some ["AddressLike"; "BigNumberish"]);
   ("decimals", None);
   ("name", None);
   ("symbol", None);
   ("totalSupply", None);
   ("transfer", Some ["AddressLike"; "BigNumberish"]);
   ("transferFrom", Some ["AddressLike"; "AddressLike"; "BigNumberish"])].
Definition ERC20Burnable_decode : list string :=
  ["allowance"; "approve"; "balanceOf"; "burn"; "burnFrom"; "decimals"; "name"; "symbol"; "totalSupply"; "transfer";
    "transferFrom"].
Definition ERC20Burnable_event_types : list EventType :=
  [event_type "Approval" [("owner", "AddressLike"); ("spender", "AddressLike"); ("value", "BigNumberish")]
     [("owner", "string"); ("spender", "string"); ("value", "bigint")]
     [("owner", "string"); ("spender", "string"); ("value", "bigint")];
   event_type "Transfer" [("from", "AddressLike"); ("to", "AddressLike"); ("value", "BigNumberish")]
     [("from", "string"); ("to", "string"); ("value", "bigint")]
     [("from", "string"); ("to", "string"); ("value", "bigint")]].
Definition ERC20Burnable_members : list Member :=
  [member "connect" ["ContractRunner | null"] "ERC20Burnable";
   member "waitForDeployment" [] "Promise<this>";
   member "interface" [] "ERC20BurnableInterface";
   member "queryFilter" ["TCEvent"; "string | number | undefined"; "string | number | undefined"]
     "Promise<Array<TypedEventLog<TCEvent>>>";
   member "queryFilter" ["TypedDeferredTopicFilter<TCEvent>"; "string | number | undefined";
     "string | number | undefined"]
     "Promise<Array<TypedEventLog<TCEvent>>>";
   member "on" ["TCEvent"; "TypedListener<TCEvent>"] "Promise<this>";
   member "on" ["TypedDeferredTopicFilter<TCEvent>"; "TypedListener<TCEvent>"] "Promise<this>";
   member "once" ["TCEvent"; "TypedListener<TCEvent>"] "Promise<this>";
   member "once" ["TypedDeferredTopicFilter<TCEvent>"; "TypedListener<TCEvent>"] "Promise<this>";
   member "listeners" ["TCEvent"] "Promise<Array<TypedListener<TCEvent>>>";
   member "listeners" ["string"] "Promise<Array<Listener>>";
   member "removeAllListeners" ["TCEvent"] "Promise<this>"].
Definition ERC20Burnable_methods : list (string * MethodType) :=
  [("allowance", method_type [("owner", "AddressLike"); ("spender", "AddressLike")] "bigint" "view");
   ("approve", method_type [("spender", "AddressLike"); ("value", "BigNumberish")] "boolean" "nonpayable");
   ("balanceOf", method_type [("account", "AddressLike")] "bigint" "view");
   ("burn", method_type [("value", "BigNumberish")] "void" "nonpayable");
   ("burnFrom", method_type [("account", "AddressLike"); ("value", "BigNumberish")] "void" "nonpayable");
   ("decimals", method_type [] "bigint" "view");
   ("name", method_type [] "string" "view");
   ("symbol", method_type [] "string" "view");
   ("totalSupply", method_type [] "bigint" "view");
   ("transfer", method_type [("to", "AddressLike"); ("value", "BigNumberish")] "boolean" "nonpayable");
   ("transferFrom", method_type [("from", "AddressLike"); ("to", "AddressLike");
     ("value", "BigNumberish")] "boolean" "nonpayable")].
Definition ERC20Burnable_getFunction : list (string * MethodType) :=
  [("allowance", method_type [("owner", "AddressLike"); ("spender", "AddressLike")] "bigint" "view");
   ("approve", method_type [("spender", "AddressLike"); ("value", "BigNumberish")] "boolean" "nonpayable");
   ("balanceOf", method_type [("account", "AddressLike")] "bigint" "view");
   ("burn", method_type [("value", "BigNumberish")] "void" "nonpayable");
   ("burnFrom", method_type [("account", "AddressLike"); ("value", "BigNumberish")] "void" "nonpayable");
   ("decimals", method_type [] "bigint" "view");
   ("name", method_type [] "string" "view");
   ("symbol", method_type [] "string" "view");
   ("totalSupply", method_type [] "bigint" "view");
   ("transfer", method_type [("to", "AddressLike"); ("value", "BigNumberish")] "boolean" "nonpayable");
   ("transferFrom", method_type [("from", "AddressLike"); ("to", "AddressLike");
     ("value", "BigNumberish")] "boolean" "nonpayable")].
Definition ERC20Burnable_getEvent : list (string * string) := [("Approval", "Approval"); ("Transfer", "Transfer")].
Definition ERC20Burnable_filters : list (string * string) :=
  [("Approval(address,address,uint256)", "Approval");
   ("Approval", "Approval");
   ("Transfer(address,address,uint256)", "Transfer");
   ("Transfer", "Transfer")].
Definition ERC20Burnable_interface : Interface :=
  {| functions := ERC20Burnable_function_names; events := ERC20Burnable_event_names;
    encodeFunctionData_types := ERC20Burnable_encode;
     decodeFunctionResult_names := ERC20Burnable_decode; event_types := ERC20Burnable_event_types;
       members := ERC20Burnable_members;
     methods := ERC20Burnable_methods; getFunction_types := ERC20Burnable_getFunction;
       getEvent_types := ERC20Burnable_getEvent; filters := ERC20Burnable_filters |}.

(** [IERC20Metadata.ts]. *)
Definition IERC20Metadata_function_names : list string :=
  ["allowance"; "approve"; "balanceOf"; "decimals"; "name"; "symbol"; "totalSupply"; "transfer"; "transferFrom"].
Definition IERC20Metadata_event_names : list string := ["Approval"; "Transfer"].
Definition IERC20Metadata_encode : list (string * option (list string)) :=
  [("allowance", Some ["AddressLike"; "AddressLike"]);
   ("approve", Some ["AddressLike"; "BigNumberish"]);
   ("balanceOf", Some ["AddressLike"]);
   ("decimals", None);
   ("name", None);
   ("symbol", None);
   ("totalSupply", None);
   ("transfer", Some ["AddressLike"; "BigNumberish"]);
   ("transferFrom", Some ["AddressLike"; "AddressLike"; "BigNumberish"])].
Definition IERC20Metadata_decode : list string :=
  ["allowance"; "approve"; "balanceOf"; "decimals"; "name"; "symbol"; "totalSupply"; "transfer"; "transferFrom"].
Definition IERC20Metadata_event_types : list EventType :=
  [event_type "Approval" [("owner", "AddressLike"); ("spender", "AddressLike"); ("value", "BigNumberish")]
     [("owner", "string"); ("spender", "string"); ("value", "bigint")]
     [("owner", "string"); ("spender", "string"); ("value", "bigint")];
   event_type "Transfer" [("from", "AddressLike"); ("to", "AddressLike"); ("value", "BigNumberish")]
     [("from", "string"); ("to", "string"); ("value", "bigint")]
     [("from", "string"); ("to", "string"); ("value", "bigint")]].
Definition IERC20Metadata_members : list Member :=
  [member "connect" ["ContractRunner | null"] "IERC20Metadata";
   member "waitForDeployment" [] "Promise<this>";
   member "interface" [] "IERC20MetadataInterface";
   member "queryFilter" ["TCEvent"; "string | number | undefined"; "string | number | undefined"]
     "Promise<Array<TypedEventLog<TCEvent>>>";
   member "queryFilter" ["TypedDeferredTopicFilter<TCEvent>"; "string | number | undefined";
     "string | number | undefined"]
     "Promise<Array<TypedEventLog<TCEvent>>>";
   member "on" ["TCEvent"; "TypedListener<TCEvent>"] "Promise<this>";
   member "on" ["TypedDeferredTopicFilter<TCEvent>"; "TypedListener<TCEvent>"] "Promise<this>";
   member "once" ["TCEvent"; "TypedListener<TCEvent>"] "Promise<this>";
   member "once" ["TypedDeferredTopicFilter<TCEvent>"; "TypedListener<TCEvent>"] "Promise<this>";
   member "listeners" ["TCEvent"] "Promise<Array<TypedListener<TCEvent>>>";
   member "listeners" ["string"] "Promise<Array<Listener>>";
   member "removeAllListeners" ["TCEvent"] "Promise<this>"].
Definition IERC20Metadata_methods : list (string * MethodType) :=
  [("allowance", method_type [("owner", "AddressLike"); ("spender", "AddressLike")] "bigint" "view");
   ("approve", method_type [("spender", "AddressLike"); ("value", "BigNumberish")] "boolean" "nonpayable");
   ("balanceOf", method_type [("account", "AddressLike")] "bigint" "view");
   ("decimals", method_type [] "bigint" "view");
   ("name", method_type [] "string" "view");
   ("symbol", method_type [] "string" "view");
   ("totalSupply", method_type [] "bigint" "view");
   ("transfer", method_type [("to", "AddressLike"); ("value", "BigNumberish")] "boolean" "nonpayable");
   ("transferFrom", method_type [("from", "AddressLike"); ("to", "AddressLike");
     ("value", "BigNumberish")] "boolean" "nonpayable")].
Definition IERC20Metadata_getFunction : list (string * MethodType) :=
  [("allowance", method_type [("owner", "AddressLike"); ("spender", "AddressLike")] "bigint" "view");
   ("approve", method_type [("spender", "AddressLike"); ("value", "BigNumberish")] "boolean" "nonpayable");
   ("balanceOf", method_type [("account", "AddressLike")] "bigint" "view");
   ("decimals", method_type [] "bigint" "view");
   ("name", method_type [] "string" "view");
   ("symbol", method_type [] "string" "view");
   ("totalSupply", method_type [] "bigint" "view");
   ("transfer", method_type [("to", "AddressLike"); ("value", "BigNumberish")] "boolean" "nonpayable");
   ("transferFrom", method_type [("from", "AddressLike"); ("to", "AddressLike");
     ("value", "BigNumberish")] "boolean" "nonpayable")].
Definition IERC20Metadata_getEvent : list (string * string) := [("Approval", "Approval"); ("Transfer", "Transfer")].
Definition IERC20Metadata_filters : list (string * string) :=
  [("Approval(address,address,uint256)", "Approval");
   ("Approval", "Approval");
   ("Transfer(address,address,uint256)", "Transfer");
   ("Transfer", "Transfer")].
Definition IERC20Metadata_interface : Interface :=
  {| functions := IERC20Metadata_function_names; events := IERC20Metadata_event_names;
    encodeFunctionData_types := IERC20Metadata_encode;
     decodeFunctionResult_names := IERC20Metadata_decode; event_types := IERC20Metadata_event_types;
       members := IERC20Metadata_members;
     methods := IERC20Metadata_methods; getFunction_types := IERC20Metadata_getFunction;
       getEvent_types := IERC20Metadata_getEvent; filters := IERC20Metadata_filters |}.

(** [IERC20.ts]. *)
Definition IERC20_function_names : list string :=
  ["allowance"; "approve"; "balanceOf"; "totalSupply"; "transfer"; "transferFrom"].
Definition IERC20_event_names : list string := ["Approval"; "Transfer"].
Definition IERC20_encode : list (string * option (list string)) :=
  [("allowance", Some ["AddressLike"; "AddressLike"]);
   ("approve", Some ["AddressLike"; "BigNumberish"]);
   ("balanceOf", Some ["AddressLike"]);
   ("totalSupply", None);
   ("transfer", Some ["AddressLike"; "BigNumberish"]);
   ("transferFrom", Some ["AddressLike"; "AddressLike"; "BigNumberish"])].
Definition IERC20_decode : list string :=
  ["allowance"; "approve"; "balanceOf"; "totalSupply"; "transfer"; "transferFrom"].
Definition IERC20_event_types : list EventType :=
  [event_type "Approval" [("owner", "AddressLike"); ("spender", "AddressLike"); ("value", "BigNumberish")]
     [("owner", "string"); ("spender", "string"); ("value", "bigint")]
     [("owner", "string"); ("spender", "string"); ("value", "bigint")];
   event_type "Transfer" [("from", "AddressLike"); ("to", "AddressLike"); ("value", "BigNumberish")]
     [("from", "string"); ("to", "string"); ("value", "bigint")]
     [("from", "string"); ("to", "string"); ("value", "bigint")]].
Definition IERC20_members : list Member :=
  [member "connect" ["ContractRunner | null"] "IERC20";
   member "waitForDeployment" [] "Promise<this>";
   member "interface" [] "IERC20Interface";
   member "queryFilter" ["TCEvent"; "string | number | undefined"; "string | number | undefined"]
     "Promise<Array<TypedEventLog<TCEvent>>>";
   member "queryFilter" ["TypedDeferredTopicFilter<TCEvent>"; "string | number | undefined";
     "string | number | undefined"]
     "Promise<Array<TypedEventLog<TCEvent>>>";
   member "on" ["TCEvent"; "TypedListener<TCEvent>"] "Promise<this>";
   member "on" ["TypedDeferredTopicFilter<TCEvent>"; "TypedListener<TCEvent>"] "Promise<this>";
   member "once" ["TCEvent"; "TypedListener<TCEvent>"] "Promise<this>";
   member "once" ["TypedDeferredTopicFilter<TCEvent>"; "TypedListener<TCEvent>"] "Promise<this>";
   member "listeners" ["TCEvent"] "Promise<Array<TypedListener<TCEvent>>>";
   member "listeners" ["string"] "Promise<Array<Listener>>";
   member "removeAllListeners" ["TCEvent"] "Promise<this>"].
Definition IERC20_methods : list (string * MethodType) :=
  [("allowance", method_type [("owner", "AddressLike"); ("spender", "AddressLike")] "bigint" "view");
   ("approve", method_type [("spender", "AddressLike"); ("value", "BigNumberish")] "boolean" "nonpayable");
   ("balanceOf", method_type [("account", "AddressLike")] "bigint" "view");
   ("totalSupply", method_type [] "bigint" "view");
   ("transfer", method_type [("to", "AddressLike"); ("value", "BigNumberish")] "boolean" "nonpayable");
   ("transferFrom", method_type [("from", "AddressLike"); ("to", "AddressLike");
     ("value", "BigNumberish")] "boolean" "nonpayable")].
Definition IERC20_getFunction : list (string * MethodType) :=
  [("allowance", method_type [("owner", "AddressLike"); ("spender", "AddressLike")] "bigint" "view");
   ("approve", method_type [("spender", "AddressLike"); ("value", "BigNumberish")] "boolean" "nonpayable");
   ("balanceOf", method_type [("account", "AddressLike")] "bigint" "view");
   ("totalSupply", method_type [] "bigint" "view");
   ("transfer", method_type [("to", "AddressLike"); ("value", "BigNumberish")] "boolean" "nonpayable");
   ("transferFrom", method_type [("from", "AddressLike"); ("to", "AddressLike");
     ("value", "BigNumberish")] "boolean" "nonpayable")].
Definition IERC20_getEvent : list (string * string) := [("Approval", "Approval"); ("Transfer", "Transfer")].
Definition IERC20_filters : list (string * string) :=
  [("Approval(address,address,uint256)", "Approval");
   ("Approval", "Approval");
   ("Transfer(address,address,uint256)", "Transfer");
   ("Transfer", "Transfer")].
Definition IERC20_interface : Interface :=
  {| functions := IERC20_function_names; events := IERC20_event_names; encodeFunctionData_types := IERC20_encode;
     decodeFunctionResult_names := IERC20_decode; event_types := IERC20_event_types; members := IERC20_members;
     methods := IERC20_methods; getFunction_types := IERC20_getFunction; getEvent_types := IERC20_getEvent;
       filters := IERC20_filters |}.

(** [ArosCoinReserveManager.ts]. *)
Definition ArosCoinReserveManager_function_names : list string :=
  ["allowance"; "approve"; "balanceOf"; "burn"; "burnFrom"; "burnWithReference"; "decimals"; "isReferenceUsed";
    "mint"; "name"; "owner"; "renounceOwnership"; "symbol"; "totalSupply"; "transfer"; "transferFrom";
      "transferOwnership"].
Definition ArosCoinReserveManager_event_names : list string := ["Approval"; "Burned"; "Minted";
  "OwnershipTransferred"; "Transfer"].
Definition ArosCoinReserveManager_encode : list (string * option (list string)) :=
  [("allowance", Some ["AddressLike"; "AddressLike"]);
   ("approve", Some ["AddressLike"; "BigNumberish"]);
   ("balanceOf", Some ["AddressLike"]);
   ("burn", Some ["BigNumberish"]);
   ("burnFrom", Some ["AddressLike"; "BigNumberish"]);
   ("burnWithReference", Some ["AddressLike"; "BigNumberish"; "BytesLike"]);
   ("decimals", None);
   ("isReferenceUsed", Some ["BytesLike"]);
   ("mint", Some ["AddressLike"; "BigNumberish"; "BytesLike"]);
   ("name", None);
   ("owner", None);
   ("renounceOwnership", None);
   ("symbol", None);
   ("totalSupply", None);
   ("transfer", Some ["AddressLike"; "BigNumberish"]);
   ("transferFrom", Some ["AddressLike"; "AddressLike"; "BigNumberish"]);
   ("transferOwnership", Some ["AddressLike"])].
Definition ArosCoinReserveManager_decode : list string :=
  ["allowance"; "approve"; "balanceOf"; "burn"; "burnFrom"; "burnWithReference"; "decimals"; "isReferenceUsed";
    "mint"; "name"; "owner"; "renounceOwnership"; "symbol"; "totalSupply"; "transfer"; "transferFrom";
      "transferOwnership"].
Definition ArosCoinReserveManager_event_types : list EventType :=
  [event_type "Approval" [("owner", "AddressLike"); ("spender", "AddressLike"); ("value", "BigNumberish")]
     [("owner", "string"); ("spender", "string"); ("value", "bigint")]
     [("owner", "string"); ("spender", "string"); ("value", "bigint")];
   event_type "Burned" [("from", "AddressLike"); ("amount", "BigNumberish"); ("txReference", "BytesLike")]
     [("from", "string"); ("amount", "bigint"); ("txReference", "string")]
     [("from", "string"); ("amount", "bigint"); ("txReference", "string")];
   event_type "Minted" [("to", "AddressLike"); ("amount", "BigNumberish"); ("txReference", "BytesLike")]
     [("to", "string"); ("amount", "bigint"); ("txReference", "string")]
     [("to", "string"); ("amount", "bigint"); ("txReference", "string")];
   event_type "OwnershipTransferred" [("previousOwner", "AddressLike"); ("newOwner", "AddressLike")]
     [("previousOwner", "string"); ("newOwner", "string")]
     [("previousOwner", "string"); ("newOwner", "string")];
   event_type "Transfer" [("from", "AddressLike"); ("to", "AddressLike"); ("value", "BigNumberish")]
     [("from", "string"); ("to", "string"); ("value", "bigint")]
     [("from", "string"); ("to", "string"); ("value", "bigint")]].
Definition ArosCoinReserveManager_members : list Member :=
  [member "connect" ["ContractRunner | null"] "ArosCoinReserveManager";
   member "waitForDeployment" [] "Promise<this>";
   member "interface" [] "ArosCoinReserveManagerInterface";
   member "queryFilter" ["TCEvent"; "string | number | undefined"; "string | number | undefined"]
     "Promise<Array<TypedEventLog<TCEvent>>>";
   member "queryFilter" ["TypedDeferredTopicFilter<TCEvent>"; "string | number | undefined";
     "string | number | undefined"]
     "Promise<Array<TypedEventLog<TCEvent>>>";
   member "on" ["TCEvent"; "TypedListener<TCEvent>"] "Promise<this>";
   member "on" ["TypedDeferredTopicFilter<TCEvent>"; "TypedListener<TCEvent>"] "Promise<this>";
   member "once" ["TCEvent"; "TypedListener<TCEvent>"] "Promise<this>";
   member "once" ["TypedDeferredTopicFilter<TCEvent>"; "TypedListener<TCEvent>"] "Promise<this>";
   member "listeners" ["TCEvent"] "Promise<Array<TypedListener<TCEvent>>>";
   member "listeners" ["string"] "Promise<Array<Listener>>";
   member "removeAllListeners" ["TCEvent"] "Promise<this>"].
Definition ArosCoinReserveManager_methods : list (string * MethodType) :=
  [("allowance", method_type [("owner", "AddressLike"); ("spender", "AddressLike")] "bigint" "view");
   ("approve", method_type [("spender", "AddressLike"); ("value", "BigNumberish")] "boolean" "nonpayable");
   ("balanceOf", method_type [("account", "AddressLike")] "bigint" "view");
   ("burn", method_type [("value", "BigNumberish")] "void" "nonpayable");
   ("burnFrom", method_type [("account", "AddressLike"); ("value", "BigNumberish")] "void" "nonpayable");
   ("burnWithReference", method_type [("from", "AddressLike"); ("amount", "BigNumberish");
     ("txReference", "BytesLike")] "void" "nonpayable");
   ("decimals", method_type [] "bigint" "view");
   ("isReferenceUsed", method_type [("txReference", "BytesLike")] "boolean" "view");
   ("mint", method_type [("to", "AddressLike"); ("amount", "BigNumberish");
     ("txReference", "BytesLike")] "void" "nonpayable");
   ("name", method_type [] "string" "view");
   ("owner", method_type [] "string" "view");
   ("renounceOwnership", method_type [] "void" "nonpayable");
   ("symbol", method_type [] "string" "view");
   ("totalSupply", method_type [] "bigint" "view");
   ("transfer", method_type [("to", "AddressLike"); ("value", "BigNumberish")] "boolean" "nonpayable");
   ("transferFrom", method_type [("from", "AddressLike"); ("to", "AddressLike");
     ("value", "BigNumberish")] "boolean" "nonpayable");
   ("transferOwnership", method_type [("newOwner", "AddressLike")] "void" "nonpayable")].
Definition ArosCoinReserveManager_getFunction : list (string * MethodType) :=
  [("allowance", method_type [("owner", "AddressLike"); ("spender", "AddressLike")] "bigint" "view");
   ("approve", method_type [("spender", "AddressLike"); ("value", "BigNumberish")] "boolean" "nonpayable");
   ("balanceOf", method_type [("account", "AddressLike")] "bigint" "view");
   ("burn", method_type [("value", "BigNumberish")] "void" "nonpayable");
   ("burnFrom", method_type [("account", "AddressLike"); ("value", "BigNumberish")] "void" "nonpayable");
   ("burnWithReference", method_type [("from", "AddressLike"); ("amount", "BigNumberish");
     ("txReference", "BytesLike")] "void" "nonpayable");
   ("decimals", method_type [] "bigint" "view");
   ("isReferenceUsed", method_type [("txReference", "BytesLike")] "boolean" "view");
   ("mint", method_type [("to", "AddressLike"); ("amount", "BigNumberish");
     ("txReference", "BytesLike")] "void" "nonpayable");
   ("name", method_type [] "string" "view");
   ("owner", method_type [] "string" "view");
   ("renounceOwnership", method_type [] "void" "nonpayable");
   ("symbol", method_type [] "string" "view");
   ("totalSupply", method_type [] "bigint" "view");
   ("transfer", method_type [("to", "AddressLike"); ("value", "BigNumberish")] "boolean" "nonpayable");
   ("transferFrom", method_type [("from", "AddressLike"); ("to", "AddressLike");
     ("value", "BigNumberish")] "boolean" "nonpayable");
   ("transferOwnership", method_type [("newOwner", "AddressLike")] "void" "nonpayable")].
Definition ArosCoinReserveManager_getEvent : list (string * string) :=
  [("Approval", "Approval"); ("Burned", "Burned"); ("Minted", "Minted");
    ("OwnershipTransferred", "OwnershipTransferred"); ("Transfer", "Transfer")].
Definition ArosCoinReserveManager_filters : list (string * string) :=
  [("Approval(address,address,uint256)", "Approval");
   ("Approval", "Approval");
   ("Burned(address,uint256,bytes32)", "Burned");
   ("Burned", "Burned");
   ("Minted(address,uint256,bytes32)", "Minted");
   ("Minted", "Minted");
   ("OwnershipTransferred(address,address)", "OwnershipTransferred");
   ("OwnershipTransferred", "OwnershipTransferred");
   ("Transfer(address,address,uint256)", "Transfer");
   ("Transfer", "Transfer")].
Definition ArosCoinReserveManager_interface : Interface :=
  {| functions := ArosCoinReserveManager_function_names; events := ArosCoinReserveManager_event_names;
    encodeFunctionData_types := ArosCoinReserveManager_encode;
     decodeFunctionResult_names := ArosCoinReserveManager_decode; event_types := ArosCoinReserveManager_event_types;
       members := ArosCoinReserveManager_members;
     methods := ArosCoinReserveManager_methods; getFunction_types := ArosCoinReserveManager_getFunction;
       getEvent_types := ArosCoinReserveManager_getEvent; filters := ArosCoinReserveManager_filters |}.

(** [hardhat.d.ts]: what the runtime offers under each name. *)
Definition getContractFactory_types : list (string * string) :=
  [("Ownable", "Contracts.Ownable__factory");
   ("IERC1155Errors", "Contracts.IERC1155Errors__factory");
   ("IERC20Errors", "Contracts.IERC20Errors__factory");
   ("IERC721Errors", "Contracts.IERC721Errors__factory");
   ("ERC20", "Contracts.ERC20__factory");
   ("ERC20Burnable", "Contracts.ERC20Burnable__factory");
   ("IERC20Metadata", "Contracts.IERC20Metadata__factory");
   ("IERC20", "Contracts.IERC20__factory");
   ("ArosCoinReserveManager", "Contracts.ArosCoinReserveManager__factory")].
Definition getContractAt_types : list (string * string) :=
  [("Ownable", "Contracts.Ownable");
   ("IERC1155Errors", "Contracts.IERC1155Errors");
   ("IERC20Errors", "Contracts.IERC20Errors");
   ("IERC721Errors", "Contracts.IERC721Errors");
   ("ERC20", "Contracts.ERC20");
   ("ERC20Burnable", "Contracts.ERC20Burnable");
   ("IERC20Metadata", "Contracts.IERC20Metadata");
   ("IERC20", "Contracts.IERC20");
   ("ArosCoinReserveManager", "Contracts.ArosCoinReserveManager")].
Definition deployContract_types : list (string * string) :=
  [("Ownable", "Contracts.Ownable");
   ("IERC1155Errors", "Contracts.IERC1155Errors");
   ("IERC20Errors", "Contracts.IERC20Errors");
   ("IERC721Errors", "Contracts.IERC721Errors");
   ("ERC20", "Contracts.ERC20");
   ("ERC20Burnable", "Contracts.ERC20Burnable");
   ("IERC20Metadata", "Contracts.IERC20Metadata");
   ("IERC20", "Contracts.IERC20");
   ("ArosCoinReserveManager", "Contracts.ArosCoinReserveManager")].
Definition deployContract_args_types : list (string * string) :=
  [("Ownable", "Contracts.Ownable");
   ("IERC1155Errors", "Contracts.IERC1155Errors");
   ("IERC20Errors", "Contracts.IERC20Errors");
   ("IERC721Errors", "Contracts.IERC721Errors");
   ("ERC20", "Contracts.ERC20");
   ("ERC20Burnable", "Contracts.ERC20Burnable");
   ("IERC20Metadata", "Contracts.IERC20Metadata");
   ("IERC20", "Contracts.IERC20");
   ("ArosCoinReserveManager", "Contracts.ArosCoinReserveManager")].
(** [index.ts]: the exported types and factories. *)
Definition index_exports : list string :=
  ["Ownable"; "Ownable__factory"; "IERC1155Errors"; "IERC1155Errors__factory"; "IERC20Errors";
    "IERC20Errors__factory"; "IERC721Errors"; "IERC721Errors__factory"; "ERC20"; "ERC20__factory"; "ERC20Burnable";
      "ERC20Burnable__factory"; "IERC20Metadata"; "IERC20Metadata__factory"; "IERC20"; "IERC20__factory";
        "ArosCoinReserveManager"; "ArosCoinReserveManager__factory"].
