(* ===== verification/Bytecode.v ===== *)
(** * The bytecode the factory deploys

    The constant [_bytecode] of [ArosCoinReserveManager__factory.ts], read as
    instructions as far as finding the selectors it compares call data with. *)

From Stdlib Require Import Ascii String ZArith.
From S2P Require Import Prelude Abi.

Local Open Scope Z_scope.

(** The creation code of the contract, in hexadecimal. *)
Definition _bytecode : string :=
  "0x60806040523480156200001157600080fd5b50336040518060400160405280600881526020017f41726f73436f696e0000000000000000000000000000000000000000000000008152506040518060400160405280600481526020017f41524f5300000000000000000000000000000000000000000000000000000000815250816003908162000090919062000472565b508060049081620000a2919062000472565b505050600073ffffffffffffffffffffffffffffffffffffffff168173ffffffffffffffffffffffffffffffffffffffff16036200011a5760006040517f1e4fbdf70000000000000000000000000000000000000000000000000000000081526004016200011191906200059e565b60405180910390fd5b6200012b816200013260201b60201c565b50620005bb565b6000600560009054906101000a900473ffffffffffffffffffffffffffffffffffffffff16905081600560006101000a81548173ffffffffffffffffffffffffffffffffffffffff021916908373ffffffffffffffffffffffffffffffffffffffff1602179055508173ffffffffffffffffffffffffffffffffffffffff168173ffffffffffffffffffffffffffffffffffffffff167f8be0079c531659141344cd1fd0a4f28419497f9722a3daafe3b4186f6b6457e060405160405180910390a35050565b600081519050919050565b7f4e487b7100000000000000000000000000000000000000000000000000000000600052604160045260246000fd5b7f4e487b7100000000000000000000000000000000000000000000000000000000600052602260045260246000fd5b600060028204905060018216806200027a57607f821691505b60208210810362000290576200028f62000232565b5b50919050565b60008190508160005260206000209050919050565b60006020601f8301049050919050565b600082821b905092915050565b600060088302620002fa7fffffffffffffffffffffffffffffffffffffffffffffffffffffffffffffffff82620002bb565b620003068683620002bb565b95508019841693508086168417925050509392505050565b6000819050919050565b6000819050919050565b6000620003536200034d62000347846200031e565b62000328565b6200031e565b9050919050565b6000819050919050565b6200036f8362000332565b620003876200037e826200035a565b848454620002c8565b825550505050565b600090565b6200039e6200038f565b620003ab81848462000364565b505050565b5b81811015620003d357620003c760008262000394565b600181019050620003b1565b5050565b601f8211156200042257620003ec8162000296565b620003f784620002ab565b8101602085101562000407578190505b6200041f6200041685620002ab565b830182620003b0565b50505b505050565b600082821c905092915050565b6000620004476000198460080262000427565b1980831691505092915050565b600062000462838362000434565b9150826002028217905092915050565b6200047d82620001f8565b67ffffffffffffffff81111562000499576200049862000203565b5b620004a5825462000261565b620004b2828285620003d7565b600060209050601f831160018114620004ea5760008415620004d5578287015190505b620004e1858262000454565b86555062000551565b601f198416620004fa8662000296565b60005b828110156200052457848901518255600182019150602085019450602081019050620004fd565b8683101562000544578489015162000540601f89168262000434565b8355505b6001600288020188555050505b505050505050565b600073ffffffffffffffffffffffffffffffffffffffff82169050919050565b6000620005868262000559565b9050919050565b620005988162000579565b82525050565b6000602082019050620005b560008301846200058d565b92915050565b61165a80620005cb6000396000f3fe608060405234801561001057600080fd5b506004361061010b5760003560e01c8063715018a6116100a257806395d89b411161007157806395d89b4114610292578063986bf620146102b0578063a9059cbb146102e0578063dd62ed3e14610310578063f2fde38b146103405761010b565b8063715018a61461023257806379cc67901461023c5780638da5cb5b146102585780639199a774146102765761010b565b806323b872dd116100de57806323b872dd14610198578063313ce567146101c857806342966c68146101e657806370a08231146102025761010b565b806306fdde0314610110578063095ea7b31461012e57806318160ddd1461015e5780631e458bee1461017c575b600080fd5b61011861035c565b604051610125919061115f565b60405180910390f35b6101486004803603810190610143919061121a565b6103ee565b6040516101559190611275565b60405180910390f35b610166610411565b604051610173919061129f565b60405180910390f35b610196600480360381019061019191906112f0565b61041b565b005b6101b260048036038101906101ad9190611343565b61050e565b6040516101bf9190611275565b60405180910390f35b6101d061053d565b6040516101dd91906113b2565b60405180910390f35b61020060048036038101906101fb91906113cd565b610546565b005b61021c600480360381019061021791906113fa565b61055a565b604051610229919061129f565b60405180910390f35b61023a6105a2565b005b6102566004803603810190610251919061121a565b6105b6565b005b6102606105d6565b60405161026d9190611436565b60405180910390f35b610290600480360381019061028b91906112f0565b610600565b005b61029a6106f3565b6040516102a7919061115f565b60405180910390f35b6102ca60048036038101906102c59190611451565b610785565b6040516102d79190611275565b60405180910390f35b6102fa60048036038101906102f5919061121a565b6107af565b6040516103079190611275565b60405180910390f35b61032a6004803603810190610325919061147e565b6107d2565b604051610337919061129f565b60405180910390f35b61035a600480360381019061035591906113fa565b610859565b005b60606003805461036b906114ed565b80601f0160208091040260200160405190810160405280929190818152602001828054610397906114ed565b80156103e45780601f106103b9576101008083540402835291602001916103e4565b820191906000526020600020905b8154815290600101906020018083116103c757829003601f168201915b5050505050905090565b6000806103f96108df565b90506104068185856108e7565b600191505092915050565b6000600254905090565b6104236108f9565b6006600082815260200190815260200160002060009054906101000a900460ff1615610484576040517f08c379a000000000000000000000000000000000000000000000000000000000815260040161047b9061156a565b60405180910390fd5b61048e8383610980565b60016006600083815260200190815260200160002060006101000a81548160ff021916908315150217905550808373ffffffffffffffffffffffffffffffffffffffff167fc263b302aec62d29105026245f19e16f8e0137066ccd4a8bd941f716bd4096bb84604051610501919061129f565b60405180910390a3505050565b6000806105196108df565b9050610526858285610a02565b610531858585610a97565b60019150509392505050565b60006012905090565b6105576105516108df565b82610b8b565b50565b60008060008373ffffffffffffffffffffffffffffffffffffffff1673ffffffffffffffffffffffffffffffffffffffff168152602001908152602001600020549050919050565b6105aa6108f9565b6105b46000610c0d565b565b6105c8826105c26108df565b83610a02565b6105d28282610b8b565b5050565b6000600560009054906101000a900473ffffffffffffffffffffffffffffffffffffffff16905090565b6106086108f9565b6006600082815260200190815260200160002060009054906101000a900460ff1615610669576040517f08c379a00000000000000000000000000000000000000000000000000000000081526004016106609061156a565b60405180910390fd5b6106738383610b8b565b60016006600083815260200190815260200160002060006101000a81548160ff021916908315150217905550808373ffffffffffffffffffffffffffffffffffffffff167f265f3479df3fade4f6c5d2935e2beb9fb3166b4842cd4703862f604ac1b708a3846040516106e6919061129f565b60405180910390a3505050565b606060048054610702906114ed565b80601f016020809104026020016040519081016040528092919081815260200182805461072e906114ed565b801561077b5780601f106107505761010080835404028352916020019161077b565b820191906000526020600020905b81548152906001019060200180831161075e57829003601f168201915b5050505050905090565b60006006600083815260200190815260200160002060009054906101000a900460ff169050919050565b6000806107ba6108df565b90506107c7818585610a97565b600191505092915050565b6000600160008473ffffffffffffffffffffffffffffffffffffffff1673ffffffffffffffffffffffffffffffffffffffff16815260200190815260200160002060008373ffffffffffffffffffffffffffffffffffffffff1673ffffffffffffffffffffffffffffffffffffffff16815260200190815260200160002054905092915050565b6108616108f9565b600073ffffffffffffffffffffffffffffffffffffffff168173ffffffffffffffffffffffffffffffffffffffff16036108d35760006040517f1e4fbdf70000000000000000000000000000000000000000000000000000000081526004016108ca9190611436565b60405180910390fd5b6108dc81610c0d565b50565b600033905090565b6108f48383836001610cd3565b505050565b6109016108df565b73ffffffffffffffffffffffffffffffffffffffff1661091f6105d6565b73ffffffffffffffffffffffffffffffffffffffff161461097e576109426108df565b6040517f118cdaa70000000000000000000000000000000000000000000000000000000081526004016109759190611436565b60405180910390fd5b565b600073ffffffffffffffffffffffffffffffffffffffff168273ffffffffffffffffffffffffffffffffffffffff16036109f25760006040517fec442f050000000000000000000000000000000000000000000000000000000081526004016109e99190611436565b60405180910390fd5b6109fe60008383610eaa565b5050565b6000610a0e84846107d2565b90507fffffffffffffffffffffffffffffffffffffffffffffffffffffffffffffffff811015610a915781811015610a81578281836040517ffb8f41b2000000000000000000000000000000000000000000000000000000008152600401610a789392919061158a565b60405180910390fd5b610a9084848484036000610cd3565b5b50505050565b600073ffffffffffffffffffffffffffffffffffffffff168373ffffffffffffffffffffffffffffffffffffffff1603610b095760006040517f96c6fd1e000000000000000000000000000000000000000000000000000000008152600401610b009190611436565b60405180910390fd5b600073ffffffffffffffffffffffffffffffffffffffff168273ffffffffffffffffffffffffffffffffffffffff1603610b7b5760006040517fec442f05000000000000000000000000000000000000000000000000000000008152600401610b729190611436565b60405180910390fd5b610b86838383610eaa565b505050565b600073ffffffffffffffffffffffffffffffffffffffff168273ffffffffffffffffffffffffffffffffffffffff1603610bfd5760006040517f96c6fd1e000000000000000000000000000000000000000000000000000000008152600401610bf49190611436565b60405180910390fd5b610c0982600083610eaa565b5050565b6000600560009054906101000a900473ffffffffffffffffffffffffffffffffffffffff16905081600560006101000a81548173ffffffffffffffffffffffffffffffffffffffff021916908373ffffffffffffffffffffffffffffffffffffffff1602179055508173ffffffffffffffffffffffffffffffffffffffff168173ffffffffffffffffffffffffffffffffffffffff167f8be0079c531659141344cd1fd0a4f28419497f9722a3daafe3b4186f6b6457e060405160405180910390a35050565b600073ffffffffffffffffffffffffffffffffffffffff168473ffffffffffffffffffffffffffffffffffffffff1603610d455760006040517fe602df05000000000000000000000000000000000000000000000000000000008152600401610d3c9190611436565b60405180910390fd5b600073ffffffffffffffffffffffffffffffffffffffff168373ffffffffffffffffffffffffffffffffffffffff1603610db75760006040517f94280d62000000000000000000000000000000000000000000000000000000008152600401610dae9190611436565b60405180910390fd5b81600160008673ffffffffffffffffffffffffffffffffffffffff1673ffffffffffffffffffffffffffffffffffffffff16815260200190815260200160002060008573ffffffffffffffffffffffffffffffffffffffff1673ffffffffffffffffffffffffffffffffffffffff168152602001908152602001600020819055508015610ea4578273ffffffffffffffffffffffffffffffffffffffff168473ffffffffffffffffffffffffffffffffffffffff167f8c5be1e5ebec7d5bd14f71427d1e84f3dd0314c0f7b2291e5b200ac8c7c3b92584604051610e9b919061129f565b60405180910390a35b50505050565b600073ffffffffffffffffffffffffffffffffffffffff168373ffffffffffffffffffffffffffffffffffffffff1603610efc578060026000828254610ef091906115f0565b92505081905550610fcf565b60008060008573ffffffffffffffffffffffffffffffffffffffff1673ffffffffffffffffffffffffffffffffffffffff16815260200190815260200160002054905081811015610f88578381836040517fe450d38c000000000000000000000000000000000000000000000000000000008152600401610f7f9392919061158a565b60405180910390fd5b8181036000808673ffffffffffffffffffffffffffffffffffffffff1673ffffffffffffffffffffffffffffffffffffffff16815260200190815260200160002081905550505b600073ffffffffffffffffffffffffffffffffffffffff168273ffffffffffffffffffffffffffffffffffffffff16036110185780600260008282540392505081905550611065565b806000808473ffffffffffffffffffffffffffffffffffffffff1673ffffffffffffffffffffffffffffffffffffffff168152602001908152602001600020600082825401925050819055505b8173ffffffffffffffffffffffffffffffffffffffff168373ffffffffffffffffffffffffffffffffffffffff167fddf252ad1be2c89b69c2b068fc378daa952ba7f163c4a11628f55a4df523b3ef836040516110c2919061129f565b60405180910390a3505050565b600081519050919050565b600082825260208201905092915050565b60005b838110156111095780820151818401526020810190506110ee565b60008484015250505050565b6000601f19601f8301169050919050565b6000611131826110cf565b61113b81856110da565b935061114b8185602086016110eb565b61115481611115565b840191505092915050565b600060208201905081810360008301526111798184611126565b905092915050565b600080fd5b600073ffffffffffffffffffffffffffffffffffffffff82169050919050565b60006111b182611186565b9050919050565b6111c1816111a6565b81146111cc57600080fd5b50565b6000813590506111de816111b8565b92915050565b6000819050919050565b6111f7816111e4565b811461120257600080fd5b50565b600081359050611214816111ee565b92915050565b6000806040838503121561123157611230611181565b5b600061123f858286016111cf565b925050602061125085828601611205565b9150509250929050565b60008115159050919050565b61126f8161125a565b82525050565b600060208201905061128a6000830184611266565b92915050565b611299816111e4565b82525050565b60006020820190506112b46000830184611290565b92915050565b6000819050919050565b6112cd816112ba565b81146112d857600080fd5b50565b6000813590506112ea816112c4565b92915050565b60008060006060848603121561130957611308611181565b5b6000611317868287016111cf565b935050602061132886828701611205565b9250506040611339868287016112db565b9150509250925092565b60008060006060848603121561135c5761135b611181565b5b600061136a868287016111cf565b935050602061137b868287016111cf565b925050604061138c86828701611205565b9150509250925092565b600060ff82169050919050565b6113ac81611396565b82525050565b60006020820190506113c760008301846113a3565b92915050565b6000602082840312156113e3576113e2611181565b5b60006113f184828501611205565b91505092915050565b6000602082840312156114105761140f611181565b5b600061141e848285016111cf565b91505092915050565b611430816111a6565b82525050565b600060208201905061144b6000830184611427565b92915050565b60006020828403121561146757611466611181565b5b6000611475848285016112db565b91505092915050565b6000806040838503121561149557611494611181565b5b60006114a3858286016111cf565b92505060206114b4858286016111cf565b9150509250929050565b7f4e487b7100000000000000000000000000000000000000000000000000000000600052602260045260246000fd5b6000600282049050600182168061150557607f821691505b602082108103611518576115176114be565b5b50919050565b7f5265666572656e636520616c7265616479207573656400000000000000000000600082015250565b60006115546016836110da565b915061155f8261151e565b602082019050919050565b6000602082019050818103600083015261158381611547565b9050919050565b600060608201905061159f6000830186611427565b6115ac6020830185611290565b6115b96040830184611290565b949350505050565b7f4e487b7100000000000000000000000000000000000000000000000000000000600052601160045260246000fd5b60006115fb826111e4565b9150611606836111e4565b925082820190508082111561161e5761161d6115c1565b5b9291505056fea2646970667358221220591708b622535c97968ddb9493287d90ad6390b54f2843b86352cbfe77a8da5464736f6c63430008140033".

(** The bytes behind [0x]. *)
Fixpoint hex_bytes (s : string) : list Z :=
  match s with
  | String a (String b s) => 16 * hex_digit a + hex_digit b :: hex_bytes s
  | _ => []
  end.
Definition code_bytes (s : string) : list Z :=
  match s with String _ (String _ s) => hex_bytes s | _ => [] end.

(** The operands of the instructions [PUSH4 v; EQ]. [PUSH1] to [PUSH32] are the bytes
    0x60 to 0x7f, each followed by as many bytes of data; [EQ] is 0x14. [skip] data
    bytes remain of the last instruction, [is4] says that it is or was a [PUSH4], and
    [acc] is its operand so far. *)
Fixpoint comparisons (skip : nat) (is4 : bool) (acc : Z) (code : list Z) : list Z :=
  match code with
  | [] => []
  | b :: code =>
    match skip with
    | S k => comparisons k is4 (acc * 256 + b) code
    | O =>
      let rest := if (0x60 <=? b) && (b <=? 0x7f) then comparisons (Z.to_nat (b - 0x5f)) (b =? 0x63) 0 code
                  else comparisons 0 false 0 code in
      if is4 && (b =? 0x14) then acc :: rest else rest
    end
  end.

Definition compared_selectors (bytecode : string) : list Z := comparisons 0 false 0 (code_bytes bytecode).

(** The deployed code dispatches on the recorded selectors. The selectors its
    instructions compare the call data with are exactly the seventeen of the external
    functions, each once, and they differ from one another. *)
Theorem dispatcher_selectors :
  compared_selectors _bytecode ≡ₚ (λ m, hex_value m.2) <$> methodIdentifiers ∧
  NoDup ((λ m, hex_value m.2) <$> methodIdentifiers).
Proof.
  split; [|by apply (bool_decide_unpack _); vm_compute].
  rewrite <- (sort_by_perm Z.leb (compared_selectors _bytecode)).
  rewrite <- (sort_by_perm Z.leb ((λ m, hex_value m.2) <$> methodIdentifiers)).
  assert (sort_by Z.leb (compared_selectors _bytecode) =
          sort_by Z.leb ((λ m, hex_value m.2) <$> methodIdentifiers)) as -> by by vm_compute.
  done.
Qed.
