(* ===== verification/Bindings.v ===== *)
(** * The bindings of the contracts

    The typed interfaces against the ABIs: each declaration file of
    [src/smart_contracts/typechain-types/] is what its factory's ABI calls for; the
    smaller ABIs are parts of the larger; the factory class; and a client that calls the
    reserve contract through its binding reaches exactly the function and the arguments
    it names, and reads back its answer. *)

From Stdlib Require Import String Strings.Byte ZArith.
From S2P Require Import Prelude Solidity Ownable ERC20 ReserveManager Abi Abis Interfaces.

Local Open Scope string_scope.

(** ** The binding an ABI calls for *)

(** The members the generator gives every contract, with the overloads in order. *)
Definition contract_members (C : string) : list Member :=
  [member "connect" ["ContractRunner | null"] C;
   member "waitForDeployment" [] "Promise<this>";
   member "interface" [] (C +:+ "Interface");
   member "queryFilter" ["TCEvent"; "string | number | undefined"; "string | number | undefined"]
     "Promise<Array<TypedEventLog<TCEvent>>>";
   member "queryFilter" ["TypedDeferredTopicFilter<TCEvent>"; "string | number | undefined"; "string | number | undefined"]
     "Promise<Array<TypedEventLog<TCEvent>>>";
   member "on" ["TCEvent"; "TypedListener<TCEvent>"] "Promise<this>";
   member "on" ["TypedDeferredTopicFilter<TCEvent>"; "TypedListener<TCEvent>"] "Promise<this>";
   member "once" ["TCEvent"; "TypedListener<TCEvent>"] "Promise<this>";
   member "once" ["TypedDeferredTopicFilter<TCEvent>"; "TypedListener<TCEvent>"] "Promise<this>";
   member "listeners" ["TCEvent"] "Promise<Array<TypedListener<TCEvent>>>";
   member "listeners" ["string"] "Promise<Array<Listener>>";
   member "removeAllListeners" ["TCEvent"] "Promise<this>"].

(** The TypeScript type of an argument, and of a result. *)
Definition input_type (type : string) : string :=
  if String.eqb type "address" then "AddressLike"
  else if String.eqb type "bytes32" then "BytesLike"
  else if String.eqb type "bool" then "boolean"
  else if String.eqb type "string" then "string"
  else "BigNumberish".
Definition output_type (type : string) : string :=
  if String.eqb type "address" || String.eqb type "bytes32" || String.eqb type "string" then "string"
  else if String.eqb type "bool" then "boolean"
  else "bigint".

Definition name_of (f : Fragment) : string := default EmptyString (fragment_name f).
Definition of_kind (kind : string) (abi : list Fragment) : list Fragment :=
  List.filter (λ f, String.eqb (fragment_type f) kind) abi.

Definition tuple (type : string → string) (l : list Param) : list (string * string) :=
  (λ p, (param_name p, type (param_type p))) <$> l.

Definition method_of (f : Fragment) : string * MethodType :=
  (name_of f,
   method_type (tuple input_type (inputs f))
     match outputs f with Some [p] => output_type (param_type p) | _ => "void" end
     (default EmptyString (stateMutability f))).

Definition encode_of (f : Fragment) : string * option (list string) :=
  (name_of f, match inputs f with [] => None | l => Some ((λ p, input_type (param_type p)) <$> l) end).

Definition event_of (f : Fragment) : EventType :=
  event_type (name_of f) (tuple input_type (inputs f)) (tuple output_type (inputs f)) (tuple output_type (inputs f)).

Definition interface_of (C : string) (abi : list Fragment) : Interface :=
  let funs := of_kind "function" abi in
  let evs := of_kind "event" abi in
  {| functions := name_of <$> funs;
     events := name_of <$> evs;
     encodeFunctionData_types := encode_of <$> funs;
     decodeFunctionResult_names := name_of <$> funs;
     event_types := event_of <$> evs;
     members := contract_members C;
     methods := method_of <$> funs;
     getFunction_types := method_of <$> funs;
     getEvent_types := (λ f, (name_of f, name_of f)) <$> evs;
     filters := evs ≫= λ f, [(signature f, name_of f); (name_of f, name_of f)] |}.

(** The contracts with bindings, in the order of [index.ts]. *)
Definition bindings : list (string * (list Fragment * Interface)) :=
  [("Ownable", (Ownable_abi, Ownable_interface));
   ("IERC1155Errors", (IERC1155Errors_abi, IERC1155Errors_interface));
   ("IERC20Errors", (IERC20Errors_abi, IERC20Errors_interface));
   ("IERC721Errors", (IERC721Errors_abi, IERC721Errors_interface));
   ("ERC20", (ERC20_abi, ERC20_interface));
   ("ERC20Burnable", (ERC20Burnable_abi, ERC20Burnable_interface));
   ("IERC20Metadata", (IERC20Metadata_abi, IERC20Metadata_interface));
   ("IERC20", (IERC20_abi, IERC20_interface));
   ("ArosCoinReserveManager", (ArosCoinReserveManager_abi, ArosCoinReserveManager_interface))].

(** The typed interfaces say what the ABIs say. For each of the nine contracts the
    declaration file is exactly the one its factory's ABI calls for: the names, the
    types of arguments, results and events, the mutability, the filters by name and by
    signature. *)
Theorem interfaces_match_abis :
  Forall (λ '(C, (abi, i)), i = interface_of C abi) bindings.
Proof. repeat constructor. Qed.

(** The runtime names lead to the bindings. [getContractFactory], [getContractAt] and
    both forms of [deployContract] know exactly the nine contracts, each under the type of
    its own binding, and [index.ts] exports the type and the factory of each. *)
Theorem runtime_names_complete :
  let names := bindings.*1 in
  getContractFactory_types = ((λ C, (C, "Contracts." +:+ C +:+ "__factory")) <$> names) ∧
  getContractAt_types = ((λ C, (C, "Contracts." +:+ C)) <$> names) ∧
  deployContract_types = getContractAt_types ∧ deployContract_args_types = getContractAt_types ∧
  index_exports = (names ≫= λ C, [C; C +:+ "__factory"]).
Proof. by split_and!. Qed.

(** ** The ABIs among themselves *)

Definition includes (abi part : list Fragment) : bool :=
  forallb (λ f, bool_decide (f ∈ abi)) part.

(** The ABIs follow the inheritance of the contracts: every fragment of a contract or
    interface is one of each contract that inherits it. A client bound to the smaller
    interface encodes its calls as one bound to the larger. *)
Theorem abis_follow_inheritance :
  includes ArosCoinReserveManager_abi ERC20Burnable_abi = true ∧
  includes ArosCoinReserveManager_abi Ownable_abi = true ∧
  includes ERC20Burnable_abi ERC20_abi = true ∧
  includes ERC20_abi IERC20Metadata_abi = true ∧ includes ERC20_abi IERC20Errors_abi = true ∧
  includes IERC20Metadata_abi IERC20_abi = true ∧
  Forall (λ name, function_named ArosCoinReserveManager_abi name = function_named ERC20_abi name)
    (name_of <$> of_kind "function" ERC20_abi).
Proof. split_and!; [by vm_compute..|]. repeat constructor. Qed.

(** ** The ABI of the reserve contract and the contract *)

(** Errors and events as the ABI names them. *)
Definition error_data (e : TokenError) : string * list value :=
  match e with
  | FromERC20 (ERC20InsufficientBalance a b n) => ("ERC20InsufficientBalance", [VAddress a; VUint256 b; VUint256 n])
  | FromERC20 (ERC20InvalidSender a) => ("ERC20InvalidSender", [VAddress a])
  | FromERC20 (ERC20InvalidReceiver a) => ("ERC20InvalidReceiver", [VAddress a])
  | FromERC20 (ERC20InsufficientAllowance a b n) => ("ERC20InsufficientAllowance", [VAddress a; VUint256 b; VUint256 n])
  | FromERC20 (ERC20InvalidApprover a) => ("ERC20InvalidApprover", [VAddress a])
  | FromERC20 (ERC20InvalidSpender a) => ("ERC20InvalidSpender", [VAddress a])
  | FromOwnable (OwnableUnauthorizedAccount a) => ("OwnableUnauthorizedAccount", [VAddress a])
  | FromOwnable (OwnableInvalidOwner a) => ("OwnableInvalidOwner", [VAddress a])
  end.
Definition event_data (e : TokenEvent) : string * list value :=
  match e with
  | ERC20Log (Transfer a b v) => ("Transfer", [VAddress a; VAddress b; VUint256 v])
  | ERC20Log (Approval a b v) => ("Approval", [VAddress a; VAddress b; VUint256 v])
  | OwnableLog (OwnershipTransferred a b) => ("OwnershipTransferred", [VAddress a; VAddress b])
  | Minted a v r => ("Minted", [VAddress a; VUint256 v; VBytes32 r])
  | Burned a v r => ("Burned", [VAddress a; VUint256 v; VBytes32 r])
  end.

(** The ABI has a fragment of the kind with that name and arguments of those types. *)
Definition declares (abi : list Fragment) (kind : string) (d : string * list value) : Prop :=
  ∃ f, f ∈ of_kind kind abi ∧ name_of f = d.1 ∧ param_types (inputs f) = Some (value_type <$> d.2).

Lemma declares_find abi kind name (vs : list value) f :
  List.find (λ f, bool_decide (name_of f = name)) (of_kind kind abi) = Some f →
  param_types (inputs f) = Some (value_type <$> vs) → declares abi kind (name, vs).
Proof.
  intros [Hin Hn]%List.find_some Ht. exists f. split; [by apply list_elem_of_In|].
  by apply bool_decide_eq_true in Hn.
Qed.

(** C35. The ABI declares the contract. Its functions are, with their argument types and
    in this order, the external functions the compiled contract dispatches on; every
    answer has the types of the function's outputs; every error a call can revert with
    and every event it can emit is declared with the types it carries, and no other. *)
Theorem abi_declares_the_contract :
  let funs := of_kind "function" ArosCoinReserveManager_abi in
  ((λ f, (name_of f, param_types (inputs f))) <$> funs) = (prod_map id Some <$> external_functions) ∧
  (signature <$> funs) = methodIdentifiers.*1 ∧
  (∀ s c, ∃ f, function_named ArosCoinReserveManager_abi (call_name c) = Some f ∧
     outputs f ≫= param_types = Some (value_type <$> answer s c)) ∧
  (∀ e, declares ArosCoinReserveManager_abi "error" (error_data e)) ∧
  (∀ e, declares ArosCoinReserveManager_abi "event" (event_data e)) ∧
  length (of_kind "error" ArosCoinReserveManager_abi) = 8%nat ∧
  length (of_kind "event" ArosCoinReserveManager_abi) = 5%nat.
Proof.
  split_and!; [by vm_compute..| | | |done|done].
  - intros s c. destruct c; eexists; split; reflexivity.
  - intros [[]|[]]; by eapply declares_find.
  - intros [[]|[]| |]; by eapply declares_find.
Qed.

(** ** Typed methods

    [common.ts]: what a method accepts besides its arguments, and what calling it gives. *)

Inductive StateMutability := nonpayable | payable | view.

Definition parse_mutability (s : string) : option StateMutability :=
  if String.eqb s "nonpayable" then Some nonpayable
  else if String.eqb s "payable" then Some payable
  else if String.eqb s "view" then Some view
  else None.

(** The override types, as the keys they take away from [TransactionRequest]. *)
Definition BaseOverrides : list string := ["to"; "data"].
Definition NonPayableOverrides : list string := (BaseOverrides ++ ["value"; "blockTag"; "enableCcipRead"])%list.
Definition PayableOverrides : list string := (BaseOverrides ++ ["blockTag"; "enableCcipRead"])%list.
Definition ViewOverrides : list string := ["to"; "data"].
Definition Overrides (S : StateMutability) : list string :=
  match S with nonpayable => NonPayableOverrides | payable => PayableOverrides | view => ViewOverrides end.

(** The numbers of arguments a method takes: its own, and then the overrides. *)
Definition ContractMethodArgs (A : list (string * string)) : list nat := [length A; S (length A)].

(** The type of calling a method. *)
Definition call_type (S : StateMutability) (R : string) : string :=
  match S with view => "Promise<" +:+ R +:+ ">" | _ => "Promise<ContractTransactionResponse>" end.

(** The typed methods of the reserve contract cannot send a payment with a transaction:
    each is a view or leaves [value] out of its overrides. The contract would refuse it. *)
Theorem methods_take_no_payment :
  Forall (λ '(_, m), ∃ S, parse_mutability (method_mutability m) = Some S ∧
      (S = view ∨ ("value" ∈ Overrides S ∧ call_type S (method_result m) = "Promise<ContractTransactionResponse>")))
    (methods ArosCoinReserveManager_interface) ∧
  ∀ s sender payment data, payment ≠ 0%Z → serve s sender payment data = (s, []).
Proof.
  split; [|by intros s sender payment data Hp; unfold serve; rewrite decide_False].
  assert (∀ R, "value" ∈ Overrides nonpayable ∧ call_type nonpayable R = "Promise<ContractTransactionResponse>") as H.
  { intros R. split; [|done]. by apply (bool_decide_unpack _); vm_compute. }
  repeat constructor; eexists; (split; [reflexivity|]); first [by left|right; apply H].
Qed.

(** ** The factory *)

(** What the constructor of a factory is given: by name, as far as the class looks. *)
Inductive factory_arg :=
| ArgAbi (abi : list Fragment)
| ArgBytecode (code : string)
| ArgRunner (runner : Z)
| ArgUndefined.

Definition isSuperArgs (xs : list factory_arg) : bool := (1 <? length xs)%nat.

(** What [new ArosCoinReserveManager__factory(...args)] hands to [ContractFactory]. *)
Definition factory_super (_bytecode : string) (args : list factory_arg) : list factory_arg :=
  if isSuperArgs args then args
  else [ArgAbi ArosCoinReserveManager_abi; ArgBytecode _bytecode; default ArgUndefined (args !! 0%nat)].

(** A factory built with at most a signer deploys the contract's own ABI and code; given
    more, it hands everything on as it is, as the base class would take it. *)
Lemma factory_hands_over code args :
  (length args ≤ 1 → factory_super code args =
     [ArgAbi ArosCoinReserveManager_abi; ArgBytecode code; default ArgUndefined (head args)])%nat ∧
  (1 < length args → factory_super code args = args)%nat.
Proof. unfold factory_super, isSuperArgs. destruct args as [|a [|b args]]; simpl; split; try done; lia. Qed.

(** ** A client of the contract

    [ethers] is a parameter: the hash that gives a signature its selector, of which the
    compiler recorded seventeen, and [Interface.encodeFunctionData], which looks a
    function up by its name, refuses arguments that do not fit its inputs and otherwise
    writes the selector and the words. *)

(** An argument as a client gives it, by the TypeScript type it has: an address
    ([AddressLike], resolved), a whole number of any size, or bytes of any length. *)
Inductive js_input :=
| JsAddress (a : Z)
| JsNumber (v : Z)
| JsBytes (l : list byte).

Definition js_type (i : js_input) : string :=
  match i with JsAddress _ => "AddressLike" | JsNumber _ => "BigNumberish" | JsBytes _ => "BytesLike" end.

(** The value an argument stands for as an input of a type. *)
Definition input_value (t : abi_type) (i : js_input) : option value :=
  match t, i with
  | TAddress, JsAddress a => if decide (is_address a) then Some (VAddress a) else None
  | TUint256, JsNumber v => if decide (is_uint256 v) then Some (VUint256 v) else None
  | TBytes32, JsBytes l => if decide (length l = word_size) then Some (VBytes32 (of_bytes l)) else None
  | _, _ => None
  end.

Fixpoint input_values (types : list abi_type) (args : list js_input) : option (list value) :=
  match types, args with
  | [], [] => Some []
  | t :: types, i :: args => v ← input_value t i; vs ← input_values types args; Some (v :: vs)
  | _, _ => None
  end.

Class Ethers := {
  selector : string → list byte;
  encodeFunctionData : list Fragment → string → list js_input → option (list byte);
  selector_recorded text hex : (text, hex) ∈ methodIdentifiers → selector text = to_bytes selector_size (hex_value hex);
  encodeFunctionData_law abi name args :
    encodeFunctionData abi name args =
      (f ← function_named abi name; types ← param_types (inputs f); vs ← input_values types args;
       body ← encode_values vs; Some (selector (signature f) ++ body)%list)
}.

Lemma input_value_typed t i v : input_value t i = Some v → value_typed v ∧ value_type v = t.
Proof.
  destruct t, i; simpl; intros; repeat case_decide; simplify_eq; simpl; split; try done. by apply of_bytes_word.
Qed.

Lemma input_values_typed types args vs : input_values types args = Some vs →
  Forall value_typed vs ∧ value_type <$> vs = types.
Proof.
  revert args vs. induction types as [|t types IH]; intros [|i args] vs; simpl; try done; [by intros [= <-]|].
  destruct (input_value t i) as [v|] eqn:E; [|done]. simpl.
  destruct (input_values types args) as [vs'|] eqn:Es; [|done]. intros [= <-].
  apply input_value_typed in E as [Hv Ht]. apply IH in Es as [Hvs Hts].
  split; [by constructor|]. rewrite fmap_cons. by rewrite Ht, Hts.
Qed.

(** The selector of a fragment is recorded, and leads the contract to the function with
    the fragment's name and argument types. *)
Definition reaches (f : Fragment) : bool :=
  match List.find (λ m, String.eqb m.1 (signature f)) methodIdentifiers, param_types (inputs f) with
  | Some (text, hex), Some types =>
    String.eqb text (signature f) && bool_decide (0 ≤ hex_value hex < 256 ^ 4)%Z &&
    bool_decide (List.find (λ m, bool_decide (hex_value m.2 = hex_value hex)) methodIdentifiers = Some (text, hex)) &&
    bool_decide (List.find (λ e, String.eqb (signature_text e.1 (type_text <$> e.2)) text) external_functions
                 = Some (name_of f, types))
  | _, _ => false
  end.

Lemma all_reach : forallb reaches (of_kind "function" ArosCoinReserveManager_abi) = true.
Proof. by vm_compute. Qed.

Lemma reaches_selected f : reaches f = true →
  ∃ hex types, (signature f, hex) ∈ methodIdentifiers ∧ param_types (inputs f) = Some types ∧
    ∀ rest, selected (to_bytes selector_size (hex_value hex) ++ rest)%list = Some (name_of f, types).
Proof.
  unfold reaches. destruct (List.find (λ m, String.eqb m.1 (signature f)) methodIdentifiers) as [[text hex]|] eqn:E; [|done].
  destruct (param_types (inputs f)) as [types|]; [|done].
  intros (((->%String.eqb_eq&Hb%bool_decide_eq_true)%andb_prop&H1%bool_decide_eq_true)%andb_prop&H2%bool_decide_eq_true)%andb_prop.
  apply List.find_some in E as [Hin _]. exists hex, types. split_and!; [by apply list_elem_of_In|done|].
  intros rest. unfold selected. rewrite decide_True by (rewrite length_app, to_bytes_length; lia).
  rewrite take_to_bytes, of_to_bytes by done. by rewrite H1.
Qed.

Lemma function_named_reaches name f : function_named ArosCoinReserveManager_abi name = Some f →
  reaches f = true ∧ name_of f = name.
Proof.
  intros [Hin [Hk Hn%bool_decide_eq_true]%andb_prop]%List.find_some. split; [|by unfold name_of; rewrite Hn].
  pose proof all_reach as H. rewrite forallb_forall in H. apply H. by apply List.filter_In.
Qed.

(** A function selected by name has a call for all arguments of its types. *)
Lemma selected_call_of name types args : (name, types) ∈ external_functions → value_type <$> args = types →
  ∃ c, call_of name args = Some c.
Proof.
  intros Hin <-. unfold external_functions in Hin. rewrite !elem_of_cons, elem_of_nil in Hin.
  destruct_or?; try done; injection Hin as -> Ha;
    (destruct args as [|[] [|[] [|[] [|? ?]]]]; try discriminate Ha; by eexists).
Qed.

Section Client.
Context {E : Ethers}.

(** What a binding sends for a function and arguments, if [ethers] accepts them. *)
Definition send (name : string) (args : list js_input) : option (list byte) :=
  encodeFunctionData ArosCoinReserveManager_abi name args.

Lemma send_inv name args data : send name args = Some data →
  ∃ f types vs body hex, function_named ArosCoinReserveManager_abi name = Some f ∧
    param_types (inputs f) = Some types ∧ input_values types args = Some vs ∧
    encode_values vs = Some body ∧ (signature f, hex) ∈ methodIdentifiers ∧
    (∀ rest, selected (to_bytes selector_size (hex_value hex) ++ rest)%list = Some (name, types)) ∧
    data = (to_bytes selector_size (hex_value hex) ++ body)%list.
Proof.
  unfold send. rewrite encodeFunctionData_law.
  destruct (function_named ArosCoinReserveManager_abi name) as [f|] eqn:Ef; [|done]. simpl.
  destruct (function_named_reaches name f Ef) as [(hex&types&Hin&Ht&Hs)%reaches_selected <-].
  rewrite Ht. simpl. destruct (input_values types args) as [vs|] eqn:Ev; [|done]. simpl.
  destruct (encode_values vs) as [body|] eqn:Eb; [|done]. simpl. intros [= <-].
  rewrite (selector_recorded _ _ Hin). by exists f, types, vs, body, hex.
Qed.

(** The arguments for a call. *)
Definition js_of (v : value) : js_input :=
  match v with
  | VAddress a => JsAddress a
  | VBytes32 r => JsBytes (word r)
  | VUint256 n | VUint8 n => JsNumber n
  | VBool b => JsNumber (if b then 1 else 0)%Z
  | VString _ => JsBytes []
  end.

(** Every function takes addresses, numbers and references only. *)
Definition input_kind (v : value) : bool := match v with VAddress _ | VUint256 _ | VBytes32 _ => true | _ => false end.

Lemma input_value_js v : value_typed v → input_kind v = true → input_value (value_type v) (js_of v) = Some v.
Proof.
  destruct v; simpl; try done; intros Hv _; [by rewrite decide_True..|].
  rewrite decide_True by apply word_length. by rewrite of_word.
Qed.

Lemma input_values_js vs : Forall value_typed vs → forallb input_kind vs = true →
  input_values (value_type <$> vs) (js_of <$> vs) = Some vs.
Proof.
  induction 1 as [|v vs Hv Hvs IH]; [done|]. intros [Hk Hks]%andb_prop.
  rewrite !fmap_cons. cbn [input_values]. rewrite input_value_js by done. cbn [mbind option_bind].
  by rewrite IH.
Qed.

Lemma call_selector_recorded c :
  ∃ hex, (call_signature c, hex) ∈ methodIdentifiers ∧ call_selector c = Some (hex_value hex).
Proof.
  assert (is_Some (call_selector c)) as [sel Hs] by by destruct c. pose proof Hs as Hs'. unfold call_selector in Hs.
  apply bind_Some in Hs as ([text hex]&[Hin Ht%String.eqb_eq]%List.find_some&Hh). simpl in Ht. subst text.
  exists hex. split; [by apply list_elem_of_In|]. rewrite Hs'. by injection Hh as ->.
Qed.

Lemma call_fragment c : ∃ f, function_named ArosCoinReserveManager_abi (call_name c) = Some f ∧
  param_types (inputs f) = Some (value_type <$> call_args c) ∧ signature f = call_signature c.
Proof. destruct c; eexists; split_and!; reflexivity. Qed.

(** The TypeScript types the binding declares for the arguments of a method. *)
Definition declared_types (i : Interface) (name : string) : list string :=
  match List.find (λ m, String.eqb m.1 name) (methods i) with Some (_, m) => snd <$> method_args m | None => [] end.

Lemma selected_external data e : selected data = Some e → e ∈ external_functions.
Proof.
  unfold selected. case_decide; [|done].
  intros ([text hex]&_&[Hin _]%List.find_some)%bind_Some. by apply list_elem_of_In.
Qed.

(** C24. The binding and the contract agree on every call. What a client sends by naming a
    function of the reserve contract reaches, if [ethers] accepts the arguments, exactly
    that function with exactly those arguments, within their types. Conversely every
    call the contract has is sent that way, with arguments of the TypeScript types the
    binding declares. *)
Theorem client_reaches_contract :
  (∀ name args data, send name args = Some data →
     ∃ c, dispatch data = Some c ∧ typed c ∧ call_name c = name ∧
          input_values (value_type <$> call_args c) args = Some (call_args c)) ∧
  (∀ c, typed c →
     let args := js_of <$> call_args c in
     js_type <$> args = declared_types ArosCoinReserveManager_interface (call_name c) ∧
     ∃ data, send (call_name c) args = Some data ∧ dispatch data = Some c).
Proof.
  split.
  - intros name args data (f&types&vs&body&hex&Hf&Ht&Hv&Hb&Hin&Hs&->)%send_inv.
    destruct (input_values_typed _ _ _ Hv) as [Hvt Hts].
    destruct (selected_call_of name types vs (selected_external _ _ (Hs [])) Hts) as [c Hc].
    destruct (call_of_inv _ _ _ Hc) as [Hn Ha]. exists c.
    assert (dispatch (to_bytes selector_size (hex_value hex) ++ body)%list = Some c) as Hd.
    { unfold dispatch. rewrite Hs. simpl. rewrite drop_to_bytes, <- Hts, <- (app_nil_r body).
      rewrite (decode_args_encode vs) by done. simpl. done. }
    split_and!; [done|by eapply dispatch_typed|done|]. by rewrite Ha, Hts.
  - intros c Hc args. subst args. split; [by destruct c|].
    destruct (call_fragment c) as (f&Hf&Ht&Hsig). destruct (call_selector_recorded c) as (hex&Hin&Hs). apply typed_args in Hc as Hv.
    destruct (calldata_total c) as [data Hd]. exists data.
    split; [|rewrite <- (app_nil_r data); by apply dispatch_calldata].
    unfold send. rewrite encodeFunctionData_law, Hf. cbn [mbind option_bind]. rewrite Ht. cbn [mbind option_bind].
    rewrite input_values_js by (done || by destruct c). cbn [mbind option_bind].
    unfold calldata in Hd. rewrite Hs in Hd. cbn [mbind option_bind] in Hd.
    destruct (encode_values (call_args c)) as [body|]; [|done]. cbn [mbind option_bind] in *.
    by rewrite Hsig, (selector_recorded _ _ Hin).
Qed.
End Client.

(** The arguments of a call are as many as the typed method takes without overrides. *)
Lemma client_arity c :
  ∃ m, List.find (λ m, String.eqb m.1 (call_name c)) (methods ArosCoinReserveManager_interface) = Some m ∧
       head (ContractMethodArgs (method_args m.2)) = Some (length (call_args c)).
Proof. destruct c; eexists; split; reflexivity. Qed.

(** ** Reading the answers *)

(** The owner stays an address. *)
Lemma performs_owner_address sender s c s' l : is_address (token_owner s) → typed c →
  performs sender s c s' l → is_address (token_owner s').
Proof.
  intros Ho Ht Hp. destruct c; simpl in Hp; destruct_and?; subst; done.
Qed.

Lemma history_owner_address s l txs : lawful s l → typed_all txs → is_address (token_owner s) →
  is_address (token_owner (history s l txs).1).
Proof.
  intros Hl Ht. revert s l Hl. induction Ht as [|[sender c] txs Hc Ht IH]; intros s l Hl Ho; [done|].
  rewrite history_cons. apply IH; [by apply lawful_transact|].
  destruct (transact_performs s sender c (lawful_books s l Hl) Hc) as [Hp|E]; [|by rewrite E].
  by eapply performs_owner_address.
Qed.

Lemma answer_typed s l c : lawful s l → is_address (token_owner s) → Forall value_typed (answer s c).
Proof.
  intros Hl Ho. pose proof (lawful_books s l Hl) as Hb.
  destruct c; simpl; try (by repeat constructor); constructor; try done; simpl.
  - apply (books_allowance _ Hb).
  - by apply books_balance.
  - by apply books_total_supply.
Qed.

Lemma returndata_read vs data :
  Forall value_typed vs → Forall (λ v, match v with VString s => (Z.of_nat (String.length s) < 2 ^ 64)%Z | _ => True end) vs →
  returndata vs = Some data → decode_result (value_type <$> vs) data = Some vs.
Proof.
  intros Ht Hs Hr. destruct vs as [|[] [|? vs]]; try by apply decode_result_words.
  inv Hs. by apply decode_result_string.
Qed.

Lemma returndata_total s c : is_Some (returndata (answer s c)).
Proof. destruct c; by eexists. Qed.

(** C25. A client reads what the contract answers. Whatever happened to a contract, when
    a call succeeds the data it returns, decoded by the types of the outputs in the ABI,
    is the answer of the function on that state, texts included. *)
Theorem client_reads_answer deployer txs sender c :
  is_address deployer → typed_all txs → typed c →
  let s := (life deployer txs).1 in
  match execute c sender s with
  | inl _ => True
  | inr (v, _, _) =>
    ∃ f types data, function_named ArosCoinReserveManager_abi (call_name c) = Some f ∧
      outputs f ≫= param_types = Some types ∧ returndata v = Some data ∧
      decode_result types data = Some (answer s c)
  end.
Proof.
  intros Hd Ht Hc s. pose proof (lawful_life deployer txs Ht) as Hl. fold s in Hl.
  assert (is_address (token_owner s)) as Ho by (by apply history_owner_address; [apply lawful_fresh|..]).
  destruct (execute c sender s) as [e|[[v s'] l]] eqn:E; [done|].
  apply (execute_performs sender s (lawful_books _ _ Hl)) in E as [_ ->]; [|done].
  destruct (returndata_total s c) as [data Hr].
  assert (∃ f, function_named ArosCoinReserveManager_abi (call_name c) = Some f ∧
               outputs f ≫= param_types = Some (value_type <$> answer s c)) as (f&Hf&Hout).
  { destruct c; eexists; split; reflexivity. }
  exists f, (value_type <$> answer s c), data. split_and!; try done.
  apply returndata_read; [by eapply answer_typed| |done].
  destruct (lawful_names _ _ Hl) as [Hn Hm].
  destruct c; simpl; rewrite ?Hn, ?Hm; repeat constructor.
Qed.

(** ** A concrete [ethers] *)

Definition reference_selector (text : string) : list byte :=
  match List.find (λ m, String.eqb m.1 text) methodIdentifiers with
  | Some (_, hex) => to_bytes selector_size (hex_value hex)
  | None => to_bytes selector_size 0
  end.

#[global, program] Instance reference_ethers : Ethers := {|
  selector := reference_selector;
  encodeFunctionData abi name args :=
    (f ← function_named abi name; types ← param_types (inputs f); vs ← input_values types args;
     body ← encode_values vs; Some (reference_selector (signature f) ++ body)%list)
|}.
Next Obligation.
  intros text hex Hin. unfold methodIdentifiers in Hin. rewrite !elem_of_cons, elem_of_nil in Hin.
  destruct_or?; try done; by injection Hin as -> ->.
Qed.
Next Obligation. done. Qed.

Lemma client_reaches_contract_witness :
  typed (Call_mint 2 100 7) ∧
  ∃ data, send (E := reference_ethers) "mint" [JsAddress 2; JsNumber 100; JsBytes (word 7)] = Some data ∧
          dispatch data = Some (Call_mint 2 100 7).
Proof.
  assert (typed (Call_mint 2 100 7)) as Ht by (by apply (bool_decide_unpack _); vm_compute).
  split; [exact Ht|]. apply (proj2 (client_reaches_contract (E := reference_ethers)) (Call_mint 2 100 7) Ht).
Defined.

Lemma client_reads_answer_witness :
  execute (Call_balanceOf 2) 9%Z sample = inr ([VUint256 50], sample, []) ∧
  ∃ data, returndata [VUint256 50] = Some data ∧ decode_result [TUint256] data = Some (answer sample (Call_balanceOf 2)).
Proof.
  assert (execute (Call_balanceOf 2) 9%Z sample = inr ([VUint256 50], sample, [])) as E by by vm_compute.
  split; [exact E|].
  pose proof (client_reads_answer 1%Z sample_txs 9%Z (Call_balanceOf 2) ltac:(by apply (bool_decide_unpack _); vm_compute)
    sample_typed ltac:(by apply (bool_decide_unpack _); vm_compute)) as H. cbv zeta in H. fold sample in H. rewrite E in H.
  destruct H as (f&types&data&Hf&Hty&Hr&Hd). vm_compute in Hf. injection Hf as <-. vm_compute in Hty. injection Hty as <-.
  exists data. by split.
Defined.
