(* ===== verification/Deploy.v ===== *)
(** * Deploying the reserve contract

    [src/smart_contracts/scripts/deploy.ts]: the first account deploys the contract and
    so becomes its owner; any failure is printed and sets the exit code. The chain the
    script talks to is a parameter: the accounts it knows, whether the contract's
    factory is found, the address a transaction of an account creates the contract at,
    and whether it is waited for in vain. *)

From Stdlib Require Import String ZArith.
From S2P Require Import Prelude Effects Regex Script Solidity Ownable ERC20 ReserveManager.

Local Open Scope string_scope.

(** What [ethers] of the build tool answers; addresses print through [address_text]. *)
Record Chain := {
  getSigners : exn + list Z;
  getContractFactory : string → exn + ();
  submit : Z → exn + Z;
  waitForDeployment : Z → exn + ();
  getAddress : Z → exn + Z;
  address_text : Z → string
}.

(** An awaited answer. *)
Definition await {A} (r : exn + A) : script A := λ m, (r, m).

Section Deploy.
Context (chain : Chain).

(** The deployer's address; a missing first account is [undefined]. *)
Definition address_of (deployer : option Z) : script Z :=
  match deployer with
  | Some a => mret a
  | None => throw (JsError "Cannot read properties of undefined (reading 'address')")
  end.

(** The contracts this run created, with the account that sent the creation. *)
Definition main : script (Z * Z) :=
  signers ← await (getSigners chain);
  deployer ← address_of (signers !! 0%nat);
  console_log ("Deploying contracts with the account: " +:+ address_text chain deployer);;
  await (getContractFactory chain "ArosCoinReserveManager");;
  token ← await (submit chain deployer);
  await (waitForDeployment chain token);;
  address ← await (getAddress chain token);
  console_log ("ArosCoinReserveManager deployed to: " +:+ address_text chain address);;
  mret (deployer, address).

(** [main().catch(...)]: the exit code, and what was created. *)
Definition run (m : Machine) : (Z * option (Z * Z)) * Machine :=
  match main m with
  | (inr created, m) => ((0, Some created), m)%Z
  | (inl e, m) => ((1, None)%Z, (console_log (exn_text e) m).2)
  end.

(** Everything the script asks for goes well. *)
Definition deploys (deployer token address : Z) : Prop :=
  (∃ rest, getSigners chain = inr (deployer :: rest)) ∧
  getContractFactory chain "ArosCoinReserveManager" = inr () ∧
  submit chain deployer = inr token ∧ waitForDeployment chain token = inr () ∧
  getAddress chain token = inr address.

Lemma main_ok m deployer address : (main m).1 = inr (deployer, address) ↔ ∃ token, deploys deployer token address.
Proof.
  unfold main, await, mbind, script_bind, deploys. split.
  - destruct (getSigners chain) as [e|[|d rest]]; simpl; [done|done|].
    destruct (getContractFactory chain _) as [e|[]]; simpl; [done|].
    destruct (submit chain d) as [e|token] eqn:Es; simpl; [done|].
    destruct (waitForDeployment chain token) as [e|[]] eqn:Ew; simpl; [done|].
    destruct (getAddress chain token) as [e|a] eqn:Ea; simpl; [done|]. intros [= <- <-].
    exists token. split_and!; try done. by exists rest.
  - intros (token&(rest&Hg)&Hf&Hs&Hw&Ha). rewrite Hg. simpl. rewrite Hf. simpl. rewrite Hs. simpl.
    rewrite Hw. simpl. by rewrite Ha.
Qed.

Lemma effects_all_printed l l' : Forall printed l' → effects (l ++ l')%list = effects l.
Proof.
  intros H. rewrite effects_app. replace (effects l') with (@nil Action); [apply app_nil_r|].
  unfold effects. induction H as [|a l' Ha H IH]; [done|]. by rewrite filter_cons_False by (intros ?; tauto).
Qed.

(** It only prints. *)
Lemma main_prints m : tree (main m).2 = tree m ∧
  match (main m).1 with
  | inl _ => ∃ l, actions (main m).2 = (actions m ++ l)%list ∧ Forall printed l
  | inr (_, address) => ∃ line, actions (main m).2 = (actions m ++ [Printed line;
      Printed ("ArosCoinReserveManager deployed to: " +:+ address_text chain address)])%list
  end.
Proof.
  unfold main, await, mbind, script_bind, console_log, act.
  destruct (getSigners chain) as [e|[|d rest]]; simpl; [split; [done|]; exists []; by rewrite app_nil_r..|].
  destruct (getContractFactory chain _) as [e|[]]; simpl; [split; [done|]; by eexists; split; [done|repeat constructor]|].
  destruct (submit chain d) as [e|token] eqn:Es; simpl; [split; [done|]; by eexists; split; [done|repeat constructor]|].
  destruct (waitForDeployment chain token) as [e|[]] eqn:Ew; simpl; [split; [done|]; by eexists; split; [done|repeat constructor]|].
  destruct (getAddress chain token) as [e|a] eqn:Ea; simpl; [split; [done|]; by eexists; split; [done|repeat constructor]|].
  split; [done|]. eexists. by rewrite <- app_assoc.
Qed.

(** C36. The script reports what it did. It ends with code 0 exactly when every step
    succeeded, and then names the address of a contract the first account created; in
    every other case, an empty list of accounts included, the code is 1 and the failure
    is printed. It writes no file and runs no command. The contract of a successful run
    is owned by that account, holds no supply and has used no reference. *)
Theorem deploy_reports m :
  let '((code, created), m') := run m in
  (code = 0%Z ↔ ∃ deployer token address, deploys deployer token address) ∧
  (code = 0%Z ∨ code = 1%Z) ∧
  effects (actions m') = effects (actions m) ∧ tree m' = tree m ∧
  match created with
  | Some (deployer, address) =>
    (∃ token, deploys deployer token address) ∧ ∃ l, actions m' = (actions m ++ [Printed l;
       Printed ("ArosCoinReserveManager deployed to: " +:+ address_text chain address)])%list
  | None => ∃ l e, actions m' = (actions m ++ l ++ [Printed (exn_text e)])%list
  end ∧
  (∀ deployer address, created = Some (deployer, address) → deployer ≠ 0%Z →
     ∃ s l, deploy deployer = inr (s, l) ∧ token_owner s = deployer ∧ supply s = 0%Z ∧
            ∀ r, reference_used s r = false).
Proof.
  pose proof (main_ok m) as Hok. pose proof (main_prints m) as (Ht&Hp).
  unfold run. destruct (main m) as [[e|[deployer address]] m'] eqn:E; simpl in *.
  - destruct Hp as (l&Hl&Hp). split_and!.
    + split; [done|]. intros (d&t&a&H). discriminate (proj2 (Hok d a) (ex_intro _ t H)).
    + by right.
    + by rewrite effects_printed, Hl, effects_all_printed.
    + done.
    + exists l, e. by rewrite Hl, <- app_assoc.
    + done.
  - destruct Hp as (line&Hl). destruct (proj1 (Hok deployer address) eq_refl) as [token Hd]. split_and!.
    + split; [|done]. intros _. by exists deployer, token, address.
    + by left.
    + rewrite Hl. apply effects_all_printed. repeat constructor.
    + done.
    + by exists token.
    + by exists line.
    + intros d a [= <- <-] Hd0. exists (fresh deployer), (fresh_log deployer).
      rewrite deploy_eq, decide_False by done. by split_and!.
Qed.
End Deploy.
