(* ===== verification/SimScripts.v ===== *)
(** * The simulation scripts

    [src/scripts/simulate_flow.ts] and [src/scripts/test_governance.ts]: a run against
    an application context, step by step, with its log. The services they call
    ([src/src/bridge/], [src/src/token/], [src/src/governance/],
    [src/src/fee_distribution/], [src/src/nodechain_engine/]) are not in the repository,
    so they are parameters: operations on a world of their own that return or throw. *)

From Stdlib Require Import String ZArith.
From S2P Require Import Prelude Number NumberText.

Local Open Scope string_scope.

(** What is thrown: an [Error] with its message and stack, or another value by its text. *)
Inductive thrown :=
| ThrownError (message stack : string)
| ThrownOther (text : string).

Inductive Level := Info | Warn | Err.

(** A line of the logger, and the end of the application context. *)
Inductive LogEntry :=
| Line (level : Level) (text : string)
| Closed.

#[global] Instance Level_eq_dec : EqDecision Level.
Proof. solve_decision. Defined.
#[global] Instance LogEntry_eq_dec : EqDecision LogEntry.
Proof. solve_decision. Defined.

(** ** Steps on a world and a log *)

Definition sim (W A : Type) : Type := W * list LogEntry → (thrown + A) * (W * list LogEntry).

#[global] Instance sim_ret {W} : MRet (sim W) := λ A a s, (inr a, s).
#[global] Instance sim_bind {W} : MBind (sim W) :=
  λ A B k p s, match p s with (inl e, s) => (inl e, s) | (inr a, s) => k a s end.

Section Steps.
Context {W : Type}.

Definition throw {A} (e : thrown) : sim W A := λ s, (inl e, s).
Definition log_at (level : Level) (text : string) : sim W () := λ s, (inr (), (s.1, (s.2 ++ [Line level text])%list)).
Definition log : string → sim W () := log_at Info.
Definition warn : string → sim W () := log_at Warn.
Definition error : string → sim W () := log_at Err.

(** A call of a service. *)
Definition call {A} (f : W → (thrown + A) * W) : sim W A := λ s,
  let '(r, w) := f s.1 in (r, (w, s.2)).

(** [try { p } catch (e) { h(e) }]. *)
Definition catch {A} (p : sim W A) (h : thrown → sim W A) : sim W A := λ s,
  match p s with (inl e, s) => h e s | (inr a, s) => (inr a, s) end.

(** [try { p } finally { q }]. *)
Definition finally {A} (p : sim W A) (q : sim W ()) : sim W A := λ s,
  let '(r, s) := p s in
  match q s with (inl e, s) => (inl e, s) | (inr _, s) => (r, s) end.
End Steps.

(** ** The services *)

Record Deposit := { transactionId : string; amount : Z; currency : string; userWallet : string }.
Record Proposal := { proposal_id : string; proposal_hash : option string }.

(** Each as a function of the world; texts of results as they are printed. *)
Record Services (W : Type) := {
  createApplicationContext : W → (thrown + ()) * W;
  get_services : W → (thrown + ()) * W;
  close : W → (thrown + ()) * W;
  now_text : W → (thrown + string) * W;
  randomUUID : W → (thrown + string) * W;
  registerNode : string → string → string → W → (thrown + ()) * W;
  handleFiatDepositWebhook : Deposit → string → W → (thrown + string) * W;
  getCurrentPrice : W → (thrown + number) * W;
  createProposal : string → string → string → option string → W → (thrown + Proposal) * W;
  castVote : string → string → string → W → (thrown + ()) * W;
  tallyVotes : string → W → (thrown + string * string) * W;
  triggerEpochCycle : W → (thrown + ()) * W;
  getCurrentEpoch : W → (thrown + option string) * W;
  burn : string → string → string → W → (thrown + string * string) * W
}.
Arguments createApplicationContext {W} _.
Arguments get_services {W} _.
Arguments close {W} _.
Arguments now_text {W} _.
Arguments randomUUID {W} _.
Arguments registerNode {W} _.
Arguments handleFiatDepositWebhook {W} _.
Arguments getCurrentPrice {W} _.
Arguments createProposal {W} _.
Arguments castVote {W} _.
Arguments tallyVotes {W} _.
Arguments triggerEpochCycle {W} _.
Arguments getCurrentEpoch {W} _.
Arguments burn {W} _.

Section Scripts.
Context {W : Type} (app : Services W).

(** [await app.close()]. *)
Definition close_app : sim W () := λ s,
  let '(r, w) := close app s.1 in (r, (w, (s.2 ++ [Closed])%list)).

(** The current price with six decimals. *)
Definition price : sim W string := p ← call (getCurrentPrice app); mret (to_fixed 6 p).

Definition validatorId : string := "VALIDATOR_SIM_01".

(** Steps 1 and 2. *)
Definition register_and_deposit : sim W () :=
  log "[1] Registering Validator Node...";;
  call (registerNode app validatorId "VALIDATOR" "127.0.0.1");;
  log "[2] Simulating Fiat Deposit...";;
  now ← call (now_text app);
  txHash ← call (handleFiatDepositWebhook app
    {| transactionId := "DEPOSIT_" +:+ now; amount := 1000; currency := "USD"; userWallet := validatorId |}
    "super_secret_bb_key_123");
  log ("    Mint Success! TxHash: " +:+ txHash).

(** Step 3, which ends with the price before the activity. *)
Definition govern : sim W string :=
  log "[3] Governance: Creating Proposal...";;
  priceBefore ← price;
  log ("    Current Price BEFORE activity: " +:+ priceBefore);;
  proposal ← call (createProposal app "Increase Fees" "Raise fees by 1%" validatorId (Some "MEDIUM"));
  log ("    Proposal Created: " +:+ proposal_id proposal);;
  log "[3] Governance: Voting...";;
  call (castVote app (proposal_id proposal) validatorId "YES");;
  tally ← call (tallyVotes app (proposal_id proposal));
  log ("    Vote Tally: Yes=" +:+ tally.1 +:+ ", No=" +:+ tally.2);;
  mret priceBefore.

(** Step 4. *)
Definition distribute : sim W () :=
  log "[4] Fee Distribution: Triggering Epoch...";;
  call (triggerEpochCycle app);;
  epoch ← call (getCurrentEpoch app);
  log ("    New Active Epoch: " +:+ default "undefined" epoch).

(** Step 5, and the comparison of the prices. *)
Definition withdraw (priceBefore : string) : sim W () :=
  priceMid ← price;
  log ("    Price MIDDLE check: " +:+ priceMid);;
  log "[5] Simulating Token Burn (Withdrawal)...";;
  burnResult ← call (burn app "500" validatorId "BANK_DETAILS_ABC");
  priceFinal ← price;
  log ("    Burn Success! TxHash: " +:+ burnResult.1);;
  log ("    Bank Payout Ref: " +:+ burnResult.2);;
  log ("    FINAL PRICE: " +:+ priceFinal);;
  (if num_ltb (string_to_num priceBefore) (string_to_num priceFinal)
   then log "*** VERIFICATION SUCCESS: Price Appreciated! ***"
   else warn "*** VERIFICATION WARNING: Price did not appreciate. ***");;
  log "--- SIMULATION COMPLETED SUCCESSFULLY ---".

Definition flow : sim W () :=
  register_and_deposit;;
  priceBefore ← govern;
  distribute;;
  withdraw priceBefore.

Definition flow_failed (e : thrown) : sim W () :=
  match e with
  | ThrownError message stack => error ("SIMULATION FAILED: " +:+ message);; error stack
  | ThrownOther text => error ("SIMULATION FAILED: " +:+ text)
  end.

(** [bootstrap] of [simulate_flow.ts]. *)
Definition simulate_flow : sim W () :=
  call (createApplicationContext app);;
  call (get_services app);;
  log "--- STARTING SIMULATION ---";;
  finally (catch flow flow_failed) close_app.

(** The text of [error.message] in the second script, which expects an [Error]. *)
Definition message_of (e : thrown) : string :=
  match e with ThrownError message _ => message | ThrownOther _ => "undefined" end.

(** Whether a text occurs in another. *)
Fixpoint includes_text (part s : string) : bool :=
  String.prefix part s || match s with EmptyString => false | String _ s => includes_text part s end.

Definition second_proposal (id : string) : sim W () :=
  catch
    (call (createProposal app "Prop 2" "Should Fail" id None);;
     error "    FAILED: Proposal 2 was created but should have been blocked by rate limit!")
    (λ e, match e with
          | ThrownError message _ =>
            if includes_text "User already has an active proposal" message
            then log ("    SUCCESS: Blocked by Active Limit. Error: " +:+ message)
            else throw e
          | ThrownOther _ => throw (ThrownError "Cannot read properties of undefined (reading 'includes')" "")
          end).

Definition governance_test : sim W () :=
  id ← call (randomUUID app);
  call (registerNode app id "VALIDATOR" "127.0.0.1");;
  log ("[1] Registered Validator: " +:+ id);;
  log "[2] Creating Proposal 1...";;
  p1 ← call (createProposal app "Prop 1" "Test Hash" id None);
  log ("    Created: " +:+ proposal_id p1);;
  match proposal_hash p1 with
  | None | Some EmptyString => throw (ThrownError "Proposal 1 missing hash!" "")
  | Some hash => log ("    Hash Verified: " +:+ hash)
  end;;
  log "[3] Attempting Proposal 2 (Should Fail)...";;
  second_proposal id.

(** [bootstrap] of [test_governance.ts]. *)
Definition test_governance : sim W () :=
  call (createApplicationContext app);;
  call (get_services app);;
  log "--- STARTING GOVERNANCE TEST ---";;
  finally (catch governance_test (λ e, error ("TEST FAILED: " +:+ message_of e))) close_app.

(** ** What a run leaves *)

(** A part that adds lines to the log and does not close the context. *)
Definition writes {A} (p : sim W A) : Prop := ∀ s, ∃ l, (p s).2.2 = (s.2 ++ l)%list ∧ Closed ∉ l.

Lemma writes_ret {A} (a : A) : writes (mret a).
Proof. intros s. exists []. rewrite app_nil_r. split; [done|apply not_elem_of_nil]. Qed.

Lemma writes_throw {A} e : writes (throw e : sim W A).
Proof. intros s. exists []. rewrite app_nil_r. split; [done|apply not_elem_of_nil]. Qed.

Lemma writes_call {A} (f : W → (thrown + A) * W) : writes (call f).
Proof.
  intros s. exists []. rewrite app_nil_r. unfold call. destruct (f s.1). split; [done|apply not_elem_of_nil].
Qed.

Lemma writes_line level text : writes (log_at level text).
Proof. intros s. exists [Line level text]. split; [done|]. by rewrite list_elem_of_singleton. Qed.

Lemma writes_after {A B} (p : sim W A) (q : sim W B) s :
  writes p → writes q → ∃ l, (q (p s).2).2.2 = (s.2 ++ l)%list ∧ Closed ∉ l.
Proof.
  intros Hp Hq. destruct (Hp s) as (l1&E1&H1). destruct (Hq (p s).2) as (l2&E2&H2).
  exists (l1 ++ l2)%list. rewrite E2, E1, app_assoc. split; [done|]. rewrite elem_of_app. tauto.
Qed.

Lemma writes_bind {A B} (p : sim W A) (k : A → sim W B) : writes p → (∀ a, writes (k a)) → writes (p ≫= k).
Proof.
  intros Hp Hk s. pose proof (Hp s) as Hs. pose proof (λ a, writes_after p (k a) s Hp (Hk a)) as Ha.
  unfold mbind, sim_bind. destruct (p s) as [[e|a] s1]; [exact Hs|apply Ha].
Qed.

Lemma writes_catch {A} (p : sim W A) h : writes p → (∀ e, writes (h e)) → writes (catch p h).
Proof.
  intros Hp Hh s. pose proof (Hp s) as Hs. pose proof (λ e, writes_after p (h e) s Hp (Hh e)) as He.
  unfold catch. destruct (p s) as [[e|a] s1]; [apply He|exact Hs].
Qed.

Ltac writes := repeat first
  [ simple apply writes_catch; [|intros ?] | simple apply writes_bind; [|intros ?] | simple apply writes_ret
  | simple apply writes_throw | simple apply writes_call | simple apply writes_line | case_match ].

Lemma writes_flow : writes (catch flow flow_failed).
Proof.
  unfold flow, register_and_deposit, govern, distribute, withdraw, price, flow_failed, log, warn, error. writes.
Qed.

Lemma writes_governance : writes (catch governance_test (λ e, error ("TEST FAILED: " +:+ message_of e))).
Proof. unfold governance_test, second_proposal, log, error. writes. Qed.

(** The handlers of both scripts return. *)
Lemma catch_returns (p : sim W ()) h s : (∀ e s, (h e s).1 = inr ()) → (catch p h s).1 = inr ().
Proof. intros Hh. unfold catch. destruct (p s) as [[e|[]] s1]; [apply Hh|done]. Qed.

(** A script, from the creation of its context. *)
Lemma finally_closes (p : sim W ()) s : writes p → (p s).1 = inr () →
  let '(r, (w, l)) := finally p (close_app) s in
  r = (close app (p s).2.1).1 ∧ w = (close app (p s).2.1).2 ∧ ∃ l', l = (s.2 ++ l' ++ [Closed])%list ∧ Closed ∉ l'.
Proof.
  intros Hp Hr. destruct (Hp s) as (l'&E&Hl). unfold finally, close_app.
  destruct (p s) as [r [w l]]. simpl in *. subst r l.
  destruct (close app w) as [[e|[]] w'] eqn:Ec; simpl; (split_and!; [done..|]); exists l'; by rewrite <- app_assoc.
Qed.

Definition ends_closed (start : string) (p : sim W ()) : Prop := ∀ w l,
  let '(r, (w', l')) := p (w, l) in
  match createApplicationContext app w with
  | (inl e, w1) => r = inl e ∧ w' = w1 ∧ l' = l
  | (inr _, w1) =>
    match get_services app w1 with
    | (inl e, w2) => r = inl e ∧ w' = w2 ∧ l' = l
    | (inr _, w2) => ∃ w3 lines, l' = (l ++ (Line Info start :: (lines ++ [Closed])))%list ∧ (Closed ∉ lines) ∧
                     r = (close app w3).1 ∧ w' = (close app w3).2
    end
  end.

Lemma ends_closed_intro start (p : sim W ()) : writes p → (∀ s, (p s).1 = inr ()) →
  ends_closed start (call (createApplicationContext app);; call (get_services app);; log start;; finally p close_app).
Proof.
  intros Hp Hr w l. unfold mbind, sim_bind, call, log, log_at. simpl.
  destruct (createApplicationContext app w) as [[e|[]] w1]; [done|]. simpl.
  destruct (get_services app w1) as [[e|[]] w2]; [done|]. simpl.
  pose proof (finally_closes p (w2, (l ++ [Line Info start])%list) Hp (Hr _)) as H.
  destruct (finally p close_app _) as [r [w' l']]. destruct H as (->&->&lines&->&Hl). simpl.
  exists (p (w2, (l ++ [Line Info start])%list)).2.1, lines. by rewrite <- app_assoc.
Qed.

(** Both scripts, whatever the services do. If the context is created and its services
    are found, the log opens with the title, ends with the context closed, once, and a
    failure of any step is caught and logged: the run itself fails only if closing does.
    If not, nothing is logged and the failure is the run's; a context whose services are
    missing is left open. *)
Theorem scripts_close_the_context :
  ends_closed "--- STARTING SIMULATION ---" simulate_flow ∧
  ends_closed "--- STARTING GOVERNANCE TEST ---" test_governance.
Proof.
  split; apply ends_closed_intro; [apply writes_flow| |apply writes_governance|];
    intros s; apply catch_returns; [by intros [] ?|done].
Qed.
End Scripts.
